(* ===== verification/_CoqProject ===== *)
-Q . S2P
Prelude.v
Error.v
Utf8.v
Types.v
Extern.v
Reference.v
Codec.v
Crypto.v
Session.v
Transport.v
Kex.v
Auth.v
Connection.v
SftpProto.v
Path.v
Fs.v
SftpHandler.v
Transfer.v
Progress.v
Dialogue.v
Server.v
ServerSpec.v
Client.v
EndToEnd.v
Interactive.v
Conversation.v
Sealed.v
Main.v
Tasks.v
Tests.v
