(* ===== verification/Prelude.v ===== *)
(** * SwiftSSH: a model of the SSH-2 client and server, and what is proved of it

    SwiftSSH (Rust, [src/src/]) is a small SSH-2 implementation: a packet codec, a
    key exchange, encrypted packet transport, password and public-key
    authentication, channels, an SFTP subsystem, and a server and a client binary
    built from these.  This library translates that code into Rocq definitions,
    function by function, and proves what they do.

    ** How the code is modelled

    A call that returns [SshResult<T>] is an [outcome SshError T]: [Ok], [Err], or
    [Panic] for a Rust panic.  [OutOfFuel] marks the exhausted bound of a translated
    loop and is shown not to occur.  A method with [&mut] state is an [io E S A], a
    function from the state to an outcome and the new state; a failed call keeps the
    changes it made.  Machine integers are [Z] with the wrap-around, saturation or
    overflow check of the source written out; [BuildProfile] is the Cargo flag
    [overflow-checks], so each theorem holds of debug and release builds.  A
    [String] or a [Vec<u8>] is its bytes, a [HashMap] a [gmap], and where the code
    iterates over one, the order is the parameter [MapOrder], any function of the map's
    contents.  A cursor is the
    unread rest of its buffer.  A socket is a [Reader] (what the peer will have sent
    and the error after it) and a [Writer] (what was written, and possibly a fault).

    Code outside the repository is a parameter with its documented laws, all
    type classes: [Rng], [StreamCipher] (AES-256-CTR), [Hmac], [Sha256] and [X25519]
    in Extern.v, [FileSystem] ([std::fs]) in Fs.v (with [FileSystemLaws], and
    [FileSystemLinkLaws] where symbolic links matter), [Processes]
    ([tokio::process::Command]) in Server.v.  Reference.v and the in-memory file
    system of Fs.v implement them, so every hypothesis can be satisfied and every
    example runs.  The parts of the standard library the code uses (UTF-8
    conversion in Utf8.v, [std::path] in Path.v) are defined.

    ** The files

    - Prelude.v: bytes, big-endian integers, outcomes, stateful calls, machine
      arithmetic, and the tactics and rewrite databases ([lens]) shared by all.
    - Error.v: [SshError] (error/mod.rs).
    - Types.v: message numbers and limits (packet/types.rs).
    - Codec.v: [SshPacket] and [SshBuf] (packet/codec.rs); the database [wire]
      normalises what the builders write, [run_parser] and [invert_parser] run and
      invert the readers, [parser_returns] with the database [returns] shows that they
      cannot panic.
    - Crypto.v: ciphers, MAC and key schedule (crypto/mod.rs).
    - Session.v: [SessionKeys] and its sequence numbers (session/mod.rs).
    - Transport.v: [send_packet], [recv_packet] and the version lines
      (transport/io.rs).
    - Kex.v: the key exchange (transport/kex.rs).
    - Auth.v: user database, requests and their parser (auth/mod.rs).
    - Connection.v: channels, the channel manager, connection messages
      (connection/mod.rs).
    - SftpProto.v, Path.v, Fs.v, SftpHandler.v: the SFTP wire format, paths, the file
      system interface and the request handler (sftp/mod.rs).
    - Transfer.v: a client of the SFTP handler that uploads a file and downloads it.
    - Progress.v: [safe_at], for one end of a connection against any peer.
    - Dialogue.v: [does], [fails] and [reaches], for two ends that talk to each other.
    - Server.v: [handle_connection], its message handlers and [execute_command]
      (bin/server.rs).
    - ServerSpec.v: the abstract service that [channel_loop] implements.
    - Client.v: [run_client] with a command (bin/client.rs).
    - EndToEnd.v: server and client against each other.
    - Interactive.v: the client's interactive mode (bin/client.rs).
    - Conversation.v: any list of requests against the server's channel loop.
    - Sealed.v: what both programs write once they have their keys; [leaves], with the
      database [leaves] and the tactic [run_leaves].
    - Main.v: both [main] functions (bin/server.rs, bin/client.rs).
    - Tasks.v: the tasks of the server's process, interleaved over one disk.
    - Tests.v: the unit tests of the repository.

    The components meet in a [Link]: [send_packet] and [recv_packet] are lent the
    two halves of the stream, the session keys and the generator.  [main] of the
    server gives each accepted stream a task of its own ([server_task]).  The server's
    task owns a [Conn]: a link, a channel manager and the SFTP handler with the
    disk; the client owns a [Client]: a link, a channel manager and what it has
    printed.  [handle_connection] and [run_client] are the phases of the two
    functions in their order; each phase is a definition of its own.

    ** What is proved

    - Both programs together (EndToEnd.v): the handshake succeeds on both sides
      with matching keys; a client that logs in and runs a command gets its output
      while the server runs it once; a request to log in is answered by the database
      or, when it does not parse, ends the connection; SFTP requests reach the handler and responses come back unchanged;
      the interactive mode carries a conversation (Interactive.v); a wrong password is
      refused, with the right errors on both sides (Main.v).
    - The channel loop (ServerSpec.v, Conversation.v): it refines a service that
      knows only channel numbers and the SFTP state, and every request a client sends
      is answered once, in order, however many it sends without waiting.
    - Many connections at once (Tasks.v), as a step relation with any interleaving: every
      task ends; only a task whose own peer has logged in changes the disk or has a
      channel; a client is served as if the strangers around it were not there, and so
      its command still runs once and its output still arrives.
    - The shipped configuration (Main.v): the two logins that open the server.
    - Nothing in clear (Sealed.v): after the key exchange both programs write only frames
      encrypted by one cipher stream and authenticated under consecutive numbers, and
      a client whose key exchange fails never writes a password.
    - Against any peer (Server.v, Client.v, Transport.v): both programs end, no channel
      and no disk access before a login on an encrypted link, accepted packets carry
      a valid MAC, and the exact condition under which the receiver panics.
    - The wire (Codec.v, Connection.v, Auth.v, SftpProto.v, Kex.v): parsers never
      panic, accept exactly the encodings and return what was encoded; the shape and
      alignment of packets; the exchange hash determines the transcript.
    - Keys (Crypto.v, Kex.v): agreement, and the key stream of RFC 4253 7.2.
    - Channels (Connection.v): buffers and windows to the byte over any history of calls,
      fresh identifiers, lookup in every hash-map order.
    - SFTP (Path.v, SftpHandler.v, Transfer.v): confinement of resolved paths, an invariant
      of the handler and the effect of every request on the disk, the life of a handle,
      reading, uploading and listing; a whole upload and download.
    - The unit tests (Tests.v): all pass, for every lawful implementation of the
      libraries of which three facts about the tested inputs hold.
    - Where the code does not do what it means to, the behaviour it has: the
      receiver's panic, channel numbers looked up on the wrong side, oversized
      output, [TRUNC] at every write, the way out of the root through a link, the
      unanswered SFTP version, the login methods that end the connection, and the packet
      a typed line interrupts.

    ** Bounds and fuel

    [recv_version_loop] gets 256 rounds, one more than the longest line the code
    accepts.  The loops over packets ([auth_loop], [channel_loop], [client_loop]) get
    one round more than the bytes left in the stream; every packet takes at least
    eight, so it suffices ([handle_connection_terminates], [run_client_terminates]).
    [derive_key]'s loop gets its length in rounds, each adding 32 bytes.

    ** What is not modelled

    Logging calls and the set-up of the log; the parsing of the client's arguments
    (clap): [Args] is its result.  What the operating system answers to the two [main]
    functions (creating the directory, binding, accepting) is their argument.  A command
    is one step that ends ([Processes] is a total function of command and disk): a
    command that never ends, and what others do to the disk while it runs, are not
    represented.  The
    interactive mode runs along a given schedule: which branch of its [select!]
    completes each time.  A task of Tasks.v takes a step per message, so what one message
    does to the disk is not interleaved with another's; a runtime with several
    threads may interleave the file-system calls of two requests.  The other files
    model a connection by itself, on a disk no one else changes.  Times, buffering and partial
    reads of the socket are not observable in a [Reader]. *)
From Stdlib Require Export Strings.Byte.
From stdpp Require Export base gmap strings list numbers pretty.
From Stdlib Require Export ZArith Lia.

Open Scope Z_scope.

(** Proves a decidable closed statement by evaluating its decision procedure. *)
Ltac by_eval := refine (bool_decide_eq_true_1 _ _); vm_compute; reflexivity.

(** ** Bytes

    A Rust [u8] is a [Byte.byte]; [b2z] reads it as a number and [u8] is the
    truncating conversion [z as u8]. *)

Abbreviation byte := Byte.byte.
Abbreviation bytes := (list byte).

Definition b2z (b : byte) : Z := Z.of_N (Byte.to_N b).

Definition u8 (z : Z) : byte :=
  match Byte.of_N (Z.to_N (z mod 256)) with
  | Some b => b
  | None => x00
  end.

#[global] Arguments b2z : simpl never.
#[global] Arguments u8 : simpl never.

#[export] Instance byte_eq_dec : EqDecision byte := Byte.byte_eq_dec.

#[export] Instance byte_countable : Countable byte.
Proof.
  refine (inj_countable Byte.to_N Byte.of_N _). exact Byte.of_to_N.
Defined.

Lemma b2z_range b : 0 ≤ b2z b < 256.
Proof. unfold b2z. pose proof (Byte.to_N_bounded b). lia. Qed.

Lemma b2z_u8 z : b2z (u8 z) = z mod 256.
Proof.
  unfold b2z, u8. pose proof (Z.mod_pos_bound z 256 ltac:(lia)) as Hz.
  destruct (Byte.of_N (Z.to_N (z mod 256))) as [b|] eqn:E.
  - apply Byte.to_of_N in E. rewrite E. lia.
  - apply Byte.of_N_None_iff in E. lia.
Qed.

Lemma u8_b2z b : u8 (b2z b) = b.
Proof.
  unfold u8, b2z. pose proof (Byte.to_N_bounded b).
  rewrite Z.mod_small by lia. rewrite N2Z.id, Byte.of_to_N. done.
Qed.

#[export] Instance b2z_inj : Inj (=) (=) b2z.
Proof. intros a b E. rewrite <- (u8_b2z a), <- (u8_b2z b). by rewrite E. Qed.

(** ** Lengths and literals

    [len] is [.len()] as a [usize]; [bs "..."] is a Rust byte-string literal. *)

Definition len {A} (l : list A) : Z := Z.of_nat (length l).

Definition bs (s : string) : bytes := String.list_byte_of_string s.

Lemma len_nonneg {A} (l : list A) : 0 ≤ len l.
Proof. unfold len; lia. Qed.

Lemma len_app {A} (l k : list A) : len (l ++ k) = len l + len k.
Proof. unfold len. rewrite length_app. lia. Qed.

Lemma len_nil {A} : len (@nil A) = 0.
Proof. done. Qed.

Lemma len_cons {A} (x : A) l : len (x :: l) = 1 + len l.
Proof. unfold len; simpl; lia. Qed.

Lemma len_replicate {A} n (x : A) : 0 ≤ n → len (replicate (Z.to_nat n) x) = n.
Proof. unfold len. rewrite length_replicate. lia. Qed.

Lemma len_to_nat {A} (l : list A) : Z.to_nat (len l) = length l.
Proof. unfold len; lia. Qed.

Lemma len_take {A} n (l : list A) : 0 ≤ n ≤ len l → len (take (Z.to_nat n) l) = n.
Proof. unfold len. rewrite length_take. lia. Qed.

Lemma len_drop {A} n (l : list A) : 0 ≤ n ≤ len l → len (drop (Z.to_nat n) l) = len l - n.
Proof. unfold len. rewrite length_drop. lia. Qed.

Lemma take_len_app {A} (l k : list A) n : n = len l → take (Z.to_nat n) (l ++ k) = l.
Proof. intros ->. rewrite len_to_nat. apply take_app_length. Qed.

Lemma drop_len_app {A} (l k : list A) n : n = len l → drop (Z.to_nat n) (l ++ k) = k.
Proof. intros ->. rewrite len_to_nat. apply drop_app_length. Qed.

#[global] Arguments len : simpl never.

Create Rewrite HintDb lens.
#[export] Hint Rewrite @len_app @len_nil @len_cons : lens.

(** Normalises every [len] in the goal and the hypotheses, and closes linear goals. *)
Ltac len_simpl := autorewrite with lens in *.
Ltac pose_lens :=
  repeat match goal with
  | |- context [len ?l] => lazymatch goal with
      | _ : 0 ≤ len l |- _ => fail | _ => pose proof (len_nonneg l) end
  | _ : context [len ?l] |- _ => lazymatch goal with
      | _ : 0 ≤ len l |- _ => fail | _ => pose proof (len_nonneg l) end
  end.
Ltac len_lia := len_simpl; pose_lens; lia.

(** ** Big-endian integers

    [be_encode n z] is [z.to_be_bytes()] of an [8 * n]-bit integer and
    [be_decode] is [from_be_bytes]; both are what [byteorder]'s [BigEndian]
    reads and writes. *)

Fixpoint be_encode (n : nat) (z : Z) : bytes :=
  match n with
  | O => []
  | S m => u8 (z / 256 ^ Z.of_nat m) :: be_encode m z
  end.

Fixpoint be_decode (l : bytes) : Z :=
  match l with
  | [] => 0
  | b :: r => b2z b * 256 ^ len r + be_decode r
  end.

Lemma len_be_encode n z : len (be_encode n z) = Z.of_nat n.
Proof. induction n; simpl; [done|]. rewrite len_cons. lia. Qed.
#[export] Hint Rewrite len_be_encode : lens.

Lemma length_be_encode n z : length (be_encode n z) = n.
Proof. induction n; simpl; congruence. Qed.

Lemma pow256_pos n : 0 ≤ n → 0 < 256 ^ n.
Proof. intros. apply Z.pow_pos_nonneg; lia. Qed.

Lemma be_decode_range l : 0 ≤ be_decode l < 256 ^ len l.
Proof.
  induction l as [|b l IH]; simpl; [done|].
  rewrite len_cons, Z.pow_add_r by len_lia. pose proof (b2z_range b). nia.
Qed.

Lemma be_decode_encode n z : be_decode (be_encode n z) = z mod 256 ^ Z.of_nat n.
Proof.
  induction n as [|n IH]; simpl be_encode; simpl be_decode.
  - by rewrite Z.mod_1_r.
  - rewrite IH, len_be_encode, b2z_u8.
    replace (Z.of_nat (S n)) with (Z.of_nat n + 1) by lia.
    rewrite Z.pow_add_r by lia. rewrite Z.pow_1_r.
    rewrite Z.rem_mul_r by (pose proof (pow256_pos (Z.of_nat n)); lia). lia.
Qed.

Lemma be_decode_encode_small n z :
  0 ≤ z < 256 ^ Z.of_nat n → be_decode (be_encode n z) = z.
Proof. intros. rewrite be_decode_encode. by apply Z.mod_small. Qed.

Lemma be_decode_app l k : be_decode (l ++ k) = be_decode l * 256 ^ len k + be_decode k.
Proof.
  induction l as [|b l IH]; simpl; [lia|].
  rewrite IH, len_app, Z.pow_add_r by len_lia. ring.
Qed.

Lemma be_encode_mod n z : be_encode n (z mod 256 ^ Z.of_nat n) = be_encode n z.
Proof.
  assert (H : ∀ m, (m ≤ n)%nat → be_encode m (z mod 256 ^ Z.of_nat n) = be_encode m z).
  { induction m as [|m IH]; intros Hm; [done|]. simpl. rewrite IH by lia. f_equal.
    apply (inj b2z). rewrite !b2z_u8.
    replace (Z.of_nat n) with (Z.of_nat m + (Z.of_nat (n - m - 1) + 1)) by lia.
    rewrite !Z.pow_add_r, Z.pow_1_r by lia.
    rewrite Z.rem_mul_r by (pose proof (pow256_pos (Z.of_nat m)); pose proof (pow256_pos (Z.of_nat (n-m-1))); lia).
    rewrite Z.add_comm, Z.mul_comm, Z.div_add_l by (pose proof (pow256_pos (Z.of_nat m)); lia).
    rewrite (Z.div_small (z mod _)) by (apply Z.mod_pos_bound; apply pow256_pos; lia).
    rewrite Z.add_0_r. rewrite (Z.mul_comm _ 256), Z.rem_mul_r by (pose proof (pow256_pos (Z.of_nat (n-m-1))); lia).
    rewrite Z.mul_comm, Z.mod_add by lia. by rewrite Z.mod_mod by lia. }
  by apply H.
Qed.

Lemma be_encode_decode l : be_encode (length l) (be_decode l) = l.
Proof.
  induction l as [|b l IH]; simpl; [done|].
  pose proof (be_decode_range l) as Hr. unfold len in *. f_equal.
  - rewrite Z.div_add_l by lia. rewrite (Z.div_small (be_decode l)) by lia.
    rewrite Z.add_0_r. apply u8_b2z.
  - etrans; [|exact IH].
    rewrite <- (be_encode_mod _ (_ + _)), <- (be_encode_mod _ (be_decode l)).
    f_equal. rewrite Z.add_comm. apply Z.mod_add. lia.
Qed.

#[global] Opaque be_encode be_decode.

(** ** Outcomes

    A call of the program returns [Ok] or [Err], or it panics.  [OutOfFuel] is the
    answer of a modelled loop that was given too few iterations; the termination
    theorems show which fuel excludes it.  [E] is the error type of the crate
    (file [Error]). *)

Inductive outcome (E A : Type) : Type :=
| Ok (a : A)
| Err (e : E)
| Panic (msg : string)
| OutOfFuel.
#[global] Arguments Ok {E A} a.
#[global] Arguments Err {E A} e.
#[global] Arguments Panic {E A} msg.
#[global] Arguments OutOfFuel {E A}.

#[export] Instance outcome_eq_dec {E A} `{EqDecision E, EqDecision A} :
  EqDecision (outcome E A).
Proof. solve_decision. Defined.

#[export] Instance outcome_ret {E} : MRet (outcome E) := λ A a, Ok a.
#[export] Instance outcome_bind {E} : MBind (outcome E) := λ A B f m,
  match m with
  | Ok a => f a
  | Err e => Err e
  | Panic s => Panic s
  | OutOfFuel => OutOfFuel
  end.

Definition map_err {E F A} (f : E → F) (m : outcome E A) : outcome F A :=
  match m with
  | Ok a => Ok a
  | Err e => Err (f e)
  | Panic s => Panic s
  | OutOfFuel => OutOfFuel
  end.

(** Neither a panic nor an unfinished loop: the call returned. *)
Definition returns {E A} (m : outcome E A) : bool :=
  match m with Ok _ | Err _ => true | _ => false end.

Definition is_ok {E A} (m : outcome E A) : bool :=
  match m with Ok _ => true | _ => false end.

Lemma bind_ok_inv {E A B} (m : outcome E A) (f : A → outcome E B) b :
  m ≫= f = Ok b → ∃ a, m = Ok a ∧ f a = Ok b.
Proof. destruct m; simpl; intros; naive_solver. Qed.

Lemma bind_returns {E A B} (m : outcome E A) (f : A → outcome E B) :
  returns m = true → (∀ a, m = Ok a → returns (f a) = true) →
  returns (m ≫= f) = true.
Proof. destruct m; simpl; intros; naive_solver. Qed.

(** Splits [H : m ≫= f = Ok b] into the run of [m] and the run of [f]. *)
Tactic Notation "bind_inv" hyp(H) "as" simple_intropattern(p) ident(Hm) :=
  let H' := fresh in
  apply bind_ok_inv in H; destruct H as (p & Hm & H'); rename H' into H;
  cbv beta iota in H.

(** ** Stateful calls

    A method that takes [&mut] state [S] is a function of the state that returns
    the outcome and the new state; a failed call keeps the changes it made. *)

Definition io (E S A : Type) : Type := S → outcome E A * S.

Section io.
Context {E S : Type}.

#[export] Instance io_ret : MRet (io E S) := λ A a s, (Ok a, s).
#[export] Instance io_bind : MBind (io E S) := λ A B f m s,
  match m s with
  | (Ok a, s') => f a s'
  | (Err e, s') => (Err e, s')
  | (Panic msg, s') => (Panic msg, s')
  | (OutOfFuel, s') => (OutOfFuel, s')
  end.

(** The [?] operator on a pure result, reading a field, and updating the state. *)
Definition lift {A} (m : outcome E A) : io E S A := λ s, (m, s).
Definition fail {A} (e : E) : io E S A := λ s, (Err e, s).
Definition gets {A} (f : S → A) : io E S A := λ s, (Ok (f s), s).
Definition step {A} (f : S → A * S) : io E S A := λ s, let '(a, s) := f s in (Ok a, s).
Definition modify (f : S → S) : io E S unit := λ s, (Ok tt, f s).

Lemma io_bind_run {A B} (m : io E S A) (f : A → io E S B) s a s' :
  m s = (Ok a, s') → (m ≫= f) s = f a s'.
Proof. intros H. unfold mbind, io_bind. by rewrite H. Qed.

Lemma io_bind_fails {A B} (m : io E S A) (f : A → io E S B) s e s' :
  m s = (Err e, s') → (m ≫= f) s = (Err e, s').
Proof. intros H. unfold mbind, io_bind. by rewrite H. Qed.

Lemma io_bind_assoc {A B D} (m : io E S A) (f : A → io E S B) (g : B → io E S D) s :
  ((m ≫= f) ≫= g) s = (m ≫= (λ a, f a ≫= g)) s.
Proof. unfold mbind, io_bind. by destruct (m s) as [[] s']. Qed.

Lemma io_bind_ext {A B} (m : io E S A) (f g : A → io E S B) s :
  (∀ a s, f a s = g a s) → (m ≫= f) s = (m ≫= g) s.
Proof. intros Hfg. unfold mbind, io_bind. destruct (m s) as [[] s']; auto. Qed.

Lemma io_bind_from {A B} (m m' : io E S A) (f : A → io E S B) s s' :
  m s = m' s' → (m ≫= f) s = (m' ≫= f) s'.
Proof. intros Hm. unfold mbind, io_bind. by rewrite Hm. Qed.

Lemma io_bind_returns {A B} (m : io E S A) (f : A → io E S B) s :
  returns (m s).1 = true → (∀ a s', m s = (Ok a, s') → returns (f a s').1 = true) →
  returns ((m ≫= f) s).1 = true.
Proof. unfold mbind, io_bind. destruct (m s) as [[] s']; simpl; intros; auto. Qed.

Lemma io_bind_ok {A B} (m : io E S A) (f : A → io E S B) s b s' :
  (m ≫= f) s = (Ok b, s') ↔ ∃ a s1, m s = (Ok a, s1) ∧ f a s1 = (Ok b, s').
Proof.
  unfold mbind, io_bind. destruct (m s) as [[] s1]; split; intros; naive_solver.
Qed.
End io.

(** ** Machine arithmetic

    [overflow_checks] is the Cargo profile's flag of that name: on in a debug
    build, where an overflow panics, and off with [--release], where it wraps. *)

Class BuildProfile := overflow_checks : bool.

Definition U32 : Z := 2 ^ 32.
Definition U64 : Z := 2 ^ 64.
Definition ISIZE_MAX : Z := 2 ^ 63 - 1.

Definition is_u32 (z : Z) : Prop := 0 ≤ z < U32.
Definition is_u64 (z : Z) : Prop := 0 ≤ z < U64.

#[export] Instance is_u32_dec z : Decision (is_u32 z) := ltac:(unfold is_u32; apply _).
#[export] Instance is_u64_dec z : Decision (is_u64 z) := ltac:(unfold is_u64; apply _).

Section arith.
Context `{profile : !BuildProfile} {E : Type}.

(** [a + b] on [u32]. *)
Definition u32_add (a b : Z) : outcome E Z :=
  if decide (a + b < U32) then Ok (a + b)
  else if overflow_checks then Panic "attempt to add with overflow"
  else Ok ((a + b) mod U32).

(** [a - b] on [usize]. *)
Definition usize_sub (a b : Z) : outcome E Z :=
  if decide (b ≤ a) then Ok (a - b)
  else if overflow_checks then Panic "attempt to subtract with overflow"
  else Ok ((a - b) mod U64).

(** [vec![0u8; n]]. *)
Definition vec_zeroed (n : Z) : outcome E bytes :=
  if decide (n ≤ ISIZE_MAX) then Ok (replicate (Z.to_nat n) x00)
  else Panic "capacity overflow".

Lemma u32_add_small a b : a + b < U32 → u32_add a b = Ok (a + b).
Proof. intros. unfold u32_add. by rewrite decide_True. Qed.

Lemma usize_sub_small a b : b ≤ a → usize_sub a b = Ok (a - b).
Proof. intros. unfold usize_sub. by rewrite decide_True. Qed.

Lemma vec_zeroed_small n : n ≤ ISIZE_MAX → vec_zeroed n = Ok (replicate (Z.to_nat n) x00).
Proof. intros. unfold vec_zeroed. by rewrite decide_True. Qed.

End arith.

(** [a as u32] of a [usize], [wrapping_add] and [saturating_add] on [u32]. *)
Definition as_u32 (z : Z) : Z := z mod U32.
Definition u32_wrapping_add (a b : Z) : Z := (a + b) mod U32.
Definition u32_saturating_add (a b : Z) : Z := Z.min (a + b) (U32 - 1).

Lemma as_u32_small z : is_u32 z → as_u32 z = z.
Proof. unfold is_u32, as_u32. apply Z.mod_small. Qed.

Lemma u32_256 : 256 ^ Z.of_nat 4 = U32.
Proof. done. Qed.
Lemma u64_256 : 256 ^ Z.of_nat 8 = U64.
Proof. done. Qed.

