(* ===== verification/Error.v ===== *)
(** The crate's error type, [SshError] of [src/error/mod.rs], and the [SshResult]
    type every fallible operation returns.  [io_error] stands for
    [std::io::Error], of which the source only tests whether the kind is
    [UnexpectedEof]. *)
From S2P Require Export Prelude.

Inductive io_error : Type :=
| UnexpectedEof
| OtherIo (description : string).

#[export] Instance io_error_eq_dec : EqDecision io_error.
Proof. solve_decision. Defined.

Inductive SshError : Type :=
| Io (e : io_error)
| Protocol (s : string)
| KeyExchange (s : string)
| AuthFailed (s : string)
| ChannelError (s : string)
| SftpError (s : string)
| Encryption (s : string)
| Decryption (s : string)
| MacMismatch
| InvalidPacket (s : string)
| UnexpectedMessage (msg_type : byte)
| ConnectionClosed
| Timeout
| UnsupportedAlgorithm (s : string).

#[export] Instance SshError_eq_dec : EqDecision SshError.
Proof. solve_decision. Defined.

Abbreviation SshResult := (outcome SshError).

(** [format!("{}", n)] of an unsigned integer. *)
Definition show_usize (n : Z) : string := pretty (Z.to_N n).

(** [format!("{}", s)] of a Rust string held as its UTF-8 bytes. *)
Definition show_bytes (s : bytes) : string := String.string_of_list_byte s.
