(* ===== verification/Utf8.v ===== *)
(** The parts of [std::str] and [std::string] the program relies on: UTF-8
    validation ([String::from_utf8]), the lossy conversion
    ([String::from_utf8_lossy], [to_string_lossy]), [join] and [split] on a
    character, and the scalar values [split_whitespace] looks at.

    A Rust [String] is its UTF-8 bytes; [utf8_valid] is the invariant of the
    type. *)
From S2P Require Export Prelude.

Definition in_range (lo hi : Z) (b : byte) : bool := (lo <=? b2z b) && (b2z b <=? hi).
Definition is_cont (b : byte) : bool := in_range 128 191 b.

(** Second-byte ranges of the three- and four-byte forms (no surrogates, no
    overlong forms, nothing above U+10FFFF). *)
Definition second3 (b0 b1 : byte) : bool :=
  if decide (b2z b0 = 224) then in_range 160 191 b1
  else if decide (b2z b0 = 237) then in_range 128 159 b1
  else is_cont b1.

Definition second4 (b0 b1 : byte) : bool :=
  if decide (b2z b0 = 240) then in_range 144 191 b1
  else if decide (b2z b0 = 244) then in_range 128 143 b1
  else is_cont b1.

(** [utf8_step l] looks at the front of the non-empty [l]: [(true, n)] when a
    character of [n] bytes starts there, [(false, n)] when [n] bytes are the
    maximal invalid prefix, the unit the lossy conversion replaces. *)
Definition utf8_step (l : bytes) : bool * nat :=
  match l with
  | [] => (false, 1%nat)
  | b0 :: r =>
      if b2z b0 <? 128 then (true, 1%nat)
      else if in_range 194 223 b0 then
        match r with
        | b1 :: _ => if is_cont b1 then (true, 2%nat) else (false, 1%nat)
        | [] => (false, 1%nat)
        end
      else if in_range 224 239 b0 then
        match r with
        | b1 :: r1 =>
            if second3 b0 b1 then
              match r1 with
              | b2 :: _ => if is_cont b2 then (true, 3%nat) else (false, 2%nat)
              | [] => (false, 2%nat)
              end
            else (false, 1%nat)
        | [] => (false, 1%nat)
        end
      else if in_range 240 244 b0 then
        match r with
        | b1 :: r1 =>
            if second4 b0 b1 then
              match r1 with
              | b2 :: r2 =>
                  if is_cont b2 then
                    match r2 with
                    | b3 :: _ => if is_cont b3 then (true, 4%nat) else (false, 3%nat)
                    | [] => (false, 3%nat)
                    end
                  else (false, 2%nat)
              | [] => (false, 2%nat)
              end
            else (false, 1%nat)
        | [] => (false, 1%nat)
        end
      else (false, 1%nat)
  end.

(** The text as chunks, each a character or a maximal invalid prefix.  Fuel
    [length l] is enough: every step consumes a byte. *)
Fixpoint utf8_chunks_fuel (fuel : nat) (l : bytes) : list (bool * bytes) :=
  match fuel, l with
  | S fuel, _ :: _ =>
      let '(ok, n) := utf8_step l in
      (ok, take n l) :: utf8_chunks_fuel fuel (drop n l)
  | _, _ => []
  end.

Definition utf8_chunks (l : bytes) : list (bool * bytes) := utf8_chunks_fuel (length l) l.

Definition utf8_valid (l : bytes) : bool := forallb fst (utf8_chunks l).

(** [String::from_utf8]. *)
Definition from_utf8 (l : bytes) : option bytes := if utf8_valid l then Some l else None.

(** U+FFFD in UTF-8. *)
Definition replacement : bytes := [xef; xbf; xbd].

(** [String::from_utf8_lossy]. *)
Definition from_utf8_lossy (l : bytes) : bytes :=
  concat (map (λ c : bool * bytes, if c.1 then c.2 else replacement) (utf8_chunks l)).

(** ** Chunks are a partition, and compose *)

Lemma utf8_step_pos l : (1 ≤ (utf8_step l).2)%nat.
Proof. destruct l as [|b0 [|b1 [|b2 [|b3 l]]]]; simpl; repeat case_match; simpl; lia. Qed.

Lemma utf8_step_len l n : utf8_step l = (true, n) → (1 ≤ n ≤ length l)%nat.
Proof.
  destruct l as [|b0 [|b1 [|b2 [|b3 l]]]]; simpl; repeat case_match; simpl;
    intros; simplify_eq; lia.
Qed.

Lemma utf8_step_app l k n : utf8_step l = (true, n) → utf8_step (l ++ k) = (true, n).
Proof.
  destruct l as [|b0 [|b1 [|b2 [|b3 l]]]]; simpl; intros H; [done|..];
    repeat case_match; simplify_eq; congruence.
Qed.

Lemma utf8_chunks_fuel_enough f l :
  (length l ≤ f)%nat → utf8_chunks_fuel f l = utf8_chunks l.
Proof.
  unfold utf8_chunks.
  assert (H : ∀ f g l, (length l ≤ f)%nat → (length l ≤ g)%nat →
              utf8_chunks_fuel f l = utf8_chunks_fuel g l).
  { clear. induction f as [|f IH]; intros g l Hf Hg.
    { destruct l; [by destruct g|simpl in *; lia]. }
    destruct g as [|g]; [destruct l; [done|simpl in *; lia]|].
    destruct l as [|b l]; [done|]. cbn [utf8_chunks_fuel].
    pose proof (utf8_step_pos (b :: l)) as Hp. destruct (utf8_step (b :: l)) as [ok n].
    f_equal. apply IH; rewrite length_drop; simpl in *; lia. }
  intros. apply H; lia.
Qed.

Lemma utf8_chunks_cons l :
  l ≠ [] →
  utf8_chunks l = ((utf8_step l).1, take (utf8_step l).2 l) :: utf8_chunks (drop (utf8_step l).2 l).
Proof.
  intros Hl. destruct l as [|b l]; [done|]. unfold utf8_chunks at 1. cbn [length utf8_chunks_fuel].
  pose proof (utf8_step_pos (b :: l)) as Hp. destruct (utf8_step (b :: l)) as [ok n]. simpl in Hp |- *.
  f_equal. apply utf8_chunks_fuel_enough. rewrite length_drop. simpl. lia.
Qed.

#[global] Arguments utf8_step : simpl never.

Lemma utf8_chunks_app l k :
  utf8_valid l = true → utf8_chunks (l ++ k) = utf8_chunks l ++ utf8_chunks k.
Proof.
  unfold utf8_valid. remember (length l) as m eqn:Hm. revert l Hm.
  induction m as [m IH] using lt_wf_ind. intros l ->.
  destruct (decide (l = [])) as [->|Hl]; [done|].
  rewrite (utf8_chunks_cons l) by done. simpl. intros [Hs Hv]%andb_prop.
  destruct (utf8_step l) as [ok n] eqn:E. simpl in *. subst ok.
  pose proof (utf8_step_len _ _ E) as Hn.
  rewrite utf8_chunks_cons by (destruct l; done).
  rewrite (utf8_step_app _ _ _ E). simpl.
  rewrite take_app_le, drop_app_le by lia. f_equal.
  eapply IH; [| done | done]. rewrite length_drop. lia.
Qed.

Lemma utf8_valid_app l k :
  utf8_valid l = true → utf8_valid k = true → utf8_valid (l ++ k) = true.
Proof.
  intros Hl Hk. unfold utf8_valid. rewrite utf8_chunks_app by done.
  rewrite forallb_app. unfold utf8_valid in *. by rewrite Hl, Hk.
Qed.

Lemma utf8_valid_ascii1 b : b2z b < 128 → utf8_valid [b] = true.
Proof.
  intros. unfold utf8_valid, utf8_chunks. cbn [length utf8_chunks_fuel].
  assert (utf8_step [b] = (true, 1%nat)) as -> by (unfold utf8_step; case_match; [done|lia]).
  done.
Qed.

Lemma utf8_valid_replicate n b : b2z b < 128 → utf8_valid (replicate n b) = true.
Proof.
  intros Hb. induction n as [|n IH]; [done|]. change (replicate (S n) b) with ([b] ++ replicate n b).
  apply utf8_valid_app; [by apply utf8_valid_ascii1|done].
Qed.

Lemma from_utf8_valid l : utf8_valid l = true → from_utf8 l = Some l.
Proof. unfold from_utf8. by intros ->. Qed.

Lemma concat_utf8_chunks l : concat (map snd (utf8_chunks l)) = l.
Proof.
  remember (length l) as m eqn:Hm. revert l Hm.
  induction m as [m IH] using lt_wf_ind. intros l ->.
  destruct (decide (l = [])) as [->|Hl]; [done|].
  rewrite (utf8_chunks_cons l) by done. simpl.
  pose proof (utf8_step_pos l). rewrite (IH (length (drop (utf8_step l).2 l))); [apply take_drop| |done].
  rewrite length_drop. destruct l; simpl in *; [done|lia].
Qed.

(** The lossy conversion is the identity on text that is valid already. *)
Lemma from_utf8_lossy_valid l : utf8_valid l = true → from_utf8_lossy l = l.
Proof.
  intros Hv. rewrite <- (concat_utf8_chunks l) at 2. unfold from_utf8_lossy. f_equal.
  unfold utf8_valid in Hv. rewrite forallb_forall in Hv.
  apply map_ext_in. intros c Hc. by rewrite (Hv c Hc).
Qed.

(** ** [join] and [split] *)

Definition comma : byte := x2c.

(** [names.join(",")]. *)
Fixpoint join_str (sep : byte) (names : list bytes) : bytes :=
  match names with
  | [] => []
  | [s] => s
  | s :: rest => s ++ sep :: join_str sep rest
  end.

(** [s.split(',')]: always at least one field. *)
Fixpoint split_on (sep : byte) (s : bytes) : list bytes :=
  match s with
  | [] => [[]]
  | b :: r =>
      if decide (b = sep) then [] :: split_on sep r
      else match split_on sep r with
           | f :: fs => (b :: f) :: fs
           | [] => [[b]]
           end
  end.

Lemma split_on_nonempty sep s : ∃ f fs, split_on sep s = f :: fs.
Proof. destruct s; simpl; repeat case_match; eauto. Qed.

Lemma split_on_no_sep sep s : sep ∉ s → split_on sep s = [s].
Proof.
  induction s as [|b s IH]; simpl; intros H; [done|].
  rewrite decide_False by set_solver. rewrite IH by set_solver. done.
Qed.

Lemma split_on_app sep s r :
  sep ∉ s → split_on sep (s ++ sep :: r) = s :: split_on sep r.
Proof.
  induction s as [|b s IH]; simpl; intros H.
  - by rewrite decide_True.
  - rewrite decide_False by set_solver. rewrite IH by set_solver. done.
Qed.

Lemma split_join sep names :
  names ≠ [] → Forall (λ s, sep ∉ s) names → split_on sep (join_str sep names) = names.
Proof.
  induction names as [|s names IH]; [done|]. intros _ H. inversion H; subst.
  destruct names as [|s' names]; simpl; [by apply split_on_no_sep|].
  rewrite split_on_app by done. f_equal. by apply IH.
Qed.

Lemma utf8_valid_join sep names :
  b2z sep < 128 → Forall (λ s, utf8_valid s = true) names →
  utf8_valid (join_str sep names) = true.
Proof.
  intros Hs. induction names as [|s names IH]; [done|]. intros H. inversion H; subst.
  destruct names as [|s' names]; simpl; [done|].
  apply utf8_valid_app; [done|]. change (sep :: ?r) with ([sep] ++ r).
  apply utf8_valid_app; [by apply utf8_valid_ascii1|by apply IH].
Qed.

Lemma join_empty sep names : join_str sep names = [] → names = [] ∨ names = [[]].
Proof.
  destruct names as [|s [|s' names]]; simpl; intros; subst; auto.
  by destruct s.
Qed.
