(* ===== verification/Types.v ===== *)
(** Message numbers and protocol constants ([src/packet/types.rs]). *)
From S2P Require Export Prelude.

Inductive MessageType : Type :=
| Disconnect | Ignore | Unimplemented | Debug | ServiceRequest | ServiceAccept
| KexInit | NewKeys | KexEcdhInit | KexEcdhReply
| UserAuthRequest | UserAuthFailure | UserAuthSuccess | UserAuthBanner
| GlobalRequest | RequestSuccess | RequestFailure
| ChannelOpen | ChannelOpenConfirmation | ChannelOpenFailure | ChannelWindowAdjust
| ChannelData | ChannelExtendedData | ChannelEof | ChannelClose | ChannelRequest
| ChannelSuccess | ChannelFailure.

#[export] Instance MessageType_eq_dec : EqDecision MessageType.
Proof. solve_decision. Defined.

(** The discriminants of the [repr(u8)] enum. *)
Definition discriminant (m : MessageType) : Z :=
  match m with
  | Disconnect => 1 | Ignore => 2 | Unimplemented => 3 | Debug => 4
  | ServiceRequest => 5 | ServiceAccept => 6
  | KexInit => 20 | NewKeys => 21 | KexEcdhInit => 30 | KexEcdhReply => 31
  | UserAuthRequest => 50 | UserAuthFailure => 51 | UserAuthSuccess => 52
  | UserAuthBanner => 53
  | GlobalRequest => 80 | RequestSuccess => 81 | RequestFailure => 82
  | ChannelOpen => 90 | ChannelOpenConfirmation => 91 | ChannelOpenFailure => 92
  | ChannelWindowAdjust => 93 | ChannelData => 94 | ChannelExtendedData => 95
  | ChannelEof => 96 | ChannelClose => 97 | ChannelRequest => 98
  | ChannelSuccess => 99 | ChannelFailure => 100
  end.

(** [m as u8]. *)
Definition msg_u8 (m : MessageType) : byte := u8 (discriminant m).

(** [MessageType::from_u8]. *)
Definition from_u8 (val : byte) : option MessageType :=
  match b2z val with
  | 1 => Some Disconnect
  | 2 => Some Ignore
  | 3 => Some Unimplemented
  | 4 => Some Debug
  | 5 => Some ServiceRequest
  | 6 => Some ServiceAccept
  | 20 => Some KexInit
  | 21 => Some NewKeys
  | 30 => Some KexEcdhInit
  | 31 => Some KexEcdhReply
  | 50 => Some UserAuthRequest
  | 51 => Some UserAuthFailure
  | 52 => Some UserAuthSuccess
  | 53 => Some UserAuthBanner
  | 80 => Some GlobalRequest
  | 81 => Some RequestSuccess
  | 82 => Some RequestFailure
  | 90 => Some ChannelOpen
  | 91 => Some ChannelOpenConfirmation
  | 92 => Some ChannelOpenFailure
  | 93 => Some ChannelWindowAdjust
  | 94 => Some ChannelData
  | 95 => Some ChannelExtendedData
  | 96 => Some ChannelEof
  | 97 => Some ChannelClose
  | 98 => Some ChannelRequest
  | 99 => Some ChannelSuccess
  | 100 => Some ChannelFailure
  | _ => None
  end.

Definition SSH_VERSION_STRING : bytes := bs "SSH-2.0-SwiftSSH_0.1".
Definition MAX_PACKET_SIZE : Z := 35000.
Definition MIN_PADDING : Z := 4.
Definition AES_BLOCK_SIZE : Z := 16.
Definition HMAC_SHA256_SIZE : Z := 32.
Definition DEFAULT_WINDOW_SIZE : Z := 2097152.
Definition DEFAULT_MAX_PACKET_SIZE : Z := 32768.

(** Message numbers are a partial bijection: [from_u8] inverts the cast. *)
Lemma from_u8_msg_u8 m : from_u8 (msg_u8 m) = Some m.
Proof. by destruct m. Qed.

#[export] Instance msg_u8_inj : Inj (=) (=) msg_u8.
Proof. intros m n E. apply (f_equal from_u8) in E. rewrite !from_u8_msg_u8 in E. congruence. Qed.

Lemma from_u8_sound b : match from_u8 b with Some m => b = msg_u8 m | None => True end.
Proof. destruct b; vm_compute; constructor. Qed.

(** [MessageType::from_u8] recognises exactly the declared message
    numbers: it answers [Some m] for a byte if and only if that byte is the
    discriminant of [m]. *)
Theorem from_u8_iff b m : from_u8 b = Some m ↔ b = msg_u8 m.
Proof.
  split; [|intros ->; apply from_u8_msg_u8].
  intros E. pose proof (from_u8_sound b) as H. by rewrite E in H.
Qed.
