(* ===== verification/Extern.v ===== *)
(** Interfaces of the code the program calls and this development does not
    define: the random number generator, the AES-256-CTR stream cipher, HMAC and
    SHA-256 (RustCrypto), and X25519 (x25519-dalek).

    An operational class gives the operations; a [...Laws] class states the
    documented behaviour some theorems rely on.  Every operation of the model
    takes the class it needs, so its theorems hold for every implementation. *)
From S2P Require Export Prelude.

(** [rand::RngCore::fill_bytes], as a pure step of the generator's state. *)
Class Rng (R : Type) := fill_bytes : Z → R → bytes * R.

Class RngLaws (R : Type) `{!Rng R} :=
  fill_bytes_len : ∀ n r, 0 ≤ n → len (fill_bytes n r).1 = n.

(** [ctr::Ctr128BE<Aes256>]: a cipher is made from a key and an IV, and
    [apply_keystream] XORs the next bytes of its keystream into the data. *)
Class StreamCipher (C : Type) := {
  cipher_new : bytes → bytes → C;
  apply_keystream : C → bytes → bytes * C
}.

Class StreamCipherLaws (C : Type) `{!StreamCipher C} := {
  apply_keystream_len c d : len (apply_keystream c d).1 = len d;
  apply_keystream_app c d e :
    apply_keystream c (d ++ e) =
      ((apply_keystream c d).1 ++ (apply_keystream (apply_keystream c d).2 e).1,
       (apply_keystream (apply_keystream c d).2 e).2);
  apply_keystream_twice c d :
    apply_keystream c (apply_keystream c d).1 = (d, (apply_keystream c d).2)
}.

(** [hmac::Hmac<Sha256>] with [finalize] and [verify_slice]. *)
Class Hmac := {
  hmac_sha256 : bytes → bytes → bytes;
  hmac_verify_slice : bytes → bytes → bytes → bool
}.

Class HmacLaws `{!Hmac} := {
  hmac_len k d : len (hmac_sha256 k d) = 32;
  hmac_verify_iff k d t : hmac_verify_slice k d t = true ↔ t = hmac_sha256 k d
}.

(** [sha2::Sha256::digest]. *)
Class Sha256 := sha256 : bytes → bytes.

Class Sha256Laws `{!Sha256} := sha256_len : ∀ d, len (sha256 d) = 32.

(** [x25519_dalek]: [EphemeralSecret::random_from_rng], [PublicKey::from] and
    [diffie_hellman]. *)
Class X25519 (R K : Type) := {
  ephemeral_secret : R → K * R;
  public_key : K → bytes;
  diffie_hellman : K → bytes → bytes
}.

Class X25519Laws (R K : Type) `{!X25519 R K} := {
  public_key_len k : len (public_key k) = 32;
  diffie_hellman_comm a b :
    diffie_hellman a (public_key b) = diffie_hellman b (public_key a)
}.
