(* ===== verification/Reference.v ===== *)
(** Executable implementations of the interfaces of [Extern], with their laws:
    the theorems' hypotheses are satisfiable, and the examples of the development
    run on them.  They are not the RustCrypto algorithms and no theorem depends
    on their definitions. *)
From Stdlib Require Import Zpow_facts.
From S2P Require Export Extern.

(** A generator whose state is a counter. *)
#[export] Instance ref_rng : Rng Z := λ n r, (replicate (Z.to_nat n) (u8 r), r + 1).

#[export] Instance ref_rng_laws : RngLaws Z.
Proof. intros n r Hn. by apply len_replicate. Qed.

(** A stream cipher: a keystream byte depends on key, IV and position. *)
Definition bxor (a b : byte) : byte := u8 (Z.lxor (b2z a) (b2z b)).

Lemma lxor_byte a b : 0 ≤ Z.lxor (b2z a) (b2z b) < 256.
Proof.
  pose proof (b2z_range a) as Ha. pose proof (b2z_range b) as Hb.
  split; [apply Z.lxor_nonneg; lia|].
  destruct (decide (Z.lxor (b2z a) (b2z b) = 0)) as [->|Hn]; [lia|].
  assert (Hl : ∀ z, 0 ≤ z < 256 → Z.log2 z < 8).
  { intros z Hz. destruct (decide (z = 0)) as [->|]; [done|]. apply Z.log2_lt_pow2; lia. }
  apply (Z.log2_lt_cancel _ 256). eapply Z.le_lt_trans; [apply Z.log2_lxor; lia|].
  change (Z.log2 256) with 8. pose proof (Hl _ Ha). pose proof (Hl _ Hb). lia.
Qed.

Lemma bxor_twice a k : bxor (bxor a k) k = a.
Proof.
  unfold bxor. rewrite b2z_u8, Z.mod_small by apply lxor_byte.
  rewrite Z.lxor_assoc, Z.lxor_nilpotent, Z.lxor_0_r. apply u8_b2z.
Qed.

Definition ks_byte (seed pos : Z) : byte := u8 (seed + 7 * pos + 3).

Fixpoint xor_stream (seed pos : Z) (d : bytes) : bytes :=
  match d with
  | [] => []
  | b :: r => bxor b (ks_byte seed pos) :: xor_stream seed (pos + 1) r
  end.

Lemma len_xor_stream s p d : len (xor_stream s p d) = len d.
Proof. revert p. induction d as [|b d IH]; intros p; simpl; [done|]. by rewrite !len_cons, IH. Qed.

Lemma xor_stream_app s p d e :
  xor_stream s p (d ++ e) = xor_stream s p d ++ xor_stream s (p + len d) e.
Proof.
  revert p. induction d as [|b d IH]; intros p; simpl.
  - by rewrite len_nil, Z.add_0_r.
  - rewrite IH, len_cons. by replace (p + 1 + len d) with (p + (1 + len d)) by lia.
Qed.

Lemma xor_stream_twice s p d : xor_stream s p (xor_stream s p d) = d.
Proof. revert p. induction d as [|b d IH]; intros p; simpl; [done|]. by rewrite bxor_twice, IH. Qed.

#[export] Instance ref_cipher : StreamCipher (Z * Z) := {|
  cipher_new key iv := (be_decode key + 5 * be_decode iv, 0);
  apply_keystream c d := (xor_stream c.1 c.2 d, (c.1, c.2 + len d))
|}.

#[export] Instance ref_cipher_laws : StreamCipherLaws (Z * Z).
Proof.
  split; simpl; intros [s p].
  - intros d. apply len_xor_stream.
  - intros d e. simpl. rewrite xor_stream_app, len_app. by rewrite Z.add_assoc.
  - intros d. simpl. by rewrite xor_stream_twice, len_xor_stream.
Qed.

(** A keyed checksum of 32 bytes, and a checksum. *)
#[export] Instance ref_sha256 : Sha256 := λ d,
  be_encode 32 ((be_decode d * 31 + len d) mod (2 ^ 255 - 19)).

#[export] Instance ref_sha256_laws : Sha256Laws.
Proof. intros d. apply len_be_encode. Qed.

#[export] Instance ref_hmac : Hmac := {|
  hmac_sha256 k d := be_encode 32 (be_decode k + 257 * be_decode d + len d);
  hmac_verify_slice k d t :=
    bool_decide (t = be_encode 32 (be_decode k + 257 * be_decode d + len d))
|}.

#[export] Instance ref_hmac_laws : HmacLaws.
Proof.
  split; intros; simpl; [apply len_be_encode|apply bool_decide_eq_true].
Qed.

(** Diffie-Hellman in the multiplicative group modulo a small prime. *)
#[export] Instance ref_x25519 : X25519 Z N := {|
  ephemeral_secret r := ((Z.to_N r + 2)%N, r + 1);
  public_key k := be_encode 32 (3 ^ Z.of_N k mod 257);
  diffie_hellman k pub := be_encode 32 (be_decode pub ^ Z.of_N k mod 257)
|}.

#[export] Instance ref_x25519_laws : X25519Laws Z N.
Proof.
  assert (H : ∀ a b : N, be_decode (be_encode 32 (3 ^ Z.of_N b mod 257)) ^ Z.of_N a mod 257 =
                         3 ^ (Z.of_N a * Z.of_N b) mod 257).
  { intros a b. rewrite be_decode_encode_small.
    - rewrite <- Zpow_facts.Zpower_mod by lia. by rewrite <- Z.pow_mul_r, Z.mul_comm by lia.
    - pose proof (Z.mod_pos_bound (3 ^ Z.of_N b) 257 ltac:(lia)).
      assert (257 < 256 ^ Z.of_nat 32) by done. lia. }
  split; simpl; intros; [apply len_be_encode|]. rewrite !H. by rewrite Z.mul_comm.
Qed.
