(* ===== verification/Codec.v ===== *)
(** The packet codec ([src/packet/codec.rs]): [SshPacket::serialize] and
    [deserialize], and the [SshBuf] readers and writers of SSH wire types.

    A [Cursor<&[u8]>] is its unread suffix: a read that succeeds returns the
    value and the new suffix, and no caller looks at a cursor after a failed
    read.  A writer takes the buffer and returns the extended one. *)
From S2P Require Export Error Utf8 Types Extern Reference.

(** ** [std::io::Read] on a cursor, and [byteorder] *)

Definition cursor_read_exact (n : Z) (c : bytes) : outcome io_error (bytes * bytes) :=
  if decide (n ≤ len c) then Ok (take (Z.to_nat n) c, drop (Z.to_nat n) c)
  else Err UnexpectedEof.

Definition cursor_read_u8 (c : bytes) : outcome io_error (byte * bytes) :=
  match c with
  | b :: r => Ok (b, r)
  | [] => Err UnexpectedEof
  end.

Definition cursor_read_be (n : nat) (c : bytes) : outcome io_error (Z * bytes) :=
  '(b, c) ← cursor_read_exact (Z.of_nat n) c;
  Ok (be_decode b, c).

Lemma cursor_read_exact_app n a r :
  n = len a → cursor_read_exact n (a ++ r) = Ok (a, r).
Proof.
  intros ->. unfold cursor_read_exact. rewrite decide_True by len_lia.
  by rewrite take_len_app, drop_len_app.
Qed.

Lemma cursor_read_exact_ok n c a r :
  0 ≤ n → cursor_read_exact n c = Ok (a, r) ↔ c = a ++ r ∧ len a = n.
Proof.
  intros Hn. split.
  - unfold cursor_read_exact. case_decide; intros; simplify_eq.
    rewrite take_drop. split; [done|]. apply len_take; lia.
  - intros [-> <-]. by apply cursor_read_exact_app.
Qed.

Lemma cursor_read_be_encode n z r :
  0 ≤ z < 256 ^ Z.of_nat n → cursor_read_be n (be_encode n z ++ r) = Ok (z, r).
Proof.
  intros. unfold cursor_read_be.
  rewrite cursor_read_exact_app by (by rewrite len_be_encode). simpl.
  by rewrite be_decode_encode_small.
Qed.

Lemma cursor_read_be_ok n c z r :
  cursor_read_be n c = Ok (z, r) ↔ c = be_encode n z ++ r ∧ 0 ≤ z < 256 ^ Z.of_nat n.
Proof.
  split.
  - unfold cursor_read_be. intros H. bind_inv H as [a r'] E. simplify_eq.
    apply cursor_read_exact_ok in E as [-> Hl]; [|lia].
    assert (length a = n) as <- by (unfold len in Hl; lia).
    rewrite be_encode_decode. split; [done|]. apply be_decode_range.
  - intros [-> ?]. by apply cursor_read_be_encode.
Qed.

(** ** [SshPacket] *)

Record SshPacket := mkPacket { msg_type : byte; payload : bytes }.

#[export] Instance SshPacket_eq_dec : EqDecision SshPacket.
Proof. solve_decision. Defined.

(** [SshPacket::new]. *)
Definition SshPacket_new (m : MessageType) (payload : bytes) : SshPacket :=
  mkPacket (msg_u8 m) payload.

(** The padding [serialize] chooses for a payload of [payload_len] bytes,
    message number included. *)
Definition padding_len (block_size payload_len : Z) : Z :=
  let remainder := (1 + payload_len + MIN_PADDING) mod block_size in
  if decide (remainder = 0) then MIN_PADDING else MIN_PADDING + (block_size - remainder).

Definition serialize {R} `{!Rng R} (p : SshPacket) (block_size : Z) (rng : R)
    : SshResult bytes * R :=
  let block_size := Z.max block_size 8 in
  let payload_len := 1 + len (payload p) in
  let padding_len := padding_len block_size payload_len in
  let packet_length := 1 + payload_len + padding_len in
  if decide (packet_length > MAX_PACKET_SIZE) then
    (Err (InvalidPacket ("Packet too large: " +:+ show_usize packet_length +:+ " bytes")), rng)
  else
    let '(padding, rng) := fill_bytes padding_len rng in
    (Ok (be_encode 4 (as_u32 packet_length) ++ [u8 padding_len] ++ [msg_type p] ++
         payload p ++ padding), rng).

Definition deserialize `{!BuildProfile} (data : bytes) : SshResult SshPacket :=
  if decide (len data < 6) then Err (InvalidPacket "Packet too short") else
  '(packet_length, cursor) ← map_err Io (cursor_read_be 4 data);
  if decide (packet_length > MAX_PACKET_SIZE) then
    Err (InvalidPacket ("Packet length too large: " +:+ show_usize packet_length)) else
  if decide (len data < 4 + packet_length) then
    Err (InvalidPacket "Incomplete packet data") else
  '(padding_length, cursor) ← map_err Io (cursor_read_u8 cursor);
  if decide (b2z padding_length >= packet_length) then
    Err (InvalidPacket "Invalid padding length") else
  packet_length_1 ← usize_sub packet_length 1;
  payload_length ← usize_sub packet_length_1 (b2z padding_length);
  if decide (payload_length = 0) then Err (InvalidPacket "Empty payload") else
  '(msg_type, cursor) ← map_err Io (cursor_read_u8 cursor);
  payload_length_1 ← usize_sub payload_length 1;
  payload ← vec_zeroed payload_length_1;
  '(payload, _) ← map_err Io (cursor_read_exact (len payload) cursor);
  Ok (mkPacket msg_type payload).

(** ** [SshBuf]: writers *)

Definition write_string (buf data : bytes) : bytes :=
  buf ++ be_encode 4 (as_u32 (len data)) ++ data.

Definition write_utf8 (buf s : bytes) : bytes := write_string buf s.

Definition write_name_list (buf : bytes) (names : list bytes) : bytes :=
  write_utf8 buf (join_str comma names).

Definition write_bool (buf : bytes) (val : bool) : bytes :=
  buf ++ [if val then x01 else x00].

Definition write_u32 (buf : bytes) (val : Z) : bytes := buf ++ be_encode 4 val.

Definition write_u8 (buf : bytes) (val : byte) : bytes := buf ++ [val].

(** [val.iter().position(|&b| b != 0)]. *)
Fixpoint position_nonzero (val : bytes) : option nat :=
  match val with
  | [] => None
  | b :: r => if decide (b ≠ x00) then Some 0%nat else S <$> position_nonzero r
  end.

Definition write_mpint (buf val : bytes) : bytes :=
  let stripped := match position_nonzero val with
                  | Some pos => drop pos val
                  | None => [x00]
                  end in
  let buf :=
    if decide (Z.land (b2z (hd x00 stripped)) 128 ≠ 0)
    then buf ++ be_encode 4 (as_u32 (len stripped + 1)) ++ [x00]
    else buf ++ be_encode 4 (as_u32 (len stripped)) in
  buf ++ stripped.

(** ** [SshBuf]: readers *)

Definition read_string `{!BuildProfile} (cursor : bytes) : SshResult (bytes * bytes) :=
  '(len', cursor) ← map_err (λ _, InvalidPacket "Failed to read string length")
                             (cursor_read_be 4 cursor);
  if decide (len' > MAX_PACKET_SIZE) then Err (InvalidPacket "String too long") else
  data ← vec_zeroed len';
  map_err (λ _, InvalidPacket "Truncated string") (cursor_read_exact (len data) cursor).

Definition read_utf8 `{!BuildProfile} (cursor : bytes) : SshResult (bytes * bytes) :=
  '(data, cursor) ← read_string cursor;
  match from_utf8 data with
  | Some s => Ok (s, cursor)
  | None => Err (InvalidPacket "Invalid UTF-8 string")
  end.

Definition read_name_list `{!BuildProfile} (cursor : bytes)
    : SshResult (list bytes * bytes) :=
  '(s, cursor) ← read_utf8 cursor;
  if decide (s = []) then Ok ([], cursor) else Ok (split_on comma s, cursor).

Definition read_bool (cursor : bytes) : SshResult (bool * bytes) :=
  '(b, cursor) ← map_err (λ _, InvalidPacket "Failed to read bool") (cursor_read_u8 cursor);
  Ok (bool_decide (b ≠ x00), cursor).

Definition read_u32 (cursor : bytes) : SshResult (Z * bytes) :=
  map_err (λ _, InvalidPacket "Failed to read u32") (cursor_read_be 4 cursor).

Definition read_mpint `{!BuildProfile} (cursor : bytes) : SshResult (bytes * bytes) :=
  read_string cursor.

(** ** What the writers append *)

Definition enc_string (data : bytes) : bytes := be_encode 4 (as_u32 (len data)) ++ data.

Lemma write_string_enc buf d : write_string buf d = buf ++ enc_string d.
Proof. done. Qed.
Lemma write_utf8_enc buf d : write_utf8 buf d = buf ++ enc_string d.
Proof. done. Qed.
Lemma write_bool_enc buf (b : bool) : write_bool buf b = buf ++ [if b then x01 else x00].
Proof. done. Qed.
Lemma write_u32_enc buf z : write_u32 buf z = buf ++ be_encode 4 z.
Proof. done. Qed.
Lemma write_u8_enc buf b : write_u8 buf b = buf ++ [b].
Proof. done. Qed.
Lemma write_name_list_enc buf l : write_name_list buf l = buf ++ enc_string (join_str comma l).
Proof. done. Qed.

Lemma len_enc_string d : len (enc_string d) = 4 + len d.
Proof. unfold enc_string. len_lia. Qed.
#[export] Hint Rewrite len_enc_string : lens.

(** Length-prefixed strings are uniquely decodable. *)
Lemma enc_string_inj d d' r r' :
  len d < U32 → len d' < U32 → enc_string d ++ r = enc_string d' ++ r' → d = d' ∧ r = r'.
Proof.
  intros Hd Hd' E. unfold enc_string in E. rewrite <- !app_assoc in E.
  apply app_inj_1 in E as [El E]; [|by rewrite !length_be_encode].
  apply (f_equal be_decode) in El.
  rewrite !as_u32_small, !be_decode_encode_small in El
    by (rewrite ?u32_256; split; [apply len_nonneg|done]).
  apply app_inj_1 in E; [done|]. unfold len in El. lia.
Qed.

(** A string short enough to be read back. *)
Definition wire_string (d : bytes) : Prop := len d ≤ MAX_PACKET_SIZE.
Definition wire_utf8 (d : bytes) : Prop := len d ≤ MAX_PACKET_SIZE ∧ utf8_valid d = true.

#[export] Instance wire_string_dec d : Decision (wire_string d) := ltac:(unfold wire_string; apply _).
#[export] Instance wire_utf8_dec d : Decision (wire_utf8 d) := ltac:(unfold wire_utf8; apply _).

Section readers.
Context `{profile : !BuildProfile}.

Lemma read_u32_encode z r : is_u32 z → read_u32 (be_encode 4 z ++ r) = Ok (z, r).
Proof. intros. unfold read_u32. by rewrite cursor_read_be_encode by (by rewrite u32_256). Qed.

Lemma read_bool_encode (b : bool) r :
  read_bool ((if b then x01 else x00) :: r) = Ok (b, r).
Proof. by destruct b. Qed.

Lemma read_string_encode d r : wire_string d → read_string (enc_string d ++ r) = Ok (d, r).
Proof.
  unfold wire_string, MAX_PACKET_SIZE. intros Hd. pose proof (len_nonneg d).
  unfold read_string, enc_string.
  rewrite <- app_assoc, as_u32_small by (unfold is_u32, U32; lia).
  rewrite cursor_read_be_encode by (rewrite u32_256; unfold U32; lia). simpl.
  rewrite decide_False by (unfold MAX_PACKET_SIZE; lia).
  rewrite vec_zeroed_small by (unfold ISIZE_MAX; lia). simpl.
  rewrite len_replicate by lia. by rewrite cursor_read_exact_app.
Qed.

Lemma read_string_ok c d r :
  read_string c = Ok (d, r) ↔ c = enc_string d ++ r ∧ wire_string d.
Proof.
  split; [|intros [-> ?]; by apply read_string_encode].
  unfold read_string. intros H. bind_inv H as [n c'] E.
  destruct (cursor_read_be 4 c) as [[n' c'']|e|s|] eqn:E2; simpl in E; simplify_eq.
  apply cursor_read_be_ok in E2 as [-> Hn]. rewrite u32_256 in Hn.
  case_decide as Hm; [done|]. rewrite vec_zeroed_small in H by (unfold ISIZE_MAX, MAX_PACKET_SIZE in *; lia).
  simpl in H. rewrite len_replicate in H by lia.
  destruct (cursor_read_exact n c') as [[d' r']|e|s|] eqn:E3; simpl in H; simplify_eq.
  apply cursor_read_exact_ok in E3 as [-> <-]; [|lia].
  unfold enc_string, wire_string. rewrite as_u32_small by done.
  split; [by rewrite app_assoc|lia].
Qed.

Lemma read_utf8_encode d r : wire_utf8 d → read_utf8 (enc_string d ++ r) = Ok (d, r).
Proof.
  intros [Hl Hv]. unfold read_utf8. rewrite read_string_encode by done. simpl.
  by rewrite from_utf8_valid.
Qed.

Lemma read_utf8_ok c d r :
  read_utf8 c = Ok (d, r) ↔ c = enc_string d ++ r ∧ wire_utf8 d.
Proof.
  split; [|intros [-> ?]; by apply read_utf8_encode].
  unfold read_utf8. intros H. bind_inv H as [d' r'] E.
  apply read_string_ok in E as [-> Hw]. unfold from_utf8 in H.
  destruct (utf8_valid d') eqn:Hv; simplify_eq. done.
Qed.

Lemma read_string_returns c : returns (read_string c) = true.
Proof.
  unfold read_string. apply bind_returns.
  { unfold cursor_read_be, cursor_read_exact. by case_decide. }
  intros [n c'] _. case_decide as Hn; [done|].
  rewrite vec_zeroed_small by (unfold ISIZE_MAX, MAX_PACKET_SIZE in *; lia). simpl.
  unfold cursor_read_exact. by case_decide.
Qed.

Lemma read_utf8_returns c : returns (read_utf8 c) = true.
Proof.
  unfold read_utf8. apply bind_returns; [apply read_string_returns|].
  intros [d r] _. by destruct (from_utf8 d).
Qed.
End readers.

Lemma read_u32_ok c z r :
  read_u32 c = Ok (z, r) ↔ c = be_encode 4 z ++ r ∧ is_u32 z.
Proof.
  unfold read_u32, is_u32. rewrite <- u32_256, <- cursor_read_be_ok.
  destruct (cursor_read_be 4 c) as [[]| | |]; simpl; split; intros; simplify_eq; done.
Qed.

Lemma read_u32_returns c : returns (read_u32 c) = true.
Proof. unfold read_u32, cursor_read_be, cursor_read_exact. by case_decide. Qed.

Lemma read_bool_returns c : returns (read_bool c) = true.
Proof. by destruct c. Qed.

Lemma read_bool_ok c b r :
  read_bool c = Ok (b, r) ↔ ∃ x, c = x :: r ∧ b = bool_decide (x ≠ x00).
Proof.
  split; [|by intros (x & -> & ->)].
  destruct c as [|x c]; [done|]. intros H. exists x.
  unfold read_bool in H. cbn in H. by simplify_eq.
Qed.

(** ** Automation for parsers

    [wire] puts what a builder wrote in the normal form [enc_string a ++ ...]
    the [..._encode] lemmas consume; [run_parser] runs a parser on such a form;
    [invert_parser H] decomposes [H : parse c = Ok r] into the fields read; and
    [parser_returns] shows that a parser of this kind cannot panic or loop. *)
Create Rewrite HintDb wire.
#[export] Hint Rewrite write_name_list_enc write_utf8_enc write_string_enc write_bool_enc
  write_u32_enc write_u8_enc @app_nil_l : wire.
#[export] Hint Rewrite <- @app_assoc : wire.

(** The last field of a message. *)
Section last_field.
Context `{profile : !BuildProfile}.

Lemma read_u32_last z : is_u32 z → read_u32 (be_encode 4 z) = Ok (z, []).
Proof. intros. rewrite <- (app_nil_r (be_encode 4 z)). by apply read_u32_encode. Qed.

Lemma read_string_last d : wire_string d → read_string (enc_string d) = Ok (d, []).
Proof. intros. rewrite <- (app_nil_r (enc_string d)). by apply read_string_encode. Qed.

Lemma read_utf8_last d : wire_utf8 d → read_utf8 (enc_string d) = Ok (d, []).
Proof. intros. rewrite <- (app_nil_r (enc_string d)). by apply read_utf8_encode. Qed.
End last_field.

Ltac run_parser_step :=
  first
    [ rewrite read_utf8_encode by eauto
    | rewrite read_string_encode by eauto
    | rewrite read_u32_encode by eauto
    | rewrite read_bool_encode
    | rewrite read_u32_last by eauto
    | rewrite read_string_last by eauto
    | rewrite read_utf8_last by eauto ];
  cbn [mbind outcome_bind app].
Ltac run_parser := repeat run_parser_step.

Ltac invert_read H :=
  first
    [ apply read_utf8_ok in H as [-> ?]
    | apply read_string_ok in H as [-> ?]
    | apply read_u32_ok in H as [-> ?]
    | apply read_bool_ok in H as (? & -> & ->) ].
Ltac invert_parser_step H :=
  let E := fresh in
  apply bind_ok_inv in H; destruct H as ([? ?] & E & H); cbv beta iota in H; invert_read E.
Ltac invert_parser H := repeat invert_parser_step H.

Create HintDb returns.
#[export] Hint Resolve read_string_returns read_utf8_returns read_u32_returns
  read_bool_returns : returns.
Ltac parser_returns :=
  repeat match goal with
  | |- returns (Ok _) = true => reflexivity
  | |- returns (Err _) = true => reflexivity
  | |- returns (if ?b then _ else _) = true => destruct b
  | |- returns (match ?x with (_, _) => _ end) = true => destruct x
  | |- returns (_ ≫= _) = true => apply bind_returns; [|intros ? _]
  | |- _ => solve [auto with returns]
  end.

(** ** Padding and framing *)

Lemma padding_len_spec bs n :
  8 ≤ bs → 0 ≤ n →
  MIN_PADDING ≤ padding_len bs n < MIN_PADDING + bs ∧ (1 + n + padding_len bs n) mod bs = 0.
Proof.
  intros Hb Hn. unfold padding_len. set (r := (1 + n + MIN_PADDING) mod bs).
  pose proof (Z.mod_pos_bound (1 + n + MIN_PADDING) bs ltac:(lia)) as Hr. fold r in Hr.
  case_decide as E; [split; [lia|done]|]. split; [lia|].
  replace (1 + n + (MIN_PADDING + (bs - r))) with ((1 + n + MIN_PADDING - r) + 1 * bs) by lia.
  rewrite Z.mod_add by lia. unfold r. rewrite Zminus_mod, Z.mod_mod, Z.sub_diag by lia. done.
Qed.

(** The frame [serialize] emits around a payload and its padding. *)
Definition frame (p : SshPacket) (padding : bytes) : bytes :=
  be_encode 4 (2 + len (payload p) + len padding) ++ [u8 (len padding)] ++
  [msg_type p] ++ payload p ++ padding.

Lemma len_frame p pad : len (frame p pad) = 6 + len (payload p) + len pad.
Proof. unfold frame. len_lia. Qed.
#[export] Hint Rewrite len_frame : lens.

Lemma frame_app p pad rest :
  frame p pad ++ rest =
  be_encode 4 (2 + len (payload p) + len pad) ++
  u8 (len pad) :: msg_type p :: payload p ++ pad ++ rest.
Proof. unfold frame. rewrite <- app_assoc. f_equal. simpl. by rewrite <- app_assoc. Qed.

(** The size test of [serialize]. *)
Definition fits (block_size : Z) (p : SshPacket) : Prop :=
  2 + len (payload p) + padding_len (Z.max block_size 8) (1 + len (payload p)) ≤ MAX_PACKET_SIZE.

#[export] Instance fits_dec b p : Decision (fits b p) := ltac:(unfold fits; apply _).

(** A payload up to this size fits with either block size the transport uses. *)
Lemma fits_small bs p : bs ≤ 16 → len (payload p) ≤ MAX_PACKET_SIZE - 21 → fits bs p.
Proof.
  intros Hb Hp. unfold fits. pose proof (len_nonneg (payload p)).
  pose proof (padding_len_spec (Z.max bs 8) (1 + len (payload p)) ltac:(lia) ltac:(lia)) as [? _].
  unfold MIN_PADDING in *. lia.
Qed.

Section framing.
Context {R} `{!Rng R, !RngLaws R} `{profile : !BuildProfile}.

Lemma serialize_fits p bs (rng : R) :
  fits bs p →
  let pad := fill_bytes (padding_len (Z.max bs 8) (1 + len (payload p))) rng in
  serialize p bs rng = (Ok (frame p pad.1), pad.2) ∧
  len pad.1 = padding_len (Z.max bs 8) (1 + len (payload p)).
Proof.
  intros Hf pad. unfold fits in Hf.
  pose proof (len_nonneg (payload p)).
  pose proof (padding_len_spec (Z.max bs 8) (1 + len (payload p)) ltac:(lia) ltac:(lia)) as [Hp _].
  assert (Hlen : len pad.1 = padding_len (Z.max bs 8) (1 + len (payload p))).
  { apply fill_bytes_len. unfold MIN_PADDING in *. lia. }
  split; [|done]. unfold serialize. rewrite decide_False by lia. fold pad.
  destruct pad as [padding rng'] eqn:E. simpl in Hlen |- *. unfold frame. rewrite Hlen.
  rewrite as_u32_small by (unfold is_u32, U32, MAX_PACKET_SIZE, MIN_PADDING in *; lia).
  do 4 f_equal. lia.
Qed.

Lemma serialize_too_large p bs (rng : R) :
  ¬ fits bs p → ∃ s, serialize p bs rng = (Err (InvalidPacket s), rng).
Proof.
  unfold fits, serialize. intros. rewrite decide_True by lia. eauto.
Qed.

Lemma deserialize_frame p pad rest :
  len pad ≤ 255 → 2 + len (payload p) + len pad ≤ MAX_PACKET_SIZE →
  deserialize (frame p pad ++ rest) = Ok p.
Proof.
  intros Hpad Hsz. unfold deserialize.
  pose proof (len_nonneg (payload p)). pose proof (len_nonneg pad). pose proof (len_nonneg rest).
  rewrite decide_False by len_lia.
  rewrite (frame_app p pad rest) at 1.
  rewrite cursor_read_be_encode by (rewrite u32_256; unfold U32, MAX_PACKET_SIZE in *; lia).
  simpl. rewrite decide_False by lia. rewrite decide_False by len_lia.
  assert (Hb : b2z (u8 (len pad)) = len pad) by (rewrite b2z_u8; apply Z.mod_small; lia).
  rewrite decide_False by lia. rewrite !usize_sub_small by lia. simpl.
  rewrite usize_sub_small by lia. simpl.
  rewrite decide_False by lia. rewrite usize_sub_small by lia. simpl.
  rewrite vec_zeroed_small by (unfold ISIZE_MAX, MAX_PACKET_SIZE in *; lia). simpl.
  rewrite len_replicate by lia. rewrite cursor_read_exact_app by lia. by destruct p.
Qed.

Lemma deserialize_ok_frame data p :
  deserialize data = Ok p →
  ∃ pad rest, data = frame p pad ++ rest ∧ len pad ≤ 255 ∧
              2 + len (payload p) + len pad ≤ MAX_PACKET_SIZE.
Proof.
  unfold deserialize. case_decide as H6; [done|]. intros H.
  destruct (cursor_read_be 4 data) as [[pl c]| | |] eqn:E; simpl in H; simplify_eq.
  apply cursor_read_be_ok in E as [-> Hpl]. rewrite u32_256 in Hpl.
  case_decide as Hm; [done|]. case_decide as Hi; [done|].
  destruct c as [|padl c]; simpl in H; [done|].
  case_decide as Hp; [done|]. pose proof (b2z_range padl).
  rewrite usize_sub_small in H by lia. simpl in H.
  rewrite usize_sub_small in H by lia. simpl in H.
  case_decide as Hz; [done|]. destruct c as [|mt c]; simpl in H; [done|].
  rewrite usize_sub_small in H by lia. simpl in H.
  rewrite vec_zeroed_small in H by (unfold ISIZE_MAX, MAX_PACKET_SIZE in *; lia). simpl in H.
  rewrite len_replicate in H by lia.
  destruct (cursor_read_exact (pl - 1 - b2z padl - 1) c) as [[pay r]| | |] eqn:E; simpl in H; simplify_eq.
  apply cursor_read_exact_ok in E as [-> Hlen]; [|lia].
  exists (take (Z.to_nat (b2z padl)) r), (drop (Z.to_nat (b2z padl)) r).
  assert (Hr : len (take (Z.to_nat (b2z padl)) r) = b2z padl).
  { apply len_take. split; [lia|]. len_lia. }
  rewrite frame_app. cbn [payload msg_type]. rewrite Hr, Hlen. split; [|lia].
  replace (2 + (pl - 1 - b2z padl - 1) + b2z padl) with pl by lia.
  rewrite u8_b2z, take_drop. done.
Qed.
End framing.

(** ** Multi-precision integers *)

Lemma high_bit b : Z.land (b2z b) 128 ≠ 0 ↔ 128 ≤ b2z b.
Proof.
  assert (H : (Z.land (b2z b) 128 =? 0) = negb (128 <=? b2z b)) by (destruct b; reflexivity).
  destruct (Z.eqb_spec (Z.land (b2z b) 128) 0), (Z.leb_spec 128 (b2z b)); simpl in H;
    try done; lia.
Qed.

Lemma be_decode_cons0 r : be_decode (x00 :: r) = be_decode r.
Proof. change (x00 :: r) with ([x00] ++ r). rewrite be_decode_app. change (be_decode [x00]) with 0. lia. Qed.

(** The bytes [write_mpint] puts after the length. *)
Definition mpint_strip (val : bytes) : bytes :=
  match position_nonzero val with Some pos => drop pos val | None => [x00] end.

Definition mpint_body (val : bytes) : bytes :=
  let stripped := mpint_strip val in
  if decide (Z.land (b2z (hd x00 stripped)) 128 ≠ 0) then x00 :: stripped else stripped.

Lemma mpint_strip_spec val :
  be_decode (mpint_strip val) = be_decode val ∧
  (mpint_strip val = [x00] ∨ ∃ b r, mpint_strip val = b :: r ∧ b ≠ x00) ∧
  len (mpint_strip val) ≤ Z.max 1 (len val).
Proof.
  unfold mpint_strip. induction val as [|b val IH]; cbn [position_nonzero].
  - split; [done|]. split; [by left|done].
  - rewrite len_cons. case_decide as Hb.
    { cbn [drop]. split; [done|]. split; [right; eauto|rewrite len_cons; lia]. }
    assert (b = x00) as -> by (destruct (decide (b = x00)); tauto).
    rewrite be_decode_cons0. destruct (position_nonzero val) as [n|]; simpl;
      destruct IH as (E & Hs & Hl); pose proof (len_nonneg val); (split; [done|]; split; [done|lia]).
Qed.

Lemma write_mpint_enc buf val : write_mpint buf val = buf ++ enc_string (mpint_body val).
Proof.
  unfold write_mpint, mpint_body. fold (mpint_strip val). case_decide; unfold enc_string.
  - rewrite len_cons, <- !app_assoc. simpl. by rewrite Z.add_comm.
  - by rewrite <- app_assoc.
Qed.

Lemma len_mpint_body val : len (mpint_body val) ≤ 2 + len val.
Proof.
  pose proof (mpint_strip_spec val) as (_ & _ & ?). pose proof (len_nonneg val).
  unfold mpint_body. case_decide; [rewrite len_cons|]; lia.
Qed.

Lemma be_decode_mpint_body val : be_decode (mpint_body val) = be_decode val.
Proof.
  destruct (mpint_strip_spec val) as (E & _). unfold mpint_body.
  case_decide; [rewrite be_decode_cons0|]; done.
Qed.

(** ** Properties of the packet codec *)

(** C14.  Round trip: whatever [serialize] produces, for any random padding and
    any block size up to 252, [deserialize] reads back as the same packet, also
    when more stream data follows the frame. *)
Theorem serialize_deserialize {R} `{!Rng R, !RngLaws R} `{profile : !BuildProfile}
    (p : SshPacket) (block_size : Z) (rng rng' : R) (data trailing : bytes) :
  block_size ≤ 252 →
  serialize p block_size rng = (Ok data, rng') →
  deserialize (data ++ trailing) = Ok p.
Proof.
  intros Hb Hs. destruct (decide (fits block_size p)) as [Hf|Hf].
  - destruct (serialize_fits p block_size rng Hf) as [E Hl]. rewrite E in Hs. simplify_eq.
    unfold fits in Hf. pose proof (len_nonneg (payload p)).
    pose proof (padding_len_spec (Z.max block_size 8) (1 + len (payload p)) ltac:(lia) ltac:(lia)).
    unfold MIN_PADDING in *. apply deserialize_frame; lia.
  - destruct (serialize_too_large p block_size rng Hf) as [s E]. congruence.
Qed.

Lemma serialize_deserialize_witness :
  ∃ data rng', serialize (mkPacket x02 [x01; x02; x03; x04]) 8 (7 : Z) = (Ok data, rng') ∧
    @deserialize true (data ++ [xff]) = Ok (mkPacket x02 [x01; x02; x03; x04]).
Proof.
  eexists _, _. split; [vm_compute; reflexivity|].
  eapply (@serialize_deserialize Z ref_rng ref_rng_laws true _ 8 7); [lia|vm_compute; reflexivity].
Defined.

(** C40.  What [serialize] emits, for every packet and block size up to 252: when
    the packet fits the 35000-byte limit, a frame whose length field, padding
    length and contents are consistent, with 4 to 255 bytes of padding and the
    part after the length field a multiple of the block size; otherwise an
    [InvalidPacket] error and no random bytes drawn. *)
Theorem serialize_shape {R} `{!Rng R, !RngLaws R} (p : SshPacket) (block_size : Z) (rng : R) :
  block_size ≤ 252 →
  (fits block_size p ∧ ∃ pad rng',
     serialize p block_size rng = (Ok (frame p pad), rng') ∧
     4 ≤ len pad ≤ 255 ∧
     (len (frame p pad) - 4) mod Z.max block_size 8 = 0 ∧
     len (frame p pad) ≤ 4 + MAX_PACKET_SIZE)
  ∨ (¬ fits block_size p ∧ ∃ s, serialize p block_size rng = (Err (InvalidPacket s), rng)).
Proof.
  intros Hb. destruct (decide (fits block_size p)) as [Hf|Hf]; [left|right].
  2: { split; [done|by apply serialize_too_large]. }
  split; [done|]. destruct (serialize_fits p block_size rng Hf) as [E Hl].
  eexists _, _. split; [exact E|]. unfold fits in Hf. pose proof (len_nonneg (payload p)).
  pose proof (padding_len_spec (Z.max block_size 8) (1 + len (payload p)) ltac:(lia) ltac:(lia)) as [? Hm].
  unfold MIN_PADDING in *. rewrite len_frame, Hl. split; [lia|]. split; [|lia].
  rewrite <- Hm. f_equal. lia.
Qed.

Lemma serialize_shape_witness :
  (fits 16 (mkPacket x04 (replicate 13 x00)) ∧ ∃ pad rng',
     serialize (mkPacket x04 (replicate 13 x00)) 16 (0 : Z) =
       (Ok (frame (mkPacket x04 (replicate 13 x00)) pad), rng') ∧
     4 ≤ len pad ≤ 255 ∧
     (len (frame (mkPacket x04 (replicate 13 x00)) pad) - 4) mod Z.max 16 8 = 0 ∧
     len (frame (mkPacket x04 (replicate 13 x00)) pad) ≤ 4 + MAX_PACKET_SIZE)
  ∨ (¬ fits 16 (mkPacket x04 (replicate 13 x00)) ∧
     ∃ s, serialize (mkPacket x04 (replicate 13 x00)) 16 (0 : Z) = (Err (InvalidPacket s), 0)).
Proof. apply (serialize_shape (mkPacket x04 (replicate 13 x00)) 16 (0 : Z)). lia. Defined.

(** [deserialize] never panics, underflows or reports an I/O error. *)
Lemma deserialize_cases `{profile : !BuildProfile} (data : bytes) :
  (∃ p, deserialize data = Ok p) ∨ (∃ s, deserialize data = Err (InvalidPacket s)).
Proof.
  unfold deserialize. case_decide as H6; [by eauto|].
  destruct (cursor_read_be 4 data) as [[pl c]|e|s|] eqn:E;
    [|unfold cursor_read_be, cursor_read_exact in E; rewrite decide_True in E by lia; done..].
  apply cursor_read_be_ok in E as [-> Hpl]. rewrite u32_256 in Hpl. cbn [map_err mbind outcome_bind].
  case_decide as Hm; [by eauto|]. case_decide as Hi; [by eauto|].
  destruct c as [|padl c]; [len_lia|]. cbn [map_err mbind outcome_bind cursor_read_u8].
  case_decide as Hp; [by eauto|]. pose proof (b2z_range padl).
  rewrite usize_sub_small by lia. cbn [mbind outcome_bind].
  rewrite usize_sub_small by lia. cbn [mbind outcome_bind].
  case_decide as Hz; [by eauto|]. destruct c as [|mt c]; [len_lia|].
  cbn [map_err mbind outcome_bind cursor_read_u8].
  rewrite usize_sub_small by lia. cbn [mbind outcome_bind].
  rewrite vec_zeroed_small by (unfold ISIZE_MAX, MAX_PACKET_SIZE in *; lia). cbn [mbind outcome_bind].
  rewrite len_replicate by lia. unfold cursor_read_exact.
  rewrite decide_True by len_lia. cbn [map_err mbind outcome_bind]. eauto.
Qed.

(** C15.  [deserialize] accepts exactly the frames: it answers [Ok p] if and only
    if the data starts with a length field, a padding length, the message number
    and payload of [p] and that many padding bytes, all within the 35000-byte
    limit; on any other bytes, in a debug or a release build, it answers an
    [InvalidPacket] error: it never panics, underflows or reports an I/O error. *)
Theorem deserialize_iff `{profile : !BuildProfile} (data : bytes) :
  (∀ p, deserialize data = Ok p ↔
     ∃ pad rest, data = frame p pad ++ rest ∧ len pad ≤ 255 ∧
                 2 + len (payload p) + len pad ≤ MAX_PACKET_SIZE) ∧
  ((∃ p, deserialize data = Ok p) ∨ (∃ s, deserialize data = Err (InvalidPacket s))).
Proof.
  split; [|apply deserialize_cases]. intros p. split; [apply deserialize_ok_frame|].
  intros (pad & rest & -> & ? & ?). by apply deserialize_frame.
Qed.

(** The padding length is a [u8], and [serialize] does not check it: with a
    block size above 255 the stored length wraps and the packet cannot be read
    back as itself. *)
Theorem serialize_large_block_corrupts :
  ∃ p data rng', serialize p 1024 (0 : Z) = (Ok data, rng') ∧
    ∀ profile, @deserialize profile data ≠ Ok p.
Proof.
  exists (mkPacket x02 [x01]). eexists _, _. split; [vm_compute; reflexivity|].
  intros profile. by destruct profile; vm_compute.
Qed.

(** [write_mpint] emits the canonical mpint: [read_mpint] reads back a
    non-empty big-endian number equal to the input's, whose sign bit is clear and
    which has no redundant leading zero byte. *)
Theorem write_mpint_canonical `{profile : !BuildProfile} (val rest : bytes) :
  len val ≤ MAX_PACKET_SIZE - 2 →
  ∃ b m, read_mpint (write_mpint [] val ++ rest) = Ok (b :: m, rest) ∧
    be_decode (b :: m) = be_decode val ∧ b2z b < 128 ∧
    (b = x00 → m = [] ∨ ∃ c r, m = c :: r ∧ 128 ≤ b2z c).
Proof.
  intros Hl. rewrite write_mpint_enc. unfold read_mpint.
  pose proof (len_mpint_body val). rewrite app_nil_l.
  rewrite read_string_encode by (unfold wire_string; lia).
  destruct (mpint_strip_spec val) as (E & Hs & _). unfold mpint_body.
  destruct Hs as [Hs|(b & r & Hs & Hb)]; rewrite Hs in *; cbn [hd].
  - rewrite decide_False by (rewrite high_bit; change (b2z x00) with 0; lia).
    exists x00, []. repeat split; eauto.
  - pose proof (high_bit b). case_decide as Hd.
    + exists x00, (b :: r). rewrite be_decode_cons0. repeat split; try done.
      intros _. right. exists b, r. split; [done|lia].
    + exists b, r. repeat split; [done|lia|done].
Qed.

Lemma write_mpint_canonical_witness :
  ∃ b m, @read_mpint true (write_mpint [] [x00; x80; x01] ++ [xff]) = Ok (b :: m, [xff]) ∧
    be_decode (b :: m) = be_decode [x00; x80; x01] ∧ b2z b < 128 ∧
    (b = x00 → m = [] ∨ ∃ c r, m = c :: r ∧ 128 ≤ b2z c).
Proof. apply (@write_mpint_canonical true). by vm_compute. Defined.

(** Name lists round trip: a list of comma-free UTF-8 names (other than the
    one-element list of the empty name, which encodes like the empty list) is
    read back unchanged. *)
Theorem name_list_roundtrip `{profile : !BuildProfile} (names : list bytes) (rest : bytes) :
  Forall (λ s, (comma ∉ s) ∧ utf8_valid s = true) names → names ≠ [[]] →
  len (join_str comma names) ≤ MAX_PACKET_SIZE →
  read_name_list (write_name_list [] names ++ rest) = Ok (names, rest).
Proof.
  intros [Hc Hv]%Forall_and Hne Hl. rewrite write_name_list_enc, app_nil_l.
  unfold read_name_list. rewrite read_utf8_encode by (split; [done|by apply utf8_valid_join]).
  cbn [mbind outcome_bind]. case_decide as E.
  - by destruct (join_empty _ _ E) as [->|].
  - rewrite split_join; [done| |done]. by intros ->.
Qed.

Lemma name_list_roundtrip_witness :
  @read_name_list false (write_name_list [] [bs "aes256-ctr"; bs "aes128-ctr"] ++ []) =
  Ok ([bs "aes256-ctr"; bs "aes128-ctr"], []).
Proof.
  apply (@name_list_roundtrip false).
  - by_eval.
  - done.
  - by vm_compute.
Defined.

(** [read_utf8] accepts exactly the encodings of strings of at most 35000
    bytes that are valid UTF-8, returns that string and leaves the cursor after
    it; it never panics. *)
Theorem read_utf8_spec `{profile : !BuildProfile} (cursor : bytes) :
  returns (read_utf8 cursor) = true ∧
  ∀ s rest, read_utf8 cursor = Ok (s, rest) ↔
    cursor = write_utf8 [] s ++ rest ∧ len s ≤ MAX_PACKET_SIZE ∧ utf8_valid s = true.
Proof. split; [apply read_utf8_returns|]. intros s rest. apply read_utf8_ok. Qed.
