(* ===== verification/Crypto.v ===== *)
(** Ciphers, MACs and the key schedule ([src/crypto/mod.rs]). *)
From S2P Require Export Error Codec Extern.

(** ** [AesCipher] and [CipherPair] *)

Record AesCipher (C : Type) := mkAesCipher { cipher : C }.
#[global] Arguments mkAesCipher {C} cipher.
#[global] Arguments cipher {C} a.

Record CipherPair (C : Type) := mkCipherPair { encrypt : AesCipher C; decrypt : AesCipher C }.
#[global] Arguments mkCipherPair {C} encrypt decrypt.
#[global] Arguments encrypt {C} c.
#[global] Arguments decrypt {C} c.

Section ciphers.
Context {C : Type} `{!StreamCipher C}.

Definition AesCipher_new (key iv : bytes) : SshResult (AesCipher C) :=
  if decide (len key ≠ 32) then
    Err (Encryption ("AES-256 key must be 32 bytes, got " +:+ show_usize (len key)))
  else if decide (len iv ≠ 16) then
    Err (Encryption ("AES IV must be 16 bytes, got " +:+ show_usize (len iv)))
  else Ok (mkAesCipher (cipher_new key iv)).

(** [apply] works in place: it returns the transformed data and the advanced
    cipher. *)
Definition apply (c : AesCipher C) (data : bytes) : bytes * AesCipher C :=
  let '(data, s) := apply_keystream (cipher c) data in (data, mkAesCipher s).

Definition CipherPair_new (enc_key enc_iv dec_key dec_iv : bytes)
    : SshResult (CipherPair C) :=
  encrypt ← AesCipher_new enc_key enc_iv;
  decrypt ← AesCipher_new dec_key dec_iv;
  Ok (mkCipherPair encrypt decrypt).

Lemma AesCipher_new_ok key iv :
  len key = 32 → len iv = 16 → AesCipher_new key iv = Ok (mkAesCipher (cipher_new key iv)).
Proof. intros Hk Hi. unfold AesCipher_new. rewrite Hk, Hi. done. Qed.

Context `{!StreamCipherLaws C}.

Lemma apply_len c d : len (apply c d).1 = len d.
Proof.
  unfold apply. pose proof (apply_keystream_len (cipher c) d) as H.
  by destruct (apply_keystream (cipher c) d).
Qed.

Lemma apply_app c d e :
  apply c (d ++ e) = ((apply c d).1 ++ (apply (apply c d).2 e).1, (apply (apply c d).2 e).2).
Proof.
  unfold apply. rewrite apply_keystream_app.
  destruct (apply_keystream (cipher c) d) as [d' s]. simpl.
  by destruct (apply_keystream s e).
Qed.

Lemma apply_twice c d : apply c (apply c d).1 = (d, (apply c d).2).
Proof.
  unfold apply. pose proof (apply_keystream_twice (cipher c) d) as H.
  destruct (apply_keystream (cipher c) d) as [d' s]. simpl in *. by rewrite H.
Qed.

(** Decrypting a ciphertext in two pieces, as [recv_packet] does. *)
Lemma apply_pieces c d e1 e2 :
  (apply c d).1 = e1 ++ e2 →
  ∃ d1 d2 c1, apply c e1 = (d1, c1) ∧ apply c1 e2 = (d2, (apply c d).2) ∧
              d = d1 ++ d2 ∧ len d1 = len e1.
Proof.
  intros E. pose proof (apply_twice c d) as H. rewrite E, apply_app in H.
  destruct (apply c e1) as [d1 c1] eqn:E1. simpl in H.
  destruct (apply c1 e2) as [d2 c2] eqn:E2. simpl in H.
  exists d1, d2, c1. split; [done|]. simplify_eq. rewrite E2. repeat split; try congruence.
  pose proof (apply_len c e1) as Hl. by rewrite E1 in Hl.
Qed.
End ciphers.

(** ** HMAC *)

Definition compute_hmac `{!Hmac} (key data : bytes) : bytes := hmac_sha256 key data.

Definition verify_hmac `{!Hmac} (key data expected : bytes) : SshResult unit :=
  if hmac_verify_slice key data expected then Ok tt else Err MacMismatch.

Lemma verify_hmac_ok `{!Hmac, !HmacLaws} k d t :
  verify_hmac k d t = Ok tt ↔ t = compute_hmac k d.
Proof.
  unfold verify_hmac, compute_hmac. rewrite <- hmac_verify_iff.
  by destruct (hmac_verify_slice k d t).
Qed.

Lemma verify_hmac_bad `{!Hmac, !HmacLaws} k d t :
  t ≠ compute_hmac k d → verify_hmac k d t = Err MacMismatch.
Proof.
  intros Hn. destruct (hmac_verify_slice k d t) eqn:E; unfold verify_hmac; rewrite E; [|done].
  by apply hmac_verify_iff in E.
Qed.

(** ** The key schedule *)

Definition encode_mpint_for_hash (data : bytes) : bytes :=
  let stripped := match position_nonzero data with
                  | Some pos => drop pos data
                  | None => [x00]
                  end in
  let buf :=
    if decide (stripped = []) then be_encode 4 (as_u32 (len stripped + 1)) ++ [x00]
    else if decide (Z.land (b2z (hd x00 stripped)) 128 ≠ 0)
    then be_encode 4 (as_u32 (len stripped + 1)) ++ [x00]
    else be_encode 4 (as_u32 (len stripped)) in
  buf ++ stripped.

(** The [while key.len() < needed] loop; [prefix] is what every round hashes
    before the key material so far. *)
Fixpoint derive_rounds `{!Sha256} (fuel : nat) (prefix key : bytes) (needed : Z)
    : SshResult bytes :=
  if decide (len key < needed) then
    match fuel with
    | O => OutOfFuel
    | S fuel =>
        let k_n := sha256 (prefix ++ key) in
        derive_rounds fuel prefix (key ++ k_n) needed
    end
  else Ok key.

Definition derive_key `{!Sha256} (shared_secret exchange_hash : bytes) (key_char : byte)
    (session_id : bytes) (needed : Z) : SshResult bytes :=
  let k_mpint := encode_mpint_for_hash shared_secret in
  let k_n := sha256 (k_mpint ++ exchange_hash ++ [key_char] ++ session_id) in
  key ← derive_rounds (Z.to_nat needed) (k_mpint ++ exchange_hash) k_n needed;
  Ok (take (Z.to_nat needed) key).

(** RFC 4253 section 7.2: [K1 || K2 || ... || K(n+1)] where [K1] hashes the key
    letter and the session identifier, and [K(i+1)] hashes all earlier ones. *)
Fixpoint rfc_key_stream `{!Sha256} (k h : bytes) (x : byte) (session_id : bytes) (n : nat) : bytes :=
  match n with
  | O => sha256 (k ++ h ++ [x] ++ session_id)
  | S n => let ks := rfc_key_stream k h x session_id n in ks ++ sha256 (k ++ h ++ ks)
  end.

Section key_schedule.
Context `{sha_impl : !Sha256, sha_laws : !Sha256Laws}.

Lemma len_rfc_key_stream k h x sid n :
  len (rfc_key_stream k h x sid n) = 32 * (Z.of_nat n + 1).
Proof. induction n as [|n IH]; simpl; [by rewrite sha256_len|]. rewrite len_app, IH, sha256_len. lia. Qed.

Lemma rfc_key_stream_prefix k h x sid n m :
  (n ≤ m)%nat → ∃ r, rfc_key_stream k h x sid m = rfc_key_stream k h x sid n ++ r.
Proof.
  induction 1 as [|m _ [r IH]]; [exists []; by rewrite app_nil_r|].
  simpl. rewrite IH, <- app_assoc. eauto.
Qed.

(** The loop computes a sufficiently long part of the RFC's stream. *)
Lemma derive_rounds_stream fuel k h x sid n needed :
  needed ≤ len (rfc_key_stream k h x sid n) + 32 * Z.of_nat fuel →
  ∃ m, (n ≤ m)%nat ∧ needed ≤ len (rfc_key_stream k h x sid m) ∧
    derive_rounds fuel (k ++ h) (rfc_key_stream k h x sid n) needed =
    Ok (rfc_key_stream k h x sid m).
Proof.
  revert n. induction fuel as [|fuel IH]; intros n Hn; cbn [derive_rounds].
  - rewrite decide_False by lia. exists n. split; [lia|]. split; [lia|done].
  - case_decide as Hd; [|exists n; split; [lia|]; split; [lia|done]].
    destruct (IH (S n)) as (m & Hm & Hl & E); [rewrite !len_rfc_key_stream in *; lia|].
    exists m. split; [lia|]. split; [done|]. rewrite <- E. simpl. by rewrite <- !app_assoc.
Qed.

Lemma derive_key_stream secret h x sid needed n :
  0 ≤ needed ≤ 32 * (Z.of_nat n + 1) →
  derive_key secret h x sid needed =
  Ok (take (Z.to_nat needed) (rfc_key_stream (encode_mpint_for_hash secret) h x sid n)).
Proof.
  intros Hn. unfold derive_key. set (k := encode_mpint_for_hash secret).
  destruct (derive_rounds_stream (Z.to_nat needed) k h x sid 0 needed) as (m & _ & Hl & E);
    [rewrite len_rfc_key_stream; lia|].
  change (rfc_key_stream k h x sid 0) with (sha256 (k ++ h ++ [x] ++ sid)) in E. rewrite E. cbn [mbind outcome_bind]. f_equal.
  destruct (Nat.le_ge_cases n m) as [Hnm|Hnm];
    destruct (rfc_key_stream_prefix k h x sid _ _ Hnm) as [r ->];
    rewrite take_app_le; try done;
    match goal with |- (_ ≤ length ?l)%nat => pose proof (len_rfc_key_stream k h x sid n);
      pose proof (len_rfc_key_stream k h x sid m) end; unfold len in *; lia.
Qed.

Lemma derive_key_len secret h x sid needed :
  0 ≤ needed → ∃ k, derive_key secret h x sid needed = Ok k ∧ len k = needed.
Proof.
  intros Hn. rewrite (derive_key_stream _ _ _ _ _ (Z.to_nat needed)) by lia.
  eexists. split; [done|]. apply len_take. rewrite len_rfc_key_stream. lia.
Qed.
End key_schedule.

(** ** Properties of the crypto module *)

(** The two mpint encoders agree: [encode_mpint_for_hash] produces exactly
    what [SshBuf::write_mpint] writes into an empty buffer, so both sides hash
    the shared secret the way the exchange hash encodes it. *)
Lemma encode_mpint_agree (data : bytes) : encode_mpint_for_hash data = write_mpint [] data.
Proof.
  unfold encode_mpint_for_hash, write_mpint. fold (mpint_strip data).
  destruct (mpint_strip_spec data) as (_ & [Hs|(b & r & Hs & _)] & _); rewrite Hs; done.
Qed.

(** C29.  The derivation loop ends and computes RFC 4253 section 7.2: for any
    requested length the key is exactly that many leading bytes of
    [K1 || K2 || ...], however many blocks of the stream are unrolled. *)
Theorem derive_key_rfc4253 `{!Sha256, !Sha256Laws} (shared_secret exchange_hash : bytes)
    (key_char : byte) (session_id : bytes) (needed : Z) (n : nat) :
  0 ≤ needed ≤ 32 * (Z.of_nat n + 1) →
  ∃ key, derive_key shared_secret exchange_hash key_char session_id needed = Ok key ∧
    len key = needed ∧
    key = take (Z.to_nat needed)
            (rfc_key_stream (write_mpint [] shared_secret) exchange_hash key_char session_id n).
Proof.
  intros Hn. destruct (derive_key_len shared_secret exchange_hash key_char session_id needed)
    as (k & E & Hl); [lia|].
  exists k. split; [done|]. split; [done|]. rewrite <- encode_mpint_agree.
  rewrite (derive_key_stream _ _ _ _ _ n Hn) in E. congruence.
Qed.

Lemma derive_key_rfc4253_witness :
  0 ≤ 64 ≤ 32 * (Z.of_nat 1 + 1) ∧
  ∃ key, derive_key [x01] [x02] x43 [x03] 64 = Ok key ∧ len key = 64 ∧
    key = take (Z.to_nat 64) (rfc_key_stream (write_mpint [] [x01]) [x02] x43 [x03] 1).
Proof. split; [lia|]. apply derive_key_rfc4253. lia. Defined.
