(* ===== verification/Session.v ===== *)
(** Per-connection key state and sequence numbers ([src/session/mod.rs]).  The
    [SessionState] enum of that file is declared and never used. *)
From S2P Require Export Crypto.

Record SessionKeys (C : Type) := mkKeys {
  send_seq : Z;
  recv_seq : Z;
  session_id : option bytes;
  ciphers : option (CipherPair C);
  send_mac_key : option bytes;
  recv_mac_key : option bytes
}.
#[global] Arguments mkKeys {C} _ _ _ _ _ _.
#[global] Arguments send_seq {C} _.
#[global] Arguments recv_seq {C} _.
#[global] Arguments session_id {C} _.
#[global] Arguments ciphers {C} _.
#[global] Arguments send_mac_key {C} _.
#[global] Arguments recv_mac_key {C} _.

Section session.
Context {C : Type}.

Definition SessionKeys_new : SessionKeys C := mkKeys 0 0 None None None None.

Definition next_send_seq (k : SessionKeys C) : Z * SessionKeys C :=
  (send_seq k,
   mkKeys (u32_wrapping_add (send_seq k) 1) (recv_seq k) (session_id k) (ciphers k)
          (send_mac_key k) (recv_mac_key k)).

Definition next_recv_seq (k : SessionKeys C) : Z * SessionKeys C :=
  (recv_seq k,
   mkKeys (send_seq k) (u32_wrapping_add (recv_seq k) 1) (session_id k) (ciphers k)
          (send_mac_key k) (recv_mac_key k)).

Definition is_encrypted (k : SessionKeys C) : bool :=
  match ciphers k with Some _ => true | None => false end.

(** [keys.ciphers = ciphers]: a write through [if let Some(ref mut ciphers)]. *)
Definition set_ciphers (c : option (CipherPair C)) (k : SessionKeys C) : SessionKeys C :=
  mkKeys (send_seq k) (recv_seq k) (session_id k) c (send_mac_key k) (recv_mac_key k).

(** The four assignments both ends make once the session keys are derived. *)
Definition install_keys (sid : bytes) (cp : CipherPair C) (send_mac recv_mac : bytes)
    (k : SessionKeys C) : SessionKeys C :=
  mkKeys (send_seq k) (recv_seq k) (Some sid) (Some cp) (Some send_mac) (Some recv_mac).

(** After [n] packets sent from a fresh session the sequence number is [n]
    modulo 2^32, so the counter wraps exactly as RFC 4253 section 6.4 asks, and
    the receive counter has not moved. *)
Theorem send_seq_after (n : nat) :
  send_seq (Nat.iter n (λ k, (next_send_seq k).2) SessionKeys_new) = Z.of_nat n mod U32 ∧
  recv_seq (Nat.iter n (λ k, (next_send_seq k).2) SessionKeys_new) = 0.
Proof.
  induction n as [|n IH]; [done|]. rewrite !Nat.iter_succ.
  revert IH. generalize (Nat.iter n (λ k, (next_send_seq k).2) SessionKeys_new).
  intros k [IHs IHr]. cbn [next_send_seq snd send_seq recv_seq]. split; [|exact IHr].
  unfold u32_wrapping_add. rewrite IHs, Zplus_mod_idemp_l. f_equal. lia.
Qed.
End session.
