(* ===== verification/Transport.v ===== *)
(** Packet I/O over a byte stream ([src/transport/io.rs]): [send_packet],
    [recv_packet], and the version strings.

    A reader is the bytes the peer will have sent and the error that ends them
    ([UnexpectedEof] when the peer closes); a writer is the bytes written so far
    and, for a connection that breaks, how many more it takes and the error it
    then reports.  [Link] is what [send_packet] and [recv_packet] are lent: the
    two halves of the stream, the session keys and the thread's generator. *)
From S2P Require Export Session.

(** ** Streams *)

Record Reader := mkReader { rd_data : bytes; rd_end : io_error }.
Record Writer := mkWriter { wr_out : bytes; wr_fault : option (Z * io_error) }.

(** [AsyncReadExt::read_exact] into a buffer of [n] bytes. *)
Definition read_exact (n : Z) (r : Reader) : outcome io_error bytes * Reader :=
  if decide (n ≤ len (rd_data r)) then
    (Ok (take (Z.to_nat n) (rd_data r)), mkReader (drop (Z.to_nat n) (rd_data r)) (rd_end r))
  else (Err (rd_end r), mkReader [] (rd_end r)).

(** [AsyncWriteExt::write_all] followed by the [flush] that ends each message. *)
Definition write_all (data : bytes) (w : Writer) : outcome io_error unit * Writer :=
  match wr_fault w with
  | None => (Ok tt, mkWriter (wr_out w ++ data) None)
  | Some (room, e) =>
      if decide (len data ≤ room)
      then (Ok tt, mkWriter (wr_out w ++ data) (Some (room - len data, e)))
      else (Err e, mkWriter (wr_out w ++ take (Z.to_nat room) data) (Some (0, e)))
  end.

Record Link (C R : Type) := mkLink {
  lk_reader : Reader;
  lk_writer : Writer;
  lk_keys : SessionKeys C;
  lk_rng : R
}.
#[global] Arguments mkLink {C R} _ _ _ _.
#[global] Arguments lk_reader {C R} _.
#[global] Arguments lk_writer {C R} _.
#[global] Arguments lk_keys {C R} _.
#[global] Arguments lk_rng {C R} _.

Section transport.
Context {C R : Type} `{!StreamCipher C, hmac_impl : !Hmac, !Rng R}.
Abbreviation link := (Link C R).
Abbreviation net := (io SshError link).

Definition on_reader {A} (f : Reader → outcome io_error A * Reader)
    (wrap : io_error → SshError) : net A := λ l,
  let '(a, r) := f (lk_reader l) in
  (map_err wrap a, mkLink r (lk_writer l) (lk_keys l) (lk_rng l)).

Definition on_writer {A} (f : Writer → outcome io_error A * Writer) : net A := λ l,
  let '(a, w) := f (lk_writer l) in
  (map_err Io a, mkLink (lk_reader l) w (lk_keys l) (lk_rng l)).

Definition on_keys {A} (f : SessionKeys C → A * SessionKeys C) : net A := λ l,
  let '(a, k) := f (lk_keys l) in (Ok a, mkLink (lk_reader l) (lk_writer l) k (lk_rng l)).

Definition on_rng {A} (f : R → SshResult A * R) : net A := λ l,
  let '(a, r) := f (lk_rng l) in (a, mkLink (lk_reader l) (lk_writer l) (lk_keys l) r).

(** [if let Some(ref mut ciphers) = keys.ciphers { ciphers.encrypt.apply(data) }]. *)
Definition encrypt_data (data : bytes) (k : SessionKeys C) : bytes * SessionKeys C :=
  match ciphers k with
  | Some cp =>
      let '(data, e) := apply (encrypt cp) data in
      (data, set_ciphers (Some (mkCipherPair e (decrypt cp))) k)
  | None => (data, k)
  end.

Definition decrypt_data (data : bytes) (k : SessionKeys C) : bytes * SessionKeys C :=
  match ciphers k with
  | Some cp =>
      let '(data, d) := apply (decrypt cp) data in
      (data, set_ciphers (Some (mkCipherPair (encrypt cp) d)) k)
  | None => (data, k)
  end.

Definition block_size_of (k : SessionKeys C) : Z :=
  if is_encrypted k then AES_BLOCK_SIZE else 8.

(** The MAC input: the sequence number and the unencrypted packet. *)
Definition mac_data (seq : Z) (data : bytes) : bytes := be_encode 4 seq ++ data.

Definition eof_is_closed (e : io_error) : SshError :=
  match e with UnexpectedEof => ConnectionClosed | _ => Io e end.

Definition send_packet (packet : SshPacket) : net unit :=
  block_size ← gets (λ l, block_size_of (lk_keys l));
  data ← on_rng (serialize packet block_size);
  seq ← on_keys next_send_seq;
  mac_key ← gets (λ l, send_mac_key (lk_keys l));
  let mac := (λ mac_key, compute_hmac mac_key (mac_data seq data)) <$> mac_key in
  data ← on_keys (encrypt_data data);
  on_writer (write_all data);;
  match mac with
  | Some mac => on_writer (write_all mac)
  | None => mret tt
  end.

Context `{profile : !BuildProfile}.

(** Once the first block is decrypted: check the length it announces, read and
    decrypt the rest of the frame. *)
Definition recv_rest (block_size : Z) (first_block : bytes) : net bytes :=
  let packet_length := be_decode (take 4 first_block) in
  if decide (packet_length > MAX_PACKET_SIZE) then
    fail (InvalidPacket ("Packet length too large: " +:+ show_usize packet_length)) else
  let total := 4 + packet_length in
  remaining ← lift (usize_sub total block_size);
  rest ← lift (vec_zeroed remaining);
  rest ← (if decide (remaining > 0) then
            rest ← on_reader (read_exact (len rest)) Io;
            on_keys (decrypt_data rest)
          else mret rest);
  mret (first_block ++ rest).

(** The first half of [recv_packet]: read and decrypt one frame. *)
Definition recv_frame : net bytes :=
  block_size ← gets (λ l, block_size_of (lk_keys l));
  first_block ← on_reader (read_exact block_size) eof_is_closed;
  first_block ← on_keys (decrypt_data first_block);
  recv_rest block_size first_block.

(** The second half: count the packet and verify its MAC. *)
Definition check_mac (full_data : bytes) : net unit :=
  seq ← on_keys next_recv_seq;
  mac_key ← gets (λ l, recv_mac_key (lk_keys l));
  match mac_key with
  | Some mac_key =>
      mac_buf ← on_reader (read_exact HMAC_SHA256_SIZE) Io;
      lift (verify_hmac mac_key (mac_data seq full_data) mac_buf)
  | None => mret tt
  end.

Definition recv_packet : net SshPacket :=
  full_data ← recv_frame;
  check_mac full_data;;
  lift (deserialize full_data).

(** ** Version strings *)

Definition crlf : bytes := [x0d; x0a].

Definition send_version_string (version : bytes) : net unit :=
  on_writer (write_all (version ++ crlf)).

(** [buf.ends_with(b"\r\n")]. *)
Definition ends_with (suffix buf : bytes) : bool :=
  bool_decide (drop (length buf - length suffix) buf = suffix ∧
               (length suffix ≤ length buf)%nat).

Definition starts_with (prefix buf : bytes) : bool :=
  bool_decide (take (length prefix) buf = prefix).

(** The byte-by-byte loop: [buf] is what has been read. *)
Fixpoint recv_version_loop (fuel : nat) (buf : bytes) : net bytes :=
  match fuel with
  | O => λ l, (OutOfFuel, l)
  | S fuel =>
      byte ← on_reader (read_exact 1) eof_is_closed;
      let buf := buf ++ byte in
      if decide (len buf > 255) then fail (Protocol "Version string too long")
      else if ends_with crlf buf then mret buf
      else recv_version_loop fuel buf
  end.

Definition recv_version_string : net bytes :=
  buf ← recv_version_loop 256 [];
  let buf := take (length buf - 2) buf in
  match from_utf8 buf with
  | None => fail (Protocol "Invalid UTF-8 in version string")
  | Some version =>
      if negb (starts_with (bs "SSH-2.0-") version) then
        fail (Protocol ("Unsupported protocol version: " +:+ show_bytes version))
      else mret version
  end.
End transport.

(** ** What a packet looks like on the wire *)

Section sealing.
Context {C : Type} `{!StreamCipher C, hmac_impl : !Hmac}.

(** The bytes [send_packet] writes for the serialized [data], and the keys it
    leaves behind. *)
Definition seal (data : bytes) (k : SessionKeys C) : bytes * SessionKeys C :=
  let '(seq, k1) := next_send_seq k in
  let mac := match send_mac_key k with
             | Some mk => compute_hmac mk (mac_data seq data)
             | None => []
             end in
  let '(ct, k2) := encrypt_data data k1 in
  (ct ++ mac, k2).

(** What the sending and the receiving direction of a session depend on. *)
Definition send_side (k : SessionKeys C) : Z * option bytes * option (AesCipher C) :=
  (send_seq k, send_mac_key k, encrypt <$> ciphers k).
Definition recv_side (k : SessionKeys C) : Z * option bytes * option (AesCipher C) :=
  (recv_seq k, recv_mac_key k, decrypt <$> ciphers k).

(** The receiver's keys match the sender's: same sequence number, same MAC key,
    and the receiving cipher in the state of the sending one. *)
Definition keys_synced (ks kr : SessionKeys C) : Prop :=
  send_side ks = recv_side kr ∧ is_u32 (send_seq ks).

Lemma keys_synced_block ks kr :
  keys_synced ks kr → block_size_of kr = block_size_of ks.
Proof.
  intros [E _]. unfold block_size_of, is_encrypted, send_side, recv_side in *.
  destruct (ciphers ks), (ciphers kr); done.
Qed.

Lemma block_size_range (k : SessionKeys C) : 8 ≤ block_size_of k ≤ 16.
Proof. unfold block_size_of, AES_BLOCK_SIZE. destruct is_encrypted; lia. Qed.

Context `{!StreamCipherLaws C, hmac_laws : !HmacLaws}.

Lemma encrypt_data_len data (k : SessionKeys C) : len (encrypt_data data k).1 = len data.
Proof.
  unfold encrypt_data. destruct (ciphers k) as [cp|]; [|done].
  pose proof (apply_len (encrypt cp) data). by destruct (apply (encrypt cp) data).
Qed.

Definition same_but_ciphers (k k' : SessionKeys C) : Prop :=
  send_seq k' = send_seq k ∧ recv_seq k' = recv_seq k ∧
  send_mac_key k' = send_mac_key k ∧ recv_mac_key k' = recv_mac_key k ∧
  session_id k' = session_id k.

Lemma encrypt_data_same data (k : SessionKeys C) :
  same_but_ciphers k (encrypt_data data k).2 ∧
  decrypt <$> ciphers (encrypt_data data k).2 = decrypt <$> ciphers k.
Proof.
  unfold encrypt_data. destruct (ciphers k) as [cp|] eqn:E; [|by simpl; rewrite E].
  by destruct (apply (encrypt cp) data).
Qed.

Lemma decrypt_data_same data (k : SessionKeys C) :
  same_but_ciphers k (decrypt_data data k).2 ∧
  encrypt <$> ciphers (decrypt_data data k).2 = encrypt <$> ciphers k.
Proof.
  unfold decrypt_data. destruct (ciphers k) as [cp|] eqn:E; [|by simpl; rewrite E].
  by destruct (apply (decrypt cp) data).
Qed.

Lemma decrypt_data_twice_same e1 e2 d1 d2 (k k1 k2 : SessionKeys C) :
  decrypt_data e1 k = (d1, k1) → decrypt_data e2 k1 = (d2, k2) →
  same_but_ciphers k k2 ∧ encrypt <$> ciphers k2 = encrypt <$> ciphers k.
Proof.
  intros E1 E2.
  pose proof (decrypt_data_same e1 k) as [S1 T1]. rewrite E1 in S1, T1.
  pose proof (decrypt_data_same e2 k1) as [S2 T2]. rewrite E2 in S2, T2.
  unfold same_but_ciphers in *. simpl in *. destruct_and!. repeat split; congruence.
Qed.

(** Sending does not touch the receiving direction. *)
Lemma seal_recv_side data (k : SessionKeys C) : recv_side (seal data k).2 = recv_side k.
Proof.
  unfold seal, recv_side. cbn [next_send_seq].
  set (k1 := mkKeys _ _ _ _ _ _). destruct (encrypt_data_same data k1) as [(_ & Hr & _ & Hm & _) Hc].
  destruct (encrypt_data data k1) as [ct k2]. cbn [snd] in *. by rewrite Hr, Hm, Hc.
Qed.

(** Decryption in two pieces undoes the encryption of the whole. *)
Lemma decrypt_pieces data e1 e2 (ks kr : SessionKeys C) :
  encrypt <$> ciphers ks = decrypt <$> ciphers kr →
  (encrypt_data data ks).1 = e1 ++ e2 →
  ∃ d1 d2 k1 k2,
    decrypt_data e1 kr = (d1, k1) ∧ decrypt_data e2 k1 = (d2, k2) ∧
    data = d1 ++ d2 ∧ len d1 = len e1 ∧
    encrypt <$> ciphers (encrypt_data data ks).2 = decrypt <$> ciphers k2.
Proof.
  unfold encrypt_data, decrypt_data.
  destruct (ciphers ks) as [cs|] eqn:Es, (ciphers kr) as [cr|] eqn:Er;
    intros Hs E; try done.
  - destruct (apply (encrypt cs) data) as [ct c'] eqn:Ea. simpl in E, Hs. simplify_eq.
    destruct (apply_pieces (encrypt cs) data e1 e2) as (d1 & d2 & c1 & E1 & E2 & -> & Hl);
      [by rewrite Ea|].
    rewrite <- Hs, E1. eexists d1, d2, _, _. split; [done|]. simpl. rewrite E2, Ea. by simpl.
  - simpl in E. exists e1, e2, kr, kr. simpl. rewrite Es, Er. by repeat split.
Qed.
End sealing.

Section delivery.
Context {C R : Type} `{!StreamCipher C, !StreamCipherLaws C, hmac_impl : !Hmac, hmac_laws : !HmacLaws}
  `{!Rng R, !RngLaws R} `{profile : !BuildProfile}.
Abbreviation link := (Link C R).

Lemma read_exact_app n a b e :
  n = len a → read_exact n (mkReader (a ++ b) e) = (Ok a, mkReader b e).
Proof.
  intros ->. unfold read_exact. simpl. rewrite decide_True by len_lia.
  by rewrite take_len_app, drop_len_app.
Qed.

Lemma on_reader_app n a b e wrap w k r :
  n = len a →
  on_reader (read_exact n) wrap (mkLink (mkReader (a ++ b) e) w k r : link) =
  (Ok a, mkLink (mkReader b e) w k r).
Proof. intros ->. unfold on_reader. simpl. by rewrite read_exact_app. Qed.

(** One packet sent on a working connection. *)
Lemma send_packet_sealed p (k : SessionKeys C) (rng : R) :
  fits (block_size_of k) p →
  ∃ pad rng',
    len pad = padding_len (Z.max (block_size_of k) 8) (1 + len (payload p)) ∧
    ∀ (rd : Reader) out, send_packet p (mkLink rd (mkWriter out None) k rng) =
      (Ok tt, mkLink rd (mkWriter (out ++ (seal (frame p pad) k).1) None)
                     (seal (frame p pad) k).2 rng').
Proof.
  intros Hf. destruct (serialize_fits p _ rng Hf) as [E Hl].
  eexists _, _. split; [exact Hl|]. intros rd out. set (data := frame p _) in *.
  unfold send_packet. erewrite io_bind_run by done. cbn [lk_keys].
  erewrite io_bind_run by (unfold on_rng; cbn [lk_rng]; rewrite E; done).
  erewrite io_bind_run by done. cbn [lk_keys lk_writer lk_reader lk_rng].
  erewrite io_bind_run by done. unfold seal. cbn [next_send_seq lk_keys send_mac_key].
  set (k1 := mkKeys _ _ _ _ _ _). destruct (encrypt_data data k1) as [ct k2] eqn:Ee.
  erewrite io_bind_run by (unfold on_keys; cbn [lk_keys]; rewrite Ee; done).
  erewrite io_bind_run by (unfold on_writer; cbn; done). cbn [lk_writer lk_reader lk_keys lk_rng].
  destruct (send_mac_key k) as [mk|]; simpl.
  - unfold on_writer; cbn. by rewrite app_assoc.
  - by rewrite app_nil_r.
Qed.

(** Reading back an encrypted frame that the first block does not exhaust. *)
Lemma recv_frame_encrypted data (ks kr : SessionKeys C) :
  encrypt <$> ciphers ks = decrypt <$> ciphers kr →
  block_size_of kr < len data →
  be_decode (take 4 data) = len data - 4 → len data - 4 ≤ MAX_PACKET_SIZE →
  ∃ kr', (∀ rest e w (rng : R),
            recv_frame (mkLink (mkReader ((encrypt_data data ks).1 ++ rest) e) w kr rng) =
            (Ok data, mkLink (mkReader rest e) w kr' rng)) ∧
         encrypt <$> ciphers (encrypt_data data ks).2 = decrypt <$> ciphers kr' ∧
         same_but_ciphers kr kr' ∧ encrypt <$> ciphers kr' = encrypt <$> ciphers kr.
Proof.
  intros Hc Hblk Hfield Hmax. pose proof (block_size_range kr) as Hbr.
  set (n := block_size_of kr) in *. pose proof (encrypt_data_len data ks) as Hel.
  set (ct := (encrypt_data data ks).1) in *.
  pose proof (take_drop (Z.to_nat n) ct) as Hct.
  set (e1 := take (Z.to_nat n) ct) in *. set (e2 := drop (Z.to_nat n) ct) in *.
  assert (Hl1 : len e1 = n) by (apply len_take; lia).
  assert (Hl2 : len e2 = len data - n) by (unfold e2; rewrite len_drop; lia).
  destruct (decrypt_pieces data e1 e2 ks kr) as (d1 & d2 & k1 & k2 & E1 & E2 & Ed & Hd & Hc2);
    [done|done|].
  assert (Hpl : be_decode (take 4 d1) = len data - 4).
  { rewrite <- Hfield, Ed, take_app_le; [done|]. unfold len in *; lia. }
  exists k2. split; [|split; [done|by eapply decrypt_data_twice_same]]. intros rest e w rng.
  unfold recv_frame. erewrite io_bind_run by done. cbn [lk_keys]. fold n.
  rewrite <- Hct, <- app_assoc. erewrite io_bind_run by (by apply on_reader_app).
  erewrite io_bind_run by (unfold on_keys; cbn [lk_keys]; rewrite E1; done).
  cbn [lk_reader lk_writer lk_rng]. unfold recv_rest. rewrite Hpl, decide_False by lia.
  rewrite usize_sub_small by lia. erewrite io_bind_run by done.
  rewrite vec_zeroed_small by (unfold ISIZE_MAX, MAX_PACKET_SIZE in *; lia).
  erewrite io_bind_run by done. rewrite decide_True, len_replicate by lia.
  erewrite io_bind_run.
  2: { erewrite io_bind_run by (apply on_reader_app; lia).
       unfold on_keys. cbn [lk_keys]. by rewrite E2. }
  by rewrite Ed.
Qed.

Lemma check_mac_sealed data (k : SessionKeys C) rest e w (rng : R) :
  let mac := match recv_mac_key k with
             | Some mk => compute_hmac mk (mac_data (recv_seq k) data)
             | None => [] end in
  check_mac data (mkLink (mkReader (mac ++ rest) e) w k rng) =
  (Ok tt, mkLink (mkReader rest e) w (next_recv_seq k).2 rng).
Proof.
  intros mac. unfold check_mac. erewrite io_bind_run by done. erewrite io_bind_run by done.
  cbn [lk_keys recv_mac_key next_recv_seq]. subst mac.
  destruct (recv_mac_key k) as [mk|] eqn:E; [|by rewrite <- E].
  erewrite io_bind_run by (apply on_reader_app; symmetry; apply hmac_len).
  unfold lift. rewrite (proj2 (verify_hmac_ok _ _ _)) by done. cbn. by rewrite E.
Qed.

Lemma frame_length_field p pad :
  2 + len (payload p) + len pad ≤ MAX_PACKET_SIZE →
  be_decode (take 4 (frame p pad)) = len (frame p pad) - 4.
Proof.
  intros Hsz. rewrite len_frame. unfold frame.
  rewrite take_app_le by (by rewrite length_be_encode).
  rewrite take_ge by (by rewrite length_be_encode).
  pose proof (len_nonneg (payload p)). pose proof (len_nonneg pad).
  rewrite be_decode_encode_small; [lia|].
  rewrite u32_256. unfold U32, MAX_PACKET_SIZE in *. lia.
Qed.

(** The receiver's run on a sealed frame. *)
Lemma recv_packet_sealed p pad (ks kr : SessionKeys C) :
  keys_synced ks kr →
  block_size_of ks < len (frame p pad) → len pad ≤ 255 →
  2 + len (payload p) + len pad ≤ MAX_PACKET_SIZE →
  ∃ kr', (∀ rest e w (rng : R),
            recv_packet (mkLink (mkReader ((seal (frame p pad) ks).1 ++ rest) e) w kr rng) =
            (Ok p, mkLink (mkReader rest e) w kr' rng)) ∧
         keys_synced (seal (frame p pad) ks).2 kr' ∧ send_side kr' = send_side kr.
Proof.
  intros Hsync Hblk Hpad Hsz. pose proof (keys_synced_block _ _ Hsync) as Hbs.
  destruct Hsync as [[= Hseq Hmac Hc] Hu]. set (data := frame p pad) in *.
  set (ks1 := (next_send_seq ks).2).
  destruct (recv_frame_encrypted data ks1 kr) as (k2 & Er & Hc2 & (? & Hrs & Hsm & Hrm & _) & He);
    [done|lia|by apply frame_length_field|unfold data; rewrite len_frame; lia|].
  pose proof (encrypt_data_same data ks1) as [(Ess & _ & Esm & _) _].
  unfold seal. cbn [next_send_seq]. fold ks1.
  change (mkKeys (u32_wrapping_add (send_seq ks) 1) _ _ _ _ _) with ks1.
  destruct (encrypt_data data ks1) as [ct ks2]. cbn [fst snd] in *.
  exists (next_recv_seq k2).2. split; [|split].
  - intros rest e w rng. unfold recv_packet. rewrite <- app_assoc.
    rewrite (io_bind_run _ _ _ _ _ (Er _ _ _ _)).
    rewrite Hseq, Hmac, <- Hrs, <- Hrm.
    erewrite io_bind_run by apply check_mac_sealed. unfold lift. f_equal.
    rewrite <- (app_nil_r data). by apply deserialize_frame.
  - unfold keys_synced, send_side, recv_side. cbn [next_recv_seq snd recv_seq ciphers recv_mac_key].
    rewrite Ess, Esm, Hc2, Hrs, Hrm, <- Hmac, <- Hseq. split; [done|].
    unfold ks1, is_u32, u32_wrapping_add. by apply Z.mod_pos_bound.
  - unfold send_side. cbn [next_recv_seq snd send_seq ciphers send_mac_key]. congruence.
Qed.

(** The sizes of a frame padded as [serialize] pads it. *)
Lemma frame_sizes p pad (k : SessionKeys C) :
  len pad = padding_len (Z.max (block_size_of k) 8) (1 + len (payload p)) →
  len (payload p) ≤ MAX_PACKET_SIZE - 21 →
  block_size_of k < len (frame p pad) ∧ len pad ≤ 255 ∧ 2 + len (payload p) + len pad ≤ MAX_PACKET_SIZE.
Proof.
  intros Hp Hlen. pose proof (block_size_range k) as Hb. pose proof (len_nonneg (payload p)).
  pose proof (padding_len_spec (Z.max (block_size_of k) 8) (1 + len (payload p))
                ltac:(lia) ltac:(lia)) as [Hr Hm].
  rewrite <- Hp in Hr, Hm. unfold MIN_PADDING, MAX_PACKET_SIZE in *. split; [|lia].
  rewrite len_frame. rewrite Z.max_l in Hm by lia.
  apply Z.mod_divide in Hm as [q Hq]; [|lia]. assert (0 < q) by nia. nia.
Qed.

Lemma len_seal data (k : SessionKeys C) : len data ≤ len (seal data k).1 ≤ len data + HMAC_SHA256_SIZE.
Proof.
  unfold seal. cbn [next_send_seq]. set (k1 := mkKeys _ _ _ _ _ _).
  pose proof (encrypt_data_len data k1) as Hl. destruct (encrypt_data data k1) as [ct k2]. cbn [fst] in *.
  rewrite len_app, Hl. unfold HMAC_SHA256_SIZE. destruct (send_mac_key k); [rewrite hmac_len|change (len []) with 0]; lia.
Qed.

(** A receive that finds the stream ended inside the frame, and how far its keys
    have got. *)
Lemma recv_packet_cut p pad (ks kr : SessionKeys C) n :
  keys_synced ks kr →
  block_size_of ks < len (frame p pad) → 2 + len (payload p) + len pad ≤ MAX_PACKET_SIZE →
  Z.of_nat n < len (frame p pad) →
  ∃ kr' err, (∀ w (rng : R),
      recv_packet (mkLink (mkReader (take n (seal (frame p pad) ks).1) UnexpectedEof) w kr rng) =
      (Err err, mkLink (mkReader [] UnexpectedEof) w kr' rng)) ∧
    (err = ConnectionClosed ∨ err = Io UnexpectedEof) ∧
    same_but_ciphers kr kr' ∧ send_side kr' = send_side kr.
Proof.
  intros Hsync Hblk Hsz Hn. pose proof (keys_synced_block _ _ Hsync) as Hbs.
  pose proof (block_size_range kr) as Hbr. destruct Hsync as [[= Hseq Hmac Hc] _]. set (data := frame p pad) in *.
  assert (len data - 4 ≤ MAX_PACKET_SIZE) as Hmax by (unfold data; rewrite len_frame; lia).
  set (ks1 := (next_send_seq ks).2). pose proof (encrypt_data_len data ks1) as Hel.
  assert (take n (seal data ks).1 = take n (encrypt_data data ks1).1) as ->.
  { unfold seal. cbn [next_send_seq]. change (mkKeys (u32_wrapping_add _ 1) _ _ _ _ _) with ks1.
    destruct (encrypt_data data ks1) as [ct ks2]. cbn [fst snd] in *. apply take_app_le. unfold len in *. lia. }
  set (ct := (encrypt_data data ks1).1) in *. rewrite <- Hbs in Hblk. set (b := block_size_of kr) in *.
  destruct (decide (Z.of_nat n < b)) as [Hlt|Hge].
  { exists kr, ConnectionClosed. split; [|by repeat split; auto]. intros w rng. unfold recv_packet, recv_frame.
    apply io_bind_fails. erewrite io_bind_run by reflexivity. apply io_bind_fails.
    unfold on_reader, read_exact. cbn [lk_reader lk_keys rd_data rd_end]. fold b. rewrite decide_False; [done|].
    unfold len. rewrite length_take. lia. }
  assert (take n ct = take (Z.to_nat b) ct ++ drop (Z.to_nat b) (take n ct)) as Hsplit.
  { rewrite <- (take_drop (Z.to_nat b) (take n ct)) at 1. rewrite take_take. do 2 f_equal. lia. }
  pose proof (take_drop (Z.to_nat b) ct) as Hct. symmetry in Hct.
  assert (len (take (Z.to_nat b) ct) = b) as Hl1 by (apply len_take; lia).
  destruct (decrypt_pieces data _ _ ks1 kr Hc Hct) as (d1 & d2 & k1 & k2 & E1 & _ & Ed & Hd & _).
  assert (Hpl : be_decode (take 4 d1) = len data - 4).
  { unfold data. rewrite <- frame_length_field by done. fold data. rewrite Ed, take_app_le; [done|]. unfold len in *; lia. }
  pose proof (decrypt_data_same (take (Z.to_nat b) ct) kr) as [Hs He]. rewrite E1 in Hs, He. cbn [snd] in Hs, He.
  exists k1, (Io UnexpectedEof). split; [|split; [by right|split; [done|]]].
  2:{ unfold send_side. destruct Hs as (-> & _ & -> & _). by rewrite He. }
  intros w rng. rewrite Hsplit. unfold recv_packet, recv_frame. apply io_bind_fails.
  erewrite io_bind_run by reflexivity. cbn [lk_keys]. fold b. erewrite io_bind_run by (by apply on_reader_app).
  erewrite io_bind_run by (unfold on_keys; cbn [lk_keys]; rewrite E1; done).
  cbn [lk_reader lk_writer lk_rng]. unfold recv_rest. rewrite Hpl.
  rewrite decide_False by lia. rewrite usize_sub_small by lia. erewrite io_bind_run by done.
  rewrite vec_zeroed_small by (unfold ISIZE_MAX, MAX_PACKET_SIZE in *; lia). erewrite io_bind_run by done.
  apply io_bind_fails. rewrite decide_True, len_replicate by lia. apply io_bind_fails.
  unfold on_reader, read_exact. cbn [lk_reader rd_data rd_end]. rewrite decide_False; [done|].
  unfold len. rewrite length_drop, length_take. unfold len in *. lia.
Qed.
End delivery.

(** ** Inversion of a receive *)

Section inversion.
Context {C R : Type} `{!StreamCipher C, !StreamCipherLaws C, hmac_impl : !Hmac}
  `{profile : !BuildProfile}.
Abbreviation link := (Link C R).

Lemma on_reader_ok {A} f wrap (l : link) (a : A) l' :
  on_reader f wrap l = (Ok a, l') →
  ∃ r, f (lk_reader l) = (Ok a, r) ∧ l' = mkLink r (lk_writer l) (lk_keys l) (lk_rng l).
Proof.
  unfold on_reader. destruct (f (lk_reader l)) as [[] r]; simpl; intros; simplify_eq; eauto.
Qed.

Lemma read_exact_ok n r a r' :
  0 ≤ n → read_exact n r = (Ok a, r') →
  rd_data r = a ++ rd_data r' ∧ len a = n ∧ rd_end r' = rd_end r.
Proof.
  intros Hn. unfold read_exact. case_decide; intros; simplify_eq. simpl.
  rewrite take_drop, len_take by lia. done.
Qed.

Lemma on_reader_read_ok n wrap (l : link) a l' :
  0 ≤ n → on_reader (read_exact n) wrap l = (Ok a, l') →
  ∃ d, lk_reader l = mkReader (a ++ d) (rd_end (lk_reader l)) ∧ len a = n ∧
       l' = mkLink (mkReader d (rd_end (lk_reader l))) (lk_writer l) (lk_keys l) (lk_rng l).
Proof.
  intros Hn (r & E & ->)%on_reader_ok. apply read_exact_ok in E as (E & Hl & He); [|done].
  exists (rd_data r). rewrite <- E, <- He. destruct (lk_reader l), r; simpl in *. subst. done.
Qed.

Lemma decrypt_data_app d e (k : SessionKeys C) :
  decrypt_data (d ++ e) k =
  ((decrypt_data d k).1 ++ (decrypt_data e (decrypt_data d k).2).1,
   (decrypt_data e (decrypt_data d k).2).2).
Proof.
  unfold decrypt_data. destruct (ciphers k) as [cp|] eqn:E.
  - rewrite apply_app. destruct (apply (decrypt cp) d) as [d' c1]. simpl.
    destruct (apply c1 e) as [e' c2]. done.
  - simpl. by rewrite E.
Qed.

Lemma recv_frame_ok (l : link) full l' :
  recv_frame l = (Ok full, l') →
  ∃ ct, lk_reader l = mkReader (ct ++ rd_data (lk_reader l')) (rd_end (lk_reader l)) ∧
    decrypt_data ct (lk_keys l) = (full, lk_keys l') ∧ 8 ≤ len ct ∧
    lk_reader l' = mkReader (rd_data (lk_reader l')) (rd_end (lk_reader l)) ∧
    lk_writer l' = lk_writer l ∧ lk_rng l' = lk_rng l.
Proof.
  unfold recv_frame. pose proof (block_size_range (lk_keys l)) as Hb.
  intros (n & l0 & [= <- <-] & H)%io_bind_ok.
  apply io_bind_ok in H as (e1 & l1 & Hr & H).
  apply on_reader_read_ok in Hr as (d1 & Hrd & Hl1 & ->); [|lia].
  apply io_bind_ok in H as (p1 & l2 & Hk & H). unfold on_keys in Hk. cbn [lk_keys] in Hk.
  destruct (decrypt_data e1 (lk_keys l)) as [p1' k1] eqn:E1. cbn in Hk. simplify_eq.
  unfold recv_rest in H. case_decide as Hm; [done|]. apply io_bind_ok in H as (rem & l3 & Hs & H).
  unfold lift in Hs. simplify_eq. apply io_bind_ok in H as (z & l4 & Hz & H).
  unfold lift in Hz. simplify_eq. apply io_bind_ok in H as (rest & l5 & Hrest & H).
  unfold mret, io_ret in H. simplify_eq.
  case_decide as Hpos.
  - apply io_bind_ok in Hrest as (e2 & l6 & Hr2 & Hk2).
    apply on_reader_read_ok in Hr2 as (d2 & Hrd2 & Hl2 & ->); [|len_lia].
    cbn in Hrd2. simplify_eq. unfold on_keys in Hk2. cbn [lk_keys] in Hk2.
    destruct (decrypt_data e2 k1) as [p2 k2] eqn:E2. cbn in Hk2. simplify_eq. cbn.
    exists (e1 ++ e2). rewrite decrypt_data_app, E1. cbn. rewrite E2. cbn.
    rewrite <- app_assoc, len_app, <- Hrd. pose proof (len_nonneg e2).
    repeat split; lia.
  - unfold mret, io_ret in Hrest. unfold vec_zeroed in *. case_decide; [|done].
    simplify_eq. replace (Z.to_nat rem) with 0%nat by lia. cbn.
    exists e1. rewrite app_nil_r. repeat split; [done|done|lia].
Qed.

Lemma check_mac_ok full (l l' : link) u :
  check_mac full l = (Ok u, l') →
  (∀ mk, recv_mac_key (lk_keys l) = Some mk →
     ∃ tag, lk_reader l = mkReader (tag ++ rd_data (lk_reader l')) (rd_end (lk_reader l)) ∧
            len tag = 32 ∧
            verify_hmac mk (mac_data (recv_seq (lk_keys l)) full) tag = Ok tt) ∧
  (recv_mac_key (lk_keys l) = None → lk_reader l' = lk_reader l) ∧
  len (rd_data (lk_reader l')) ≤ len (rd_data (lk_reader l)) ∧
  lk_keys l' = (next_recv_seq (lk_keys l)).2 ∧
  rd_end (lk_reader l') = rd_end (lk_reader l) ∧ lk_writer l' = lk_writer l ∧ lk_rng l' = lk_rng l.
Proof.
  unfold check_mac. intros H. apply io_bind_ok in H as (seq & l0 & E & H).
  unfold on_keys in E. cbn in E. simplify_eq.
  apply io_bind_ok in H as (mk & l1 & [= <- <-] & H). cbn [lk_keys recv_mac_key] in H.
  destruct (recv_mac_key (lk_keys l)) as [mk|] eqn:Em.
  - apply io_bind_ok in H as (tag & l2 & Hr & H).
    apply on_reader_read_ok in Hr as (d & Hrd & Hl & ->); [|done]. cbn in Hrd.
    unfold lift in H. injection H as H <-. cbn. rewrite Hrd, Em. cbn. destruct u. rewrite len_app.
    pose proof (len_nonneg tag). split; [|by repeat split; [|lia]].
    intros mk' [= <-]. by exists tag.
  - unfold mret, io_ret in H. simplify_eq. cbn. rewrite Em. by repeat split.
Qed.

Lemma recv_packet_inv (l l' : link) p :
  recv_packet l = (Ok p, l') →
  ∃ full l1, recv_frame l = (Ok full, l1) ∧ check_mac full l1 = (Ok tt, l') ∧
             deserialize full = Ok p.
Proof.
  unfold recv_packet. intros (full & l1 & E1 & H)%io_bind_ok.
  apply io_bind_ok in H as ([] & l2 & E2 & H). unfold lift in H. simplify_eq. eauto.
Qed.

(** Every packet received costs at least eight bytes of the stream and leaves
    the other half of the connection alone. *)
Lemma recv_packet_progress (l l' : link) p :
  recv_packet l = (Ok p, l') →
  len (rd_data (lk_reader l')) + 8 ≤ len (rd_data (lk_reader l)) ∧
  lk_writer l' = lk_writer l ∧ lk_rng l' = lk_rng l ∧
  rd_end (lk_reader l') = rd_end (lk_reader l).
Proof.
  intros (full & l1 & E1 & E2 & _)%recv_packet_inv.
  apply recv_frame_ok in E1 as (ct & Er & _ & Hl & Er1 & Ew & Eg).
  apply check_mac_ok in E2 as (_ & _ & Hle & _ & Hend & -> & ->).
  rewrite Hend, Er1, Er. cbn. rewrite len_app. repeat split; try done; lia.
Qed.
End inversion.

(** ** Properties of the transport *)

Section properties.
Context {C R : Type} `{!StreamCipher C, !StreamCipherLaws C, hmac_impl : !Hmac, hmac_laws : !HmacLaws}
  `{!Rng R, !RngLaws R} `{profile : !BuildProfile}.

Fixpoint send_all (ps : list SshPacket) : io SshError (Link C R) unit :=
  match ps with
  | [] => mret tt
  | p :: ps => send_packet p;; send_all ps
  end.

Fixpoint recv_n (n : nat) : io SshError (Link C R) (list SshPacket) :=
  match n with
  | O => mret []
  | S n => p ← recv_packet; ps ← recv_n n; mret (p :: ps)
  end.

(** One packet: sent, it is received as itself and both ends stay in step. *)
Lemma send_recv_packet p (ks : SessionKeys C) (rng : R) :
  len (payload p) ≤ MAX_PACKET_SIZE - 21 →
  ∃ wire ks' rng',
    (∀ rd out, send_packet p (mkLink rd (mkWriter out None) ks rng) =
      (Ok tt, mkLink rd (mkWriter (out ++ wire) None) ks' rng')) ∧
    recv_side ks' = recv_side ks ∧
    ∀ kr, keys_synced ks kr →
      ∃ kr', (∀ rest e w (rng2 : R), recv_packet (mkLink (mkReader (wire ++ rest) e) w kr rng2) =
                (Ok p, mkLink (mkReader rest e) w kr' rng2)) ∧
             keys_synced ks' kr' ∧ send_side kr' = send_side kr.
Proof.
  intros Hlen. pose proof (block_size_range ks) as Hb. pose proof (len_nonneg (payload p)).
  assert (Hf : fits (block_size_of ks) p) by (apply fits_small; lia).
  destruct (send_packet_sealed p ks rng Hf) as (pad & rng' & Hp & E).
  exists (seal (frame p pad) ks).1, (seal (frame p pad) ks).2, rng'.
  split; [done|]. split; [apply seal_recv_side|].
  intros kr Hsync.
  destruct (frame_sizes p pad ks Hp Hlen) as (? & ? & ?). by apply recv_packet_sealed.
Qed.

(** C5.  Delivery: a list of packets sent over a working connection is received
    on the other side complete, unchanged and in order, whatever follows in the
    stream, and afterwards the two ends are again in step, so that the
    statement composes.  Holds before key exchange (no cipher, no MAC) and after
    it, across the wrap of the sequence number, and for every cipher, MAC and
    generator satisfying their laws. *)
Theorem stream_delivery (ps : list SshPacket) rd out (ks : SessionKeys C) (rng : R) :
  Forall (λ p, len (payload p) ≤ MAX_PACKET_SIZE - 21) ps →
  ∃ wire ks' rng',
    send_all ps (mkLink rd (mkWriter out None) ks rng) =
      (Ok tt, mkLink rd (mkWriter (out ++ wire) None) ks' rng') ∧
    recv_side ks' = recv_side ks ∧
    ∀ kr rest e w (rng2 : R), keys_synced ks kr →
      ∃ kr', recv_n (length ps) (mkLink (mkReader (wire ++ rest) e) w kr rng2) =
               (Ok ps, mkLink (mkReader rest e) w kr' rng2) ∧
             keys_synced ks' kr' ∧ send_side kr' = send_side kr.
Proof.
  revert out ks rng. induction ps as [|p ps IH]; intros out ks rng Hps.
  - exists [], ks, rng. rewrite app_nil_r. split; [done|]. split; [done|].
    intros kr rest e w rng2 Hs. exists kr. done.
  - inversion Hps as [|? ? Hp Hps']; subst.
    destruct (send_recv_packet p ks rng Hp) as (w1 & k1 & r1 & E1 & S1 & D1).
    destruct (IH (out ++ w1) k1 r1 Hps') as (w2 & k2 & r2 & E2 & S2 & D2).
    exists (w1 ++ w2), k2, r2. split; [|split; [congruence|]].
    { cbn [send_all]. rewrite (io_bind_run _ _ _ _ _ (E1 _ _)), E2. by rewrite app_assoc. }
    intros kr rest e w rng2 Hs.
    destruct (D1 kr Hs) as (kr1 & R1 & H1 & T1).
    destruct (D2 kr1 rest e w rng2 H1) as (kr2 & R2 & H2 & T2).
    exists kr2. split; [|split; [done|congruence]].
    cbn [recv_n length]. rewrite <- app_assoc, (io_bind_run _ _ _ _ _ (R1 _ _ _ _)).
    by rewrite (io_bind_run _ _ _ _ _ R2).
Qed.

(** What a receive that succeeds has found in the stream. *)
Lemma recv_packet_mac (l l' : Link C R) p mac_key :
  recv_mac_key (lk_keys l) = Some mac_key →
  recv_packet l = (Ok p, l') →
  ∃ ct plain,
    rd_data (lk_reader l) =
      ct ++ compute_hmac mac_key (be_encode 4 (recv_seq (lk_keys l)) ++ plain) ++
      rd_data (lk_reader l') ∧
    plain = (decrypt_data ct (lk_keys l)).1 ∧ deserialize plain = Ok p ∧
    recv_seq (lk_keys l') = (recv_seq (lk_keys l) + 1) mod U32.
Proof.
  intros Hm (full & l1 & E1 & E2 & Ed)%recv_packet_inv.
  apply recv_frame_ok in E1 as (ct & Er & Edec & _ & Er1 & _ & _).
  pose proof (decrypt_data_same ct (lk_keys l)) as [(_ & Hseq & _ & Hmk & _) _].
  rewrite Edec in Hseq, Hmk. cbn in Hseq, Hmk.
  apply check_mac_ok in E2 as (Hmac & _ & _ & Hk & _ & _ & _).
  destruct (Hmac mac_key) as (tag & Et & _ & Hv); [congruence|].
  apply verify_hmac_ok in Hv. exists ct, full. rewrite Edec, Hk. cbn.
  rewrite Er. cbn. rewrite Et. cbn. rewrite Hv, Hseq. repeat split; done.
Qed.

(** C7.  Integrity: once a receiving MAC key is installed, [recv_packet] returns
    a packet only if the stream held a frame whose decryption deserializes to it
    followed by the HMAC of the current sequence number and that plaintext; the
    sequence number then advances by one modulo 2^32. *)
Theorem recv_packet_authentic (l l' : Link C R) (p : SshPacket) (mac_key : bytes) :
  recv_mac_key (lk_keys l) = Some mac_key →
  recv_packet l = (Ok p, l') →
  ∃ ct plain,
    rd_data (lk_reader l) =
      ct ++ compute_hmac mac_key (be_encode 4 (recv_seq (lk_keys l)) ++ plain) ++
      rd_data (lk_reader l') ∧
    plain = (decrypt_data ct (lk_keys l)).1 ∧ deserialize plain = Ok p ∧
    recv_seq (lk_keys l') = (recv_seq (lk_keys l) + 1) mod U32.
Proof. apply recv_packet_mac. Qed.

Lemma on_reader_returns n wrap (l : Link C R) : returns (on_reader (read_exact n) wrap l).1 = true.
Proof. unfold on_reader, read_exact. by case_decide. Qed.

Lemma check_mac_returns full (l : Link C R) : returns (check_mac full l).1 = true.
Proof.
  unfold check_mac. apply io_bind_returns; [done|]. intros seq l1 _.
  apply io_bind_returns; [done|]. intros [mk|] l2 _; [|done].
  apply io_bind_returns; [apply on_reader_returns|]. intros tag l3 _.
  unfold lift, verify_hmac. simpl. by destruct hmac_verify_slice.
Qed.

Lemma deserialize_returns data : returns (deserialize data) = true.
Proof. destruct (deserialize_cases data) as [[p ->]|[s ->]]; done. Qed.

(** The length field of the next frame, once its first block is decrypted. *)
Definition next_length (l : Link C R) : Z :=
  be_decode (take 4 (decrypt_data (take (Z.to_nat (block_size_of (lk_keys l)))
                                        (rd_data (lk_reader l))) (lk_keys l)).1).

(** The frame's size computation panics exactly on an underflow. *)
Lemma recv_rest_returns n first (l : Link C R) :
  8 ≤ n ≤ 16 →
  returns (recv_rest n first l).1 = bool_decide (n ≤ 4 + be_decode (take 4 first)).
Proof.
  intros Hn. pose proof (be_decode_range (take 4 first)) as [Hr _]. unfold recv_rest.
  set (pl := be_decode (take 4 first)) in *.
  case_decide as Hm; [unfold MAX_PACKET_SIZE in *; by rewrite bool_decide_true by lia|].
  unfold usize_sub. case_decide as Hs.
  - rewrite bool_decide_true by lia. erewrite io_bind_run by done.
    rewrite vec_zeroed_small by (unfold ISIZE_MAX, MAX_PACKET_SIZE in *; lia).
    erewrite io_bind_run by done. apply io_bind_returns; [|done].
    case_decide; [|done]. apply io_bind_returns; [apply on_reader_returns|].
    intros e2 l2 _. unfold on_keys. by destruct (decrypt_data e2 (lk_keys l2)).
  - rewrite bool_decide_false by lia. destruct overflow_checks; [done|].
    erewrite io_bind_run by done. unfold vec_zeroed. rewrite decide_False; [done|].
    unfold U64, ISIZE_MAX. rewrite <- (Z.mod_add _ 1) by lia. rewrite Z.mod_small; lia.
Qed.

(** C16.  The one way to crash the receiver: [recv_packet] returns a packet or an
    error on every input, except that when a whole first block is available and
    the length it announces is smaller than that block minus the length field,
    the subtraction [total - block_size] underflows and the task panics, in a
    debug build (overflow check) as in a release build (capacity overflow).
    The check happens before any MAC, so an unauthenticated peer can do it. *)
Theorem recv_packet_panics_iff (l : Link C R) :
  returns (recv_packet l).1 = false ↔
  block_size_of (lk_keys l) ≤ len (rd_data (lk_reader l)) ∧
  4 + next_length l < block_size_of (lk_keys l).
Proof.
  unfold next_length. pose proof (block_size_range (lk_keys l)) as Hb.
  set (n := block_size_of (lk_keys l)) in *. set (d := rd_data (lk_reader l)).
  destruct (decide (n ≤ len d)) as [Hn|Hn].
  2: { split; [|lia]. unfold recv_packet, recv_frame, mbind, io_bind, gets, on_reader, read_exact.
       fold n. fold d. by rewrite decide_False. }
  destruct (decrypt_data (take (Z.to_nat n) d) (lk_keys l)) as [p1 k1] eqn:E1. cbn [fst].
  set (l1 := mkLink (mkReader (drop (Z.to_nat n) d) (rd_end (lk_reader l))) (lk_writer l) k1 (lk_rng l)).
  assert (Hf : recv_frame l = recv_rest n p1 l1).
  { unfold recv_frame. erewrite io_bind_run by done. fold n.
    erewrite io_bind_run by (unfold on_reader, read_exact; fold d; by rewrite decide_True).
    erewrite io_bind_run by (unfold on_keys; cbn [lk_keys]; by rewrite E1). done. }
  pose proof (recv_rest_returns n p1 l1 Hb) as Hr.
  assert (returns (recv_packet l).1 = returns (recv_rest n p1 l1).1) as ->.
  { unfold recv_packet. rewrite <- Hf. destruct (recv_frame l) as [[] l2] eqn:E;
      unfold mbind at 1, io_bind at 1; rewrite E; try done. cbn.
    apply io_bind_returns; [apply check_mac_returns|]. intros; apply deserialize_returns. }
  rewrite Hr, bool_decide_eq_false. lia.
Qed.

(** *** Version exchange *)

Lemma ends_with_iff suffix buf : ends_with suffix buf = true ↔ ∃ a, buf = a ++ suffix.
Proof.
  unfold ends_with. rewrite bool_decide_eq_true. split.
  - intros [E _]. exists (take (length buf - length suffix) buf).
    rewrite <- E at 2. by rewrite take_drop.
  - intros [a ->]. rewrite length_app. split; [|lia].
    replace (length a + length suffix - length suffix)%nat with (length a) by lia.
    apply drop_app_length.
Qed.

Definition no_crlf (v : bytes) : Prop := ∀ a b, v ≠ a ++ crlf ++ b.

(** One iteration of the loop on a byte of the stream. *)
Lemma recv_version_loop_step fuel buf b d e w k (r : R) :
  recv_version_loop (S fuel) buf (mkLink (mkReader (b :: d) e) w k r : Link C R) =
  let l := mkLink (mkReader d e) w k r in
  if decide (len (buf ++ [b]) > 255) then (Err (Protocol "Version string too long"), l)
  else if ends_with crlf (buf ++ [b]) then (Ok (buf ++ [b]), l)
  else recv_version_loop fuel (buf ++ [b]) l.
Proof.
  cbn [recv_version_loop]. change (b :: d) with ([b] ++ d).
  rewrite (io_bind_run _ _ _ _ _ (on_reader_app 1 [b] d e _ w k r eq_refl)).
  cbv zeta. case_decide; [done|]. by destruct ends_with.
Qed.

Lemma recv_version_loop_complete fuel buf v rest e w k (r : R) :
  no_crlf (buf ++ v) → len (buf ++ v) ≤ 253 → len v + 2 ≤ Z.of_nat fuel →
  recv_version_loop fuel buf (mkLink (mkReader (v ++ crlf ++ rest) e) w k r : Link C R) =
  (Ok (buf ++ v ++ crlf), mkLink (mkReader rest e) w k r).
Proof.
  revert fuel buf. induction v as [|b v IH]; intros fuel buf Hno Hlen Hf.
  - destruct fuel as [|[|fuel]]; [len_lia..|]. cbn [app]. unfold crlf at 1. cbn [app].
    rewrite app_nil_r in Hlen.
    rewrite recv_version_loop_step. cbv zeta. rewrite decide_False by len_lia.
    assert (ends_with crlf (buf ++ [x0d]) = false) as ->.
    { apply not_true_iff_false. rewrite ends_with_iff. intros [a E].
      change crlf with ([x0d] ++ [x0a]) in E. rewrite app_assoc in E.
      by apply app_inj_tail in E as [_ [=]]. }
    rewrite recv_version_loop_step. cbv zeta.
    rewrite <- app_assoc. change ([x0d] ++ [x0a]) with crlf.
    rewrite decide_False by (unfold crlf; len_lia).
    by rewrite (proj2 (ends_with_iff crlf (buf ++ crlf))) by eauto.
  - destruct fuel as [|fuel]; [len_lia|]. cbn [app]. rewrite recv_version_loop_step. cbv zeta.
    rewrite decide_False by len_lia.
    assert (ends_with crlf (buf ++ [b]) = false) as ->.
    { apply not_true_iff_false. rewrite ends_with_iff. intros [a E].
      apply (Hno a v). change (b :: v) with ([b] ++ v). by rewrite app_assoc, E, <- app_assoc. }
    rewrite IH; rewrite <- ?app_assoc; [done|done|len_lia|len_lia].
Qed.

Lemma recv_version_loop_sound fuel buf (l : Link C R) b l' :
  recv_version_loop fuel buf l = (Ok b, l') →
  ∃ x, rd_data (lk_reader l) = x ++ rd_data (lk_reader l') ∧ b = buf ++ x ∧
    ends_with crlf b = true ∧ len b ≤ 255 ∧
    (∀ y z, x = y ++ z → y ≠ [] → z ≠ [] → ends_with crlf (buf ++ y) = false) ∧
    l' = mkLink (mkReader (rd_data (lk_reader l')) (rd_end (lk_reader l)))
                (lk_writer l) (lk_keys l) (lk_rng l).
Proof.
  revert buf l. induction fuel as [|fuel IH]; intros buf l; [done|].
  destruct l as [[d e] w k r]. destruct d as [|c d]; [done|].
  rewrite recv_version_loop_step. cbv zeta. case_decide; [done|].
  destruct (ends_with crlf (buf ++ [c])) eqn:Ee.
  - intros [= <- <-]. exists [c]. cbn. split; [done|]. split; [done|]. split; [done|].
    split; [lia|]. split; [|done]. intros y z E Hy Hz.
    destruct y as [|? [|? y]]; [done|destruct z; [done|cbn in E; congruence]|done].
  - intros (x & Ed & -> & He & Hl & Hp & El)%IH. cbn in Ed, El. exists (c :: x). cbn [lk_reader rd_data].
    rewrite <- app_assoc in He, Hl |- *. rewrite Ed. repeat split; try done.
    intros y z E Hy Hz. destruct y as [|c' y]; [done|]. cbn in E. injection E as <- ->.
    destruct y as [|c' y]; [by cbn|].
    change (c :: c' :: y) with ([c] ++ c' :: y). rewrite app_assoc. by eapply Hp.
Qed.

Lemma recv_version_loop_returns fuel buf (l : Link C R) :
  len buf + Z.of_nat fuel = 256 → (1 ≤ fuel)%nat →
  returns (recv_version_loop fuel buf l).1 = true.
Proof.
  revert buf l. induction fuel as [|fuel IH]; intros buf l Hl Hf; [lia|].
  destruct l as [[d e] w k r]. destruct d as [|c d]; [done|].
  rewrite recv_version_loop_step. cbv zeta. case_decide as Hd; [done|].
  destruct ends_with; [done|]. apply IH; len_lia.
Qed.

Lemma recv_version_string_complete v rest e w k (r : R) :
  no_crlf v → len v ≤ 253 → utf8_valid v = true → starts_with (bs "SSH-2.0-") v = true →
  recv_version_string (mkLink (mkReader (v ++ crlf ++ rest) e) w k r : Link C R) =
  (Ok v, mkLink (mkReader rest e) w k r).
Proof.
  intros Hno Hl Hv Hst. unfold recv_version_string.
  erewrite io_bind_run by (apply recv_version_loop_complete; [done|done|lia]).
  cbn [app]. rewrite length_app. cbn [length crlf].
  replace (length v + 2 - 2)%nat with (length v) by lia.
  rewrite take_app_length. by rewrite from_utf8_valid, Hst.
Qed.

(** C38.  Version exchange: reading the peer's version always returns (256 rounds
    of the loop are enough), and it answers [Ok v] exactly when the stream
    starts with [v] and CR LF, where [v] has at most 253 bytes, contains no CR
    LF, is UTF-8 and starts with "SSH-2.0-"; the stream is then left just after
    the line. *)
Theorem recv_version_string_spec (l : Link C R) :
  returns (recv_version_string l).1 = true ∧
  ∀ v l', recv_version_string l = (Ok v, l') ↔
    ∃ rest, rd_data (lk_reader l) = v ++ crlf ++ rest ∧
      l' = mkLink (mkReader rest (rd_end (lk_reader l))) (lk_writer l) (lk_keys l) (lk_rng l) ∧
      no_crlf v ∧ len v ≤ 253 ∧ utf8_valid v = true ∧ starts_with (bs "SSH-2.0-") v = true.
Proof.
  split.
  { unfold recv_version_string. apply io_bind_returns; [apply recv_version_loop_returns; [done|lia]|].
    intros buf l' _. destruct from_utf8; [|done]. by destruct starts_with. }
  intros v l'. split.
  - unfold recv_version_string. intros (b & l1 & E & H)%io_bind_ok.
    apply recv_version_loop_sound in E as (x & Ed & Eb & He & Hl & Hp & El). cbn in Eb. subst b.
    apply ends_with_iff in He as [v' Ex].
    rewrite Ex, length_app in H. cbn [length crlf] in H.
    replace (length v' + 2 - 2)%nat with (length v') in H by lia.
    rewrite take_app_length in H. unfold from_utf8 in H.
    destruct (utf8_valid v') eqn:Hv; [|done]. destruct starts_with eqn:Hst; [|done].
    cbn in H. unfold mret, io_ret in H. simplify_eq. exists (rd_data (lk_reader l')).
    rewrite Ed, <- app_assoc. split; [done|]. split; [done|]. split; [|split; [|done]].
    + intros a c ->. assert (ends_with crlf ([] ++ (a ++ crlf)) = false) as Hf.
      { apply (Hp (a ++ crlf) (c ++ crlf)); [by rewrite <- !app_assoc| |].
        - by destruct a.
        - by destruct c. }
      cbn in Hf. by rewrite (proj2 (ends_with_iff crlf (a ++ crlf))) in Hf by eauto.
    + rewrite len_app in Hl. change (len crlf) with 2 in Hl. lia.
  - intros (rest & Ed & -> & Hno & Hl & Hv & Hst). destruct l as [[d e] w k r]. cbn [lk_reader rd_data] in Ed. subst d.
    by apply recv_version_string_complete.
Qed.
End properties.

(** ** The properties on concrete sessions *)

(** Two ends with ciphers and MAC keys installed, about to wrap the counter. *)
Definition demo_keys (a b : Z) : SessionKeys (Z * Z) :=
  mkKeys (U32 - 1) (U32 - 1) (Some [x00])
    (Some (mkCipherPair (mkAesCipher (a, 5)) (mkAesCipher (b, 5))))
    (Some (be_encode 32 a)) (Some (be_encode 32 b)).

Lemma stream_delivery_witness :
  ∃ wire ks' rng',
    send_all [mkPacket x05 (bs "hello"); mkPacket x5e []]
      (mkLink (mkReader [] UnexpectedEof) (mkWriter [] None) (demo_keys 1 2) 0) =
      (Ok tt, mkLink (mkReader [] UnexpectedEof) (mkWriter ([] ++ wire) None) ks' rng') ∧
    recv_side ks' = recv_side (demo_keys 1 2) ∧
    ∀ kr rest e w rng2, keys_synced (demo_keys 1 2) kr →
      ∃ kr', @recv_n (Z * Z) Z _ _ true 2 (mkLink (mkReader (wire ++ rest) e) w kr rng2) =
               (Ok [mkPacket x05 (bs "hello"); mkPacket x5e []], mkLink (mkReader rest e) w kr' rng2) ∧
             keys_synced ks' kr' ∧ send_side kr' = send_side kr.
Proof.
  apply (@stream_delivery (Z * Z) Z _ _ _ _ _ _ true
           [mkPacket x05 (bs "hello"); mkPacket x5e []]).
  by_eval.
Defined.

(** A link on which one packet of the peer is waiting. *)
Definition demo_inbox : Link (Z * Z) Z :=
  mkLink (mkReader (seal (frame (mkPacket x05 (bs "hello")) (replicate 8 x00)) (demo_keys 1 2)).1
                   UnexpectedEof)
         (mkWriter [] None) (demo_keys 2 1) 0.

Lemma recv_packet_authentic_witness :
  recv_mac_key (lk_keys demo_inbox) = Some (be_encode 32 1) ∧
  ∃ l', @recv_packet (Z * Z) Z _ _ true demo_inbox = (Ok (mkPacket x05 (bs "hello")), l') ∧
  ∃ ct plain,
    rd_data (lk_reader demo_inbox) =
      ct ++ compute_hmac (be_encode 32 1)
              (be_encode 4 (recv_seq (lk_keys demo_inbox)) ++ plain) ++ rd_data (lk_reader l') ∧
    plain = (decrypt_data ct (lk_keys demo_inbox)).1 ∧
    @deserialize true plain = Ok (mkPacket x05 (bs "hello")) ∧
    recv_seq (lk_keys l') = (recv_seq (lk_keys demo_inbox) + 1) mod U32.
Proof.
  split; [reflexivity|]. eexists. split; [vm_compute; reflexivity|].
  eapply (@recv_packet_authentic (Z * Z) Z _ _ _ _ true demo_inbox);
    [reflexivity|vm_compute; reflexivity].
Defined.
