(* ===== verification/Kex.v ===== *)
(** Curve25519 key exchange ([src/transport/kex.rs]): the algorithm lists, the two
    sides' state and [complete] operations, the exchange hash and the KEXINIT
    payload. *)
From S2P Require Export Session.
From S2P Require Import Reference.

Definition KEX_ALGORITHMS : list bytes := [bs "curve25519-sha256"].
Definition HOST_KEY_ALGORITHMS : list bytes := [bs "ssh-ed25519"; bs "rsa-sha2-256"].
Definition ENCRYPTION_ALGORITHMS : list bytes := [bs "aes256-ctr"; bs "aes128-ctr"].
Definition MAC_ALGORITHMS : list bytes := [bs "hmac-sha2-256"].
Definition COMPRESSION_ALGORITHMS : list bytes := [bs "none"].

Record KexResult := mkKexResult { shared_secret : bytes; exchange_hash : bytes }.

#[export] Instance KexResult_eq_dec : EqDecision KexResult.
Proof. solve_decision. Defined.

(** The secret is taken by the first [complete]; a second one finds [None]. *)
Record KexClient (K : Type) := mkKexClient {
  kc_secret : option K;
  client_ephemeral_pub : bytes
}.
#[global] Arguments mkKexClient {K} _ _.
#[global] Arguments kc_secret {K} _.
#[global] Arguments client_ephemeral_pub {K} _.

Record KexServer (K : Type) := mkKexServer {
  ks_secret : option K;
  server_ephemeral_pub : bytes
}.
#[global] Arguments mkKexServer {K} _ _.
#[global] Arguments ks_secret {K} _.
#[global] Arguments server_ephemeral_pub {K} _.

(** The bytes the exchange hash is computed over. *)
Definition exchange_transcript (client_version server_version client_kexinit server_kexinit
    server_host_key_blob client_pub server_pub shared_secret : bytes) : bytes :=
  let buf := [] in
  let buf := write_utf8 buf client_version in
  let buf := write_utf8 buf server_version in
  let buf := write_string buf client_kexinit in
  let buf := write_string buf server_kexinit in
  let buf := write_string buf server_host_key_blob in
  let buf := write_string buf client_pub in
  let buf := write_string buf server_pub in
  write_mpint buf shared_secret.

Definition compute_exchange_hash `{!Sha256} (client_version server_version client_kexinit
    server_kexinit server_host_key_blob client_pub server_pub shared_secret : bytes) : bytes :=
  sha256 (exchange_transcript client_version server_version client_kexinit server_kexinit
            server_host_key_blob client_pub server_pub shared_secret).

Section kex.
Context {R K : Type} `{x25519_impl : !X25519 R K} `{sha_impl : !Sha256}.

Definition KexClient_new (rng : R) : KexClient K * R :=
  let '(secret, rng) := ephemeral_secret rng in
  (mkKexClient (Some secret) (public_key (R:=R) secret), rng).

Definition KexServer_new (rng : R) : KexServer K * R :=
  let '(secret, rng) := ephemeral_secret rng in
  (mkKexServer (Some secret) (public_key (R:=R) secret), rng).

Definition KexClient_complete (server_pub client_version server_version client_kexinit
    server_kexinit server_host_key_blob : bytes) : io SshError (KexClient K) KexResult := λ c,
  let taken := mkKexClient None (client_ephemeral_pub c) in
  match kc_secret c with
  | None => (Err (KeyExchange "Key exchange already completed"), taken)
  | Some secret =>
      let shared_bytes := diffie_hellman (R:=R) secret server_pub in
      (Ok (mkKexResult shared_bytes
             (compute_exchange_hash client_version server_version client_kexinit server_kexinit
                server_host_key_blob (client_ephemeral_pub c) server_pub shared_bytes)), taken)
  end.

Definition KexServer_complete (client_pub client_version server_version client_kexinit
    server_kexinit server_host_key_blob : bytes) : io SshError (KexServer K) KexResult := λ s,
  let taken := mkKexServer None (server_ephemeral_pub s) in
  match ks_secret s with
  | None => (Err (KeyExchange "Key exchange already completed"), taken)
  | Some secret =>
      let shared_bytes := diffie_hellman (R:=R) secret client_pub in
      (Ok (mkKexResult shared_bytes
             (compute_exchange_hash client_version server_version client_kexinit server_kexinit
                server_host_key_blob client_pub (server_ephemeral_pub s) shared_bytes)), taken)
  end.

End kex.

Definition build_kexinit_payload {R} `{!Rng R} (rng : R) : bytes * R :=
  let '(cookie, rng) := fill_bytes 16 rng in
  let payload := [] ++ cookie in
  let payload := write_name_list payload KEX_ALGORITHMS in
  let payload := write_name_list payload HOST_KEY_ALGORITHMS in
  let payload := write_name_list payload ENCRYPTION_ALGORITHMS in
  let payload := write_name_list payload ENCRYPTION_ALGORITHMS in
  let payload := write_name_list payload MAC_ALGORITHMS in
  let payload := write_name_list payload MAC_ALGORITHMS in
  let payload := write_name_list payload COMPRESSION_ALGORITHMS in
  let payload := write_name_list payload COMPRESSION_ALGORITHMS in
  let payload := write_name_list payload [] in
  let payload := write_name_list payload [] in
  let payload := write_bool payload false in
  (write_u32 payload 0, rng).

(** ** What the KEXINIT payload says *)

(** A reader of RFC 4253 section 7.1's message body, after the cookie: [n]
    name-lists. *)
Fixpoint read_name_lists `{!BuildProfile} (n : nat) (cursor : bytes)
    : SshResult (list (list bytes) * bytes) :=
  match n with
  | O => Ok ([], cursor)
  | S n =>
      '(l, cursor) ← read_name_list cursor;
      '(ls, cursor) ← read_name_lists n cursor;
      Ok (l :: ls, cursor)
  end.

Record kexinit := mkKexinit {
  cookie : bytes; name_lists : list (list bytes); follows : bool; reserved : Z
}.

Definition read_kexinit `{!BuildProfile} (payload : bytes) : SshResult (kexinit * bytes) :=
  '(ls, cursor) ← read_name_lists 10 (drop 16 payload);
  '(b, cursor) ← read_bool cursor;
  '(r, cursor) ← read_u32 cursor;
  Ok (mkKexinit (take 16 payload) ls b r, cursor).

Lemma exchange_transcript_enc v_c v_s i_c i_s k_s e f k :
  exchange_transcript v_c v_s i_c i_s k_s e f k =
  enc_string v_c ++ enc_string v_s ++ enc_string i_c ++ enc_string i_s ++ enc_string k_s ++
  enc_string e ++ enc_string f ++ enc_string (mpint_body k).
Proof.
  unfold exchange_transcript. rewrite write_mpint_enc, !write_string_enc.
  by rewrite <- !app_assoc.
Qed.

(** Two ends that exchange their public keys compute the same result. *)
Section agreement.
Context {R K : Type} `{x25519_impl : !X25519 R K, x25519_laws : !X25519Laws R K} `{sha_impl : !Sha256}.

Lemma KexClient_new_pub (r r' : R) (c : KexClient K) :
  KexClient_new r = (c, r') → len (client_ephemeral_pub c) = 32.
Proof.
  unfold KexClient_new. destruct (ephemeral_secret r) as [k r1]. intros [= <- _].
  apply public_key_len.
Qed.

Lemma KexServer_new_pub (r r' : R) (s : KexServer K) :
  KexServer_new r = (s, r') → len (server_ephemeral_pub s) = 32.
Proof.
  unfold KexServer_new. destruct (ephemeral_secret r) as [k r1]. intros [= <- _].
  apply public_key_len.
Qed.

Lemma kex_both rng_c rng_s rng_c' rng_s' (c : KexClient K) (s : KexServer K) v_c v_s i_c i_s hk :
  KexClient_new (R:=R) rng_c = (c, rng_c') → KexServer_new rng_s = (s, rng_s') →
  ∃ result,
    KexClient_complete (R:=R) (server_ephemeral_pub s) v_c v_s i_c i_s hk c =
      (Ok result, mkKexClient None (client_ephemeral_pub c)) ∧
    KexServer_complete (R:=R) (client_ephemeral_pub c) v_c v_s i_c i_s hk s =
      (Ok result, mkKexServer None (server_ephemeral_pub s)).
Proof.
  unfold KexClient_new, KexServer_new. intros Hc Hs.
  destruct (ephemeral_secret rng_c) as [a ra], (ephemeral_secret rng_s) as [b rb]. simplify_eq.
  unfold KexClient_complete, KexServer_complete.
  cbn [kc_secret ks_secret client_ephemeral_pub server_ephemeral_pub].
  rewrite (diffie_hellman_comm b a). by eexists.
Qed.
End agreement.

(** ** Properties of the key exchange *)

(** C27.  Both ends compute the same key material: a client and a server that
    exchange their ephemeral public keys and agree on versions, KEXINIT payloads
    and host key get the same shared secret and the same exchange hash; on both
    sides the ephemeral secret is then gone, so [complete] fails if it is called
    again with any arguments. *)
Theorem kex_agreement {R K} `{x25519_impl : !X25519 R K, x25519_laws : !X25519Laws R K} `{sha_impl : !Sha256}
    (rng_c rng_s rng_c' rng_s' : R) (c : KexClient K) (s : KexServer K)
    (v_c v_s i_c i_s host_key : bytes) :
  KexClient_new rng_c = (c, rng_c') → KexServer_new rng_s = (s, rng_s') →
  ∃ result c' s',
    KexClient_complete (server_ephemeral_pub s) v_c v_s i_c i_s host_key c = (Ok result, c') ∧
    KexServer_complete (client_ephemeral_pub c) v_c v_s i_c i_s host_key s = (Ok result, s') ∧
    (∀ p v w i j k, KexClient_complete p v w i j k c' =
       (Err (KeyExchange "Key exchange already completed"), c')) ∧
    (∀ p v w i j k, KexServer_complete p v w i j k s' =
       (Err (KeyExchange "Key exchange already completed"), s')).
Proof.
  intros Hc Hs.
  destruct (kex_both rng_c rng_s rng_c' rng_s' c s v_c v_s i_c i_s host_key Hc Hs)
    as (result & Ec & Es). by eexists _, _, _.
Qed.

Lemma kex_agreement_witness :
  ∃ result c' s',
    KexClient_complete (server_ephemeral_pub (KexServer_new 5).1)
      (bs "SSH-2.0-c") (bs "SSH-2.0-s") [x14] [x14; x00] (bs "key") (KexClient_new 9).1 =
      (Ok result, c') ∧
    KexServer_complete (client_ephemeral_pub (KexClient_new 9).1)
      (bs "SSH-2.0-c") (bs "SSH-2.0-s") [x14] [x14; x00] (bs "key") (KexServer_new 5).1 =
      (Ok result, s') ∧
    (∀ p v w i j k, KexClient_complete p v w i j k c' =
       (Err (KeyExchange "Key exchange already completed"), c')) ∧
    (∀ p v w i j k, KexServer_complete p v w i j k s' =
       (Err (KeyExchange "Key exchange already completed"), s')).
Proof. apply (kex_agreement 9 5 10 6); reflexivity. Defined.

(** C28.  The exchange hash binds the whole handshake: two transcripts whose
    fields are shorter than 2^32 bytes are equal only if the versions, the KEXINIT
    payloads, the host key and the ephemeral keys are equal and the shared
    secrets denote the same number.  No field can be traded against another. *)
Theorem exchange_transcript_injective
    (v_c v_s i_c i_s k_s e f k v_c' v_s' i_c' i_s' k_s' e' f' k' : bytes) :
  Forall (λ d, len d < U32 - 2) [v_c; v_s; i_c; i_s; k_s; e; f; k] →
  Forall (λ d, len d < U32 - 2) [v_c'; v_s'; i_c'; i_s'; k_s'; e'; f'; k'] →
  exchange_transcript v_c v_s i_c i_s k_s e f k =
    exchange_transcript v_c' v_s' i_c' i_s' k_s' e' f' k' →
  [v_c; v_s; i_c; i_s; k_s; e; f] = [v_c'; v_s'; i_c'; i_s'; k_s'; e'; f'] ∧
  be_decode k = be_decode k'.
Proof.
  rewrite !exchange_transcript_enc, !Forall_cons. intros Hl Hl' E. destruct_and!. pose proof (len_mpint_body k). pose proof (len_mpint_body k').
  repeat (apply enc_string_inj in E as [-> E]; [|lia|lia]).
  split; [done|]. rewrite <- (be_decode_mpint_body k), <- (be_decode_mpint_body k').
  rewrite <- (app_nil_r (enc_string (mpint_body k))), <- (app_nil_r (enc_string (mpint_body k'))) in E.
  apply enc_string_inj in E as [-> _]; [done|lia|lia].
Qed.

Lemma exchange_transcript_injective_witness :
  [bs "a"; bs "b"; []; []; []; []; []] = [bs "a"; bs "b"; []; []; []; []; []] ∧
  be_decode [x00; x05] = be_decode [x05].
Proof.
  apply (exchange_transcript_injective (bs "a") (bs "b") [] [] [] [] [] [x00; x05]
           (bs "a") (bs "b") [] [] [] [] [] [x05]); [by_eval|by_eval|reflexivity].
Defined.

(** The KEXINIT payload is well formed: read as RFC 4253 section 7.1's
    message it yields a 16-byte cookie, the ten advertised lists in order, no
    guessed packet, a zero reserved word, and nothing is left over. *)
Theorem build_kexinit_payload_reads_back {R} `{rng_impl : !Rng R, rng_laws : !RngLaws R}
    `{profile : !BuildProfile} (rng : R) :
  ∃ cookie, len cookie = 16 ∧
  read_kexinit (build_kexinit_payload rng).1 =
    Ok (mkKexinit cookie
          [KEX_ALGORITHMS; HOST_KEY_ALGORITHMS; ENCRYPTION_ALGORITHMS; ENCRYPTION_ALGORITHMS;
           MAC_ALGORITHMS; MAC_ALGORITHMS; COMPRESSION_ALGORITHMS; COMPRESSION_ALGORITHMS;
           []; []] false 0, []).
Proof.
  unfold build_kexinit_payload. pose proof (fill_bytes_len 16 rng ltac:(lia)) as Hl.
  destruct (fill_bytes 16 rng) as [c r]. cbn [fst] in Hl |- *. exists c. split; [done|].
  assert (length c = 16%nat) as Hc by (unfold len in Hl; lia).
  rewrite !write_name_list_enc, write_bool_enc, write_u32_enc, <- !app_assoc, app_nil_l.
  unfold read_kexinit. rewrite take_app_length', drop_app_length' by done.
  by destruct profile; vm_compute.
Qed.

Lemma build_kexinit_payload_reads_back_witness :
  ∃ cookie, len cookie = 16 ∧
  @read_kexinit true (build_kexinit_payload 7).1 =
    Ok (mkKexinit cookie
          [KEX_ALGORITHMS; HOST_KEY_ALGORITHMS; ENCRYPTION_ALGORITHMS; ENCRYPTION_ALGORITHMS;
           MAC_ALGORITHMS; MAC_ALGORITHMS; COMPRESSION_ALGORITHMS; COMPRESSION_ALGORITHMS;
           []; []] false 0, []).
Proof. apply (@build_kexinit_payload_reads_back Z _ _ true 7). Defined.
