(* ===== verification/Auth.v ===== *)
(** User authentication ([src/auth/mod.rs]): credentials, the server's user
    database, the packet builders and the parser of authentication requests. *)
From S2P Require Export Session.

Inductive Credential : Type :=
| Password (password : bytes)
| PublicKey (algorithm key_blob : bytes) (signature : option bytes).

#[export] Instance Credential_eq_dec : EqDecision Credential.
Proof. solve_decision. Defined.

(** ** The user database *)

Record UserDatabase := mkUserDatabase {
  passwords : gmap bytes bytes;
  public_keys : gmap bytes (list bytes)
}.

Definition UserDatabase_new : UserDatabase := mkUserDatabase ∅ ∅.

Definition add_password_user (username password : bytes) (db : UserDatabase) : UserDatabase :=
  mkUserDatabase (<[username := password]> (passwords db)) (public_keys db).

Definition add_public_key (username key_blob : bytes) (db : UserDatabase) : UserDatabase :=
  mkUserDatabase (passwords db)
    (<[username := default [] (public_keys db !! username) ++ [key_blob]]> (public_keys db)).

Definition verify_password (db : UserDatabase) (username password : bytes) : bool :=
  default false ((λ p, bool_decide (p = password)) <$> passwords db !! username).

Definition is_key_authorized (db : UserDatabase) (username key_blob : bytes) : bool :=
  default false ((λ keys, existsb (λ k, bool_decide (k = key_blob)) keys)
                   <$> public_keys db !! username).

(** ** Packet builders *)

Definition build_password_auth_request (username service password : bytes) : SshPacket :=
  let payload := [] in
  let payload := write_utf8 payload username in
  let payload := write_utf8 payload service in
  let payload := write_utf8 payload (bs "password") in
  let payload := write_bool payload false in
  let payload := write_utf8 payload password in
  SshPacket_new UserAuthRequest payload.

Definition build_pubkey_auth_request (username service algorithm key_blob : bytes)
    (signature : option bytes) : SshPacket :=
  let payload := [] in
  let payload := write_utf8 payload username in
  let payload := write_utf8 payload service in
  let payload := write_utf8 payload (bs "publickey") in
  let payload := write_bool payload (bool_decide (is_Some signature)) in
  let payload := write_utf8 payload algorithm in
  let payload := write_string payload key_blob in
  let payload := match signature with
                 | Some sig => write_string payload sig
                 | None => payload
                 end in
  SshPacket_new UserAuthRequest payload.

Definition build_auth_failure (methods : list bytes) (partial_success : bool) : SshPacket :=
  let payload := [] in
  let payload := write_name_list payload methods in
  let payload := write_bool payload partial_success in
  SshPacket_new UserAuthFailure payload.

Definition build_auth_success : SshPacket := SshPacket_new UserAuthSuccess [].

Definition build_service_request (service_name : bytes) : SshPacket :=
  SshPacket_new ServiceRequest (write_utf8 [] service_name).

Definition build_service_accept (service_name : bytes) : SshPacket :=
  SshPacket_new ServiceAccept (write_utf8 [] service_name).

(** ** Parsing a request *)

Record AuthRequest := mkAuthRequest {
  username : bytes;
  service : bytes;
  method : bytes;
  credential : Credential
}.

#[export] Instance AuthRequest_eq_dec : EqDecision AuthRequest.
Proof. solve_decision. Defined.

(** The [match method.as_str()] of [AuthRequest::parse]. *)
Definition parse_credential `{!BuildProfile} (method cursor : bytes) : SshResult Credential :=
  if decide (method = bs "password") then
    '(_change, cursor) ← read_bool cursor;
    '(password, cursor) ← read_utf8 cursor;
    Ok (Password password)
  else if decide (method = bs "publickey") then
    '(has_sig, cursor) ← read_bool cursor;
    '(algorithm, cursor) ← read_utf8 cursor;
    '(key_blob, cursor) ← read_string cursor;
    signature ← (if has_sig : bool
                 then '(sig, _) ← read_string cursor; Ok (Some sig)
                 else Ok None);
    Ok (PublicKey algorithm key_blob signature)
  else Err (AuthFailed ("Unsupported auth method: " +:+ show_bytes method)).

Definition AuthRequest_parse `{!BuildProfile} (payload : bytes) : SshResult AuthRequest :=
  '(username, cursor) ← read_utf8 payload;
  '(service, cursor) ← read_utf8 cursor;
  '(method, cursor) ← read_utf8 cursor;
  credential ← parse_credential method cursor;
  Ok (mkAuthRequest username service method credential).

(** ** Properties of the user database *)

(** The users of a sequence of registrations, most recent first. *)
Inductive registration := RegPassword (u p : bytes) | RegKey (u k : bytes).

Definition register (r : registration) (db : UserDatabase) : UserDatabase :=
  match r with
  | RegPassword u p => add_password_user u p db
  | RegKey u k => add_public_key u k db
  end.

Definition registered (history : list registration) : UserDatabase :=
  foldr register UserDatabase_new history.

(** The password in force: that of the most recent registration of the user. *)
Fixpoint last_password (history : list registration) (u : bytes) : option bytes :=
  match history with
  | [] => None
  | RegPassword v p :: h => if decide (v = u) then Some p else last_password h u
  | RegKey _ _ :: h => last_password h u
  end.

Lemma registered_password h u : passwords (registered h) !! u = last_password h u.
Proof.
  induction h as [|[v p|v k] h IH]; simpl; [apply lookup_empty| |done].
  case_decide as E; [subst; apply lookup_insert_eq|].
  by rewrite lookup_insert_ne.
Qed.

Lemma registered_key h u k :
  k ∈ default [] (public_keys (registered h) !! u) ↔ RegKey u k ∈ h.
Proof.
  induction h as [|[v p|v j] h IH]; simpl.
  - rewrite lookup_empty. simpl. by rewrite !elem_of_nil.
  - rewrite IH, elem_of_cons. intuition congruence.
  - rewrite elem_of_cons. destruct (decide (v = u)) as [->|Hn].
    + rewrite lookup_insert_eq. simpl. rewrite elem_of_app, list_elem_of_singleton, IH.
      intuition congruence.
    + rewrite lookup_insert_ne, IH by done. intuition congruence.
Qed.

(** The database means what was registered: after any sequence of
    registrations a password is accepted exactly when it is the user's most
    recent one, and a key exactly when it was added for that user; nothing else
    is ever accepted. *)
Theorem user_database_correct (history : list registration) (u secret : bytes) :
  (verify_password (registered history) u secret = true ↔
     last_password history u = Some secret) ∧
  (is_key_authorized (registered history) u secret = true ↔ RegKey u secret ∈ history).
Proof.
  split.
  - unfold verify_password. rewrite registered_password.
    destruct (last_password history u) as [p|]; simpl; [|done].
    rewrite bool_decide_eq_true. intuition congruence.
  - rewrite <- registered_key. unfold is_key_authorized.
    destruct (public_keys (registered history) !! u) as [ks|]; simpl; [|by rewrite elem_of_nil].
    rewrite existsb_exists, list_elem_of_In. setoid_rewrite bool_decide_eq_true.
    split; [by intros (k & Hk & ->)|eauto].
Qed.

(** ** Properties of the request parser *)

(** How a credential and a request are laid out on the wire; a boolean byte
    precedes the credential. *)
Definition credential_wire (c : Credential) : bytes :=
  match c with
  | Password p => enc_string p
  | PublicKey alg blob sig => enc_string alg ++ enc_string blob ++ default [] (enc_string <$> sig)
  end.

Definition request_wire (req : AuthRequest) (flag : byte) : bytes :=
  enc_string (username req) ++ enc_string (service req) ++ enc_string (method req) ++
  flag :: credential_wire (credential req).

(** The requests that exist: the method names the credential, the strings are
    within the reader's limit, and the flag of a key says whether it is signed. *)
Definition credential_wf (method : bytes) (c : Credential) (flag : byte) : Prop :=
  match c with
  | Password p => method = bs "password" ∧ wire_utf8 p
  | PublicKey alg blob sig =>
      method = bs "publickey" ∧ wire_utf8 alg ∧ wire_string blob ∧
      match sig with Some s => flag ≠ x00 ∧ wire_string s | None => flag = x00 end
  end.

Definition request_wf (req : AuthRequest) (flag : byte) : Prop :=
  wire_utf8 (username req) ∧ wire_utf8 (service req) ∧
  credential_wf (method req) (credential req) flag.

Section parsing.
Context `{profile : !BuildProfile}.

Lemma parse_credential_returns m c : returns (parse_credential m c) = true.
Proof. unfold parse_credential. parser_returns. Qed.

Lemma parse_credential_sound m c cred :
  parse_credential m c = Ok cred →
  ∃ flag rest, c = flag :: credential_wire cred ++ rest ∧ credential_wf m cred flag.
Proof.
  unfold parse_credential. repeat case_decide; [..|done]; intros Hc; invert_parser Hc.
  - simplify_eq. do 2 eexists. split; [reflexivity|done].
  - bind_inv Hc as sig Hs. simplify_eq. case_bool_decide as Hf.
    + invert_parser Hs. simplify_eq. do 2 eexists. cbn. rewrite <- !app_assoc.
      split; [reflexivity|done].
    + simplify_eq. do 2 eexists. cbn. rewrite <- !app_assoc. cbn.
      split; [reflexivity|done].
Qed.

Lemma parse_credential_wire m cred flag rest :
  credential_wf m cred flag →
  parse_credential m (flag :: credential_wire cred ++ rest) = Ok cred.
Proof.
  assert (Hb : ∀ r, read_bool (flag :: r) = Ok (bool_decide (flag ≠ x00), r)) by done.
  destruct cred as [p|alg blob sig]; cbn [credential_wf credential_wire].
  - intros [-> Hp]. unfold parse_credential. rewrite decide_True, Hb by done.
    cbn [mbind outcome_bind]. by run_parser.
  - intros (-> & Ha & Hbl & Hs). unfold parse_credential.
    rewrite decide_False, decide_True, Hb by done. cbn [mbind outcome_bind].
    rewrite <- !app_assoc. run_parser.
    destruct sig as [s|]; cbn [default fmap option_fmap option_map id].
    + destruct Hs as [Hf Hs]. rewrite (bool_decide_eq_true_2 _ Hf). by run_parser.
    + subst flag. done.
Qed.

End parsing.
#[export] Hint Resolve parse_credential_returns : returns.

Lemma AuthRequest_parse_returns `{profile : !BuildProfile} d : returns (AuthRequest_parse d) = true.
Proof. unfold AuthRequest_parse. parser_returns. Qed.
#[export] Hint Resolve AuthRequest_parse_returns : returns.

Lemma AuthRequest_parse_wire `{profile : !BuildProfile} req flag rest :
  request_wf req flag → AuthRequest_parse (request_wire req flag ++ rest) = Ok req.
Proof.
  intros (Hu & Hs & Hc). unfold request_wire, AuthRequest_parse.
  assert (wire_utf8 (method req)) as Hm.
  { destruct req as [u s m [p|alg blob sig]]; cbn in Hc |- *; destruct Hc as [-> _]; by_eval. }
  rewrite <- !app_assoc. run_parser. rewrite parse_credential_wire by done. by destruct req.
Qed.

(** The client's requests as they are parsed. *)
Lemma parse_password_request `{profile : !BuildProfile} u s password :
  wire_utf8 u → wire_utf8 s → wire_utf8 password →
  AuthRequest_parse (payload (build_password_auth_request u s password)) =
  Ok (mkAuthRequest u s (bs "password") (Password password)).
Proof.
  intros Hu Hs Hp.
  rewrite <- (AuthRequest_parse_wire (mkAuthRequest u s (bs "password") (Password password)) x00 []) by done.
  f_equal. cbn [build_password_auth_request SshPacket_new payload].
  unfold request_wire. cbn. autorewrite with wire. by rewrite app_nil_r.
Qed.

Lemma parse_pubkey_request `{profile : !BuildProfile} u s alg blob sig :
  wire_utf8 u → wire_utf8 s → wire_utf8 alg → wire_string blob →
  (∀ d, sig = Some d → wire_string d) →
  AuthRequest_parse (payload (build_pubkey_auth_request u s alg blob sig)) =
  Ok (mkAuthRequest u s (bs "publickey") (PublicKey alg blob sig)).
Proof.
  intros Hu Hs Ha Hb Hsig.
  rewrite <- (AuthRequest_parse_wire (mkAuthRequest u s (bs "publickey") (PublicKey alg blob sig))
                (if bool_decide (is_Some sig) then x01 else x00) []).
  - f_equal. unfold request_wire. destruct sig; cbn; autorewrite with wire; by rewrite ?app_nil_r.
  - unfold request_wf. destruct sig as [d|]; cbn; split_and!; solve [done|auto].
Qed.

(** C32.  [AuthRequest::parse] neither panics nor loops on any payload, and it
    accepts a payload exactly when it starts with the encoding of a well-formed
    request, which it returns; trailing bytes are ignored. *)
Theorem AuthRequest_parse_iff `{profile : !BuildProfile} (payload : bytes) :
  returns (AuthRequest_parse payload) = true ∧
  ∀ req, AuthRequest_parse payload = Ok req ↔
    ∃ flag rest, payload = request_wire req flag ++ rest ∧ request_wf req flag.
Proof.
  split; [apply AuthRequest_parse_returns|]. intros req. split.
  - unfold AuthRequest_parse. intros H. invert_parser H.
    bind_inv H as c Hc. simplify_eq.
    apply parse_credential_sound in Hc as (flag & rest & -> & Hc).
    exists flag, rest. split; [|done]. unfold request_wire. cbn.
    by rewrite <- !app_assoc.
  - intros (flag & rest & -> & Hwf). by apply AuthRequest_parse_wire.
Qed.

(** Round trip of the client's builders: a password or public-key request
    built from strings within the reader's limits is parsed by the server as the
    same user, service, method and credential. *)
Theorem auth_request_roundtrip `{profile : !BuildProfile}
    (u s password alg blob : bytes) (sig : option bytes) :
  Forall wire_utf8 [u; s; password; alg] → wire_string blob →
  (∀ d, sig = Some d → wire_string d) →
  AuthRequest_parse (payload (build_password_auth_request u s password)) =
    Ok (mkAuthRequest u s (bs "password") (Password password)) ∧
  AuthRequest_parse (payload (build_pubkey_auth_request u s alg blob sig)) =
    Ok (mkAuthRequest u s (bs "publickey") (PublicKey alg blob sig)).
Proof.
  rewrite !Forall_cons. intros (Hu & Hs & Hp & Ha & _) Hb Hsig.
  split; [by apply parse_password_request|by apply parse_pubkey_request].
Qed.

Lemma auth_request_roundtrip_witness :
  @AuthRequest_parse true
    (payload (build_password_auth_request (bs "alice") (bs "ssh-connection") (bs "pw"))) =
    Ok (mkAuthRequest (bs "alice") (bs "ssh-connection") (bs "password") (Password (bs "pw"))) ∧
  @AuthRequest_parse true
    (payload (build_pubkey_auth_request (bs "alice") (bs "ssh-connection") (bs "ssh-ed25519")
                [x0a; x14] (Some [x28]))) =
    Ok (mkAuthRequest (bs "alice") (bs "ssh-connection") (bs "publickey")
          (PublicKey (bs "ssh-ed25519") [x0a; x14] (Some [x28]))).
Proof.
  apply (@auth_request_roundtrip true); [by_eval|by_eval|intros d [= <-]; by_eval].
Defined.
