(* ===== verification/Connection.v ===== *)
(** Channel multiplexing ([src/connection/mod.rs]): channels, the channel manager,
    the packet builders and the parsers of channel messages. *)
From S2P Require Export Session.

(** ** Channels *)

Record Channel := mkChannel {
  local_id : Z;
  remote_id : Z;
  channel_type : bytes;
  local_window : Z;
  remote_window : Z;
  local_max_packet : Z;
  remote_max_packet : Z;
  eof_sent : bool;
  eof_received : bool;
  closed : bool;
  recv_buffer : bytes
}.

Definition Channel_new (local_id : Z) (channel_type : bytes) : Channel :=
  {| local_id := local_id; remote_id := 0; channel_type := channel_type;
     local_window := DEFAULT_WINDOW_SIZE; remote_window := 0;
     local_max_packet := DEFAULT_MAX_PACKET_SIZE; remote_max_packet := 0;
     eof_sent := false; eof_received := false; closed := false; recv_buffer := [] |}.

(** Writes to the fields of a channel. *)
Definition set_remote (id window max_packet : Z) (ch : Channel) : Channel :=
  {| local_id := local_id ch; remote_id := id; channel_type := channel_type ch;
     local_window := local_window ch; remote_window := window;
     local_max_packet := local_max_packet ch; remote_max_packet := max_packet;
     eof_sent := eof_sent ch; eof_received := eof_received ch; closed := closed ch;
     recv_buffer := recv_buffer ch |}.

Definition set_local_window (w : Z) (ch : Channel) : Channel :=
  {| local_id := local_id ch; remote_id := remote_id ch; channel_type := channel_type ch;
     local_window := w; remote_window := remote_window ch;
     local_max_packet := local_max_packet ch; remote_max_packet := remote_max_packet ch;
     eof_sent := eof_sent ch; eof_received := eof_received ch; closed := closed ch;
     recv_buffer := recv_buffer ch |}.

Definition set_remote_window (w : Z) (ch : Channel) : Channel :=
  set_remote (remote_id ch) w (remote_max_packet ch) ch.

Definition set_recv_buffer (b : bytes) (ch : Channel) : Channel :=
  {| local_id := local_id ch; remote_id := remote_id ch; channel_type := channel_type ch;
     local_window := local_window ch; remote_window := remote_window ch;
     local_max_packet := local_max_packet ch; remote_max_packet := remote_max_packet ch;
     eof_sent := eof_sent ch; eof_received := eof_received ch; closed := closed ch;
     recv_buffer := b |}.

Definition set_eof_received (ch : Channel) : Channel :=
  {| local_id := local_id ch; remote_id := remote_id ch; channel_type := channel_type ch;
     local_window := local_window ch; remote_window := remote_window ch;
     local_max_packet := local_max_packet ch; remote_max_packet := remote_max_packet ch;
     eof_sent := eof_sent ch; eof_received := true; closed := closed ch;
     recv_buffer := recv_buffer ch |}.

(** ** The channel manager *)

Record ChannelManager := mkManager { channels : gmap Z Channel; next_id : Z }.

(** The iteration order of the [HashMap] is unspecified and changes from run to
    run: [map_order] is any enumeration of the entries. *)
Class MapOrder := map_order : gmap Z Channel → list (Z * Channel).
Class MapOrderLaws `{!MapOrder} :=
  map_order_perm : ∀ m : gmap Z Channel, map_order m ≡ₚ map_to_list m.

Definition ChannelManager_new : ChannelManager := mkManager ∅ 0.

Definition with_channels (f : gmap Z Channel → gmap Z Channel) (m : ChannelManager) :=
  mkManager (f (channels m)) (next_id m).

Section manager.
Context `{profile : !BuildProfile}.

Abbreviation mgr := (io SshError ChannelManager).

(** [let id = self.next_id; self.next_id += 1;] *)
Definition take_id : mgr Z :=
  id ← gets next_id;
  next ← lift (u32_add id 1);
  _ ← modify (λ m, mkManager (channels m) next);
  mret id.

Definition open_channel (channel_type : bytes) : mgr Z :=
  id ← take_id;
  let channel := Channel_new id channel_type in
  _ ← modify (with_channels <[id := channel]>);
  mret id.

Definition accept_channel (remote_id : Z) (channel_type : bytes)
    (remote_window remote_max_packet : Z) : mgr Z :=
  local_id ← take_id;
  let channel := Channel_new local_id channel_type in
  let channel := set_remote remote_id remote_window remote_max_packet channel in
  _ ← modify (with_channels <[local_id := channel]>);
  mret local_id.

Definition get (local_id : Z) (m : ChannelManager) : option Channel := channels m !! local_id.

(** [self.channels.get_mut(&local_id).ok_or_else(...)?] followed by the writes
    [f] makes to the channel. *)
Definition update_channel (local_id : Z) (f : Channel → SshResult Channel) : mgr unit := λ m,
  match get local_id m with
  | None => (Err (ChannelError ("Unknown channel " +:+ show_usize local_id)), m)
  | Some ch =>
      match f ch with
      | Ok ch => (Ok tt, with_channels <[local_id := ch]> m)
      | Err e => (Err e, m)
      | Panic s => (Panic s, m)
      | OutOfFuel => (OutOfFuel, m)
      end
  end.

Definition confirm_channel (local_id remote_id remote_window remote_max_packet : Z) : mgr unit :=
  update_channel local_id (λ ch, Ok (set_remote remote_id remote_window remote_max_packet ch)).

Definition remove_channel (local_id : Z) (m : ChannelManager)
    : option Channel * ChannelManager :=
  (get local_id m, with_channels (delete local_id) m).

Definition receive_data (local_id : Z) (data : bytes) : mgr unit :=
  update_channel local_id (λ ch,
    if decide (as_u32 (len data) > local_window ch) then Err (ChannelError "Window overflow")
    else Ok (set_recv_buffer (recv_buffer ch ++ data)
               (set_local_window (local_window ch - as_u32 (len data)) ch))).

Definition consume_remote_window (local_id amount : Z) : mgr unit :=
  update_channel local_id (λ ch,
    if decide (amount > remote_window ch)
    then Err (ChannelError "Would exceed remote window")
    else Ok (set_remote_window (remote_window ch - amount) ch)).

Definition adjust_local_window (local_id amount : Z) : mgr unit :=
  update_channel local_id (λ ch,
    Ok (set_local_window (u32_saturating_add (local_window ch) amount) ch)).

End manager.

Section lookup.
Context `{order_impl : !MapOrder}.

(** [values().find(|ch| ch.remote_id == remote_id)], with the entry's key. *)
Definition find_entry (remote : Z) (m : ChannelManager) : option (Z * Channel) :=
  snd <$> list_find (λ e, remote_id e.2 = remote) (map_order (channels m)).

Definition find_by_remote_id (remote : Z) (m : ChannelManager) : option Channel :=
  snd <$> find_entry remote m.

(** [if let Some(ch) = find_by_remote_id_mut(remote) { f(ch) }]. *)
Definition find_by_remote_id_mut (remote : Z) (f : Channel → Channel) (m : ChannelManager)
    : ChannelManager :=
  match find_entry remote m with
  | Some (id, ch) => with_channels <[id := f ch]> m
  | None => m
  end.

Definition active_count (m : ChannelManager) : Z :=
  len (filter (λ e : Z * Channel, closed e.2 = false) (map_order (channels m))).

End lookup.

(** ** Packet builders *)

Definition build_channel_open (channel_type : bytes) (sender_channel initial_window max_packet : Z)
    : SshPacket :=
  let payload := [] in
  let payload := write_utf8 payload channel_type in
  let payload := write_u32 payload sender_channel in
  let payload := write_u32 payload initial_window in
  let payload := write_u32 payload max_packet in
  SshPacket_new ChannelOpen payload.

Definition build_channel_open_confirmation
    (recipient_channel sender_channel initial_window max_packet : Z) : SshPacket :=
  let payload := [] in
  let payload := write_u32 payload recipient_channel in
  let payload := write_u32 payload sender_channel in
  let payload := write_u32 payload initial_window in
  let payload := write_u32 payload max_packet in
  SshPacket_new ChannelOpenConfirmation payload.

Definition build_channel_open_failure (recipient_channel reason_code : Z) (description : bytes)
    : SshPacket :=
  let payload := [] in
  let payload := write_u32 payload recipient_channel in
  let payload := write_u32 payload reason_code in
  let payload := write_utf8 payload description in
  let payload := write_utf8 payload (bs "en") in
  SshPacket_new ChannelOpenFailure payload.

Definition build_channel_data (recipient_channel : Z) (data : bytes) : SshPacket :=
  let payload := [] in
  let payload := write_u32 payload recipient_channel in
  let payload := write_string payload data in
  SshPacket_new ChannelData payload.

Definition build_window_adjust (recipient_channel bytes_to_add : Z) : SshPacket :=
  let payload := [] in
  let payload := write_u32 payload recipient_channel in
  let payload := write_u32 payload bytes_to_add in
  SshPacket_new ChannelWindowAdjust payload.

Definition build_channel_eof (recipient_channel : Z) : SshPacket :=
  SshPacket_new ChannelEof (write_u32 [] recipient_channel).

Definition build_channel_close (recipient_channel : Z) : SshPacket :=
  SshPacket_new ChannelClose (write_u32 [] recipient_channel).

Definition build_exec_request (recipient_channel : Z) (command : bytes) (want_reply : bool)
    : SshPacket :=
  let payload := [] in
  let payload := write_u32 payload recipient_channel in
  let payload := write_utf8 payload (bs "exec") in
  let payload := write_bool payload want_reply in
  let payload := write_utf8 payload command in
  SshPacket_new ChannelRequest payload.

Definition build_shell_request (recipient_channel : Z) (want_reply : bool) : SshPacket :=
  let payload := [] in
  let payload := write_u32 payload recipient_channel in
  let payload := write_utf8 payload (bs "shell") in
  let payload := write_bool payload want_reply in
  SshPacket_new ChannelRequest payload.

Definition build_pty_request (recipient_channel : Z) (term : bytes)
    (width_cols height_rows width_px height_px : Z) (want_reply : bool) : SshPacket :=
  let payload := [] in
  let payload := write_u32 payload recipient_channel in
  let payload := write_utf8 payload (bs "pty-req") in
  let payload := write_bool payload want_reply in
  let payload := write_utf8 payload term in
  let payload := write_u32 payload width_cols in
  let payload := write_u32 payload height_rows in
  let payload := write_u32 payload width_px in
  let payload := write_u32 payload height_px in
  let payload := write_string payload [x00] in
  SshPacket_new ChannelRequest payload.

(** ** Parsers *)

Record ChannelOpenMsg := mkChannelOpenMsg {
  open_channel_type : bytes;
  open_sender_channel : Z;
  open_initial_window : Z;
  open_max_packet : Z
}.

Record ChannelDataMsg := mkChannelDataMsg {
  data_recipient_channel : Z;
  data_data : bytes
}.

Record ChannelRequestMsg := mkChannelRequestMsg {
  req_recipient_channel : Z;
  req_request_type : bytes;
  req_want_reply : bool;
  req_data : bytes
}.

#[export] Instance ChannelOpenMsg_eq_dec : EqDecision ChannelOpenMsg.
Proof. solve_decision. Defined.
#[export] Instance ChannelDataMsg_eq_dec : EqDecision ChannelDataMsg.
Proof. solve_decision. Defined.
#[export] Instance ChannelRequestMsg_eq_dec : EqDecision ChannelRequestMsg.
Proof. solve_decision. Defined.

Section parsers.
Context `{profile : !BuildProfile}.

Definition ChannelOpenMsg_parse (payload : bytes) : SshResult ChannelOpenMsg :=
  '(channel_type, cursor) ← read_utf8 payload;
  '(sender_channel, cursor) ← read_u32 cursor;
  '(initial_window, cursor) ← read_u32 cursor;
  '(max_packet, _) ← read_u32 cursor;
  Ok (mkChannelOpenMsg channel_type sender_channel initial_window max_packet).

Definition ChannelDataMsg_parse (payload : bytes) : SshResult ChannelDataMsg :=
  '(recipient_channel, cursor) ← read_u32 payload;
  '(data, _) ← read_string cursor;
  Ok (mkChannelDataMsg recipient_channel data).

(** [payload[pos..]] at the cursor's position is what the cursor has left. *)
Definition ChannelRequestMsg_parse (payload : bytes) : SshResult ChannelRequestMsg :=
  '(recipient_channel, cursor) ← read_u32 payload;
  '(request_type, cursor) ← read_utf8 cursor;
  '(want_reply, cursor) ← read_bool cursor;
  Ok (mkChannelRequestMsg recipient_channel request_type want_reply cursor).

End parsers.

(** ** Properties of the parsers *)

Section parsers_return.
Context `{profile : !BuildProfile}.

Lemma ChannelOpenMsg_parse_returns d : returns (ChannelOpenMsg_parse d) = true.
Proof. unfold ChannelOpenMsg_parse. parser_returns. Qed.

Lemma ChannelDataMsg_parse_returns d : returns (ChannelDataMsg_parse d) = true.
Proof. unfold ChannelDataMsg_parse. parser_returns. Qed.

Lemma ChannelRequestMsg_parse_returns d : returns (ChannelRequestMsg_parse d) = true.
Proof. unfold ChannelRequestMsg_parse. parser_returns. Qed.
End parsers_return.
#[export] Hint Resolve ChannelOpenMsg_parse_returns ChannelDataMsg_parse_returns
  ChannelRequestMsg_parse_returns : returns.

(** The channel-message parsers return on every payload, and each accepts
    exactly the payloads that start with the fields of its message, which it
    returns (the request parser with the rest of the payload, its
    type-specific data). *)
Theorem channel_parsers_spec `{profile : !BuildProfile} (payload : bytes) :
  (returns (ChannelOpenMsg_parse payload) = true ∧
   returns (ChannelDataMsg_parse payload) = true ∧
   returns (ChannelRequestMsg_parse payload) = true) ∧
  (∀ t s w m, ChannelOpenMsg_parse payload = Ok (mkChannelOpenMsg t s w m) ↔
     ∃ rest, payload = enc_string t ++ be_encode 4 s ++ be_encode 4 w ++ be_encode 4 m ++ rest ∧
       wire_utf8 t ∧ is_u32 s ∧ is_u32 w ∧ is_u32 m) ∧
  (∀ r d, ChannelDataMsg_parse payload = Ok (mkChannelDataMsg r d) ↔
     ∃ rest, payload = be_encode 4 r ++ enc_string d ++ rest ∧ is_u32 r ∧ wire_string d) ∧
  (∀ r t b d, ChannelRequestMsg_parse payload = Ok (mkChannelRequestMsg r t b d) ↔
     ∃ flag, payload = be_encode 4 r ++ enc_string t ++ flag :: d ∧ is_u32 r ∧ wire_utf8 t ∧
       b = bool_decide (flag ≠ x00)).
Proof.
  split; [auto with returns|].
  unfold ChannelOpenMsg_parse, ChannelDataMsg_parse, ChannelRequestMsg_parse.
  split_and!.
  - intros t s w m. split.
    + intros H. invert_parser H. simplify_eq. eexists. by split_and!.
    + intros (rest & -> & ? & ? & ? & ?). by run_parser.
  - intros r d. split.
    + intros H. invert_parser H. simplify_eq. eexists. by split_and!.
    + intros (rest & -> & ? & ?). by run_parser.
  - intros r t b d. split.
    + intros H. invert_parser H. simplify_eq. eexists. by split_and!.
    + intros (flag & -> & ? & ? & ->). by run_parser.
Qed.

Lemma parse_channel_open `{profile : !BuildProfile} ty sender window max_packet :
  wire_utf8 ty → is_u32 sender → is_u32 window → is_u32 max_packet →
  ChannelOpenMsg_parse (payload (build_channel_open ty sender window max_packet)) =
  Ok (mkChannelOpenMsg ty sender window max_packet).
Proof.
  intros. unfold ChannelOpenMsg_parse. cbn [build_channel_open SshPacket_new payload].
  autorewrite with wire. by run_parser.
Qed.

Lemma parse_channel_data `{profile : !BuildProfile} id data :
  is_u32 id → wire_string data →
  ChannelDataMsg_parse (payload (build_channel_data id data)) = Ok (mkChannelDataMsg id data).
Proof.
  intros. unfold ChannelDataMsg_parse. cbn [build_channel_data SshPacket_new payload].
  autorewrite with wire. by run_parser.
Qed.

Lemma parse_exec_request `{profile : !BuildProfile} id command (want_reply : bool) :
  is_u32 id →
  ChannelRequestMsg_parse (payload (build_exec_request id command want_reply)) =
  Ok (mkChannelRequestMsg id (bs "exec") want_reply (enc_string command)).
Proof.
  intros. assert (wire_utf8 (bs "exec")) by by_eval.
  unfold ChannelRequestMsg_parse. cbn [build_exec_request SshPacket_new payload].
  autorewrite with wire. by run_parser.
Qed.

(** What one side builds the other side parses: channel-open, channel-data,
    exec, shell and pty requests come back field by field, and the command of an
    exec request is what the server's second read returns. *)
Theorem channel_messages_roundtrip `{profile : !BuildProfile}
    (id sender window max_packet cols rows wpx hpx : Z) (ty data command term : bytes)
    (want_reply : bool) :
  Forall is_u32 [id; sender; window; max_packet] → Forall wire_utf8 [ty; command] →
  wire_string data →
  ChannelOpenMsg_parse (payload (build_channel_open ty sender window max_packet)) =
    Ok (mkChannelOpenMsg ty sender window max_packet) ∧
  ChannelDataMsg_parse (payload (build_channel_data id data)) = Ok (mkChannelDataMsg id data) ∧
  (∃ d, ChannelRequestMsg_parse (payload (build_exec_request id command want_reply)) =
          Ok (mkChannelRequestMsg id (bs "exec") want_reply d) ∧
        read_utf8 d = Ok (command, [])) ∧
  ChannelRequestMsg_parse (payload (build_shell_request id want_reply)) =
    Ok (mkChannelRequestMsg id (bs "shell") want_reply []) ∧
  (∃ d, ChannelRequestMsg_parse (payload (build_pty_request id term cols rows wpx hpx want_reply)) =
          Ok (mkChannelRequestMsg id (bs "pty-req") want_reply d)).
Proof.
  rewrite !Forall_cons. intros (? & ? & ? & ? & _) (? & ? & _) ?.
  assert (wire_utf8 (bs "shell")) by by_eval. assert (wire_utf8 (bs "pty-req")) by by_eval.
  split_and!; [by apply parse_channel_open|by apply parse_channel_data|..].
  - exists (enc_string command). split; [by apply parse_exec_request|by apply read_utf8_last].
  - unfold ChannelRequestMsg_parse. cbn [build_shell_request SshPacket_new payload].
    autorewrite with wire. by run_parser.
  - unfold ChannelRequestMsg_parse. cbn [build_pty_request SshPacket_new payload].
    autorewrite with wire. eexists. by run_parser.
Qed.

Lemma channel_messages_roundtrip_witness :
  @ChannelOpenMsg_parse true (payload (build_channel_open (bs "session") 0 100 50)) =
    Ok (mkChannelOpenMsg (bs "session") 0 100 50) ∧
  @ChannelDataMsg_parse true (payload (build_channel_data 7 (bs "hello"))) =
    Ok (mkChannelDataMsg 7 (bs "hello")) ∧
  (∃ d, @ChannelRequestMsg_parse true (payload (build_exec_request 7 (bs "ls -la") true)) =
          Ok (mkChannelRequestMsg 7 (bs "exec") true d) ∧
        @read_utf8 true d = Ok (bs "ls -la", [])) ∧
  @ChannelRequestMsg_parse true (payload (build_shell_request 7 true)) =
    Ok (mkChannelRequestMsg 7 (bs "shell") true []) ∧
  (∃ d, @ChannelRequestMsg_parse true (payload (build_pty_request 7 (bs "xterm") 80 24 0 0 true)) =
          Ok (mkChannelRequestMsg 7 (bs "pty-req") true d)).
Proof. apply (@channel_messages_roundtrip true); by_eval. Defined.

(** ** Histories of the channel manager *)

(** One call of the manager; a caller may go on after an error, so a history keeps
    the state a failed call leaves. *)
Inductive mgr_op :=
| OpOpen (ty : bytes)
| OpAccept (remote : Z) (ty : bytes) (window max_packet : Z)
| OpConfirm (id remote window max_packet : Z)
| OpReceive (id : Z) (data : bytes)
| OpConsume (id amount : Z)
| OpAdjust (id amount : Z)
| OpRemove (id : Z).

(** The arguments are [u32]s and the data fits in memory. *)
Definition op_wf (op : mgr_op) : Prop :=
  match op with
  | OpOpen _ | OpRemove _ => True
  | OpAccept remote _ window max_packet => is_u32 window
  | OpConfirm _ remote window max_packet => is_u32 window
  | OpReceive _ data => len data < U32
  | OpConsume _ amount | OpAdjust _ amount => is_u32 amount
  end.

#[export] Instance op_wf_dec op : Decision (op_wf op).
Proof. destruct op; simpl; apply _. Defined.

(** What the calls that succeed mean for the windows: the book of a manager. *)
Inductive entry :=
| Opens (id : Z)
| Accepts (id window : Z)
| Confirms (id window : Z)
| Receives (id : Z) (data : bytes)
| Sends (id amount : Z)
| Credits (id amount : Z).

(** The data received on channel [id], the window this side granted it on top of the
    initial one, and how much the other side lets this one still send. *)
Definition bytes_received (book : list entry) (id : Z) : bytes :=
  concat (omap (λ e, match e with
                     | Receives i data => if decide (i = id) then Some data else None
                     | _ => None
                     end) book).

Definition bytes_credited (book : list entry) (id : Z) : Z :=
  foldr Z.add 0 (omap (λ e, match e with
                            | Credits i amount => if decide (i = id) then Some amount else None
                            | _ => None
                            end) book).

Definition bytes_sendable (book : list entry) (id : Z) : Z :=
  foldl (λ w e, match e with
                | Accepts i window | Confirms i window => if decide (i = id) then window else w
                | Sends i amount => if decide (i = id) then w - amount else w
                | _ => w
                end) 0 book.

Section histories.
Context `{profile : !BuildProfile}.

Definition run_op (op : mgr_op) (m : ChannelManager) : ChannelManager :=
  match op with
  | OpOpen ty => (open_channel ty m).2
  | OpAccept r ty w p => (accept_channel r ty w p m).2
  | OpConfirm i r w p => (confirm_channel i r w p m).2
  | OpReceive i data => (receive_data i data m).2
  | OpConsume i n => (consume_remote_window i n m).2
  | OpAdjust i n => (adjust_local_window i n m).2
  | OpRemove i => (remove_channel i m).2
  end.

Definition run_ops (ops : list mgr_op) : ChannelManager :=
  foldl (λ m op, run_op op m) ChannelManager_new ops.

Lemma run_ops_snoc ops op : run_ops (ops ++ [op]) = run_op op (run_ops ops).
Proof. unfold run_ops. by rewrite foldl_app. Qed.

(** The entry a call makes, if it succeeds. *)
Definition entry_of (op : mgr_op) (m : ChannelManager) : option entry :=
  match op with
  | OpOpen ty => match (open_channel ty m).1 with Ok id => Some (Opens id) | _ => None end
  | OpAccept r ty w p => match (accept_channel r ty w p m).1 with Ok id => Some (Accepts id w) | _ => None end
  | OpConfirm i r w p => match (confirm_channel i r w p m).1 with Ok _ => Some (Confirms i w) | _ => None end
  | OpReceive i data => match (receive_data i data m).1 with Ok _ => Some (Receives i data) | _ => None end
  | OpConsume i n => match (consume_remote_window i n m).1 with Ok _ => Some (Sends i n) | _ => None end
  | OpAdjust i n => match (adjust_local_window i n m).1 with Ok _ => Some (Credits i n) | _ => None end
  | OpRemove _ => None
  end.

Fixpoint book_from (m : ChannelManager) (ops : list mgr_op) : list entry :=
  match ops with
  | [] => []
  | op :: ops => option_list (entry_of op m) ++ book_from (run_op op m) ops
  end.

Definition book (ops : list mgr_op) : list entry := book_from ChannelManager_new ops.

Lemma book_snoc ops op : book (ops ++ [op]) = book ops ++ option_list (entry_of op (run_ops ops)).
Proof.
  unfold book, run_ops. generalize ChannelManager_new as m.
  induction ops as [|o ops IH]; intros m; cbn; [by rewrite app_nil_r|]. by rewrite IH, app_assoc.
Qed.

Lemma update_channel_cases id f m :
  (update_channel id f m).2 = m ∨
  ∃ ch ch', channels m !! id = Some ch ∧ f ch = Ok ch' ∧
            update_channel id f m = (Ok tt, with_channels <[id := ch']> m).
Proof.
  unfold update_channel, get. destruct (channels m !! id) as [ch|] eqn:E; [|by left].
  destruct (f ch) eqn:Ef; eauto 10.
Qed.

(** What taking the next identifier, opening and accepting a channel do. *)
Lemma take_id_run m :
  next_id m + 1 < U32 → take_id m = (Ok (next_id m), mkManager (channels m) (next_id m + 1)).
Proof.
  intros. unfold take_id, mbind, io_bind, gets, lift, modify, mret, io_ret. by rewrite u32_add_small.
Qed.

Lemma open_channel_run ty m :
  next_id m + 1 < U32 →
  open_channel ty m =
  (Ok (next_id m), mkManager (<[next_id m := Channel_new (next_id m) ty]> (channels m)) (next_id m + 1)).
Proof. intros Hn. unfold open_channel. by erewrite io_bind_run by (by apply take_id_run). Qed.

Lemma accept_channel_run r ty w p m :
  next_id m + 1 < U32 →
  accept_channel r ty w p m =
  (Ok (next_id m),
   mkManager (<[next_id m := set_remote r w p (Channel_new (next_id m) ty)]> (channels m)) (next_id m + 1)).
Proof. intros Hn. unfold accept_channel. by erewrite io_bind_run by (by apply take_id_run). Qed.

(** ** Accounts *)

Definition entry_id (e : entry) : Z :=
  match e with
  | Opens i | Accepts i _ | Confirms i _ | Receives i _ | Sends i _ | Credits i _ => i
  end.

Lemma received_snoc b e id :
  bytes_received (b ++ [e]) id =
  bytes_received b id ++ match e with Receives i d => if decide (i = id) then d else [] | _ => [] end.
Proof.
  unfold bytes_received. rewrite omap_app, concat_app. f_equal.
  destruct e; cbn; try done. case_decide; cbn; by rewrite ?app_nil_r.
Qed.

Lemma credited_snoc b e id :
  bytes_credited (b ++ [e]) id =
  bytes_credited b id + match e with Credits i n => if decide (i = id) then n else 0 | _ => 0 end.
Proof.
  unfold bytes_credited. rewrite omap_app, foldr_app. cbn.
  assert (Hadd : ∀ l z, foldr Z.add z l = foldr Z.add 0 l + z)
    by (intros l z; induction l as [|x l IH]; cbn; lia).
  rewrite Hadd. f_equal. destruct e; cbn; try done. case_decide; cbn; lia.
Qed.

Lemma sendable_snoc b e id :
  bytes_sendable (b ++ [e]) id =
  match e with
  | Accepts i window | Confirms i window => if decide (i = id) then window else bytes_sendable b id
  | Sends i amount => if decide (i = id) then bytes_sendable b id - amount else bytes_sendable b id
  | _ => bytes_sendable b id
  end.
Proof. unfold bytes_sendable. by rewrite foldl_app. Qed.

(** An entry for another channel. *)
Lemma snoc_other b e id :
  entry_id e ≠ id →
  bytes_received (b ++ [e]) id = bytes_received b id ∧ bytes_credited (b ++ [e]) id = bytes_credited b id ∧
  bytes_sendable (b ++ [e]) id = bytes_sendable b id.
Proof.
  intros Hid. rewrite received_snoc, credited_snoc, sendable_snoc.
  destruct e; cbn in Hid; rewrite ?decide_False by done; (split_and!; [by rewrite ?app_nil_r|lia|done]).
Qed.

Lemma no_entries b id :
  Forall (λ e, entry_id e ≠ id) b → bytes_received b id = [] ∧ bytes_credited b id = 0 ∧ bytes_sendable b id = 0.
Proof.
  induction b as [|e b IH] using rev_ind; [done|]. intros [Hb [He _]%Forall_cons]%Forall_app.
  destruct (snoc_other b e id He) as (-> & -> & ->). auto.
Qed.

(** A channel agrees with the book. *)
Record accounts (b : list entry) (id : Z) (ch : Channel) : Prop := {
  acc_id : local_id ch = id;
  acc_received : recv_buffer ch = bytes_received b id;
  acc_sendable : remote_window ch = bytes_sendable b id;
  acc_bound : len (recv_buffer ch) + local_window ch ≤ DEFAULT_WINDOW_SIZE + bytes_credited b id;
  acc_exact : DEFAULT_WINDOW_SIZE + bytes_credited b id < U32 →
    local_window ch = DEFAULT_WINDOW_SIZE + bytes_credited b id - len (recv_buffer ch)
}.

Record all_accounts (b : list entry) (m : ChannelManager) : Prop := {
  all_channels id ch : channels m !! id = Some ch → accounts b id ch;
  all_below id : is_Some (channels m !! id) → id < next_id m;
  all_unused id : next_id m ≤ id → Forall (λ e, entry_id e ≠ id) b
}.

Lemma accounts_other b e id ch : entry_id e ≠ id → accounts b id ch → accounts (b ++ [e]) id ch.
Proof.
  intros He [? ? ? ? ?]. destruct (snoc_other b e id He) as (E1 & E2 & E3). split; by rewrite ?E1, ?E2, ?E3.
Qed.

(** A new channel, under the next identifier. *)
Lemma all_accounts_new b m e ch :
  entry_id e = next_id m → all_accounts b m → accounts (b ++ [e]) (next_id m) ch →
  all_accounts (b ++ [e]) (mkManager (<[next_id m := ch]> (channels m)) (next_id m + 1)).
Proof.
  intros He [Hc Hb Hu] Hch. split; cbn.
  - intros id c [[<- <-]|[Hn Hid]]%lookup_insert_Some; [done|]. apply accounts_other; [congruence|by apply Hc].
  - intros id [c [[<- _]|[_ Hid]]%lookup_insert_Some]; [lia|]. specialize (Hb id ltac:(eauto)). lia.
  - intros id Hid. apply Forall_app. split; [apply Hu; lia|]. repeat constructor. lia.
Qed.

(** An update of one channel, which makes the entry [e] if it succeeds. *)
Lemma all_accounts_update b m i f e :
  entry_id e = i → all_accounts b m →
  (∀ ch ch', accounts b i ch → f ch = Ok ch' → accounts (b ++ [e]) i ch') →
  all_accounts (b ++ option_list (match (update_channel i f m).1 with Ok _ => Some e | _ => None end))
    (update_channel i f m).2.
Proof.
  intros <- Hall Hf. unfold update_channel, get. destruct (channels m !! entry_id e) as [ch|] eqn:E;
    [|cbn; by rewrite app_nil_r]. destruct (f ch) as [ch'|err|s|] eqn:Ef; cbn; rewrite ?app_nil_r; try done.
  destruct Hall as [Hc Hb Hu]. split; cbn.
  - intros id c [[<- <-]|[Hn Hid]]%lookup_insert_Some; [eapply Hf, Ef; by apply Hc|].
    apply accounts_other; [done|by apply Hc].
  - intros id [c [[<- _]|[_ Hid]]%lookup_insert_Some]; apply Hb; eauto.
  - intros id Hid. apply Forall_app. split; [by apply Hu|]. repeat constructor.
    specialize (Hb (entry_id e) ltac:(eauto)). lia.
Qed.

Ltac balance :=
  intros; simplify_eq;
  match goal with H : accounts _ _ ?ch |- _ => destruct H; pose proof (len_nonneg (recv_buffer ch)) end;
  split; cbn; rewrite ?received_snoc, ?credited_snoc, ?sendable_snoc, ?app_nil_r, ?decide_True by done;
  try done; try congruence; unfold u32_saturating_add; len_simpl;
  try match goal with H : _ < U32 → local_window _ = _ |- _ < U32 → _ => intros; rewrite H by lia end; try lia.

Lemma all_accounts_step b op m :
  op_wf op → next_id m + 1 < U32 → all_accounts b m →
  all_accounts (b ++ option_list (entry_of op m)) (run_op op m).
Proof.
  intros Hwf Hn Hall.
  pose proof (no_entries b (next_id m) (all_unused _ _ Hall _ (Z.le_refl _))) as (E1 & E2 & E3).
  destruct op as [ty|r ty w p|i r w p|i d|i n|i n|i]; cbn [run_op entry_of op_wf] in *.
  - rewrite open_channel_run by done. apply all_accounts_new; [done|done|].
    split; cbn; rewrite ?received_snoc, ?credited_snoc, ?sendable_snoc, ?E1, ?E2, ?E3; try done; intros; lia.
  - rewrite accept_channel_run by done. apply all_accounts_new; [done|done|].
    split; cbn; rewrite ?received_snoc, ?credited_snoc, ?sendable_snoc, ?E1, ?E2, ?E3, ?decide_True by done;
      try done; intros; lia.
  - apply all_accounts_update; [done|done|balance].
  - apply all_accounts_update; [done|done|]. intros ch ch' Hch.
    rewrite as_u32_small by (split; [apply len_nonneg|done]). case_decide; [done|balance].
  - apply all_accounts_update; [done|done|]. intros ch ch' Hch. case_decide; [done|balance].
  - unfold is_u32 in Hwf. apply all_accounts_update; [done|done|balance].
  - cbn. rewrite app_nil_r. destruct Hall as [Hc Hb Hu]. split; cbn; [|intros id [c [_ Hid]%lookup_delete_Some]; eauto|done].
    intros id ch [_ Hid]%lookup_delete_Some. by apply Hc.
Qed.

(** Identifiers only grow, and new channels take the old next identifier. *)
Lemma run_op_ids op m :
  next_id m + 1 < U32 →
  (next_id (run_op op m) = next_id m ∨ next_id (run_op op m) = next_id m + 1) ∧
  ∀ i, is_Some (channels (run_op op m) !! i) →
    is_Some (channels m !! i) ∨ i = next_id m ∧ next_id (run_op op m) = next_id m + 1.
Proof.
  intros Hn.
  assert (Hup : ∀ i f, next_id (update_channel i f m).2 = next_id m ∧
    ∀ j, is_Some (channels (update_channel i f m).2 !! j) → is_Some (channels m !! j)).
  { intros i f. destruct (update_channel_cases i f m) as [E|(c & c' & Hc & _ & E)];
      rewrite E; [done|]. split; [done|]. cbn. intros j [x Hj].
    apply lookup_insert_Some in Hj as [[<- _]|[_ Hj]]; eauto. }
  assert (Hins : ∀ c j, is_Some (<[next_id m := c]> (channels m) !! j) →
    is_Some (channels m !! j) ∨ j = next_id m).
  { intros c j [x Hj]. apply lookup_insert_Some in Hj as [[<- _]|[_ Hj]]; eauto. }
  destruct op as [ty|r ty w p|i r w p|i d|i n|i n|i]; cbn [run_op].
  1,2: rewrite ?open_channel_run, ?accept_channel_run by done; cbn; split; [by right|]; intros j [?| ->]%Hins; auto.
  1-4: edestruct Hup as [E Hj]; split; [left; exact E|]; intros j Hs; left; exact (Hj j Hs).
  split; [by left|]. cbn. intros j [x [_ Hj]%lookup_delete_Some]. eauto.
Qed.

Lemma ids_below ops :
  len ops < U32 →
  0 ≤ next_id (run_ops ops) ≤ len ops ∧
  ∀ i, is_Some (channels (run_ops ops) !! i) → i < next_id (run_ops ops).
Proof.
  induction ops as [|op ops IH] using rev_ind; intros Hl.
  { split; [done|]. intros i [x Hx]. cbn in Hx. by rewrite lookup_empty in Hx. }
  len_simpl. destruct IH as [Hn Hk]; [lia|].
  rewrite run_ops_snoc. destruct (run_op_ids op (run_ops ops)) as [Hid Hs]; [lia|].
  split; [lia|]. intros i [H%Hk|[-> E]]%Hs; lia.
Qed.

End histories.

Lemma all_accounts_run `{profile : !BuildProfile} ops :
  Forall op_wf ops → len ops < U32 → all_accounts (book ops) (run_ops ops).
Proof.
  induction ops as [|op ops IH] using rev_ind.
  { intros _ _. split; cbn; [intros id ch|intros id [ch Hch]|by constructor].
    - by rewrite lookup_empty.
    - by rewrite lookup_empty in Hch. }
  intros [Hwf [Hop _]%Forall_cons]%Forall_app. len_simpl. intros Hl.
  rewrite run_ops_snoc, book_snoc. destruct (ids_below ops) as [Hid _]; [lia|].
  apply all_accounts_step; [done|lia|]. apply IH; [done|lia].
Qed.

(** C30.  The windows are accounted for, to the byte: after any history of calls with fewer
    than 2^32 of them, a channel's buffer is what the successful [receive_data]
    calls for it brought, in order; its remote window is the last grant of the peer less
    what was consumed since; and its local window is the initial one plus what
    [adjust_local_window] granted less the bytes in the buffer (no more than that when
    the sum would not fit a [u32], where it saturates).  A call for the channel succeeds
    exactly when the window it draws on is large enough. *)
Theorem window_accounting `{profile : !BuildProfile} (ops : list mgr_op) (id : Z) (ch : Channel) :
  Forall op_wf ops → len ops < U32 → channels (run_ops ops) !! id = Some ch →
  local_id ch = id ∧
  recv_buffer ch = bytes_received (book ops) id ∧
  remote_window ch = bytes_sendable (book ops) id ∧
  len (recv_buffer ch) + local_window ch ≤ DEFAULT_WINDOW_SIZE + bytes_credited (book ops) id ∧
  (DEFAULT_WINDOW_SIZE + bytes_credited (book ops) id < U32 →
     local_window ch = DEFAULT_WINDOW_SIZE + bytes_credited (book ops) id - len (bytes_received (book ops) id)) ∧
  (∀ d, len d < U32 → (receive_data id d (run_ops ops)).1 = Ok tt ↔ len d ≤ local_window ch) ∧
  (∀ n, (consume_remote_window id n (run_ops ops)).1 = Ok tt ↔ n ≤ bytes_sendable (book ops) id) ∧
  (∀ n, (adjust_local_window id n (run_ops ops)).1 = Ok tt).
Proof.
  intros Hwf Hl Hch. destruct (all_accounts_run ops Hwf Hl) as [Hall _ _].
  destruct (Hall _ _ Hch) as [Hid Hr Hs Hb He]. rewrite <- Hr, <- Hs.
  unfold receive_data, consume_remote_window, adjust_local_window, update_channel, get. rewrite Hch.
  split_and!; try done.
  - intros d Hd. rewrite as_u32_small by (split; [apply len_nonneg|done]).
    case_decide; cbn; (split; [intros; try done; lia|intros; try done; lia]).
  - intros n. case_decide; cbn; (split; [intros; try done; lia|intros; try done; lia]).
Qed.

Lemma window_accounting_witness :
  let ops := [OpAccept 5 (bs "session") 100 10; OpReceive 0 (bs "hello"); OpAdjust 0 3; OpConsume 0 40;
              OpReceive 9 []; OpConsume 0 61; OpReceive 0 (bs " you")] in
  ∃ ch, channels (@run_ops true ops) !! 0 = Some ch ∧
  local_id ch = 0 ∧ recv_buffer ch = bs "hello you" ∧ remote_window ch = 60 ∧
  local_window ch = DEFAULT_WINDOW_SIZE + 3 - 9 ∧
  (@consume_remote_window 0 60 (@run_ops true ops)).1 = Ok tt.
Proof.
  intros ops. eexists. split; [vm_compute; reflexivity|].
  edestruct (@window_accounting true ops 0) as (Hid & Hr & Hs & _ & Hw & _ & Hc & _);
    [by_eval|by_eval|vm_compute; reflexivity|].
  split; [exact Hid|]. split; [etransitivity; [exact Hr|vm_compute; reflexivity]|].
  split; [etransitivity; [exact Hs|vm_compute; reflexivity]|].
  split; [etransitivity; [apply Hw; by_eval|vm_compute; reflexivity]|]. apply Hc. by_eval.
Defined.

(** [receive_data] on every branch: an unknown channel and a window overflow
    are errors that change nothing; otherwise exactly the data is appended to that
    channel's buffer, exactly its length is taken from the window, and every other
    channel and the next identifier are untouched. *)
Theorem receive_data_spec (id : Z) (data : bytes) (m : ChannelManager) :
  len data < U32 →
  match channels m !! id with
  | None => receive_data id data m =
      (Err (ChannelError ("Unknown channel " +:+ show_usize id)), m)
  | Some ch =>
      if decide (len data ≤ local_window ch) then
        ∃ m' ch', receive_data id data m = (Ok tt, m') ∧ channels m' !! id = Some ch' ∧
          recv_buffer ch' = recv_buffer ch ++ data ∧
          local_window ch' = local_window ch - len data ∧
          remote_id ch' = remote_id ch ∧ remote_window ch' = remote_window ch ∧
          next_id m' = next_id m ∧ (∀ i, i ≠ id → channels m' !! i = channels m !! i)
      else receive_data id data m = (Err (ChannelError "Window overflow"), m)
  end.
Proof.
  intros Hl. unfold receive_data, update_channel, get.
  destruct (channels m !! id) as [ch|]; [|done].
  rewrite as_u32_small by (split; [apply len_nonneg|done]).
  case_decide; [rewrite decide_False by lia|by rewrite decide_True by lia].
  eexists _, _. split; [done|]. cbn. split; [apply lookup_insert_eq|].
  split_and!; try done. intros i Hi. by apply lookup_insert_ne.
Qed.

Lemma receive_data_spec_witness :
  len (bs "abc") < U32 ∧
  receive_data 4 (bs "abc") ChannelManager_new =
    (Err (ChannelError "Unknown channel 4"), ChannelManager_new).
Proof.
  split; [reflexivity|]. exact (receive_data_spec 4 (bs "abc") ChannelManager_new eq_refl).
Defined.

(** Identifiers are fresh: after any history with fewer than 2^32 calls,
    [open_channel] and [accept_channel] answer an identifier no live channel has,
    and add exactly one channel under it, with the parameters of the peer. *)
Theorem channel_ids_fresh `{profile : !BuildProfile} (ops : list mgr_op)
    (ty : bytes) (remote window max_packet : Z) :
  len ops + 1 < U32 →
  let m := run_ops ops in
  channels m !! next_id m = None ∧
  open_channel ty m =
    (Ok (next_id m),
     mkManager (<[next_id m := Channel_new (next_id m) ty]> (channels m)) (next_id m + 1)) ∧
  accept_channel remote ty window max_packet m =
    (Ok (next_id m),
     mkManager (<[next_id m := set_remote remote window max_packet (Channel_new (next_id m) ty)]>
                  (channels m)) (next_id m + 1)).
Proof.
  intros Hl m. destruct (ids_below ops) as [Hn Hk]; [lia|]. fold m in Hn, Hk.
  split; [|by rewrite open_channel_run, accept_channel_run by lia]. destruct (channels m !! next_id m) eqn:E; [|done].
  specialize (Hk (next_id m) ltac:(eauto)). lia.
Qed.

Lemma channel_ids_fresh_witness :
  let m := @run_ops true [OpOpen []; OpRemove 0] in
  channels m !! next_id m = None ∧
  @open_channel true [] m =
    (Ok (next_id m),
     mkManager (<[next_id m := Channel_new (next_id m) []]> (channels m)) (next_id m + 1)) ∧
  @accept_channel true 7 [] 5 6 m =
    (Ok (next_id m),
     mkManager (<[next_id m := set_remote 7 5 6 (Channel_new (next_id m) [])]>
                  (channels m)) (next_id m + 1)).
Proof. apply (@channel_ids_fresh true [OpOpen []; OpRemove 0] []). reflexivity. Defined.

(** ** Looking channels up by the peer's identifier *)

Section lookup_spec.
Context `{order_impl : !MapOrder, order_laws : !MapOrderLaws}.

Lemma map_order_lookup m id ch : (id, ch) ∈ map_order m ↔ m !! id = Some ch.
Proof. by rewrite map_order_perm, elem_of_map_to_list. Qed.

Lemma find_entry_some r m id ch :
  find_entry r m = Some (id, ch) → channels m !! id = Some ch ∧ remote_id ch = r.
Proof.
  unfold find_entry. intros ([i e] & [Hl He]%list_find_Some & Hi)%fmap_Some.
  cbn in *. subst e. destruct He as [He _]. split; [|done].
  apply map_order_lookup, list_elem_of_lookup. eauto.
Qed.

Lemma find_entry_none r m id ch :
  find_entry r m = None → channels m !! id = Some ch → remote_id ch ≠ r.
Proof.
  unfold find_entry. intros Hn%fmap_None Hc Hr. apply list_find_None in Hn.
  rewrite Forall_forall in Hn. apply (Hn (id, ch)); [by apply map_order_lookup|done].
Qed.

Lemma find_by_remote_id_some r m id ch :
  channels m = {[id := ch]} → remote_id ch = r → find_by_remote_id r m = Some ch.
Proof.
  intros Hm Hr. unfold find_by_remote_id. destruct (find_entry r m) as [[i c]|] eqn:E.
  - apply find_entry_some in E as [Hc _]. rewrite Hm in Hc. by apply lookup_singleton_Some in Hc as [_ ->].
  - destruct (find_entry_none _ _ id ch E); [|done]. rewrite Hm. apply lookup_singleton_eq.
Qed.

End lookup_spec.

(** Lookup by remote identifier: it finds a channel exactly when one has that
    remote identifier, always one that has it, and, when no two channels share
    one, the same channel whatever order the hash map iterates in. *)
Theorem find_by_remote_id_spec `{order_impl : !MapOrder, order_laws : !MapOrderLaws}
    (r : Z) (m : ChannelManager) :
  (find_by_remote_id r m = None ↔ ∀ id ch, channels m !! id = Some ch → remote_id ch ≠ r) ∧
  (∀ ch, find_by_remote_id r m = Some ch → ∃ id, channels m !! id = Some ch ∧ remote_id ch = r) ∧
  ((∀ i j c d, channels m !! i = Some c → channels m !! j = Some d →
      remote_id c = remote_id d → i = j) →
   ∀ id ch, channels m !! id = Some ch → remote_id ch = r → find_by_remote_id r m = Some ch).
Proof.
  unfold find_by_remote_id. destruct (find_entry r m) as [[i c]|] eqn:E; cbn.
  - apply find_entry_some in E as [Hc Hr]. split_and!.
    + split; [done|]. intros H. by destruct (H i c Hc).
    + intros ch [= <-]. eauto.
    + intros Hu id ch Hch Hr'. f_equal. assert (i = id) as -> by (eapply Hu; eauto; congruence).
      congruence.
  - split_and!; [|done|].
    + split; [|done]. intros _ id ch Hch. by eapply find_entry_none.
    + intros _ id ch Hch Hr. by destruct (find_entry_none _ _ _ _ E Hch).
Qed.

#[export] Instance ref_map_order : MapOrder := map_to_list.
#[export] Instance ref_map_order_laws : MapOrderLaws.
Proof. intros m. done. Qed.

Lemma find_by_remote_id_spec_witness :
  let m := @run_ops true [OpAccept 5 (bs "session") 100 10] in
  (find_by_remote_id 5 m = None ↔ ∀ id ch, channels m !! id = Some ch → remote_id ch ≠ 5) ∧
  (∀ ch, find_by_remote_id 5 m = Some ch → ∃ id, channels m !! id = Some ch ∧ remote_id ch = 5) ∧
  ((∀ i j c d, channels m !! i = Some c → channels m !! j = Some d →
      remote_id c = remote_id d → i = j) →
   ∀ id ch, channels m !! id = Some ch → remote_id ch = 5 → find_by_remote_id 5 m = Some ch).
Proof. apply (find_by_remote_id_spec 5). Defined.
