(* ===== verification/SftpProto.v ===== *)
(** The SFTP wire format ([src/sftp/mod.rs], lines 18-230): constants, file
    attributes, packets and the response builders. *)
From S2P Require Export Session.

Definition SSH_FXP_INIT : byte := u8 1.
Definition SSH_FXP_VERSION : byte := u8 2.
Definition SSH_FXP_OPEN : byte := u8 3.
Definition SSH_FXP_CLOSE : byte := u8 4.
Definition SSH_FXP_READ : byte := u8 5.
Definition SSH_FXP_WRITE : byte := u8 6.
Definition SSH_FXP_LSTAT : byte := u8 7.
Definition SSH_FXP_FSTAT : byte := u8 8.
Definition SSH_FXP_SETSTAT : byte := u8 9.
Definition SSH_FXP_OPENDIR : byte := u8 11.
Definition SSH_FXP_READDIR : byte := u8 12.
Definition SSH_FXP_REMOVE : byte := u8 13.
Definition SSH_FXP_MKDIR : byte := u8 14.
Definition SSH_FXP_RMDIR : byte := u8 15.
Definition SSH_FXP_REALPATH : byte := u8 16.
Definition SSH_FXP_STAT : byte := u8 17.
Definition SSH_FXP_STATUS : byte := u8 101.
Definition SSH_FXP_HANDLE : byte := u8 102.
Definition SSH_FXP_DATA : byte := u8 103.
Definition SSH_FXP_NAME : byte := u8 104.
Definition SSH_FXP_ATTRS : byte := u8 105.

Definition SSH_FX_OK : Z := 0.
Definition SSH_FX_EOF : Z := 1.
Definition SSH_FX_NO_SUCH_FILE : Z := 2.
Definition SSH_FX_PERMISSION_DENIED : Z := 3.
Definition SSH_FX_FAILURE : Z := 4.
Definition SSH_FX_OP_UNSUPPORTED : Z := 8.

Definition SSH_FXF_READ : Z := 1.
Definition SSH_FXF_WRITE : Z := 2.
Definition SSH_FXF_APPEND : Z := 4.
Definition SSH_FXF_CREAT : Z := 8.
Definition SSH_FXF_TRUNC : Z := 16.

Definition SSH_FILEXFER_ATTR_SIZE : Z := 1.
Definition SSH_FILEXFER_ATTR_UIDGID : Z := 2.
Definition SSH_FILEXFER_ATTR_PERMISSIONS : Z := 4.
Definition SSH_FILEXFER_ATTR_ACMODTIME : Z := 8.

Definition SFTP_VERSION : Z := 3.

(** [flags & mask != 0]. *)
Definition has_flag (flags mask : Z) : bool := negb (Z.land flags mask =? 0).

(** ** File attributes *)

Record FileAttrs := mkFileAttrs {
  flags : Z;
  attr_size : option Z;
  uid : option Z;
  gid : option Z;
  permissions : option Z;
  atime : option Z;
  mtime : option Z
}.

#[export] Instance FileAttrs_eq_dec : EqDecision FileAttrs.
Proof. solve_decision. Defined.

Definition FileAttrs_default : FileAttrs := mkFileAttrs 0 None None None None None None.

Definition write_pair (buf : bytes) (a b : option Z) : bytes :=
  match a, b with
  | Some a, Some b => write_u32 (write_u32 buf a) b
  | _, _ => buf
  end.

Definition FileAttrs_encode (a : FileAttrs) : bytes :=
  let buf := write_u32 [] (flags a) in
  let buf := match attr_size a with Some size => buf ++ be_encode 8 size | None => buf end in
  let buf := write_pair buf (uid a) (gid a) in
  let buf := match permissions a with Some perms => write_u32 buf perms | None => buf end in
  write_pair buf (atime a) (mtime a).

(** A field that is read when its flag is set. *)
Definition read_if {A} (b : bool) (read : bytes → SshResult (A * bytes)) (cursor : bytes)
    : SshResult (option A * bytes) :=
  if b then '(a, cursor) ← read cursor; Ok (Some a, cursor) else Ok (None, cursor).

Definition read_size (cursor : bytes) : SshResult (Z * bytes) :=
  map_err (λ _, SftpError "Failed to read file size") (cursor_read_be 8 cursor).

Definition read_u32_pair (cursor : bytes) : SshResult ((Z * Z) * bytes) :=
  '(a, cursor) ← read_u32 cursor;
  '(b, cursor) ← read_u32 cursor;
  Ok ((a, b), cursor).

Definition FileAttrs_decode (cursor : bytes) : SshResult (FileAttrs * bytes) :=
  '(flags, cursor) ← read_u32 cursor;
  '(size, cursor) ← read_if (has_flag flags SSH_FILEXFER_ATTR_SIZE) read_size cursor;
  '(ids, cursor) ← read_if (has_flag flags SSH_FILEXFER_ATTR_UIDGID) read_u32_pair cursor;
  '(perms, cursor) ← read_if (has_flag flags SSH_FILEXFER_ATTR_PERMISSIONS) read_u32 cursor;
  '(times, cursor) ← read_if (has_flag flags SSH_FILEXFER_ATTR_ACMODTIME) read_u32_pair cursor;
  Ok (mkFileAttrs flags size (fst <$> ids) (snd <$> ids) perms (fst <$> times) (snd <$> times),
      cursor).

(** ** Packets *)

Record SftpPacket := mkSftpPacket { packet_type : byte; request_id : Z; data : bytes }.

#[export] Instance SftpPacket_eq_dec : EqDecision SftpPacket.
Proof. solve_decision. Defined.

Definition SftpPacket_encode (p : SftpPacket) : bytes :=
  let inner_len := 1 + 4 + len (data p) in
  let buf := write_u32 [] (as_u32 inner_len) in
  let buf := write_u8 buf (packet_type p) in
  let buf := write_u32 buf (request_id p) in
  buf ++ data p.

Definition SftpPacket_decode (d : bytes) : SshResult SftpPacket :=
  match d with
  | t :: a :: b :: c :: e :: payload => Ok (mkSftpPacket t (be_decode [a; b; c; e]) payload)
  | _ => Err (SftpError "SFTP packet too short")
  end.

(** ** Response builders *)

Definition build_sftp_init : bytes :=
  write_u32 (write_u8 (write_u32 [] (1 + 4)) SSH_FXP_INIT) SFTP_VERSION.

Definition build_sftp_version : bytes :=
  write_u32 (write_u8 (write_u32 [] (1 + 4)) SSH_FXP_VERSION) SFTP_VERSION.

Definition build_sftp_status (request_id status_code : Z) (message : bytes) : SftpPacket :=
  let data := write_u32 [] status_code in
  let data := write_utf8 data message in
  let data := write_utf8 data (bs "en") in
  mkSftpPacket SSH_FXP_STATUS request_id data.

Definition build_sftp_handle (request_id : Z) (handle : bytes) : SftpPacket :=
  mkSftpPacket SSH_FXP_HANDLE request_id (write_string [] handle).

Definition build_sftp_data (request_id : Z) (file_data : bytes) : SftpPacket :=
  mkSftpPacket SSH_FXP_DATA request_id (write_string [] file_data).

Definition write_name_entry (data : bytes) (entry : bytes * FileAttrs) : bytes :=
  let data := write_utf8 data entry.1 in
  let data := write_utf8 data entry.1 in
  data ++ FileAttrs_encode entry.2.

Definition build_sftp_name (request_id : Z) (entries : list (bytes * FileAttrs)) : SftpPacket :=
  let data := write_u32 [] (as_u32 (len entries)) in
  mkSftpPacket SSH_FXP_NAME request_id (foldl write_name_entry data entries).

Definition build_sftp_attrs (request_id : Z) (attrs : FileAttrs) : SftpPacket :=
  mkSftpPacket SSH_FXP_ATTRS request_id (FileAttrs_encode attrs).

(** ** Properties of the attributes *)

(** The attribute records the format can express: a field is present exactly when
    its flag is set, and every number has the width of its field. *)
Definition opt_wf (present : bool) (width : Z) (o : option Z) : Prop :=
  match o with Some z => present = true ∧ 0 ≤ z < width | None => present = false end.

Definition attrs_wf (a : FileAttrs) : Prop :=
  is_u32 (flags a) ∧
  opt_wf (has_flag (flags a) SSH_FILEXFER_ATTR_SIZE) U64 (attr_size a) ∧
  opt_wf (has_flag (flags a) SSH_FILEXFER_ATTR_UIDGID) U32 (uid a) ∧
  opt_wf (has_flag (flags a) SSH_FILEXFER_ATTR_UIDGID) U32 (gid a) ∧
  opt_wf (has_flag (flags a) SSH_FILEXFER_ATTR_PERMISSIONS) U32 (permissions a) ∧
  opt_wf (has_flag (flags a) SSH_FILEXFER_ATTR_ACMODTIME) U32 (atime a) ∧
  opt_wf (has_flag (flags a) SSH_FILEXFER_ATTR_ACMODTIME) U32 (mtime a).

#[export] Instance opt_wf_dec b w o : Decision (opt_wf b w o).
Proof. destruct o; simpl; apply _. Defined.
#[export] Instance attrs_wf_dec a : Decision (attrs_wf a) := ltac:(unfold attrs_wf; apply _).

(** The encoding, field by field. *)
Definition enc_opt (n : nat) (o : option Z) : bytes := default [] (be_encode n <$> o).

Definition enc_opt_pair (a b : option Z) : bytes :=
  match a, b with Some a, Some b => be_encode 4 a ++ be_encode 4 b | _, _ => [] end.

Lemma FileAttrs_encode_enc a :
  FileAttrs_encode a =
  be_encode 4 (flags a) ++ enc_opt 8 (attr_size a) ++ enc_opt_pair (uid a) (gid a) ++
  enc_opt 4 (permissions a) ++ enc_opt_pair (atime a) (mtime a).
Proof.
  unfold FileAttrs_encode, write_pair, enc_opt_pair, enc_opt, write_u32.
  destruct a as [f [|] [|] [|] [|] [|] [|]]; cbn; by rewrite ?app_nil_r, <- ?app_assoc.
Qed.

Lemma read_if_some {A} (read : bytes → SshResult (A * bytes)) b a enc c :
  b = true → read (enc ++ c) = Ok (a, c) → read_if b read (enc ++ c) = Ok (Some a, c).
Proof. intros -> H. unfold read_if. by rewrite H. Qed.

Lemma read_size_encode z r : is_u64 z → read_size (be_encode 8 z ++ r) = Ok (z, r).
Proof. intros. unfold read_size. by rewrite cursor_read_be_encode by (by rewrite u64_256). Qed.

Lemma read_opt_size b o r :
  opt_wf b U64 o → read_if b read_size (enc_opt 8 o ++ r) = Ok (o, r).
Proof.
  destruct o as [z|]; cbn [opt_wf]; [|by intros ->].
  intros [-> Hz]. apply read_if_some; [done|]. by apply read_size_encode.
Qed.

Lemma read_opt_u32 b o r :
  opt_wf b U32 o → read_if b read_u32 (enc_opt 4 o ++ r) = Ok (o, r).
Proof.
  destruct o as [z|]; cbn [opt_wf]; [|by intros ->].
  intros [-> Hz]. apply read_if_some; [done|]. by apply read_u32_encode.
Qed.

Lemma read_opt_pair b o p r :
  opt_wf b U32 o → opt_wf b U32 p →
  ∃ q, read_if b read_u32_pair (enc_opt_pair o p ++ r) = Ok (q, r) ∧
       fst <$> q = o ∧ snd <$> q = p.
Proof.
  destruct o as [z|], p as [y|]; cbn [opt_wf]; try (by intros [-> _]); try (by intros -> [? _]).
  - intros [-> Hz] [_ Hy]. exists (Some (z, y)). split; [|done].
    apply read_if_some; [done|]. unfold read_u32_pair, enc_opt_pair.
    rewrite <- app_assoc, read_u32_encode by done. cbn [mbind outcome_bind].
    by rewrite read_u32_encode.
  - intros -> _. by exists None.
Qed.

Lemma FileAttrs_decode_returns c : returns (FileAttrs_decode c) = true.
Proof.
  assert (∀ c, returns (read_size c) = true).
  { intros d. unfold read_size, cursor_read_be, cursor_read_exact. by case_decide. }
  unfold FileAttrs_decode, read_if, read_u32_pair. parser_returns.
Qed.

Lemma FileAttrs_decode_encode a rest :
  attrs_wf a → FileAttrs_decode (FileAttrs_encode a ++ rest) = Ok (a, rest).
Proof.
  intros (Hf & Hs & Hu & Hg & Hp & Ha & Hm).
  rewrite FileAttrs_encode_enc, <- !app_assoc. unfold FileAttrs_decode.
  rewrite read_u32_encode by done. cbn [mbind outcome_bind].
  rewrite read_opt_size by done. cbn [mbind outcome_bind].
  destruct (read_opt_pair _ _ _ (enc_opt 4 (permissions a) ++
    enc_opt_pair (atime a) (mtime a) ++ rest) Hu Hg) as (q & -> & Eu & Eg).
  cbn [mbind outcome_bind]. rewrite read_opt_u32 by done. cbn [mbind outcome_bind].
  destruct (read_opt_pair _ _ _ rest Ha Hm) as (q' & -> & Ea & Em). cbn [mbind outcome_bind].
  rewrite Eu, Eg, Ea, Em. by destruct a.
Qed.

(** File attributes: decoding returns on every input, and a record whose
    present fields are the ones its flags announce is read back exactly, with
    the rest of the stream left untouched. *)
Theorem file_attrs_roundtrip (a : FileAttrs) (rest : bytes) :
  (∀ c, returns (FileAttrs_decode c) = true) ∧
  (attrs_wf a → FileAttrs_decode (FileAttrs_encode a ++ rest) = Ok (a, rest)).
Proof. split; [exact FileAttrs_decode_returns|apply FileAttrs_decode_encode]. Qed.

Lemma file_attrs_roundtrip_witness :
  FileAttrs_decode
    (FileAttrs_encode (mkFileAttrs 7 (Some 1024) (Some 0) (Some 5) (Some 493) None None) ++ [xff]) =
  Ok (mkFileAttrs 7 (Some 1024) (Some 0) (Some 5) (Some 493) None None, [xff]).
Proof. apply file_attrs_roundtrip. by_eval. Defined.

(** ** Properties of the packets *)

Lemma SftpPacket_encode_enc p :
  SftpPacket_encode p =
  be_encode 4 (as_u32 (5 + len (data p))) ++ packet_type p :: be_encode 4 (request_id p) ++ data p.
Proof. unfold SftpPacket_encode. autorewrite with wire. done. Qed.

Lemma be_encode_4 z : ∃ a b c d, be_encode 4 z = [a; b; c; d].
Proof.
  pose proof (length_be_encode 4 z) as H. destruct (be_encode 4 z) as [|a [|b [|c [|d [|]]]]]; try done.
  by eexists _, _, _, _.
Qed.

Lemma SftpPacket_decode_body p :
  is_u32 (request_id p) →
  SftpPacket_decode (packet_type p :: be_encode 4 (request_id p) ++ data p) = Ok p.
Proof.
  intros Hr. destruct (be_encode_4 (request_id p)) as (a & b & c & e & E). rewrite E. cbn.
  rewrite <- E, be_decode_encode_small by (by rewrite u32_256). by destruct p.
Qed.

(** SFTP packets: the encoder writes a length prefix that counts exactly the
    bytes after it, and the decoder accepts exactly a type byte, a request id and
    the data, and returns them; so decoding what follows the prefix of an encoded
    packet gives the packet back. *)
Theorem sftp_packet_roundtrip (p : SftpPacket) (body : bytes) :
  is_u32 (request_id p) → 5 + len (data p) < U32 →
  (SftpPacket_decode body = Ok p ↔
     body = packet_type p :: be_encode 4 (request_id p) ++ data p) ∧
  SftpPacket_decode (drop 4 (SftpPacket_encode p)) = Ok p ∧
  be_decode (take 4 (SftpPacket_encode p)) = len (drop 4 (SftpPacket_encode p)).
Proof.
  intros Hr Hl. rewrite SftpPacket_encode_enc.
  rewrite take_app_length', drop_app_length' by (by rewrite length_be_encode).
  assert (Hd : SftpPacket_decode (packet_type p :: be_encode 4 (request_id p) ++ data p) = Ok p).
  { by apply SftpPacket_decode_body. }
  split_and!; [|done|].
  - split; [|by intros ->]. destruct body as [|t [|a [|b [|c [|e r]]]]]; try done.
    intros [= <-]. cbn [packet_type request_id data]. f_equal.
    change 4%nat with (length [a; b; c; e]). by rewrite be_encode_decode.
  - pose proof (len_nonneg (data p)). rewrite as_u32_small by (unfold is_u32; lia).
    rewrite be_decode_encode_small by (rewrite u32_256; lia). len_lia.
Qed.

Lemma sftp_packet_roundtrip_witness :
  (SftpPacket_decode [x03; x00; x00; x00; x2a; x01] = Ok (mkSftpPacket x03 42 [x01]) ↔
     [x03; x00; x00; x00; x2a; x01] = x03 :: be_encode 4 42 ++ [x01]) ∧
  SftpPacket_decode (drop 4 (SftpPacket_encode (mkSftpPacket x03 42 [x01]))) =
    Ok (mkSftpPacket x03 42 [x01]) ∧
  be_decode (take 4 (SftpPacket_encode (mkSftpPacket x03 42 [x01]))) =
    len (drop 4 (SftpPacket_encode (mkSftpPacket x03 42 [x01]))).
Proof. apply (sftp_packet_roundtrip (mkSftpPacket x03 42 [x01])); by_eval. Defined.

(** ** The NAME response *)

(** A reader of the NAME response's data, as an SFTP client has it. *)
Fixpoint read_entries `{!BuildProfile} (n : nat) (cursor : bytes)
    : SshResult (list (bytes * bytes * FileAttrs) * bytes) :=
  match n with
  | O => Ok ([], cursor)
  | S n =>
      '(name, cursor) ← read_utf8 cursor;
      '(longname, cursor) ← read_utf8 cursor;
      '(attrs, cursor) ← FileAttrs_decode cursor;
      '(es, cursor) ← read_entries n cursor;
      Ok ((name, longname, attrs) :: es, cursor)
  end.

Definition read_names `{!BuildProfile} (data : bytes)
    : SshResult (list (bytes * bytes * FileAttrs) * bytes) :=
  '(n, cursor) ← read_u32 data;
  read_entries (Z.to_nat n) cursor.

Definition enc_entry (e : bytes * FileAttrs) : bytes :=
  enc_string e.1 ++ enc_string e.1 ++ FileAttrs_encode e.2.

Lemma foldl_name_entries entries buf :
  foldl write_name_entry buf entries = buf ++ concat (enc_entry <$> entries).
Proof.
  revert buf. induction entries as [|e es IH]; intros buf; cbn; [by rewrite app_nil_r|].
  rewrite IH. unfold write_name_entry, enc_entry. rewrite !write_utf8_enc.
  by rewrite <- !app_assoc.
Qed.

Lemma read_entries_concat `{profile : !BuildProfile} entries :
  Forall (λ e, wire_utf8 e.1 ∧ attrs_wf e.2) entries →
  read_entries (length entries) (concat (enc_entry <$> entries)) =
  Ok ((λ e, (e.1, e.1, e.2)) <$> entries, []).
Proof.
  induction 1 as [|[n a] es [Hn Ha] _ IH]; [done|]. cbn [length fmap list_fmap concat].
  unfold enc_entry at 1. rewrite <- !app_assoc. cbn [read_entries fst snd] in *.
  rewrite !read_utf8_encode by done. cbn [mbind outcome_bind].
  rewrite read_utf8_encode by done. cbn [mbind outcome_bind].
  rewrite FileAttrs_decode_encode by done. cbn [mbind outcome_bind].
  rewrite IH. done.
Qed.

(** A NAME response says what the directory holds: its count and its
    entries are read back as the given list, in order, each name twice (as name
    and long name) with its attributes, and nothing follows. *)
Theorem sftp_name_reads_back `{profile : !BuildProfile} (id : Z)
    (entries : list (bytes * FileAttrs)) :
  Forall (λ e, wire_utf8 e.1 ∧ attrs_wf e.2) entries → len entries < U32 →
  read_names (data (build_sftp_name id entries)) =
    Ok ((λ e, (e.1, e.1, e.2)) <$> entries, []).
Proof.
  intros He Hl. unfold build_sftp_name. cbn [data]. pose proof (len_nonneg entries).
  rewrite foldl_name_entries, write_u32_enc, as_u32_small by (by split). unfold read_names.
  rewrite app_nil_l, read_u32_encode by (by split). cbn [mbind outcome_bind].
  rewrite len_to_nat. by apply read_entries_concat.
Qed.

Lemma sftp_name_reads_back_witness :
  @read_names true (data (build_sftp_name 9
      [(bs "a.txt", FileAttrs_default); (bs "b", mkFileAttrs 1 (Some 5) None None None None None)])) =
    Ok ([(bs "a.txt", bs "a.txt", FileAttrs_default);
         (bs "b", bs "b", mkFileAttrs 1 (Some 5) None None None None None)], []).
Proof.
  apply (@sftp_name_reads_back true 9
    [(bs "a.txt", FileAttrs_default); (bs "b", mkFileAttrs 1 (Some 5) None None None None None)]).
  - by_eval.
  - reflexivity.
Defined.
