(* ===== verification/Path.v ===== *)
(** The part of [std::path] (on Unix) the SFTP subsystem uses, and
    [normalize_path] of [src/sftp/mod.rs].  A path is its bytes. *)
From S2P Require Export Utf8.

Definition slash : byte := x2f.
Definition dot : bytes := [x2e].
Definition dotdot : bytes := [x2e; x2e].

(** [std::path::Component]; a [Prefix] occurs on Windows only. *)
Inductive Component : Type :=
| RootDir
| CurDir
| ParentDir
| Normal (name : bytes).

#[export] Instance Component_eq_dec : EqDecision Component.
Proof. solve_decision. Defined.

(** [Path::has_root], which is [is_absolute] on Unix. *)
Definition is_absolute (path : bytes) : bool :=
  match path with c :: _ => bool_decide (c = slash) | [] => false end.

(** One segment between slashes: empty ones and [.] disappear. *)
Definition segment (s : bytes) : list Component :=
  if decide (s = [] ∨ s = dot) then []
  else if decide (s = dotdot) then [ParentDir]
  else [Normal s].

(** [Path::components]: a leading slash is [RootDir], a leading [.] of a relative
    path is kept as [CurDir], repeated slashes and other [.] are dropped. *)
Definition components (path : bytes) : list Component :=
  match split_on slash path with
  | [] => []
  | first :: rest =>
      (if is_absolute path then [RootDir]
       else if decide (first = dot) then [CurDir] else segment first) ++
      concat (segment <$> rest)
  end.

Definition as_os_str (c : Component) : bytes :=
  match c with
  | RootDir => [slash]
  | CurDir => dot
  | ParentDir => dotdot
  | Normal s => s
  end.

(** [PathBuf::push]: an absolute path replaces, a relative one is appended after a
    separator when one is missing. *)
Definition push (buf path : bytes) : bytes :=
  if is_absolute path then path
  else match last buf with
       | Some c => if decide (c = slash) then buf ++ path else buf ++ [slash] ++ path
       | None => path
       end.

Definition path_join (base path : bytes) : bytes := push base path.

(** [components.iter().collect::<PathBuf>()]. *)
Definition collect (cs : list Component) : bytes := foldl (λ buf c, push buf (as_os_str c)) [] cs.

(** [Path::starts_with] compares whole components. *)
Fixpoint is_prefix (base cs : list Component) : bool :=
  match base, cs with
  | [], _ => true
  | b :: base, c :: cs => bool_decide (b = c) && is_prefix base cs
  | _, _ => false
  end.

Definition path_starts_with (path base : bytes) : bool :=
  is_prefix (components base) (components path).

(** The loop of [normalize_path] over the components. *)
Definition normalize_step (components : list Component) (component : Component)
    : list Component :=
  match component with
  | ParentDir => removelast components
  | CurDir => components
  | c => components ++ [c]
  end.

Definition normalize_path (path : bytes) : bytes :=
  collect (foldl normalize_step [] (components path)).

(** ** Paths in normal form *)

(** A name a directory entry can have. *)
Definition valid_name (s : bytes) : Prop :=
  s ≠ [] ∧ s ≠ dot ∧ s ≠ dotdot ∧ slash ∉ s.

#[export] Instance valid_name_dec s : Decision (valid_name s) := ltac:(unfold valid_name; apply _).

(** An optional root followed by names. *)
Definition normal_form (cs : list Component) : Prop :=
  ∃ names, Forall valid_name names ∧
    (cs = Normal <$> names ∨ cs = RootDir :: (Normal <$> names)).

Example components_examples :
  components (bs "/a//./b/../c/") = [RootDir; Normal (bs "a"); Normal (bs "b"); ParentDir; Normal (bs "c")] ∧
  components (bs "./a/.") = [CurDir; Normal (bs "a")] ∧ components [] = [] ∧
  normalize_path (bs "/a/../../b") = bs "b" ∧
  path_join (bs "/tmp/root") (bs "a/b") = bs "/tmp/root/a/b" ∧
  path_join (bs "/tmp/root") (bs "/etc/passwd") = bs "/etc/passwd".
Proof. by vm_compute. Qed.

(** A name as a path. *)
Lemma name_not_absolute s : slash ∉ s → is_absolute s = false.
Proof.
  destruct s as [|b s]; [done|]. cbn. intros H. apply bool_decide_eq_false. intros ->. set_solver.
Qed.

Lemma name_last s : s ≠ [] → slash ∉ s → ∃ c, last s = Some c ∧ c ≠ slash.
Proof.
  intros Hne Hs. destruct (last s) as [c|] eqn:E.
  - exists c. split; [done|]. intros ->. apply Hs. apply last_Some in E as [l ->]. set_solver.
  - by apply last_None in E.
Qed.

Lemma segment_name s : valid_name s → segment s = [Normal s].
Proof.
  intros (H1 & H2 & H3 & _). unfold segment.
  rewrite decide_False by tauto. by rewrite decide_False.
Qed.

Lemma segment_cases s :
  slash ∉ s → segment s = [] ∨ segment s = [ParentDir] ∨ segment s = [Normal s] ∧ valid_name s.
Proof.
  intros Hs. unfold segment. repeat case_decide; auto.
  right; right. split; [done|]. unfold valid_name. tauto.
Qed.

(** Collecting names puts slashes between them. *)
Lemma push_name buf s :
  slash ∉ s → (∃ c, last buf = Some c ∧ c ≠ slash) → push buf s = buf ++ slash :: s.
Proof.
  intros Hs (c & Hl & Hc). unfold push. rewrite name_not_absolute, Hl by done.
  by rewrite decide_False.
Qed.

Lemma collect_names_from names buf :
  Forall valid_name names → (∃ c, last buf = Some c ∧ c ≠ slash) →
  foldl (λ b c, push b (as_os_str c)) buf (Normal <$> names) =
  buf ++ concat (cons slash <$> names).
Proof.
  intros Hn. revert buf. induction Hn as [|s names (Hne & _ & _ & Hs) _ IH]; intros buf Hb; cbn.
  { by rewrite app_nil_r. }
  rewrite push_name by done. rewrite IH, <- app_assoc; [done|].
  destruct (name_last s) as (c & Hl & Hc); [done..|]. exists c.
  rewrite last_app. change (slash :: s) with ([slash] ++ s). by rewrite last_app, Hl.
Qed.

Lemma join_str_concat s names :
  join_str slash (s :: names) = s ++ concat (cons slash <$> names).
Proof.
  revert s. induction names as [|t names IH]; intros s; [cbn; by rewrite app_nil_r|].
  change (join_str slash (s :: t :: names)) with (s ++ slash :: join_str slash (t :: names)).
  by rewrite IH.
Qed.

Lemma collect_names names :
  Forall valid_name names → collect (Normal <$> names) = join_str slash names.
Proof.
  destruct names as [|s names]; [done|]. intros [Hs Hn]%Forall_cons. unfold collect. cbn [fmap list_fmap foldl as_os_str].
  destruct Hs as (Hne & _ & _ & Hs). unfold push at 2. rewrite name_not_absolute by done. cbn [last].
  rewrite collect_names_from by (try done; by apply name_last). by rewrite join_str_concat.
Qed.

Lemma collect_root_names names :
  Forall valid_name names → collect (RootDir :: (Normal <$> names)) = slash :: join_str slash names.
Proof.
  unfold collect. cbn [foldl as_os_str]. change (push [] [slash]) with [slash].
  destruct names as [|s names]; [done|]. intros [Hs Hn]%Forall_cons. cbn [fmap list_fmap foldl as_os_str].
  destruct Hs as (Hne & _ & _ & Hs).
  assert (push [slash] s = slash :: s) as ->.
  { unfold push. by rewrite name_not_absolute by done. }
  rewrite collect_names_from; [|done|].
  - by rewrite join_str_concat.
  - destruct (name_last s) as (c & Hl & Hc); [done..|]. exists c.
    change (slash :: s) with ([slash] ++ s). by rewrite last_app, Hl.
Qed.

Lemma concat_segments names : Forall valid_name names → concat (segment <$> names) = Normal <$> names.
Proof.
  induction 1 as [|s names Hs _ IH]; [done|]. cbn [fmap list_fmap concat]. by rewrite segment_name, IH.
Qed.

Lemma split_names names :
  Forall valid_name names → names ≠ [] → split_on slash (join_str slash names) = names.
Proof.
  intros Hn Hne. apply split_join; [done|]. eapply Forall_impl; [exact Hn|]. by intros s (_ & _ & _ & ?).
Qed.

(** Components of a relative and an absolute path made of names. *)
Lemma components_names names :
  Forall valid_name names → components (join_str slash names) = Normal <$> names.
Proof.
  intros Hn. destruct names as [|s names]; [done|].
  unfold components. rewrite split_names by done. pose proof Hn as [Hs Hn']%Forall_cons.
  pose proof Hs as (Hne & Hd & _ & Hsl).
  assert (is_absolute (join_str slash (s :: names)) = false) as ->.
  { rewrite join_str_concat. destruct s as [|b s]; [done|]. apply (name_not_absolute (b :: s)) in Hsl.
    by cbn in *. }
  rewrite decide_False by done. by rewrite segment_name, concat_segments.
Qed.

Lemma components_root_names names :
  Forall valid_name names →
  components (slash :: join_str slash names) = RootDir :: (Normal <$> names).
Proof.
  intros Hn. unfold components. cbn [split_on]. rewrite decide_True by done.
  destruct names as [|s names]; [done|]. rewrite split_names by done.
  cbn [is_absolute app]. rewrite bool_decide_true by done. by rewrite concat_segments.
Qed.

(** The absolute path made of names, and joining names to it. *)
Definition path_of (names : list bytes) : bytes := slash :: join_str slash names.

Lemma join_str_app l k :
  l ≠ [] → k ≠ [] → join_str slash (l ++ k) = join_str slash l ++ slash :: join_str slash k.
Proof.
  destruct l as [|s l], k as [|t k]; try done. intros _ _. cbn [app].
  rewrite !join_str_concat, fmap_app, concat_app, <- app_assoc. done.
Qed.

Lemma path_join_names rs names :
  Forall valid_name rs → Forall valid_name names → rs ≠ [] → names ≠ [] →
  path_join (path_of rs) (join_str slash names) = path_of (rs ++ names).
Proof.
  intros Hrs Hn Hrne Hnne. unfold path_join, push, path_of.
  assert (is_absolute (join_str slash names) = false) as ->.
  { destruct names as [|[|b s] names]; try done.
    - by apply Forall_cons in Hn as [[? _] _].
    - rewrite join_str_concat. apply Forall_cons in Hn as [(_ & _ & _ & Hs) _].
      exact (name_not_absolute _ Hs). }
  destruct rs as [|r rs _] using rev_ind; [done|].
  apply Forall_app in Hrs as [_ [(Hr & _ & _ & Hs) _]%Forall_cons].
  destruct (name_last r) as (c & Hl & Hc); [done..|].
  assert (last (slash :: join_str slash (rs ++ [r])) = Some c) as ->.
  { destruct rs as [|r' rs].
    - change (last ([slash] ++ r) = Some c). by rewrite last_app, Hl.
    - rewrite join_str_app by done. rewrite app_comm_cons, last_app. cbn [join_str].
      change (slash :: r) with ([slash] ++ r). by rewrite last_app, Hl. }
  rewrite decide_False by done.
  rewrite (join_str_app (rs ++ [r]) names) by (try done; by destruct rs). done.
Qed.

Lemma components_collect cs : normal_form cs → components (collect cs) = cs.
Proof.
  intros (names & Hn & [-> | ->]).
  - by rewrite collect_names, components_names.
  - by rewrite collect_root_names, components_root_names.
Qed.

(** What [components] can produce: a root or a [.] at the front only, and valid
    names. *)
Lemma split_on_fields sep s : Forall (λ f, sep ∉ f) (split_on sep s).
Proof.
  induction s as [|b s IH]; cbn; [repeat constructor; set_solver|].
  case_decide; [constructor; [set_solver|done]|].
  destruct (split_on sep s) as [|f fs]; [repeat constructor; set_solver|].
  apply Forall_cons in IH as [Hf Hfs]. constructor; [set_solver|done].
Qed.

Definition inner_component (c : Component) : Prop :=
  match c with ParentDir => True | Normal s => valid_name s | _ => False end.

Lemma segment_inner s : slash ∉ s → Forall inner_component (segment s).
Proof.
  intros Hs. destruct (segment_cases s Hs) as [E|[E|[E Hv]]]; rewrite E; repeat constructor;
    apply Hv.
Qed.

Lemma components_shape p :
  ∃ front inner, components p = front ++ inner ∧ Forall inner_component inner ∧
    (front = [] ∨ front = [RootDir] ∨ front = [CurDir]) ∧
    (is_absolute p = true → front = [RootDir]) ∧ (is_absolute p = false → front ≠ [RootDir]).
Proof.
  unfold components. pose proof (split_on_fields slash p) as Hf.
  destruct (split_on_nonempty slash p) as (f & fs & E). rewrite E in *.
  apply Forall_cons in Hf as [Hf Hfs].
  assert (Forall inner_component (concat (segment <$> fs))) as Hin.
  { clear E. induction Hfs as [|s fs Hs _ IH]; [constructor|]. cbn. apply Forall_app.
    split; [by apply segment_inner|done]. }
  destruct (is_absolute p).
  - exists [RootDir], (concat (segment <$> fs)). split_and!; auto; done.
  - case_decide.
    + exists [CurDir], (concat (segment <$> fs)). split_and!; auto; done.
    + exists [], (segment f ++ concat (segment <$> fs)). split_and!; auto; try done.
      apply Forall_app. split; [by apply segment_inner|done].
Qed.

(** Removing the last component of a normal form, and adding a name. *)
Lemma normal_form_removelast cs : normal_form cs → normal_form (removelast cs).
Proof.
  intros (names & Hn & Hcs). destruct names as [|s names _] using rev_ind.
  - exists []. destruct Hcs as [-> | ->]; cbn; auto.
  - apply Forall_app in Hn as [Hn _]. exists names. rewrite fmap_app in Hcs. split; [done|].
    destruct Hcs as [-> | ->]; [left|right; rewrite app_comm_cons]; apply removelast_last.
Qed.

Lemma normal_form_snoc cs s : valid_name s → normal_form cs → normal_form (cs ++ [Normal s]).
Proof.
  intros Hs (names & Hn & Hcs). exists (names ++ [s]). rewrite fmap_app, Forall_app.
  split; [auto|]. destruct Hcs as [-> | ->]; auto.
Qed.

Lemma normalize_inner inner cs :
  Forall inner_component inner → normal_form cs → normal_form (foldl normalize_step cs inner).
Proof.
  intros Hi. revert cs. induction Hi as [|c inner Hc _ IH]; intros cs Hcs; [done|]. cbn.
  apply IH. destruct c; cbn in *; try done.
  - by apply normal_form_removelast.
  - by apply normal_form_snoc.
Qed.

Definition normalize_components (p : bytes) : list Component :=
  foldl normalize_step [] (components p).

Lemma normalize_components_nf p : normal_form (normalize_components p).
Proof.
  unfold normalize_components. destruct (components_shape p) as (front & inner & -> & Hi & Hf & _).
  rewrite foldl_app. apply normalize_inner; [done|].
  exists []. split; [constructor|]. destruct Hf as [->|[->| ->]]; cbn; auto.
Qed.

Lemma normalize_inner_names names cs :
  foldl normalize_step cs (Normal <$> names) = cs ++ (Normal <$> names).
Proof.
  revert cs. induction names as [|s names IH]; intros cs; cbn; [by rewrite app_nil_r|].
  by rewrite IH, <- app_assoc.
Qed.

(** ** Properties of [normalize_path] *)

Lemma components_normalize p : components (normalize_path p) = normalize_components p.
Proof. apply components_collect, normalize_components_nf. Qed.

Lemma normalize_path_nf p : normal_form (components (normalize_path p)).
Proof. rewrite components_normalize. apply normalize_components_nf. Qed.

(** [normalize_path] leaves no [.] and no [..]: the components of its result
    are an optional root and then valid names, it is the lexical resolution of the
    input's components, and a path already in that form is unchanged. *)
Theorem normalize_path_spec (p : bytes) :
  components (normalize_path p) = foldl normalize_step [] (components p) ∧
  normal_form (components (normalize_path p)) ∧
  normalize_path (normalize_path p) = normalize_path p.
Proof.
  pose proof (normalize_components_nf p) as Hnf.
  split_and!; [apply components_normalize|apply normalize_path_nf|].
  unfold normalize_path at 1. rewrite components_normalize. unfold normalize_path.
  fold (normalize_components p).
  f_equal. destruct Hnf as (names & _ & [-> | ->]); [apply normalize_inner_names|].
  cbn. apply (normalize_inner_names names [RootDir]).
Qed.

Lemma is_prefix_app base cs : is_prefix base cs = true ↔ ∃ rest, cs = base ++ rest.
Proof.
  revert cs. induction base as [|b base IH]; intros cs; cbn; [split; [by exists cs|done]|].
  destruct cs as [|c cs]; [split; [done|by intros [? [=]]]|].
  rewrite andb_true_iff, bool_decide_eq_true, IH. split.
  - intros [-> [rest ->]]. eauto.
  - intros [rest [= -> ->]]. eauto.
Qed.

Lemma path_starts_with_iff p base :
  path_starts_with p base = true ↔ ∃ rest, components p = components base ++ rest.
Proof. apply is_prefix_app. Qed.
