(* ===== verification/Fs.v ===== *)
(** The file system as the SFTP subsystem sees it: an interface with the [std::fs]
    calls [src/sftp/mod.rs] makes, the documented behaviour the theorems use
    ([FileSystemLaws], and [FileSystemLinkLaws] for symbolic links), and an in-memory
    file system with symbolic links that has that behaviour. *)
From S2P Require Export Path.

(** [std::fs::Metadata], through [MetadataExt]. *)
Record Metadata := mkMetadata {
  md_len : Z; md_mode : Z; md_uid : Z; md_gid : Z; md_is_dir : bool
}.

(** One item of [read_dir]: the entry's name and [entry.metadata()]; an item may be
    an error. *)
Definition DirItem : Type := option (bytes * option Metadata).

(** The calls; [None] or [false] is an [Err].  [F] is the state of the file
    system, [H] an open file with its cursor.  [fs_open_write fs p create
    truncate] is [OpenOptions] with [write(true)]. *)
Class FileSystem (F H : Type) := {
  fs_canonicalize : F → bytes → option bytes;
  fs_metadata : F → bytes → option Metadata;
  fs_read_dir : F → bytes → option (list DirItem);
  fs_open : F → bytes → option H;
  fs_open_write : F → bytes → bool → bool → option H * F;
  fs_seek : H → Z → option H;
  fs_read : F → H → Z → option bytes;
  fs_write_all : F → H → bytes → bool * F;
  fs_create_dir : F → bytes → bool * F;
  fs_remove_dir : F → bytes → bool * F;
  fs_remove_file : F → bytes → bool * F
}.

Section fs_ops.
Context {F H : Type} `{fs_impl : !FileSystem F H}.

(** [Path::is_dir]. *)
Definition fs_is_dir (fs : F) (p : bytes) : bool :=
  match fs_metadata (H:=H) fs p with Some m => md_is_dir m | None => false end.
End fs_ops.

(** The contents of a file after [d] is written at offset [off]; a gap is filled
    with zeros, and writing nothing changes nothing. *)
Definition overwrite (c : bytes) (off : Z) (d : bytes) : bytes :=
  let c := c ++ replicate (Z.to_nat (off - len c)) x00 in
  take (Z.to_nat off) c ++ d ++ drop (Z.to_nat (off + len d)) c.

Definition splice (c : bytes) (off : Z) (d : bytes) : bytes :=
  if decide (d = []) then c else overwrite c off d.

Lemma overwrite_app c off d e :
  0 ≤ off → overwrite (overwrite c off d) (off + len d) e = overwrite c off (d ++ e).
Proof.
  intros Ho. unfold overwrite at 2 3. cbv zeta.
  set (c' := c ++ replicate (Z.to_nat (off - len c)) x00).
  assert (off ≤ len c') as Hc.
  { unfold c'. rewrite len_app. unfold len at 2. rewrite length_replicate. pose proof (len_nonneg c). lia. }
  assert (len (take (Z.to_nat off) c') = off) as Ht by (apply len_take; lia).
  set (A := take (Z.to_nat off) c') in *. set (D := drop (Z.to_nat (off + len d)) c').
  assert (len (A ++ d) = off + len d) as Had by (rewrite len_app; lia).
  pose proof (len_nonneg D). pose proof (len_nonneg d). pose proof (len_nonneg e).
  unfold overwrite. cbv zeta. rewrite (app_assoc A d D).
  replace (Z.to_nat (off + len d - len ((A ++ d) ++ D))) with 0%nat by (rewrite len_app; lia).
  change (replicate 0 x00) with (@nil byte). rewrite app_nil_r, take_len_app, <- app_assoc, len_app by done.
  replace (Z.to_nat (off + len d + len e)) with (length (A ++ d) + length e)%nat
    by (unfold len in *; lia).
  rewrite <- drop_drop, drop_app_length. unfold D. rewrite drop_drop.
  replace (Z.to_nat (off + len d) + length e)%nat with (Z.to_nat (off + (len d + len e)))
    by (unfold len in *; lia).
  by rewrite <- !app_assoc.
Qed.

Lemma splice_app c off d e :
  0 ≤ off → splice (splice c off d) (off + len d) e = splice c off (d ++ e).
Proof.
  intros Ho. unfold splice. destruct (decide (d = [])) as [->|Hd].
  - cbn [app]. change (len []) with 0. by rewrite Z.add_0_r.
  - rewrite (decide_False (P:=d ++ e = [])) by (by destruct d). case_decide as He.
    + by rewrite He, app_nil_r.
    + by apply overwrite_app.
Qed.

(** A write into an empty file. *)
Lemma splice_nil off d :
  0 ≤ off → d ≠ [] → splice [] off d = replicate (Z.to_nat off) x00 ++ d.
Proof.
  intros Ho Hd. unfold splice, overwrite. rewrite decide_False by done. cbn [app].
  change (len []) with 0. rewrite Z.sub_0_r, take_ge by (by rewrite length_replicate).
  rewrite drop_ge; [by rewrite app_nil_r|]. rewrite length_replicate. unfold len. lia.
Qed.

(** Documented behaviour of [std::fs] (when no other process changes the files).
    [fs_content fs p] observes the bytes of the file at [p].
    - [canonicalize] answers an absolute path without [.], [..] or empty parts;
    - opening for writing, seeking and [write_all] changes the contents at the
      offset, of the truncated file if asked for, and a missing file is empty;
    - a read returns some bytes at the offset, and none only at the end. *)
Class FileSystemLaws (F H : Type) `{!FileSystem F H} := {
  fs_content : F → bytes → option bytes;
  fs_canonicalize_normal fs p q :
    fs_canonicalize (H:=H) fs p = Some q →
    ∃ names, Forall valid_name names ∧ q = slash :: join_str slash names;
  fs_write_content fs p create truncate h fs1 off h' d fs2 :
    0 ≤ off →
    fs_open_write fs p create truncate = (Some h, fs1) → fs_seek (F:=F) h off = Some h' →
    fs_write_all fs1 h' d = (true, fs2) →
    fs_content fs2 p =
      Some (splice (if truncate then [] else default [] (fs_content fs p)) off d);
  fs_read_content fs p h off h' n got :
    0 ≤ off → 0 ≤ n →
    fs_open fs p = Some h → fs_seek (F:=F) h off = Some h' → fs_read fs h' n = Some got →
    ∃ c, fs_content fs p = Some c ∧ got = take (length got) (drop (Z.to_nat off) c) ∧
         len got ≤ n ∧ (got = [] → n = 0 ∨ len c ≤ off)
}.

(** What the theorems about links use, also documented: writing to a file does not
    change what other paths resolve to, and a file reached through a path of a
    directory is reached through the directory's canonical path as well. *)
Class FileSystemLinkLaws (F H : Type) `{!FileSystem F H, !FileSystemLaws F H} := {
  fs_resolves_still fs p create truncate h fs1 off h' d fs2 dir q :
    fs_open_write fs p create truncate = (Some h, fs1) → fs_seek (F:=F) h off = Some h' →
    fs_write_all fs1 h' d = (true, fs2) →
    fs_canonicalize (H:=H) fs dir = Some q → fs_canonicalize (H:=H) fs2 dir = Some q;
  fs_through_directory fs dir names name c :
    Forall valid_name dir → Forall valid_name names → valid_name name →
    fs_canonicalize (H:=H) fs (path_of dir) = Some (path_of names) →
    fs_content fs (path_of (dir ++ [name])) = Some c →
    fs_content fs (path_of (names ++ [name])) = Some c
}.

(** ** An in-memory file system *)

Inductive node := FileNode (content : bytes) | DirNode | LinkNode (target : bytes).

(** Nodes by their physical location; the root is a directory.  Relative paths
    start at the root. *)
Abbreviation mem_fs := (gmap (list bytes) node).

Definition mem_handle : Type := list bytes * Z.

(** Path resolution: follows links, and with [new] accepts a missing last name.
    [fuel] bounds the steps, like the system's limit on links. *)
Fixpoint walk (fuel : nat) (fs : mem_fs) (new : bool) (cwd : list bytes) (cs : list Component)
    : option (list bytes) :=
  match fuel, cs with
  | O, _ => None
  | _, [] => Some cwd
  | S fuel, RootDir :: r => walk fuel fs new [] r
  | S fuel, CurDir :: r => walk fuel fs new cwd r
  | S fuel, ParentDir :: r => walk fuel fs new (removelast cwd) r
  | S fuel, Normal s :: r =>
      match fs !! (cwd ++ [s]) with
      | Some (LinkNode target) => walk fuel fs new cwd (components target ++ r)
      | Some DirNode => walk fuel fs new (cwd ++ [s]) r
      | Some (FileNode _) => if decide (r = []) then Some (cwd ++ [s]) else None
      | None => if decide (new = true ∧ r = []) then Some (cwd ++ [s]) else None
      end
  end.

Definition mem_fuel : nat := 200.

Definition mem_lookup (fs : mem_fs) (new : bool) (p : bytes) : option (list bytes) :=
  walk mem_fuel fs new [] (components p).

Definition mem_node (fs : mem_fs) (key : list bytes) : option node :=
  match key with [] => Some DirNode | _ => fs !! key end.

Definition node_metadata (n : node) : Metadata :=
  match n with
  | FileNode c => mkMetadata (len c) 33188 0 0 false
  | DirNode => mkMetadata 0 16877 0 0 true
  | LinkNode t => mkMetadata (len t) 41471 0 0 false
  end.

Definition mem_content (fs : mem_fs) (p : bytes) : option bytes :=
  key ← mem_lookup fs false p;
  match fs !! key with Some (FileNode c) => Some c | _ => None end.

Definition mem_open_write (fs : mem_fs) (p : bytes) (create truncate : bool)
    : option mem_handle * mem_fs :=
  match mem_lookup fs create p with
  | Some key =>
      match fs !! key with
      | Some (FileNode c) =>
          (Some (key, 0), <[key := FileNode (if truncate then [] else c)]> fs)
      | None => if decide (key = []) then (None, fs)
                else (Some (key, 0), <[key := FileNode []]> fs)
      | _ => (None, fs)
      end
  | None => (None, fs)
  end.

(** The entries directly below a directory. *)
Definition mem_children (fs : mem_fs) (key : list bytes) : list DirItem :=
  omap (λ e : list bytes * node,
    match last e.1 with
    | Some name => if decide (removelast e.1 = key)
                   then Some (Some (name, Some (node_metadata e.2))) else None
    | None => None
    end) (map_to_list fs).

(** Creating and removing at a location that is not the root. *)
Definition mem_update (fs : mem_fs) (new : bool) (p : bytes)
    (f : list bytes → option node → option (option node)) : bool * mem_fs :=
  match mem_lookup fs new p with
  | Some key =>
      if decide (key = []) then (false, fs)
      else match f key (fs !! key) with
           | Some (Some n) => (true, <[key := n]> fs)
           | Some None => (true, delete key fs)
           | None => (false, fs)
           end
  | None => (false, fs)
  end.

#[export] Instance mem_filesystem : FileSystem mem_fs mem_handle := {|
  fs_canonicalize fs p := path_of <$> mem_lookup fs false p;
  fs_metadata fs p := node_metadata <$> (mem_lookup fs false p ≫= mem_node fs);
  fs_read_dir fs p :=
    key ← mem_lookup fs false p;
    match mem_node fs key with Some DirNode => Some (mem_children fs key) | _ => None end;
  fs_open fs p := (λ key, (key, 0)) <$> mem_lookup fs false p;
  fs_open_write := mem_open_write;
  fs_seek h off := if decide (off < 2 ^ 63) then Some (h.1, off) else None;
  fs_read fs h n :=
    match fs !! h.1 with
    | Some (FileNode c) => Some (take (Z.to_nat n) (drop (Z.to_nat h.2) c))
    | _ => None
    end;
  fs_write_all fs h d :=
    match fs !! h.1 with
    | Some (FileNode c) => (true, <[h.1 := FileNode (splice c h.2 d)]> fs)
    | _ => (false, fs)
    end;
  fs_create_dir fs p :=
    mem_update fs true p (λ _ n, match n with None => Some (Some DirNode) | _ => None end);
  fs_remove_dir fs p :=
    mem_update fs false p (λ key n,
      match n with
      | Some DirNode => if decide (mem_children fs key = []) then Some None else None
      | _ => None
      end);
  fs_remove_file fs p :=
    mem_update fs false p (λ _ n, match n with Some (FileNode _) => Some None | _ => None end)
|}.

(** ** The in-memory file system behaves as documented *)

(** Resolution only produces valid names. *)
Lemma walk_valid n fs new cwd cs key :
  Forall valid_name cwd → Forall (λ c, match c with Normal s => valid_name s | _ => True end) cs →
  walk n fs new cwd cs = Some key → Forall valid_name key.
Proof.
  revert cwd cs. induction n as [|n IH]; intros cwd cs Hcwd Hcs; [done|].
  destruct cs as [|c cs]; cbn; [by intros [= <-]|]. apply Forall_cons in Hcs as [Hc Hcs].
  destruct c as [| | |s].
  - by apply IH.
  - by apply IH.
  - apply IH; [|done]. destruct cwd as [|x cwd _] using rev_ind; [done|].
    rewrite removelast_last. by apply Forall_app in Hcwd as [? _].
  - assert (Forall valid_name (cwd ++ [s])) by (apply Forall_app; auto).
    destruct (fs !! (cwd ++ [s])) as [[| |t]|]; [| |apply IH|]; try done.
    + case_decide; intros; by simplify_eq.
    + by apply IH.
    + apply Forall_app. split; [|done].
      destruct (components_shape t) as (front & inner & -> & Hi & Hf & _). apply Forall_app. split.
      * destruct Hf as [->|[->| ->]]; repeat constructor.
      * eapply Forall_impl; [exact Hi|]. by intros [].
    + case_decide; intros; by simplify_eq.
Qed.

Lemma mem_lookup_valid fs new p key : mem_lookup fs new p = Some key → Forall valid_name key.
Proof.
  apply walk_valid; [constructor|].
  destruct (components_shape p) as (front & inner & -> & Hi & Hf & _). apply Forall_app. split.
  - destruct Hf as [->|[->| ->]]; repeat constructor.
  - eapply Forall_impl; [exact Hi|]. by intros [].
Qed.

(** A file stays where it is found when its contents are set, and a new file is
    found where it was created. *)
Lemma walk_insert_file n fs new cwd cs key c :
  walk n fs new cwd cs = Some key →
  match fs !! key with None | Some (FileNode _) => True | _ => False end →
  walk n (<[key := FileNode c]> fs) false cwd cs = Some key.
Proof.
  intros Hw Hk. revert cwd cs Hw. induction n as [|n IH]; intros cwd cs; [done|].
  destruct cs as [|x cs]; cbn; [done|]. destruct x as [| | |s]; [by apply IH..|].
  destruct (decide (key = cwd ++ [s])) as [->|Hn].
  - rewrite lookup_insert_eq. destruct (fs !! (cwd ++ [s])) as [[| |]|]; try done.
    intros H. case_decide as Hd; [|done]. by rewrite decide_True by tauto.
  - rewrite lookup_insert_ne by done.
    destruct (fs !! (cwd ++ [s])) as [[| |]|]; [done|by apply IH|by apply IH|].
    case_decide; intros; simplify_eq.
Qed.

Lemma mem_lookup_insert fs new p key c :
  mem_lookup fs new p = Some key →
  match fs !! key with None | Some (FileNode _) => True | _ => False end →
  mem_lookup (<[key := FileNode c]> fs) false p = Some key.
Proof. exact (walk_insert_file mem_fuel fs new [] (components p) key c). Qed.

Lemma mem_content_insert fs new p key c :
  mem_lookup fs new p = Some key →
  match fs !! key with None | Some (FileNode _) => True | _ => False end →
  mem_content (<[key := FileNode c]> fs) p = Some c.
Proof.
  intros Hl Hk. unfold mem_content. rewrite (mem_lookup_insert _ _ _ _ c Hl Hk). cbn [mbind option_bind].
  by rewrite lookup_insert_eq.
Qed.

Lemma walk_new n fs cwd cs key :
  walk n fs false cwd cs = Some key → walk n fs true cwd cs = Some key.
Proof.
  revert cwd cs. induction n as [|n IH]; intros cwd cs; [done|].
  destruct cs as [|[| | |s] cs]; cbn; auto.
  destruct (fs !! (cwd ++ [s])) as [[| |]|]; auto.
  rewrite decide_False by naive_solver. done.
Qed.

Lemma walk_found n fs new cwd cs key x :
  walk n fs new cwd cs = Some key → fs !! key = Some (FileNode x) →
  walk n fs false cwd cs = Some key.
Proof.
  intros Hw Hk. rewrite <- (insert_id fs key (FileNode x) Hk).
  apply (walk_insert_file _ _ new); [done|]. by rewrite Hk.
Qed.

Lemma mem_lookup_new fs p key : mem_lookup fs false p = Some key → mem_lookup fs true p = Some key.
Proof. exact (walk_new mem_fuel fs [] (components p) key). Qed.

Lemma mem_lookup_found fs new p key x :
  mem_lookup fs new p = Some key → fs !! key = Some (FileNode x) →
  mem_lookup fs false p = Some key.
Proof. exact (walk_found mem_fuel fs new [] (components p) key x). Qed.

(** A location all of whose parts are directories. *)
Definition real (fs : mem_fs) (p : list bytes) : Prop :=
  ∀ q s, (q ++ [s]) `prefix_of` p → fs !! (q ++ [s]) = Some DirNode.

Lemma real_nil fs : real fs [].
Proof. intros q s [r Hr]. by destruct q. Qed.

Lemma real_snoc fs p s : real fs p → fs !! (p ++ [s]) = Some DirNode → real fs (p ++ [s]).
Proof.
  intros Hp Hs q x [r Hr]. destruct r as [|y r _] using rev_ind.
  - rewrite app_nil_r in Hr. by rewrite <- Hr.
  - rewrite app_assoc in Hr. apply app_inj_tail in Hr as [-> _]. apply Hp. by eexists.
Qed.

Lemma real_prefix fs p q : real fs p → q `prefix_of` p → real fs q.
Proof. intros Hp Hq x s Hx. apply Hp. by trans q. Qed.

Lemma removelast_prefix (p : list bytes) : removelast p `prefix_of` p.
Proof.
  destruct p as [|x p _] using rev_ind; [done|]. rewrite removelast_last. by apply prefix_app_r.
Qed.

Lemma walk_more n m fs new cwd cs key :
  walk n fs new cwd cs = Some key → (n ≤ m)%nat → walk m fs new cwd cs = Some key.
Proof.
  revert m cwd cs. induction n as [|n IH]; intros m cwd cs; [done|]. destruct m as [|m]; [lia|]. intros Hw Hm.
  assert (n ≤ m)%nat by lia. destruct cs as [|[| | |s] cs]; cbn in *; eauto.
  destruct (fs !! (cwd ++ [s])) as [[| |]|]; eauto.
Qed.

(** Along real directories. *)
Lemma walk_real m fs base l rest :
  real fs (base ++ l) → walk (length l + m) fs false base ((Normal <$> l) ++ rest) = walk m fs false (base ++ l) rest.
Proof.
  revert base. induction l as [|s l IH]; intros base Hr; [by rewrite app_nil_r|]. cbn.
  rewrite (Hr base s) by (exists l; by rewrite <- app_assoc).
  rewrite IH by (by rewrite <- app_assoc). by rewrite <- app_assoc.
Qed.

(** A walk to a name in a directory passes through the directory. *)
Lemma walk_split n fs cwd cs s key :
  real fs cwd → walk n fs false cwd (cs ++ [Normal s]) = Some key →
  ∃ k m, walk n fs false cwd cs = Some k ∧ real fs k ∧ (length k + m ≤ length cwd + n)%nat ∧
    walk m fs false k [Normal s] = Some key.
Proof.
  revert cwd cs. induction n as [|n IH]; intros cwd cs Hr; [done|].
  destruct cs as [|c cs]; [intros Hw; by exists cwd, (S n)|]. cbn [app walk].
  assert (Hgo : ∀ cwd' cs', real fs cwd' → (length cwd' ≤ S (length cwd))%nat →
    walk n fs false cwd' (cs' ++ [Normal s]) = Some key →
    ∃ k m, walk n fs false cwd' cs' = Some k ∧ real fs k ∧ (length k + m ≤ length cwd + S n)%nat ∧
      walk m fs false k [Normal s] = Some key).
  { intros cwd' cs' Hr' Hl (k & m & ? & ? & ? & ?)%IH; [|done]. exists k, m. split_and!; [done|done|lia|done]. }
  destruct c as [| | |x].
  - apply Hgo; [apply real_nil|cbn; lia].
  - apply Hgo; [done|lia].
  - apply Hgo; [eapply real_prefix, removelast_prefix; done|].
    pose proof (prefix_length _ _ (removelast_prefix cwd)). lia.
  - destruct (fs !! (cwd ++ [x])) as [[c| |target]|] eqn:E.
    + by rewrite decide_False by (by destruct cs).
    + apply Hgo; [by apply real_snoc|]. rewrite length_app. cbn. lia.
    + rewrite app_assoc. apply Hgo; [done|lia].
    + by rewrite decide_False by naive_solver.
Qed.

Lemma path_of_inj l l' : Forall valid_name l → Forall valid_name l' → path_of l = path_of l' → l = l'.
Proof.
  intros Hl Hl' E. apply (f_equal components) in E. unfold path_of in E.
  rewrite !components_root_names in E by done. injection E as E.
  assert (Inj (=) (=) Normal) by by intros ?? [= ->]. by apply (inj (fmap Normal)) in E.
Qed.

Lemma walk_insert_kept n fs cwd cs key k c :
  walk n fs false cwd cs = Some k →
  match fs !! key with None | Some (FileNode _) => True | _ => False end →
  walk n (<[key := FileNode c]> fs) false cwd cs = Some k.
Proof.
  intros Hw Hk. revert cwd cs Hw. induction n as [|n IH]; intros cwd cs; [done|].
  destruct cs as [|x cs]; cbn; [done|]. destruct x as [| | |s]; [by apply IH..|].
  destruct (decide (key = cwd ++ [s])) as [->|Hn].
  - rewrite lookup_insert_eq. destruct (fs !! (cwd ++ [s])) as [[| |]|]; try done.
  - rewrite lookup_insert_ne by done. destruct (fs !! (cwd ++ [s])) as [[| |]|]; auto.
Qed.

Lemma mem_lookup_kept fs key p k c :
  mem_lookup fs false p = Some k →
  match fs !! key with None | Some (FileNode _) => True | _ => False end →
  mem_lookup (<[key := FileNode c]> fs) false p = Some k.
Proof. exact (walk_insert_kept mem_fuel fs [] (components p) key k c). Qed.

(** What is found through a directory's path is found through its location. *)
Lemma mem_lookup_through fs dir k name key :
  Forall valid_name dir → valid_name name →
  mem_lookup fs false (path_of dir) = Some k →
  mem_lookup fs false (path_of (dir ++ [name])) = Some key →
  mem_lookup fs false (path_of (k ++ [name])) = Some key.
Proof.
  intros Hd Hname Hk Hl. pose proof (mem_lookup_valid _ _ _ _ Hk) as Hv. revert Hk Hl.
  unfold mem_lookup, path_of. rewrite !components_root_names by (try apply Forall_app; auto).
  rewrite !fmap_app. assert (∃ n, mem_fuel = S n) as [n ->] by by eexists. cbn. intros Hk Hl.
  destruct (walk_split n fs [] (Normal <$> dir) name key (real_nil fs) Hl)
    as (k' & m & Hk' & Hreal & Hlen & Hw).
  rewrite Hk in Hk'. injection Hk' as <-. cbn in Hlen.
  apply (walk_more (length k + m)); [|lia]. by rewrite walk_real.
Qed.

#[local] Opaque mem_lookup.

Lemma mem_open_write_ok fs p create truncate h fs1 :
  mem_open_write fs p create truncate = (Some h, fs1) →
  h.2 = 0 ∧ mem_lookup fs create p = Some h.1 ∧
  fs1 = <[h.1 := FileNode (if truncate then [] else default [] (mem_content fs p))]> fs ∧
  match fs !! h.1 with None | Some (FileNode _) => True | _ => False end.
Proof.
  unfold mem_open_write. destruct (mem_lookup fs create p) as [key|] eqn:El; [|done].
  destruct (fs !! key) as [[c| |]|] eqn:Ek; [|done|done|case_decide; [done|]];
    intros [= <- <-]; cbn; (split; [reflexivity|]; split; [reflexivity|]); rewrite Ek; (split; [|exact I]).
  - unfold mem_content. rewrite (mem_lookup_found _ _ _ _ _ El Ek). cbn [mbind option_bind]. by rewrite Ek.
  - enough (default [] (mem_content fs p) = []) as -> by by destruct truncate.
    unfold mem_content. destruct (mem_lookup fs false p) as [k|] eqn:E; [|done].
    assert (mem_lookup fs create p = Some k) as El'.
    { destruct create; [apply mem_lookup_new; exact E|exact E]. }
    cbn [mbind option_bind]. assert (k = key) as -> by congruence. by rewrite Ek.
Qed.

#[export] Instance mem_filesystem_laws : FileSystemLaws mem_fs mem_handle.
Proof.
  refine {| fs_content := mem_content |}.
  - cbn. intros fs p q (key & Hk & ->)%fmap_Some. exists key. split; [|done].
    by eapply mem_lookup_valid.
  - cbn. intros fs p create truncate [key pos] fs1 off h' d fs2 _ Ho Hs Hw.
    apply mem_open_write_ok in Ho as (_ & Hl & -> & Hk). cbn in *.
    case_decide; [|done]. simplify_eq. cbn in Hw. rewrite lookup_insert_eq in Hw. simplify_eq.
    rewrite insert_insert_eq. by eapply mem_content_insert.
  - cbn. intros fs p h off h' n got Hoff Hn (key & Hl & ->)%fmap_Some Hs Hr. cbn in *.
    case_decide; [|done]. simplify_eq. cbn in Hr. unfold mem_content. rewrite Hl. cbn.
    destruct (fs !! key) as [[c| |]|]; try done. simplify_eq. exists c. split; [done|].
    split_and!.
    + by rewrite length_take, <- take_take, firstn_all.
    + unfold len. rewrite length_take. lia.
    + intros E. apply (f_equal length) in E. rewrite length_take, length_drop in E. cbn in E.
      unfold len. lia.
Defined.

#[export] Instance mem_filesystem_link_laws : FileSystemLinkLaws mem_fs mem_handle.
Proof.
  split.
  - cbn. intros fs p create truncate [key pos] fs1 off h' d fs2 dir q Ho Hs Hw (k & Hk & ->)%fmap_Some.
    apply mem_open_write_ok in Ho as (_ & Hl & -> & Hn). cbn in *. case_decide; [|done]. simplify_eq.
    cbn in Hw. rewrite lookup_insert_eq in Hw. simplify_eq. rewrite insert_insert_eq.
    apply fmap_Some. exists k. split; [|done]. by apply mem_lookup_kept.
  - cbn. intros fs dir names name c Hd Hn Hname (k & Hk & E)%fmap_Some.
    apply path_of_inj in E as ->; [|done|by eapply mem_lookup_valid].
    unfold mem_content. destruct (mem_lookup fs false (path_of (dir ++ [name]))) as [key|] eqn:Hl; [|done].
    by rewrite (mem_lookup_through _ _ _ _ _ Hd Hname Hk Hl).
Qed.
