(* ===== verification/SftpHandler.v ===== *)
(** The server side of SFTP ([src/sftp/mod.rs], lines 232-636): path resolution,
    handles and the request handlers, over the file-system interface of [Fs]. *)
From S2P Require Export SftpProto Fs.

Record SftpHandler := mkHandler {
  next_handle : Z;
  open_files : gmap bytes (bytes * Z);
  open_dirs : gmap bytes (bytes * bool);
  root : bytes
}.

Definition SftpHandler_new (root : bytes) : SftpHandler := mkHandler 0 ∅ ∅ root.

(** The handler and the file system it works on. *)
Record SftpState (F : Type) := mkSftp { handler : SftpHandler; disk : F }.
#[global] Arguments mkSftp {F} _ _.
#[global] Arguments handler {F} _.
#[global] Arguments disk {F} _.

Definition metadata_to_attrs (meta : Metadata) : FileAttrs :=
  let flags := Z.lor SSH_FILEXFER_ATTR_SIZE SSH_FILEXFER_ATTR_PERMISSIONS in
  {| flags := Z.lor flags SSH_FILEXFER_ATTR_UIDGID;
     attr_size := Some (md_len meta);
     uid := Some (md_uid meta);
     gid := Some (md_gid meta);
     permissions := Some (md_mode meta);
     atime := None;
     mtime := None |}.

Section handler.
Context {F H : Type} `{fs_impl : !FileSystem F H} `{profile : !BuildProfile}.

Abbreviation sftp := (io SshError (SftpState F)).

(** [let x = match m { Ok(x) => x, Err(_) => return response }; k x]. *)
Definition or_return {A} (m : SshResult A) (response : SftpPacket) (k : A → sftp SftpPacket)
    : sftp SftpPacket :=
  match m with
  | Ok a => k a
  | Err _ => mret response
  | Panic s => λ st, (Panic s, st)
  | OutOfFuel => λ st, (OutOfFuel, st)
  end.

Definition set_handler (f : SftpHandler → SftpHandler) : sftp unit :=
  modify (λ st, mkSftp (f (handler st)) (disk st)).

Definition on_disk {A} (f : F → A * F) : sftp A :=
  step (λ st, let '(a, d) := f (disk st) in (a, mkSftp (handler st) d)).

Definition resolve_path (fs : F) (h : SftpHandler) (requested : bytes) : SshResult bytes :=
  let path := match requested with
              | c :: rest => if decide (c = slash) then path_join (root h) rest
                             else path_join (root h) requested
              | [] => path_join (root h) requested
              end in
  let canonical := match fs_canonicalize (H:=H) fs path with
                   | Some p => p
                   | None => normalize_path path
                   end in
  let root_canonical := default (normalize_path (root h)) (fs_canonicalize (H:=H) fs (root h)) in
  if path_starts_with canonical root_canonical then Ok canonical
  else Err (SftpError "Access denied: path outside root").

Definition resolved (requested : bytes) (response : SftpPacket) (k : bytes → sftp SftpPacket)
    : sftp SftpPacket := λ st,
  or_return (resolve_path (disk st) (handler st) requested) response k st.

Definition alloc_handle : sftp bytes :=
  handle ← gets (λ st, be_encode 4 (next_handle (handler st)));
  n ← gets (λ st, next_handle (handler st));
  next ← lift (u32_add n 1);
  _ ← set_handler (λ h, mkHandler next (open_files h) (open_dirs h) (root h));
  mret handle.

Definition insert_file (handle : bytes) (entry : bytes * Z) (h : SftpHandler) : SftpHandler :=
  mkHandler (next_handle h) (<[handle := entry]> (open_files h)) (open_dirs h) (root h).

Definition insert_dir (handle : bytes) (entry : bytes * bool) (h : SftpHandler) : SftpHandler :=
  mkHandler (next_handle h) (open_files h) (<[handle := entry]> (open_dirs h)) (root h).

Definition remove_handle (handle : bytes) (h : SftpHandler) : SftpHandler :=
  mkHandler (next_handle h) (delete handle (open_files h)) (delete handle (open_dirs h)) (root h).

Definition status (pkt : SftpPacket) (code : Z) (message : string) : SftpPacket :=
  build_sftp_status (request_id pkt) code (bs message).

Definition handle_realpath (pkt : SftpPacket) : sftp SftpPacket :=
  or_return (read_utf8 (data pkt)) (status pkt SSH_FX_FAILURE "Bad path") (λ '(path_str, _),
  resolved path_str (status pkt SSH_FX_NO_SUCH_FILE "Not found") (λ resolved,
  let name := from_utf8_lossy resolved in
  mret (build_sftp_name (request_id pkt) [(name, FileAttrs_default)]))).

Definition handle_stat (pkt : SftpPacket) : sftp SftpPacket :=
  or_return (read_utf8 (data pkt)) (status pkt SSH_FX_FAILURE "Bad path") (λ '(path_str, _),
  resolved path_str (status pkt SSH_FX_NO_SUCH_FILE "Not found") (λ resolved,
  meta ← gets (λ st, fs_metadata (H:=H) (disk st) resolved);
  mret match meta with
       | Some meta => build_sftp_attrs (request_id pkt) (metadata_to_attrs meta)
       | None => status pkt SSH_FX_NO_SUCH_FILE "Not found"
       end)).

Definition handle_opendir (pkt : SftpPacket) : sftp SftpPacket :=
  or_return (read_utf8 (data pkt)) (status pkt SSH_FX_FAILURE "Bad path") (λ '(path_str, _),
  resolved path_str (status pkt SSH_FX_NO_SUCH_FILE "Not found") (λ resolved,
  is_dir ← gets (λ st, fs_is_dir (H:=H) (disk st) resolved);
  if is_dir : bool then
    handle ← alloc_handle;
    _ ← set_handler (insert_dir handle (resolved, false));
    mret (build_sftp_handle (request_id pkt) handle)
  else mret (status pkt SSH_FX_NO_SUCH_FILE "Not a directory"))).

(** The loop over [entries.flatten()]. *)
Definition dir_entries (items : list DirItem) : list (bytes * FileAttrs) :=
  omap (λ item,
    '(file_name, meta) ← item;
    Some (from_utf8_lossy file_name, default FileAttrs_default (metadata_to_attrs <$> meta)))
    items.

Definition handle_readdir (pkt : SftpPacket) : sftp SftpPacket :=
  or_return (read_string (data pkt)) (status pkt SSH_FX_FAILURE "Bad handle") (λ '(handle, _),
  entry ← gets (λ st, open_dirs (handler st) !! handle);
  match entry with
  | None => mret (status pkt SSH_FX_FAILURE "Invalid handle")
  | Some (path, already_listed) =>
      if already_listed : bool then mret (status pkt SSH_FX_EOF "End of directory")
      else
        _ ← set_handler (insert_dir handle (path, true));
        entries ← gets (λ st, fs_read_dir (H:=H) (disk st) path);
        mret match entries with
             | Some items => build_sftp_name (request_id pkt) (dir_entries items)
             | None => status pkt SSH_FX_PERMISSION_DENIED "Cannot read dir"
             end
  end).

Definition handle_close (pkt : SftpPacket) : sftp SftpPacket :=
  or_return (read_string (data pkt)) (status pkt SSH_FX_FAILURE "Bad handle") (λ '(handle, _),
  _ ← set_handler (remove_handle handle);
  mret (status pkt SSH_FX_OK "OK")).

Definition handle_open (pkt : SftpPacket) : sftp SftpPacket :=
  or_return (read_utf8 (data pkt)) (status pkt SSH_FX_FAILURE "Bad path") (λ '(path_str, cursor),
  or_return (read_u32 cursor) (status pkt SSH_FX_FAILURE "Bad flags") (λ '(flags, cursor),
  let _attrs := FileAttrs_decode cursor in
  resolved path_str (status pkt SSH_FX_NO_SUCH_FILE "Path error") (λ resolved,
  handle ← alloc_handle;
  _ ← set_handler (insert_file handle (resolved, flags));
  mret (build_sftp_handle (request_id pkt) handle)))).

(** [cursor.read_u64::<BigEndian>()] and a length as [usize]. *)
Definition read_u64 (cursor : bytes) : SshResult (Z * bytes) := map_err Io (cursor_read_be 8 cursor).

(** The [match std::fs::File::open(path)] of [handle_read]. *)
Definition read_file (pkt : SftpPacket) (fs : F) (path : bytes) (offset length : Z) : SftpPacket :=
  match fs_open fs path with
  | Some file =>
      match fs_seek (F:=F) file offset with
      | None => status pkt SSH_FX_FAILURE "Seek failed"
      | Some file =>
          match fs_read fs file (Z.min length 32768) with
          | Some [] => status pkt SSH_FX_EOF "EOF"
          | Some buf => build_sftp_data (request_id pkt) buf
          | None => status pkt SSH_FX_FAILURE "Read error"
          end
      end
  | None => status pkt SSH_FX_NO_SUCH_FILE "Cannot open"
  end.

Definition handle_read (pkt : SftpPacket) : sftp SftpPacket :=
  or_return (read_string (data pkt)) (status pkt SSH_FX_FAILURE "Bad handle") (λ '(handle, cursor),
  or_return (read_u64 cursor) (status pkt SSH_FX_FAILURE "Bad offset") (λ '(offset, cursor),
  or_return (read_u32 cursor) (status pkt SSH_FX_FAILURE "Bad length") (λ '(length, _),
  entry ← gets (λ st, open_files (handler st) !! handle);
  match entry with
  | None => mret (status pkt SSH_FX_FAILURE "Invalid handle")
  | Some (path, _flags) => gets (λ st, read_file pkt (disk st) path offset length)
  end))).

(** The [match open_result] of [handle_write]. *)
Definition write_file (pkt : SftpPacket) (path : bytes) (flags offset : Z) (data : bytes)
    : sftp SftpPacket :=
  open_result ← on_disk (λ fs, fs_open_write fs path (has_flag flags SSH_FXF_CREAT)
                                             (has_flag flags SSH_FXF_TRUNC));
  match open_result with
  | Some file =>
      match fs_seek (F:=F) file offset with
      | None => mret (status pkt SSH_FX_FAILURE "Seek failed")
      | Some file =>
          ok ← on_disk (λ fs, fs_write_all fs file data);
          mret (if ok : bool then status pkt SSH_FX_OK "OK"
                else status pkt SSH_FX_FAILURE "Write error")
      end
  | None => mret (status pkt SSH_FX_PERMISSION_DENIED "Cannot open")
  end.

Definition handle_write (pkt : SftpPacket) : sftp SftpPacket :=
  or_return (read_string (data pkt)) (status pkt SSH_FX_FAILURE "Bad handle") (λ '(handle, cursor),
  or_return (read_u64 cursor) (status pkt SSH_FX_FAILURE "Bad offset") (λ '(offset, cursor),
  or_return (read_string cursor) (status pkt SSH_FX_FAILURE "Bad data") (λ '(data, _),
  entry ← gets (λ st, open_files (handler st) !! handle);
  match entry with
  | None => mret (status pkt SSH_FX_FAILURE "Invalid handle")
  | Some (path, flags) =>
      if has_flag flags SSH_FXF_WRITE then write_file pkt path flags offset data
      else mret (status pkt SSH_FX_PERMISSION_DENIED "Not opened for writing")
  end))).

(** The common body of [handle_mkdir], [handle_rmdir] and [handle_remove]. *)
Definition path_operation (pkt : SftpPacket) (op : F → bytes → bool * F) (failed : string)
    : sftp SftpPacket :=
  or_return (read_utf8 (data pkt)) (status pkt SSH_FX_FAILURE "Bad path") (λ '(path_str, _),
  resolved path_str (status pkt SSH_FX_PERMISSION_DENIED "Bad path") (λ resolved,
  ok ← on_disk (λ fs, op fs resolved);
  mret (if ok : bool then status pkt SSH_FX_OK "OK" else status pkt SSH_FX_FAILURE failed))).

Definition handle_mkdir (pkt : SftpPacket) : sftp SftpPacket :=
  path_operation pkt (fs_create_dir (H:=H)) "mkdir failed".

Definition handle_rmdir (pkt : SftpPacket) : sftp SftpPacket :=
  path_operation pkt (fs_remove_dir (H:=H)) "rmdir failed".

Definition handle_remove (pkt : SftpPacket) : sftp SftpPacket :=
  path_operation pkt (fs_remove_file (H:=H)) "remove failed".

Definition handle_request (pkt : SftpPacket) : sftp SftpPacket :=
  let t := packet_type pkt in
  if decide (t = SSH_FXP_REALPATH) then handle_realpath pkt
  else if decide (t = SSH_FXP_STAT ∨ t = SSH_FXP_LSTAT) then handle_stat pkt
  else if decide (t = SSH_FXP_OPENDIR) then handle_opendir pkt
  else if decide (t = SSH_FXP_READDIR) then handle_readdir pkt
  else if decide (t = SSH_FXP_CLOSE) then handle_close pkt
  else if decide (t = SSH_FXP_OPEN) then handle_open pkt
  else if decide (t = SSH_FXP_READ) then handle_read pkt
  else if decide (t = SSH_FXP_WRITE) then handle_write pkt
  else if decide (t = SSH_FXP_MKDIR) then handle_mkdir pkt
  else if decide (t = SSH_FXP_RMDIR) then handle_rmdir pkt
  else if decide (t = SSH_FXP_REMOVE) then handle_remove pkt
  else mret (status pkt SSH_FX_OP_UNSUPPORTED "Unsupported operation").

End handler.

(** ** Reasoning about handlers

    [runs m st Q]: the handler returns a response, and [Q] holds of it and of the
    state it leaves.  A handler is decomposed by the lemmas below. *)
Section runs.
Context {F H : Type} `{fs_impl : !FileSystem F H} `{profile : !BuildProfile}.

Definition runs {A} (m : io SshError (SftpState F) A) (st : SftpState F)
    (Q : A → SftpState F → Prop) : Prop :=
  ∃ a st', m st = (Ok a, st') ∧ Q a st'.

Lemma runs_ret {A} (a : A) (st : SftpState F) (Q : A → SftpState F → Prop) : Q a st → runs (mret a) st Q.
Proof. intros HQ. by exists a, st. Qed.

Lemma runs_bind {A B} (m : io SshError (SftpState F) A) (k : A → io SshError (SftpState F) B) (st : SftpState F) Q :
  runs m st (λ a st', runs (k a) st' Q) → runs (m ≫= k) st Q.
Proof.
  intros (a & st1 & E & b & st2 & E2 & HQ). exists b, st2. by rewrite (io_bind_run _ _ _ _ _ E).
Qed.

Lemma runs_gets {A} (f : SftpState F → A) (st : SftpState F) (Q : A → SftpState F → Prop) :
  Q (f st) st → runs (gets f) st Q.
Proof. intros HQ. by exists (f st), st. Qed.

Lemma runs_set_handler f (st : SftpState F) (Q : unit → SftpState F → Prop) :
  Q tt (mkSftp (f (handler st)) (disk st)) → runs (set_handler f) st Q.
Proof. intros HQ. by eexists _, _. Qed.

Lemma runs_on_disk {A} (f : F → A * F) (st : SftpState F) (Q : A → SftpState F → Prop) :
  (∀ a d, f (disk st) = (a, d) → Q a (mkSftp (handler st) d)) → runs (on_disk f) st Q.
Proof.
  intros HQ. unfold runs, on_disk, step. destruct (f (disk st)) as [a d] eqn:E. eauto.
Qed.

Lemma runs_or_return {A} (m : SshResult A) response k (st : SftpState F) (Q : SftpPacket → SftpState F → Prop) :
  returns m = true → Q response st → (∀ a, m = Ok a → runs (k a) st Q) →
  runs (or_return m response k) st Q.
Proof. destruct m; intros Hm Hr Hk; try done; [by apply Hk|by apply runs_ret]. Qed.

Lemma resolve_path_returns fs h req : returns (resolve_path (H:=H) fs h req) = true.
Proof. unfold resolve_path. by destruct path_starts_with. Qed.

Lemma runs_resolved req response k (st : SftpState F) (Q : SftpPacket → SftpState F → Prop) :
  Q response st →
  (∀ p, resolve_path (H:=H) (disk st) (handler st) req = Ok p → runs (k p) st Q) →
  runs (resolved (H:=H) req response k) st Q.
Proof.
  intros Hr Hk. apply (runs_or_return _ response k st Q); [apply resolve_path_returns|done|done].
Qed.

Lemma alloc_handle_run (st : SftpState F) :
  next_handle (handler st) + 1 < U32 →
  alloc_handle st =
    (Ok (be_encode 4 (next_handle (handler st))),
     mkSftp (mkHandler (next_handle (handler st) + 1) (open_files (handler st))
               (open_dirs (handler st)) (root (handler st))) (disk st)).
Proof.
  intros Hn. unfold alloc_handle, mbind, io_bind, gets, lift, set_handler, modify, mret, io_ret.
  by rewrite u32_add_small.
Qed.

Lemma runs_alloc (st : SftpState F) (Q : bytes → SftpState F → Prop) :
  next_handle (handler st) + 1 < U32 →
  Q (be_encode 4 (next_handle (handler st)))
    (mkSftp (mkHandler (next_handle (handler st) + 1) (open_files (handler st))
               (open_dirs (handler st)) (root (handler st))) (disk st)) →
  runs alloc_handle st Q.
Proof. intros Hn HQ. eexists _, _. split; [by apply alloc_handle_run|done]. Qed.

Lemma read_u64_returns c : returns (read_u64 c) = true.
Proof. unfold read_u64, cursor_read_be, cursor_read_exact. by case_decide. Qed.
End runs.
#[export] Hint Resolve read_u64_returns : returns.

(** One step through a handler; the side conditions that remain are the
    postconditions of its early returns. *)
Ltac handler_step :=
  lazymatch goal with
  | |- runs (or_return _ _ _) _ _ =>
      apply runs_or_return; [by auto with returns| |intros [? ?] ?]
  | |- runs (resolved _ _ _) _ _ => apply runs_resolved; [|intros ? ?]
  | |- runs (_ ≫= _) _ _ => apply runs_bind
  | |- runs (mret _) _ _ => apply runs_ret
  | |- runs (gets _) _ _ => apply runs_gets
  | |- runs (set_handler _) _ _ => apply runs_set_handler
  | |- runs (on_disk _) _ _ => apply runs_on_disk; intros ? ? ?
  | |- runs alloc_handle _ _ => apply runs_alloc; [done|]
  | |- runs (match ?x with _ => _ end) _ _ => destruct x eqn:?
  end.
Ltac run_handler := repeat (cbv beta zeta; handler_step).

(** ** Confinement *)

(** [p] is [base] followed by names: below [base], without [.] or [..]. *)
Definition confined (base : list Component) (p : bytes) : Prop :=
  ∃ names, Forall valid_name names ∧ components p = base ++ (Normal <$> names).

Section confinement.
Context {F H : Type} `{fs_impl : !FileSystem F H} `{fs_laws : !FileSystemLaws F H}.

Definition root_components (fs : F) (h : SftpHandler) : list Component :=
  components (default (normalize_path (root h)) (fs_canonicalize (H:=H) fs (root h))).

Lemma canonical_nf fs p q :
  fs_canonicalize (H:=H) fs p = Some q → normal_form (components q).
Proof.
  intros (names & Hn & ->)%fs_canonicalize_normal. exists names.
  split; [done|]. right. by apply components_root_names.
Qed.

Lemma normal_form_suffix base rest :
  base ≠ [] → normal_form (base ++ rest) → ∃ names, Forall valid_name names ∧ rest = Normal <$> names.
Proof.
  intros Hb (names & Hn & [E|E]).
  - apply symmetry, fmap_app_inv in E as (l1 & l2 & -> & -> & ->). apply Forall_app in Hn as [_ Hn]. eauto.
  - destruct base as [|c base]; [done|]. cbn in E. injection E as -> E.
    apply symmetry, fmap_app_inv in E as (l1 & l2 & -> & -> & ->). apply Forall_app in Hn as [_ Hn]. eauto.
Qed.

Lemma resolve_path_confined_aux fs h req p :
  root_components fs h ≠ [] → resolve_path (H:=H) fs h req = Ok p →
  confined (root_components fs h) p.
Proof.
  intros Hne. unfold resolve_path. set (path := match req with [] => _ | _ :: _ => _ end).
  intros E. destruct (path_starts_with _ _) eqn:Hp in E; [|done]. injection E as <-.
  apply path_starts_with_iff in Hp as [rest Hp]. fold (root_components fs h) in Hp.
  destruct (normal_form_suffix (root_components fs h) rest) as (names & Hn & ->); [done| |by exists names].
  rewrite <- Hp. destruct (fs_canonicalize fs path) as [q|] eqn:Ec.
  - by eapply canonical_nf.
  - apply normalize_path_nf.
Qed.
End confinement.

(** The invariant of the handler: open files and directories are confined, and
    every handle in use is the encoding of a number below the counter. *)
Record sftp_inv (base : list Component) (h : SftpHandler) : Prop := {
  inv_files : ∀ k e, open_files h !! k = Some e → confined base e.1;
  inv_dirs : ∀ k e, open_dirs h !! k = Some e → confined base e.1;
  inv_handles : ∀ k, is_Some (open_files h !! k) ∨ is_Some (open_dirs h !! k) →
    ∃ i, 0 ≤ i < next_handle h ∧ k = be_encode 4 i;
  inv_next : 0 ≤ next_handle h
}.

(** Everything a request can do to the file system is one call on a confined
    path. *)
Inductive fs_effect {F H} `{fs_impl : !FileSystem F H} (base : list Component) (fs fs' : F) : Prop :=
| effect_none : fs' = fs → fs_effect base fs fs'
| effect_open p create truncate h :
    confined base p → fs_open_write fs p create truncate = (h, fs') → fs_effect base fs fs'
| effect_write p create truncate h fs1 off h' d ok :
    confined base p → fs_open_write fs p create truncate = (Some h, fs1) →
    fs_seek (F:=F) h off = Some h' → fs_write_all fs1 h' d = (ok, fs') → fs_effect base fs fs'
| effect_mkdir p ok : confined base p → fs_create_dir (H:=H) fs p = (ok, fs') → fs_effect base fs fs'
| effect_rmdir p ok : confined base p → fs_remove_dir (H:=H) fs p = (ok, fs') → fs_effect base fs fs'
| effect_remove p ok : confined base p → fs_remove_file (H:=H) fs p = (ok, fs') → fs_effect base fs fs'.

Section invariant.
Context {F H : Type} `{fs_impl : !FileSystem F H} `{fs_laws : !FileSystemLaws F H}
  `{profile : !BuildProfile}.

Lemma inv_new base r : sftp_inv base (SftpHandler_new r).
Proof.
  split; cbn; try (intros k e Hk; by rewrite lookup_empty in Hk); [|done].
  intros k [[x Hk]|[x Hk]]; by rewrite lookup_empty in Hk.
Qed.

Lemma inv_insert_file base h p f :
  sftp_inv base h → confined base p →
  sftp_inv base (insert_file (be_encode 4 (next_handle h)) (p, f)
    (mkHandler (next_handle h + 1) (open_files h) (open_dirs h) (root h))).
Proof.
  intros [Hf Hd Hh Hn] Hp. split; cbn; [|done| |lia].
  - intros k e [[_ <-]|[_ Hk]]%lookup_insert_Some; [done|by eapply Hf].
  - intros k Hk. destruct (decide (k = be_encode 4 (next_handle h))) as [->|Hne].
    + exists (next_handle h). split; [lia|done].
    + rewrite lookup_insert_ne in Hk by done. destruct (Hh k Hk) as (i & Hi & ->).
      exists i. split; [lia|done].
Qed.

Lemma inv_insert_dir base h p b :
  sftp_inv base h → confined base p →
  sftp_inv base (insert_dir (be_encode 4 (next_handle h)) (p, b)
    (mkHandler (next_handle h + 1) (open_files h) (open_dirs h) (root h))).
Proof.
  intros [Hf Hd Hh Hn] Hp. split; cbn; [done| | |lia].
  - intros k e [[_ <-]|[_ Hk]]%lookup_insert_Some; [done|by eapply Hd].
  - intros k Hk. destruct (decide (k = be_encode 4 (next_handle h))) as [->|Hne].
    + exists (next_handle h). split; [lia|done].
    + rewrite lookup_insert_ne in Hk by done. destruct (Hh k Hk) as (i & Hi & ->).
      exists i. split; [lia|done].
Qed.

Lemma inv_list_dir base h k p b b' :
  sftp_inv base h → open_dirs h !! k = Some (p, b) → sftp_inv base (insert_dir k (p, b') h).
Proof.
  intros [Hf Hd Hh Hn] Hk. split; cbn; [done| | |done].
  - intros j e [[_ <-]|[_ Hj]]%lookup_insert_Some; [exact (Hd _ _ Hk)|by eapply Hd].
  - intros j Hj. apply Hh. destruct (decide (j = k)) as [->|Hne]; [eauto|].
    by rewrite lookup_insert_ne in Hj.
Qed.

Lemma inv_remove base h k : sftp_inv base h → sftp_inv base (remove_handle k h).
Proof.
  intros [Hf Hd Hh Hn]. split; cbn; [| | |done].
  - intros j e [_ Hj]%lookup_delete_Some. by eapply Hf.
  - intros j e [_ Hj]%lookup_delete_Some. by eapply Hd.
  - intros j Hj. apply Hh.
    destruct Hj as [[e [_ Hj]%lookup_delete_Some]|[e [_ Hj]%lookup_delete_Some]]; eauto.
Qed.

(** What every response must satisfy. *)
Definition safe_response (base : list Component) (pkt : SftpPacket) (st : SftpState F)
    (r : SftpPacket) (st' : SftpState F) : Prop :=
  request_id r = request_id pkt ∧ root (handler st') = root (handler st) ∧
  sftp_inv base (handler st') ∧ fs_effect (H:=H) base (disk st) (disk st').

Lemma safe_unchanged base pkt st r :
  request_id r = request_id pkt → sftp_inv base (handler st) → safe_response base pkt st r st.
Proof. intros Hr Hi. split_and!; [done|done|done|by constructor]. Qed.

Lemma write_file_safe base pkt path flags offset d st :
  sftp_inv base (handler st) → confined base path →
  runs (write_file (H:=H) pkt path flags offset d) st (safe_response base pkt st).
Proof.
  intros Hi Hp. unfold write_file. run_handler.
  all: cbn [handler disk] in *; subst; split_and!; try done.
  - by case_match.
  - by eapply effect_write.
  - by eapply effect_open.
  - by eapply effect_open.
Qed.

Lemma path_operation_safe base pkt op failed st :
  root_components (H:=H) (disk st) (handler st) = base → base ≠ [] →
  sftp_inv base (handler st) →
  (∀ p ok d, confined base p → op (disk st) p = (ok, d) → fs_effect (H:=H) base (disk st) d) →
  runs (path_operation (H:=H) pkt op failed) st (safe_response base pkt st).
Proof.
  intros Hb Hne Hi Hop. unfold path_operation. run_handler; try (by apply safe_unchanged).
  match goal with Hr : resolve_path _ _ _ = Ok _ |- _ =>
    apply resolve_path_confined_aux in Hr; rewrite Hb in * end; [|done].
  split_and!; [by case_match|done|done|by eapply Hop].
Qed.

Lemma handle_request_safe_aux base pkt st :
  root_components (H:=H) (disk st) (handler st) = base → base ≠ [] →
  sftp_inv base (handler st) → next_handle (handler st) + 1 < U32 →
  runs (handle_request (H:=H) pkt) st (safe_response base pkt st).
Proof.
  intros Hb Hne Hi Hn.
  assert (Hres : ∀ req p, resolve_path (H:=H) (disk st) (handler st) req = Ok p → confined base p).
  { intros req p Hr. rewrite <- Hb. apply (resolve_path_confined_aux _ _ req); [by rewrite Hb|done]. }
  unfold handle_request. repeat case_decide.
  - unfold handle_realpath. run_handler; by apply safe_unchanged.
  - unfold handle_stat. run_handler; try by apply safe_unchanged. apply safe_unchanged; [by case_match|done].
  - unfold handle_opendir. run_handler; try by apply safe_unchanged.
    split_and!; try done; [|by constructor]. apply inv_insert_dir; [done|by eapply Hres].
  - unfold handle_readdir. run_handler; try by apply safe_unchanged.
    split_and!; [by case_match|done| |by constructor]. eapply inv_list_dir; [done|by subst].
  - unfold handle_close. run_handler; try by apply safe_unchanged.
    split_and!; try done; [by apply inv_remove|by constructor].
  - unfold handle_open. run_handler; try by apply safe_unchanged.
    split_and!; try done; [|by constructor]. apply inv_insert_file; [done|by eapply Hres].
  - unfold handle_read. run_handler; try by apply safe_unchanged.
    apply safe_unchanged; [|done]. unfold read_file. by repeat case_match.
  - unfold handle_write. run_handler; try by apply safe_unchanged.
    apply write_file_safe; [done|].
    match goal with E : open_files _ !! _ = Some _ |- _ => exact (inv_files _ _ Hi _ _ E) end.
  - apply path_operation_safe; [done..|]. intros; by eapply effect_mkdir.
  - apply path_operation_safe; [done..|]. intros; by eapply effect_rmdir.
  - apply path_operation_safe; [done..|]. intros; by eapply effect_remove.
  - run_handler. by apply safe_unchanged.
Qed.
End invariant.

(** ** Requests, as a client sends them *)

Definition open_packet (id : Z) (path : bytes) (flags : Z) : SftpPacket :=
  mkSftpPacket SSH_FXP_OPEN id (enc_string path ++ be_encode 4 flags ++ be_encode 4 0).
Definition close_packet (id : Z) (handle : bytes) : SftpPacket :=
  mkSftpPacket SSH_FXP_CLOSE id (enc_string handle).
Definition readdir_packet (id : Z) (handle : bytes) : SftpPacket :=
  mkSftpPacket SSH_FXP_READDIR id (enc_string handle).
Definition read_packet (id : Z) (handle : bytes) (offset length : Z) : SftpPacket :=
  mkSftpPacket SSH_FXP_READ id (enc_string handle ++ be_encode 8 offset ++ be_encode 4 length).
Definition write_packet (id : Z) (handle : bytes) (offset : Z) (d : bytes) : SftpPacket :=
  mkSftpPacket SSH_FXP_WRITE id (enc_string handle ++ be_encode 8 offset ++ enc_string d).

Section requests.
Context {F H : Type} `{fs_impl : !FileSystem F H} `{profile : !BuildProfile}.

Lemma read_u64_encode z r : is_u64 z → read_u64 (be_encode 8 z ++ r) = Ok (z, r).
Proof. intros. unfold read_u64. by rewrite cursor_read_be_encode by (by rewrite u64_256). Qed.

Lemma open_packet_run id path flags (st : SftpState F) :
  wire_utf8 path → is_u32 flags →
  handle_request (H:=H) (open_packet id path flags) st =
  resolved (H:=H) path (build_sftp_status id SSH_FX_NO_SUCH_FILE (bs "Path error"))
    (λ p, handle ← alloc_handle;
          _ ← set_handler (insert_file handle (p, flags));
          mret (build_sftp_handle id handle)) st.
Proof.
  intros Hp Hf. change (handle_request (open_packet id path flags) st)
    with (handle_open (H:=H) (open_packet id path flags) st).
  unfold handle_open, open_packet. cbn [data request_id].
  rewrite read_utf8_encode by done. cbn [or_return]. by rewrite read_u32_encode.
Qed.

Lemma read_packet_run id handle offset length (st : SftpState F) :
  wire_string handle → is_u64 offset → is_u32 length →
  handle_request (H:=H) (read_packet id handle offset length) st =
  (Ok match open_files (handler st) !! handle with
      | None => build_sftp_status id SSH_FX_FAILURE (bs "Invalid handle")
      | Some (path, _) =>
          read_file (H:=H) (read_packet id handle offset length) (disk st) path offset length
      end, st).
Proof.
  intros Hh Ho Hl.
  change (handle_request (read_packet id handle offset length) st)
    with (handle_read (H:=H) (read_packet id handle offset length) st).
  unfold handle_read. cbn [data request_id read_packet].
  rewrite read_string_encode by done. cbn [or_return]. rewrite read_u64_encode by done.
  cbn [or_return]. rewrite read_u32_last by done. cbn [or_return].
  erewrite io_bind_run by reflexivity.
  by destruct (open_files (handler st) !! handle) as [[p f]|].
Qed.

Lemma write_packet_run id handle offset d (st : SftpState F) :
  wire_string handle → is_u64 offset → wire_string d →
  handle_request (H:=H) (write_packet id handle offset d) st =
  match open_files (handler st) !! handle with
  | None => (Ok (build_sftp_status id SSH_FX_FAILURE (bs "Invalid handle")), st)
  | Some (path, flags) =>
      if has_flag flags SSH_FXF_WRITE
      then write_file (H:=H) (write_packet id handle offset d) path flags offset d st
      else (Ok (build_sftp_status id SSH_FX_PERMISSION_DENIED (bs "Not opened for writing")), st)
  end.
Proof.
  intros Hh Ho Hd.
  change (handle_request (write_packet id handle offset d) st)
    with (handle_write (H:=H) (write_packet id handle offset d) st).
  unfold handle_write. cbn [data request_id write_packet].
  rewrite read_string_encode by done. cbn [or_return]. rewrite read_u64_encode by done.
  cbn [or_return]. rewrite read_string_last by done. cbn [or_return].
  erewrite io_bind_run by reflexivity.
  destruct (open_files (handler st) !! handle) as [[p f]|]; [|done]. by destruct has_flag.
Qed.

Lemma readdir_packet_run id handle (st : SftpState F) :
  wire_string handle →
  handle_request (H:=H) (readdir_packet id handle) st =
  match open_dirs (handler st) !! handle with
  | None => (Ok (build_sftp_status id SSH_FX_FAILURE (bs "Invalid handle")), st)
  | Some (path, true) => (Ok (build_sftp_status id SSH_FX_EOF (bs "End of directory")), st)
  | Some (path, false) =>
      (Ok match fs_read_dir (H:=H) (disk st) path with
          | Some items => build_sftp_name id (dir_entries items)
          | None => build_sftp_status id SSH_FX_PERMISSION_DENIED (bs "Cannot read dir")
          end, mkSftp (insert_dir handle (path, true) (handler st)) (disk st))
  end.
Proof.
  intros Hh. change (handle_request (readdir_packet id handle) st)
    with (handle_readdir (H:=H) (readdir_packet id handle) st).
  unfold handle_readdir. cbn [data request_id readdir_packet].
  rewrite read_string_last by done. cbn [or_return]. erewrite io_bind_run by reflexivity.
  by destruct (open_dirs (handler st) !! handle) as [[p []]|].
Qed.

Lemma close_packet_run id handle (st : SftpState F) :
  wire_string handle →
  handle_request (H:=H) (close_packet id handle) st =
  (Ok (build_sftp_status id SSH_FX_OK (bs "OK")), mkSftp (remove_handle handle (handler st)) (disk st)).
Proof.
  intros Hh. change (handle_request (close_packet id handle) st)
    with (handle_close (close_packet id handle) st).
  unfold handle_close. cbn [data request_id close_packet]. by rewrite read_string_last.
Qed.
End requests.

Lemma be_encode_4_inj i j : is_u32 i → is_u32 j → be_encode 4 i = be_encode 4 j → i = j.
Proof.
  intros Hi Hj E. apply (f_equal be_decode) in E.
  by rewrite !be_decode_encode_small in E by (by rewrite u32_256).
Qed.

(** Numbers from the counter on are not in use as handles. *)
Lemma inv_fresh base h i :
  sftp_inv base h → is_u32 i → next_handle h ≤ i →
  open_files h !! be_encode 4 i = None ∧ open_dirs h !! be_encode 4 i = None.
Proof.
  intros Hi Hu Hn.
  assert (Hf : ¬ (is_Some (open_files h !! be_encode 4 i) ∨ is_Some (open_dirs h !! be_encode 4 i))).
  { intros (j & Hj & E)%(inv_handles _ _ Hi). unfold is_u32 in *. apply be_encode_4_inj in E; unfold is_u32; lia. }
  split; apply eq_None_not_Some; tauto.
Qed.

(** ** Properties of the SFTP server *)

(** C12.  The handler is safe on every request: in a state satisfying the
    invariant, any packet whatsoever is answered without panic by exactly one
    response that carries the request's id; the invariant (open paths below the
    root, handles numbered by the counter) is preserved, and the file system is
    either unchanged or changed by one call on a path below the root. *)
Theorem handle_request_safe {F H} `{fs_impl : !FileSystem F H, fs_laws : !FileSystemLaws F H}
    `{profile : !BuildProfile} (base : list Component) (pkt : SftpPacket) (st : SftpState F) :
  root_components (H:=H) (disk st) (handler st) = base → base ≠ [] →
  sftp_inv base (handler st) → next_handle (handler st) + 1 < U32 →
  ∃ r st', handle_request (H:=H) pkt st = (Ok r, st') ∧
    request_id r = request_id pkt ∧ root (handler st') = root (handler st) ∧
    sftp_inv base (handler st') ∧ fs_effect (H:=H) base (disk st) (disk st').
Proof. apply handle_request_safe_aux. Qed.

(** A file system with a served directory, a file in it, and a link out of it. *)
Definition demo_fs : mem_fs :=
  list_to_map [([bs "srv"], DirNode); ([bs "srv"; bs "a.txt"], FileNode (bs "hello"));
               ([bs "etc"], DirNode); ([bs "srv"; bs "link"], LinkNode (bs "/etc"))].

Definition demo_sftp : SftpState mem_fs := mkSftp (SftpHandler_new (bs "/srv")) demo_fs.

Lemma handle_request_safe_witness :
  ∃ r st', @handle_request _ _ mem_filesystem true (open_packet 7 (bs "a.txt") 1) demo_sftp = (Ok r, st') ∧
    request_id r = 7 ∧ root (handler st') = bs "/srv" ∧
    sftp_inv [RootDir; Normal (bs "srv")] (handler st') ∧
    fs_effect (H:=mem_handle) [RootDir; Normal (bs "srv")] demo_fs (disk st').
Proof.
  apply (@handle_request_safe _ _ mem_filesystem mem_filesystem_laws true
           [RootDir; Normal (bs "srv")] (open_packet 7 (bs "a.txt") 1) demo_sftp).
  - vm_compute. reflexivity.
  - done.
  - apply inv_new.
  - reflexivity.
Defined.

(** C13.  Path resolution confines: whatever the client asks for, a path that
    [resolve_path] accepts is the (canonicalised or normalised) root followed by
    ordinary names, with no [..] left in it. *)
Theorem resolve_path_confined {F H} `{fs_impl : !FileSystem F H, fs_laws : !FileSystemLaws F H}
    (fs : F) (h : SftpHandler) (requested p : bytes) :
  root_components (H:=H) fs h ≠ [] → resolve_path (H:=H) fs h requested = Ok p →
  confined (root_components (H:=H) fs h) p.
Proof. apply resolve_path_confined_aux. Qed.

Lemma resolve_path_confined_witness :
  confined (root_components (H:=mem_handle) demo_fs (handler demo_sftp)) (bs "/srv/new").
Proof.
  apply (resolve_path_confined (H:=mem_handle) demo_fs (handler demo_sftp) (bs "/../srv/x/../new")).
  - vm_compute. done.
  - vm_compute. reflexivity.
Defined.

(** Path resolution accepts what it should: below an absolute root given in
    normal form, a new file named by ordinary path components resolves to the root
    followed by those components, with or without a leading slash in the request. *)
Theorem resolve_path_accepts {F H} `{fs_impl : !FileSystem F H} (fs : F) (h : SftpHandler)
    (rs names : list bytes) :
  Forall valid_name rs → Forall valid_name names → rs ≠ [] → names ≠ [] →
  root h = path_of rs →
  default (root h) (fs_canonicalize (H:=H) fs (root h)) = root h →
  fs_canonicalize (H:=H) fs (path_of (rs ++ names)) = None →
  resolve_path (H:=H) fs h (join_str slash names) = Ok (path_of (rs ++ names)) ∧
  resolve_path (H:=H) fs h (slash :: join_str slash names) = Ok (path_of (rs ++ names)).
Proof.
  intros Hrs Hn Hrne Hnne Hr Hc Hnew.
  assert (Hnf : ∀ l, Forall valid_name l → normalize_path (path_of l) = path_of l).
  { intros l Hl. unfold normalize_path, path_of. rewrite components_root_names by done. cbn.
    rewrite (normalize_inner_names l [RootDir]). cbn. by apply collect_root_names. }
  destruct names as [|n names]; [done|]. destruct rs as [|r rs]; [done|].
  pose proof Hn as [(Hne & _ & _ & Hsl) _]%Forall_cons.
  assert (Hjoin : path_join (root h) (join_str slash (n :: names)) = path_of ((r :: rs) ++ n :: names))
    by (rewrite Hr; by apply path_join_names).
  assert (Hroot : default (normalize_path (root h)) (fs_canonicalize (H:=H) fs (root h)) = root h).
  { destruct (fs_canonicalize fs (root h)); cbn in *; [done|]. rewrite Hr. by apply Hnf. }
  assert (Hpre : path_starts_with (path_of ((r :: rs) ++ n :: names)) (root h) = true).
  { apply path_starts_with_iff. exists (Normal <$> n :: names). rewrite Hr. unfold path_of.
    rewrite !components_root_names by (try apply Forall_app; done). by rewrite fmap_app. }
  unfold resolve_path. rewrite Hroot. split.
  - rewrite join_str_concat. destruct n as [|b n]; [done|]. cbn [app]. rewrite decide_False by set_solver.
    change (b :: n ++ concat (cons slash <$> names)) with ((b :: n) ++ concat (cons slash <$> names)).
    rewrite <- join_str_concat, Hjoin, Hnew, Hnf, Hpre by (apply Forall_app; done). done.
  - rewrite decide_True by done. rewrite Hjoin, Hnew, Hnf, Hpre by (apply Forall_app; done). done.
Qed.

Lemma resolve_path_accepts_witness :
  resolve_path (H:=mem_handle) demo_fs (handler demo_sftp) (bs "new/b.txt") = Ok (bs "/srv/new/b.txt") ∧
  resolve_path (H:=mem_handle) demo_fs (handler demo_sftp) (bs "/new/b.txt") = Ok (bs "/srv/new/b.txt").
Proof.
  apply (resolve_path_accepts (H:=mem_handle) demo_fs (handler demo_sftp) [bs "srv"]
           [bs "new"; bs "b.txt"]); try by_eval; try done; by vm_compute.
Defined.

(** Life of a file handle: OPEN of a resolvable path answers a handle that no
    open file or directory has, records the resolved path and the flags under it
    and nothing else, and does not touch the file system; after CLOSE of that
    handle every READ, WRITE or READDIR on it is refused without any effect. *)
Theorem handle_lifecycle {F H} `{fs_impl : !FileSystem F H} `{profile : !BuildProfile}
    (base : list Component) (id id' fl off n : Z) (path p d : bytes) (st : SftpState F) :
  sftp_inv base (handler st) → next_handle (handler st) + 1 < U32 →
  wire_utf8 path → is_u32 fl → is_u64 off → is_u32 n → wire_string d →
  resolve_path (H:=H) (disk st) (handler st) path = Ok p →
  let hd := be_encode 4 (next_handle (handler st)) in
  open_files (handler st) !! hd = None ∧ open_dirs (handler st) !! hd = None ∧
  ∃ st1, handle_request (H:=H) (open_packet id path fl) st = (Ok (build_sftp_handle id hd), st1) ∧
    open_files (handler st1) = <[hd := (p, fl)]> (open_files (handler st)) ∧
    open_dirs (handler st1) = open_dirs (handler st) ∧ disk st1 = disk st ∧
  ∃ st2, handle_request (H:=H) (close_packet id' hd) st1 =
           (Ok (build_sftp_status id' SSH_FX_OK (bs "OK")), st2) ∧
    ∀ i, Forall (λ pkt, handle_request (H:=H) pkt st2 =
                          (Ok (build_sftp_status i SSH_FX_FAILURE (bs "Invalid handle")), st2))
           [read_packet i hd off n; write_packet i hd off d; readdir_packet i hd].
Proof.
  intros Hi Hn Hp Hfl Hoff Hlen Hd Hr hd.
  assert (wire_string hd) as Hw.
  { unfold wire_string, hd. rewrite len_be_encode. unfold MAX_PACKET_SIZE. lia. }
  destruct (inv_fresh base (handler st) (next_handle (handler st)) Hi) as [Hff Hfd];
    [pose proof (inv_next _ _ Hi); unfold is_u32; lia|lia|]. split; [done|]. split; [done|].
  eexists. split.
  { rewrite open_packet_run by done. unfold resolved. rewrite Hr. cbn [or_return].
    erewrite io_bind_run by (by apply alloc_handle_run). done. }
  cbn [handler disk open_files open_dirs insert_file]. split_and!; [done..|].
  eexists. split; [by apply close_packet_run|]. intros i.
  rewrite !Forall_cons. split_and!; [..|done].
  - rewrite read_packet_run by done. cbn. by rewrite lookup_delete_eq.
  - rewrite write_packet_run by done. cbn. by rewrite lookup_delete_eq.
  - rewrite readdir_packet_run by done. cbn. by rewrite lookup_delete_eq.
Qed.

Lemma handle_lifecycle_witness :
  let hd := be_encode 4 0 in
  ∃ st1, @handle_request _ _ mem_filesystem true (open_packet 7 (bs "a.txt") 1) demo_sftp =
      (Ok (build_sftp_handle 7 hd), st1) ∧
    ∃ st2, @handle_request _ _ mem_filesystem true (close_packet 8 hd) st1 =
           (Ok (build_sftp_status 8 SSH_FX_OK (bs "OK")), st2).
Proof.
  destruct (@handle_lifecycle _ _ mem_filesystem true [RootDir; Normal (bs "srv")] 7 8 1 0 9
    (bs "a.txt") (bs "/srv/a.txt") [] demo_sftp) as (_ & _ & st1 & E1 & _ & _ & _ & st2 & E2 & _);
    [apply inv_new|reflexivity|by_eval|by_eval|by_eval|by_eval|by_eval|vm_compute; reflexivity|].
  exists st1. split; [exact E1|]. exists st2. exact E2.
Defined.

(** A directory is listed once: the first READDIR on an open directory answers
    what [read_dir] finds (or a refusal), and every later one answers end of file
    without changing anything. *)
Theorem readdir_once {F H} `{fs_impl : !FileSystem F H} `{profile : !BuildProfile}
    (id id' : Z) (hd path : bytes) (st : SftpState F) :
  wire_string hd → open_dirs (handler st) !! hd = Some (path, false) →
  ∃ r st1, handle_request (H:=H) (readdir_packet id hd) st = (Ok r, st1) ∧
    r = match fs_read_dir (H:=H) (disk st) path with
        | Some items => build_sftp_name id (dir_entries items)
        | None => build_sftp_status id SSH_FX_PERMISSION_DENIED (bs "Cannot read dir")
        end ∧
    handle_request (H:=H) (readdir_packet id' hd) st1 =
      (Ok (build_sftp_status id' SSH_FX_EOF (bs "End of directory")), st1).
Proof.
  intros Hw Hd. eexists _, _. split; [rewrite readdir_packet_run, Hd by done; reflexivity|].
  split; [done|]. rewrite readdir_packet_run by done. cbn. by rewrite lookup_insert_eq.
Qed.

Lemma readdir_once_witness :
  let st := mkSftp (insert_dir [x01] (bs "/srv", false) (SftpHandler_new (bs "/srv"))) demo_fs in
  ∃ r st1, @handle_request _ _ mem_filesystem true (readdir_packet 3 [x01]) st = (Ok r, st1) ∧
    r = match fs_read_dir (H:=mem_handle) demo_fs (bs "/srv") with
        | Some items => build_sftp_name 3 (dir_entries items)
        | None => build_sftp_status 3 SSH_FX_PERMISSION_DENIED (bs "Cannot read dir")
        end ∧
    @handle_request _ _ mem_filesystem true (readdir_packet 4 [x01]) st1 =
      (Ok (build_sftp_status 4 SSH_FX_EOF (bs "End of directory")), st1).
Proof.
  intros st. apply (@readdir_once _ _ mem_filesystem true 3 4 [x01] (bs "/srv") st);
    [by_eval|reflexivity].
Defined.

(** What a READ on an open handle answers. *)
Lemma read_packet_answer {F H} `{fs_impl : !FileSystem F H, fs_laws : !FileSystemLaws F H}
    `{profile : !BuildProfile} (id off n : Z) (hd p : bytes) (fl : Z) (st : SftpState F) :
  wire_string hd → is_u64 off → is_u32 n → open_files (handler st) !! hd = Some (p, fl) →
  ∃ r, handle_request (H:=H) (read_packet id hd off n) st = (Ok r, st) ∧
  ((∃ code msg, r = build_sftp_status id code msg ∧ (code = SSH_FX_FAILURE ∨ code = SSH_FX_NO_SUCH_FILE)) ∨
   ∃ c, fs_content (disk st) p = Some c ∧
     ((r = build_sftp_status id SSH_FX_EOF (bs "EOF") ∧ (n = 0 ∨ len c ≤ off)) ∨
      (∃ got, r = build_sftp_data id got ∧ 1 ≤ len got ≤ Z.min n 32768 ∧
         got = take (length got) (drop (Z.to_nat off) c)))).
Proof.
  intros Hw Ho Hn Hf. eexists. split; [rewrite read_packet_run, Hf by done; reflexivity|].
  unfold read_file. destruct (fs_open (disk st) p) as [h|] eqn:Eo; [|left; eauto 10].
  destruct (fs_seek h off) as [h'|] eqn:Es; [|left; eauto 10].
  destruct (fs_read (disk st) h' (Z.min n 32768)) as [got|] eqn:Er; [|left; eauto 10].
  right. unfold is_u64, is_u32 in *.
  destruct (fs_read_content (disk st) p h off h' (Z.min n 32768) got) as (c & Hc & Eg & Hl & He);
    [lia|lia|done|done|done|]. exists c. split; [done|].
  destruct got as [|b got].
  - left. split; [done|]. destruct (He eq_refl); [left; lia|by right].
  - right. exists (b :: got). split; [done|]. split; [|done]. len_lia.
Qed.

(** C31.  READ answers the file's bytes: on an open handle the response is an error
    status, or end of file, and then nothing was asked for or the offset is at or
    past the end, or DATA with between 1 and min(length, 32768) bytes which are
    the file's contents at the offset; the state never changes. *)
Theorem read_returns_contents {F H} `{fs_impl : !FileSystem F H, fs_laws : !FileSystemLaws F H}
    `{profile : !BuildProfile} (id off n : Z) (hd p : bytes) (fl : Z) (st : SftpState F) :
  wire_string hd → is_u64 off → is_u32 n → open_files (handler st) !! hd = Some (p, fl) →
  ∃ r, handle_request (H:=H) (read_packet id hd off n) st = (Ok r, st) ∧
  ((∃ code msg, r = build_sftp_status id code msg ∧ (code = SSH_FX_FAILURE ∨ code = SSH_FX_NO_SUCH_FILE)) ∨
   ∃ c, fs_content (disk st) p = Some c ∧
     ((r = build_sftp_status id SSH_FX_EOF (bs "EOF") ∧ (n = 0 ∨ len c ≤ off)) ∨
      (∃ got, r = build_sftp_data id got ∧ 1 ≤ len got ≤ Z.min n 32768 ∧
         got = take (length got) (drop (Z.to_nat off) c)))).
Proof. apply read_packet_answer. Qed.

Definition demo_reader : SftpState mem_fs :=
  mkSftp (insert_file [x01] (bs "/srv/a.txt", 1) (SftpHandler_new (bs "/srv"))) demo_fs.

Lemma read_returns_contents_witness :
  ∃ r, @handle_request _ _ mem_filesystem true (read_packet 3 [x01] 1 100) demo_reader = (Ok r, demo_reader) ∧
  ((∃ code msg, r = build_sftp_status 3 code msg ∧ (code = SSH_FX_FAILURE ∨ code = SSH_FX_NO_SUCH_FILE)) ∨
   ∃ c, fs_content (H:=mem_handle) demo_fs (bs "/srv/a.txt") = Some c ∧
     ((r = build_sftp_status 3 SSH_FX_EOF (bs "EOF") ∧ (100 = 0 ∨ len c ≤ 1)) ∨
      (∃ got, r = build_sftp_data 3 got ∧ 1 ≤ len got ≤ Z.min 100 32768 ∧
         got = take (length got) (drop (Z.to_nat 1) c)))).
Proof.
  apply (@read_returns_contents _ _ mem_filesystem mem_filesystem_laws true 3 1 100 [x01]
           (bs "/srv/a.txt") 1 demo_reader); by_eval.
Defined.

(** ** Uploads *)

Lemma status_code_inj id id' c c' m m' :
  is_u32 c → is_u32 c' → build_sftp_status id c m = build_sftp_status id' c' m' → c = c'.
Proof.
  intros Hc Hc' E. apply (f_equal data) in E. unfold build_sftp_status in E. cbn [data] in E.
  autorewrite with wire in E. apply app_inj_1 in E as [E _]; [by apply be_encode_4_inj|].
  by rewrite !length_be_encode.
Qed.

Section upload.
Context {F H : Type} `{fs_impl : !FileSystem F H} `{profile : !BuildProfile}.

(** A client writing chunks one after the other, collecting the responses. *)
Fixpoint upload (id : Z) (hd : bytes) (off : Z) (chunks : list bytes)
    : io SshError (SftpState F) (list SftpPacket) :=
  match chunks with
  | [] => mret []
  | d :: ds =>
      r ← handle_request (H:=H) (write_packet id hd off d);
      rs ← upload id hd (off + len d) ds;
      mret (r :: rs)
  end.

Lemma on_disk_run {A} (f : F → A * F) (st : SftpState F) a d :
  f (disk st) = (a, d) → on_disk f st = (Ok a, mkSftp (handler st) d).
Proof. intros E. unfold on_disk, step. by rewrite E. Qed.

Lemma write_file_run pkt p fl off d (st : SftpState F) :
  ∃ r st', write_file (H:=H) pkt p fl off d st = (Ok r, st') ∧ handler st' = handler st ∧
    (r = status pkt SSH_FX_OK "OK" →
     ∃ h fs1 h', fs_open_write (disk st) p (has_flag fl SSH_FXF_CREAT) (has_flag fl SSH_FXF_TRUNC) =
                   (Some h, fs1) ∧
       fs_seek (F:=F) h off = Some h' ∧ fs_write_all fs1 h' d = (true, disk st')).
Proof.
  assert (Hne : ∀ c m, is_u32 c → c ≠ SSH_FX_OK → status pkt c m ≠ status pkt SSH_FX_OK "OK").
  { intros c m Hc Hn E. by apply status_code_inj in E. }
  unfold write_file.
  destruct (fs_open_write (disk st) p (has_flag fl SSH_FXF_CREAT) (has_flag fl SSH_FXF_TRUNC))
    as [[h|] fs1] eqn:Eo;
    (erewrite io_bind_run by (apply on_disk_run; exact Eo)); cbv beta iota.
  - destruct (fs_seek h off) as [h'|] eqn:Es.
    + destruct (fs_write_all fs1 h' d) as [ok fs2] eqn:Ew.
      erewrite io_bind_run by (apply on_disk_run; exact Ew).
      eexists _, _. split; [reflexivity|]. split; [done|]. cbn [disk]. destruct ok; [by eauto 10|].
      intros E. by apply Hne in E.
    + eexists _, _. split; [reflexivity|]. split; [done|]. intros E. by apply Hne in E.
  - eexists _, _. split; [reflexivity|]. split; [done|]. intros E. by apply Hne in E.
Qed.

(** One chunk. *)
Lemma upload_step `{fs_laws : !FileSystemLaws F H} id hd p fl off d ds (st : SftpState F) :
  wire_string hd → open_files (handler st) !! hd = Some (p, fl) → has_flag fl SSH_FXF_WRITE = true →
  wire_string d → is_u64 off →
  ∃ r st1, handler st1 = handler st ∧
    (r = build_sftp_status id SSH_FX_OK (bs "OK") →
     fs_content (disk st1) p =
       Some (splice (if has_flag fl SSH_FXF_TRUNC then [] else default [] (fs_content (disk st) p)) off d)) ∧
    ∀ rs st', upload id hd (off + len d) ds st1 = (Ok rs, st') →
              upload id hd off (d :: ds) st = (Ok (r :: rs), st').
Proof.
  intros Hw Hf Hwr Hd Ho.
  destruct (write_file_run (write_packet id hd off d) p fl off d st) as (r & st1 & E1 & Hh1 & Hok1).
  exists r, st1. split_and!; [done| |].
  - intros ->. destruct (Hok1 eq_refl) as (h & fs1 & h' & Eo & Es & Ew).
    by apply (fs_write_content _ _ _ _ _ _ _ _ _ _ (proj1 Ho) Eo Es Ew).
  - intros rs st' E2. cbn [upload]. erewrite io_bind_run; [erewrite io_bind_run by exact E2; reflexivity|].
    rewrite write_packet_run, Hf, Hwr by done. exact E1.
Qed.

Lemma upload_from `{fs_laws : !FileSystemLaws F H} id hd p fl off chunks (st : SftpState F) :
  wire_string hd → open_files (handler st) !! hd = Some (p, fl) →
  has_flag fl SSH_FXF_WRITE = true → has_flag fl SSH_FXF_TRUNC = false →
  Forall wire_string chunks → 0 ≤ off → off + len (concat chunks) < U64 →
  ∃ rs st', upload id hd off chunks st = (Ok rs, st') ∧
    handler st' = handler st ∧ length rs = length chunks ∧
    (Forall (λ r, r = build_sftp_status id SSH_FX_OK (bs "OK")) rs →
     chunks = [] ∨ fs_content (disk st') p =
       Some (splice (default [] (fs_content (disk st) p)) off (concat chunks))).
Proof.
  intros Hw Hf Hwr Htr. revert off st Hf.
  induction chunks as [|d ds IH]; intros off st Hf Hc Ho Hl; [eexists _, _; eauto|].
  apply Forall_cons in Hc as [Hd Hds]. cbn [concat] in Hl. rewrite len_app in Hl.
  pose proof (len_nonneg d). pose proof (len_nonneg (concat ds)).
  destruct (upload_step id hd p fl off d ds st) as (r & st1 & Hh1 & Hok1 & Hrun);
    [done..|unfold is_u64; lia|]. rewrite Htr in Hok1.
  destruct (IH (off + len d) st1) as (rs & st' & E2 & Hh2 & Hlen & Hok2); [congruence|done|lia|lia|].
  exists (r :: rs), st'. split_and!; [by apply Hrun|congruence|cbn; by f_equal|].
  intros [Hr Hrs]%Forall_cons. right. specialize (Hok1 Hr). cbn [concat].
  destruct (Hok2 Hrs) as [-> | ->].
  - cbn in E2. injection E2 as <- <-. by rewrite app_nil_r.
  - rewrite Hok1. cbn. by rewrite splice_app.
Qed.

(** With TRUNC every chunk but the last is lost. *)
Lemma upload_trunc_from `{fs_laws : !FileSystemLaws F H} id hd p fl off chunks d (st : SftpState F) :
  wire_string hd → open_files (handler st) !! hd = Some (p, fl) →
  has_flag fl SSH_FXF_WRITE = true → has_flag fl SSH_FXF_TRUNC = true →
  Forall wire_string (chunks ++ [d]) → 0 ≤ off → off + len (concat chunks) < U64 →
  ∃ rs st', upload id hd off (chunks ++ [d]) st = (Ok rs, st') ∧ handler st' = handler st ∧
    (Forall (λ r, r = build_sftp_status id SSH_FX_OK (bs "OK")) rs →
     fs_content (disk st') p = Some (splice [] (off + len (concat chunks)) d)).
Proof.
  intros Hw Hf Hwr Htr. revert off st Hf.
  induction chunks as [|d0 ds IH]; intros off st Hf Hc Ho Hl.
  - apply Forall_cons in Hc as [Hd _]. cbn [concat app] in *. change (len []) with 0 in *.
    destruct (upload_step id hd p fl off d [] st) as (r & st1 & Hh1 & Hok1 & Hrun);
      [done..|unfold is_u64; lia|]. rewrite Htr in Hok1.
    exists [r], st1. split_and!; [by apply Hrun|done|]. intros [Hr _]%Forall_cons.
    rewrite Z.add_0_r. by apply Hok1.
  - cbn [app] in Hc. apply Forall_cons in Hc as [Hd0 Hds]. cbn [concat] in Hl. rewrite len_app in Hl.
    pose proof (len_nonneg d0). pose proof (len_nonneg (concat ds)).
    destruct (upload_step id hd p fl off d0 (ds ++ [d]) st) as (r & st1 & Hh1 & _ & Hrun);
      [done..|unfold is_u64; lia|].
    destruct (IH (off + len d0) st1) as (rs & st' & E2 & Hh2 & Hok2); [congruence|done|lia|lia|].
    exists (r :: rs), st'. split_and!; [by apply Hrun|congruence|].
    intros [_ Hrs]%Forall_cons. cbn [concat]. rewrite len_app, Z.add_assoc. by apply Hok2.
Qed.
End upload.

(** Uploads arrive: chunks written one after the other through a handle opened
    for writing without TRUNC are all answered, and when every answer is OK the
    file holds exactly the concatenation of the chunks at the starting offset,
    over whatever it held before. *)
Theorem upload_contents {F H} `{fs_impl : !FileSystem F H, fs_laws : !FileSystemLaws F H}
    `{profile : !BuildProfile} (id : Z) (hd p : bytes) (fl off : Z) (chunk : bytes)
    (chunks : list bytes) (st : SftpState F) :
  wire_string hd → open_files (handler st) !! hd = Some (p, fl) →
  has_flag fl SSH_FXF_WRITE = true → has_flag fl SSH_FXF_TRUNC = false →
  Forall wire_string (chunk :: chunks) → 0 ≤ off → off + len (concat (chunk :: chunks)) < U64 →
  ∃ rs st', upload (H:=H) id hd off (chunk :: chunks) st = (Ok rs, st') ∧
    handler st' = handler st ∧ length rs = S (length chunks) ∧
    (Forall (λ r, r = build_sftp_status id SSH_FX_OK (bs "OK")) rs →
     fs_content (disk st') p =
       Some (splice (default [] (fs_content (disk st) p)) off (concat (chunk :: chunks)))).
Proof.
  intros Hw Hf Hwr Htr Hc Ho Hl. pose proof Hc as [_ Hne]%Forall_cons.
  destruct (upload_from (H:=H) id hd p fl off (chunk :: chunks) st) as (rs & st' & E & Hh & Hlen & Hok);
    [done..|]. exists rs, st'. split_and!; [done..|]. intros Hrs. by destruct (Hok Hrs).
Qed.

Definition demo_writer (fl : Z) : SftpState mem_fs :=
  mkSftp (insert_file [x01] (bs "/srv/b.txt", fl) (SftpHandler_new (bs "/srv"))) demo_fs.

Lemma upload_contents_witness :
  ∃ rs st', @upload _ _ mem_filesystem true 3 [x01] 0 [bs "hello "; bs "world"] (demo_writer 10) =
      (Ok rs, st') ∧
    handler st' = handler (demo_writer 10) ∧ length rs = 2%nat ∧
    (Forall (λ r, r = build_sftp_status 3 SSH_FX_OK (bs "OK")) rs →
     fs_content (H:=mem_handle) (disk st') (bs "/srv/b.txt") =
       Some (splice (default [] (fs_content (H:=mem_handle) demo_fs (bs "/srv/b.txt"))) 0
               (concat [bs "hello "; bs "world"]))).
Proof.
  apply (@upload_contents _ _ mem_filesystem mem_filesystem_laws true 3 [x01] (bs "/srv/b.txt") 10 0
           (bs "hello ") [bs "world"] (demo_writer 10)); by_eval || reflexivity || done.
Defined.

(** A handle opened without the WRITE flag is read only: every well-formed
    WRITE on it is answered permission denied and changes neither the handler nor
    the file system. *)
Theorem write_needs_flag {F H} `{fs_impl : !FileSystem F H} `{profile : !BuildProfile}
    (id off : Z) (hd p d : bytes) (fl : Z) (st : SftpState F) :
  wire_string hd → is_u64 off → wire_string d →
  open_files (handler st) !! hd = Some (p, fl) → has_flag fl SSH_FXF_WRITE = false →
  handle_request (H:=H) (write_packet id hd off d) st =
    (Ok (build_sftp_status id SSH_FX_PERMISSION_DENIED (bs "Not opened for writing")), st).
Proof. intros Hw Ho Hd Hf Hfl. by rewrite write_packet_run, Hf, Hfl. Qed.

Lemma write_needs_flag_witness :
  @handle_request _ _ mem_filesystem true (write_packet 3 [x01] 0 (bs "x")) demo_reader =
    (Ok (build_sftp_status 3 SSH_FX_PERMISSION_DENIED (bs "Not opened for writing")), demo_reader).
Proof.
  apply (@write_needs_flag _ _ mem_filesystem true 3 0 [x01] (bs "/srv/a.txt") (bs "x") 1 demo_reader);
    by_eval || reflexivity.
Defined.

(** C36.  With the TRUNC flag every WRITE truncates the file again: a client that
    uploads in chunks through a handle opened with TRUNC and gets OK for every chunk
    ends up with a file that holds zero bytes in place of all chunks but the
    last. *)
Theorem trunc_upload_corrupts {F H} `{fs_impl : !FileSystem F H, fs_laws : !FileSystemLaws F H}
    `{profile : !BuildProfile} (id : Z) (hd p : bytes) (fl off : Z) (chunks : list bytes)
    (chunk : bytes) (st : SftpState F) :
  wire_string hd → open_files (handler st) !! hd = Some (p, fl) →
  has_flag fl SSH_FXF_WRITE = true → has_flag fl SSH_FXF_TRUNC = true →
  Forall wire_string (chunks ++ [chunk]) → chunk ≠ [] → 0 ≤ off → off + len (concat chunks) < U64 →
  ∃ rs st', upload (H:=H) id hd off (chunks ++ [chunk]) st = (Ok rs, st') ∧
    (Forall (λ r, r = build_sftp_status id SSH_FX_OK (bs "OK")) rs →
     fs_content (disk st') p =
       Some (replicate (Z.to_nat (off + len (concat chunks))) x00 ++ chunk)).
Proof.
  intros Hw Hf Hwr Htr Hc Hne Ho Hl.
  destruct (upload_trunc_from (H:=H) id hd p fl off chunks chunk st) as (rs & st' & E & _ & Hok); [done..|].
  exists rs, st'. split; [done|]. intros Hrs. rewrite Hok by done. f_equal.
  apply splice_nil; [pose proof (len_nonneg (concat chunks)); lia|done].
Qed.

Lemma trunc_upload_corrupts_witness :
  let run := @upload _ _ mem_filesystem true 3 [x01] 0 [bs "hello "; bs "world"] (demo_writer 26) in
  let ok := build_sftp_status 3 SSH_FX_OK (bs "OK") in
  run.1 = Ok [ok; ok] ∧
  fs_content (H:=mem_handle) (disk run.2) (bs "/srv/b.txt") = Some (replicate 6 x00 ++ bs "world").
Proof.
  intros run ok. split; [by_eval|].
  destruct (@trunc_upload_corrupts _ _ mem_filesystem mem_filesystem_laws true 3 [x01] (bs "/srv/b.txt") 26 0
    [bs "hello "] (bs "world") (demo_writer 26)) as (rs & st' & E & Hok); [by_eval || reflexivity || done..|].
  cbn [app] in E. fold run in E. assert (run.1 = Ok [ok; ok]) as E1 by by_eval. rewrite E in *. cbn [fst] in E1.
  injection E1 as ->. apply Hok. by repeat constructor.
Defined.

(** The run of several requests, keeping the responses. *)
Fixpoint requests {F H} `{fs_impl : !FileSystem F H} `{profile : !BuildProfile}
    (pkts : list SftpPacket) : io SshError (SftpState F) (list SftpPacket) :=
  match pkts with
  | [] => mret []
  | pkt :: pkts =>
      r ← handle_request (H:=H) pkt;
      rs ← requests (H:=H) pkts;
      mret (r :: rs)
  end.

Section escape.
Context {F H : Type} `{fs_impl : !FileSystem F H, fs_laws : !FileSystemLaws F H, link_laws : !FileSystemLinkLaws F H}
  `{profile : !BuildProfile}.

(** Opening a path answers a new handle on what the path resolves to. *)
Lemma open_answers id path flags p (st : SftpState F) :
  wire_utf8 path → is_u32 flags → resolve_path (H:=H) (disk st) (handler st) path = Ok p →
  next_handle (handler st) + 1 < U32 →
  let hd := be_encode 4 (next_handle (handler st)) in
  handle_request (H:=H) (open_packet id path flags) st =
  (Ok (build_sftp_handle id hd),
   mkSftp (insert_file hd (p, flags)
     (mkHandler (next_handle (handler st) + 1) (open_files (handler st)) (open_dirs (handler st)) (root (handler st))))
     (disk st)).
Proof.
  intros Hp Hf Hr Hn hd. rewrite open_packet_run by done. unfold resolved. rewrite Hr. cbn [or_return].
  by erewrite io_bind_run by (by apply alloc_handle_run).
Qed.

Lemma handle_wire i : wire_string (be_encode 4 i).
Proof. unfold wire_string. rewrite len_be_encode. unfold MAX_PACKET_SIZE. lia. Qed.

Lemma not_confined rs l :
  Forall valid_name rs → Forall valid_name l → ¬ rs `prefix_of` l →
  ¬ confined (components (path_of rs)) (path_of l).
Proof.
  intros Hrs Hl Hn (names & _ & E). apply Hn. unfold path_of in E.
  rewrite !components_root_names in E by done.
  assert (E' : Normal <$> l = Normal <$> rs ++ names) by (rewrite fmap_app; exact (f_equal tail E)).
  assert (Inj (=) (=) Normal) by by intros ?? [= ->]. exists names. by apply (inj (fmap Normal)).
Qed.

(** A write through a path of a directory that lies elsewhere. *)
Lemma write_through_directory pkt fl dir outside name d r (st st' : SftpState F) :
  Forall valid_name dir → Forall valid_name outside → valid_name name → d ≠ [] →
  fs_canonicalize (H:=H) (disk st) (path_of dir) = Some (path_of outside) →
  fs_content (disk st) (path_of (outside ++ [name])) = None →
  write_file (H:=H) pkt (path_of (dir ++ [name])) fl 0 d st = (Ok r, st') →
  r = status pkt SSH_FX_OK "OK" →
  fs_content (disk st') (path_of (outside ++ [name])) = Some d.
Proof.
  intros Hd Ho Hn Hne Hc Hnone E Hr.
  destruct (write_file_run pkt (path_of (dir ++ [name])) fl 0 d st) as (r' & st'' & E' & _ & Hok).
  rewrite E in E'. injection E' as <- <-. destruct (Hok Hr) as (h & fs1 & h' & Eo & Es & Ew).
  apply (fs_through_directory (disk st') dir outside name); [done..| |].
  - by apply (fs_resolves_still _ _ _ _ _ _ _ _ _ _ _ _ Eo Es Ew).
  - rewrite (fs_write_content _ _ _ _ _ _ _ _ _ _ (Z.le_refl 0) Eo Es Ew). f_equal.
    destruct (fs_content (disk st) (path_of (dir ++ [name]))) as [c|] eqn:Ec;
      [by rewrite (fs_through_directory _ _ _ _ _ Hd Ho Hn Hc Ec) in Hnone|].
    destruct (has_flag fl SSH_FXF_TRUNC); cbn [default]; by rewrite splice_nil.
Qed.
End escape.

(** C35.  Resolution of a path that does not exist yet is lexical, so a link below
    the root that leads to a directory outside is a way out.  On any file system
    with the documented behaviour, let the client name a new file [names/name] where
    [names], below the root, resolves to a directory [outside].  The resolved path
    looks confined, OPEN for writing answers a handle, the WRITE is attempted, and
    when it is answered OK the client's bytes are in the file [outside/name], which
    did not exist and does not lie below the root. *)
Theorem symlink_escape {F H} `{fs_impl : !FileSystem F H, fs_laws : !FileSystemLaws F H,
      link_laws : !FileSystemLinkLaws F H} `{profile : !BuildProfile}
    (id id' fl : Z) (rs names outside : list bytes) (name d : bytes) (st : SftpState F) :
  let requested := join_str slash (names ++ [name]) in
  let hd := be_encode 4 (next_handle (handler st)) in
  Forall valid_name (rs ++ names) → Forall valid_name outside → valid_name name → rs ≠ [] →
  root (handler st) = path_of rs → next_handle (handler st) + 1 < U32 →
  wire_utf8 requested → is_u32 fl → has_flag fl SSH_FXF_WRITE = true → wire_string d → d ≠ [] →
  fs_canonicalize (H:=H) (disk st) (path_of rs) = Some (path_of rs) →
  fs_canonicalize (H:=H) (disk st) (path_of (rs ++ names)) = Some (path_of outside) →
  fs_canonicalize (H:=H) (disk st) (path_of (rs ++ names ++ [name])) = None →
  fs_content (disk st) (path_of (outside ++ [name])) = None →
  ¬ rs `prefix_of` (outside ++ [name]) →
  resolve_path (H:=H) (disk st) (handler st) requested = Ok (path_of (rs ++ names ++ [name])) ∧
  ¬ confined (root_components (H:=H) (disk st) (handler st)) (path_of (outside ++ [name])) ∧
  ∃ r st', requests (H:=H) [open_packet id requested fl; write_packet id' hd 0 d] st =
      (Ok [build_sftp_handle id hd; r], st') ∧
    (r = build_sftp_status id' SSH_FX_OK (bs "OK") →
     fs_content (disk st') (path_of (outside ++ [name])) = Some d).
Proof.
  intros requested hd [Hrs Hns]%Forall_app Ho Hn Hne Hr Hnext Hw Hfl Hwr Hd Hdne Hcr Hcd Hnew Hnone Hout.
  destruct (resolve_path_accepts (disk st) (handler st) rs (names ++ [name])) as [Hres _];
    [done|by apply Forall_app; auto|done|by destruct names|done|by rewrite Hr, Hcr|done|].
  split; [exact Hres|]. split.
  { unfold root_components. rewrite Hr, Hcr. apply not_confined; [done|by apply Forall_app; auto|done]. }
  cbn [requests].
  erewrite io_bind_run by (by apply open_answers). set (st1 := mkSftp _ _).
  destruct (write_file_run (write_packet id' hd 0 d) (path_of (rs ++ names ++ [name])) fl 0 d st1)
    as (r & st2 & E & _). exists r, st2. split.
  - erewrite io_bind_run; [reflexivity|]. erewrite io_bind_run; [reflexivity|].
    rewrite write_packet_run by (done || apply handle_wire).
    unfold st1, hd. cbn [handler open_files insert_file]. rewrite lookup_insert_eq, Hwr. exact E.
  - intros Hok. rewrite app_assoc in E.
    eapply (write_through_directory _ fl (rs ++ names) outside name d r st1 st2);
      [by apply Forall_app|done..|exact E|exact Hok].
Qed.

Lemma symlink_escape_witness :
  let run := @requests _ _ mem_filesystem true
      [open_packet 1 (bs "link/cron") 10; write_packet 2 (be_encode 4 0) 0 (bs "x")] demo_sftp in
  run.1 = Ok [build_sftp_handle 1 (be_encode 4 0); build_sftp_status 2 SSH_FX_OK (bs "OK")] ∧
  fs_content (H:=mem_handle) demo_fs (bs "/etc/cron") = None ∧
  fs_content (H:=mem_handle) (disk run.2) (bs "/etc/cron") = Some (bs "x").
Proof.
  intros run. split_and!; [by_eval|by_eval|].
  destruct (@symlink_escape _ _ mem_filesystem mem_filesystem_laws mem_filesystem_link_laws true 1 2 10
    [bs "srv"] [bs "link"] [bs "etc"] (bs "cron") (bs "x") demo_sftp) as (_ & _ & r & st' & E & Hok);
    [by_eval || (vm_compute; reflexivity) || done..|].
  assert (run.1 = Ok [build_sftp_handle 1 (be_encode 4 0); build_sftp_status 2 SSH_FX_OK (bs "OK")]) as E1 by by_eval.
  change (run = (Ok [build_sftp_handle 1 (be_encode 4 0); r], st')) in E. rewrite E in *. cbn [fst snd] in *.
  injection E1 as ->. by apply Hok.
Defined.
