(* ===== verification/Transfer.v ===== *)
(** A file through the SFTP server ([src/sftp/mod.rs]) and back: a client that opens a
    path for writing and for reading, uploads in chunks, downloads until end of file
    and closes both handles gets back what it sent, reading only the responses. *)
From S2P Require Export SftpHandler.

(** ** What a client makes of a response *)

Definition fetch_handle `{!BuildProfile} (r : SftpPacket) : option bytes :=
  if decide (packet_type r = SSH_FXP_HANDLE) then
    match read_string (data r) with Ok (handle, _) => Some handle | _ => None end
  else None.

(** [None] when the file is at its end, otherwise the bytes of a DATA response. *)
Inductive fetched := Chunk (d : bytes) | AtEnd | Denied.

Definition fetch_data `{!BuildProfile} (r : SftpPacket) : fetched :=
  if decide (packet_type r = SSH_FXP_DATA) then
    match read_string (data r) with Ok (d, _) => Chunk d | _ => Denied end
  else if decide (packet_type r = SSH_FXP_STATUS) then
    match read_u32 (data r) with
    | Ok (code, _) => if decide (code = SSH_FX_EOF) then AtEnd else Denied
    | _ => Denied
    end
  else Denied.

Definition all_ok (id : Z) (rs : list SftpPacket) : bool :=
  bool_decide (Forall (λ r, r = build_sftp_status id SSH_FX_OK (bs "OK")) rs).

Section transfer.
Context {F H : Type} `{fs_impl : !FileSystem F H} `{profile : !BuildProfile}.
Abbreviation sftp := (io SshError (SftpState F)).

(** Reading [n] bytes at a time until the end. *)
Fixpoint download (fuel : nat) (id : Z) (handle : bytes) (off n : Z) : sftp (option bytes) :=
  match fuel with
  | O => λ st, (OutOfFuel, st)
  | S fuel =>
      r ← handle_request (H:=H) (read_packet id handle off n);
      match fetch_data r with
      | Chunk d => rest ← download fuel id handle (off + len d) n; mret (app d <$> rest)
      | AtEnd => mret (Some [])
      | Denied => mret None
      end
  end.

(** The whole transfer; [None] when something was refused. *)
Definition transfer (fuel : nat) (id : Z) (path : bytes) (chunks : list bytes) (n : Z) : sftp (option bytes) :=
  out ← handle_request (H:=H) (open_packet id path (Z.lor SSH_FXF_WRITE SSH_FXF_CREAT));
  inp ← handle_request (H:=H) (open_packet id path SSH_FXF_READ);
  match fetch_handle out, fetch_handle inp with
  | Some out, Some inp =>
      rs ← upload (H:=H) id out 0 chunks;
      got ← (if all_ok id rs then download fuel id inp 0 n else mret None);
      handle_request (H:=H) (close_packet id out);;
      handle_request (H:=H) (close_packet id inp);;
      mret got
  | _, _ => mret None
  end.
End transfer.

(** ** Responses read back *)

Section responses.
Context `{profile : !BuildProfile}.

Lemma fetch_handle_build id h : wire_string h → fetch_handle (build_sftp_handle id h) = Some h.
Proof.
  intros Hh. unfold fetch_handle, build_sftp_handle. cbn [packet_type data]. rewrite decide_True by done.
  rewrite write_string_enc, app_nil_l. by rewrite read_string_last.
Qed.

Lemma fetch_data_build id d : wire_string d → fetch_data (build_sftp_data id d) = Chunk d.
Proof.
  intros Hd. unfold fetch_data, build_sftp_data. cbn [packet_type data]. rewrite decide_True by done.
  rewrite write_string_enc, app_nil_l. by rewrite read_string_last.
Qed.

Lemma fetch_data_status id code msg :
  is_u32 code → fetch_data (build_sftp_status id code msg) = if decide (code = SSH_FX_EOF) then AtEnd else Denied.
Proof.
  intros Hc. unfold fetch_data, build_sftp_status. cbn [packet_type data]. rewrite decide_False, decide_True by done.
  autorewrite with wire. by rewrite read_u32_encode.
Qed.
End responses.

Section correct.
Context {F H : Type} `{fs_impl : !FileSystem F H, fs_laws : !FileSystemLaws F H} `{profile : !BuildProfile}.

(** What a download of an open file gives: the rest of the file, or nothing. *)
Lemma download_contents fuel id handle p fl off n c (st : SftpState F) :
  wire_string handle → open_files (handler st) !! handle = Some (p, fl) → is_u32 n → 1 ≤ n →
  fs_content (disk st) p = Some c → 0 ≤ off ≤ len c → len c < U64 → len c - off < Z.of_nat fuel →
  ∃ got, download (H:=H) fuel id handle off n st = (Ok got, st) ∧
    (∀ d, got = Some d → d = drop (Z.to_nat off) c).
Proof.
  intros Hw Hf Hn Hn1 Hc Ho Hl Hfuel. revert off Ho Hfuel.
  induction fuel as [|fuel IH]; intros off Ho Hfuel; [lia|]. cbn [download].
  destruct (read_packet_answer id off n handle p fl st) as (r & Hr & Ha); [done|unfold is_u64; lia|done|done|].
  rewrite (io_bind_run _ _ _ _ _ Hr).
  destruct Ha as [(code & msg & -> & Hcode)|(c' & Hc' & [(-> & He)|(got & -> & Hg & Eg)])].
  - rewrite fetch_data_status by (by destruct Hcode as [-> | ->]).
    rewrite decide_False by (by destruct Hcode as [-> | ->]). by exists None.
  - rewrite Hc in Hc'. injection Hc' as <-. rewrite fetch_data_status, decide_True by done.
    exists (Some []). split; [done|]. intros d [= <-]. rewrite drop_ge; [done|]. unfold len in *. lia.
  - rewrite Hc in Hc'. injection Hc' as <-.
    rewrite fetch_data_build by (unfold wire_string, MAX_PACKET_SIZE; lia).
    assert (Hlen : len got ≤ len c - off).
    { rewrite Eg. unfold len. rewrite length_take, length_drop. unfold len in *. lia. }
    destruct (IH (off + len got)) as (rest & Hrest & Hd); [lia|lia|].
    rewrite (io_bind_run _ _ _ _ _ Hrest). eexists. split; [done|].
    intros d. destruct rest as [rest|]; cbn; [|done]. intros [= <-]. rewrite (Hd _ eq_refl).
    rewrite Eg at 1. replace (Z.to_nat (off + len got)) with (Z.to_nat off + length got)%nat
      by (unfold len; lia). by rewrite <- drop_drop, take_drop.
Qed.

Lemma splice_empty d : splice [] 0 d = d.
Proof. destruct (decide (d = [])) as [->|Hd]; [done|]. by rewrite splice_nil. Qed.

(** The part of the transfer between the two OPENs and the two CLOSEs. *)
Lemma put_and_get fuel id out inp p fl fl' chunk chunks n (st : SftpState F) :
  wire_string out → wire_string inp →
  open_files (handler st) !! out = Some (p, fl) → open_files (handler st) !! inp = Some (p, fl') →
  has_flag fl SSH_FXF_WRITE = true → has_flag fl SSH_FXF_TRUNC = false →
  fs_content (disk st) p = None → Forall wire_string (chunk :: chunks) →
  len (concat (chunk :: chunks)) < U64 → is_u32 n → 1 ≤ n →
  len (concat (chunk :: chunks)) < Z.of_nat fuel →
  ∃ got st', (rs ← upload (H:=H) id out 0 (chunk :: chunks);
              if all_ok id rs then download (H:=H) fuel id inp 0 n else mret None) st = (Ok got, st') ∧
    handler st' = handler st ∧
    (∀ d, got = Some d → d = concat (chunk :: chunks) ∧ fs_content (disk st') p = Some d).
Proof.
  intros Hwo Hwi Hfo Hfi Hwr Htr Hc Hch Hl Hn Hn1 Hfuel.
  destruct (upload_from (H:=H) id out p fl 0 (chunk :: chunks) st) as (rs & st1 & Eu & Hh & _ & Hok);
    [done..|]. rewrite (io_bind_run _ _ _ _ _ Eu). unfold all_ok. case_bool_decide as Hall.
  - destruct (Hok Hall) as [?|Hcont]; [done|]. rewrite Hc in Hcont. cbn [default] in Hcont. rewrite splice_empty in Hcont.
    pose proof (len_nonneg (concat (chunk :: chunks))).
    destruct (download_contents fuel id inp p fl' 0 n (concat (chunk :: chunks)) st1) as (got & Ed & Hd);
      [done|by rewrite Hh|done|done|done|lia|done|lia|].
    exists got, st1. split_and!; [exact Ed|done|]. intros d E. apply Hd in E as ->. done.
  - exists None, st1. by split_and!.
Qed.

Lemma transfer_runs base fuel id path p chunk chunks n (st : SftpState F) :
  sftp_inv base (handler st) → next_handle (handler st) + 2 < U32 → wire_utf8 path →
  resolve_path (H:=H) (disk st) (handler st) path = Ok p → fs_content (disk st) p = None →
  Forall wire_string (chunk :: chunks) → len (concat (chunk :: chunks)) < U64 → is_u32 n → 1 ≤ n →
  len (concat (chunk :: chunks)) < Z.of_nat fuel →
  ∃ got st', transfer (H:=H) fuel id path (chunk :: chunks) n st = (Ok got, st') ∧
    open_files (handler st') = open_files (handler st) ∧
    (∀ d, got = Some d → d = concat (chunk :: chunks) ∧ fs_content (disk st') p = Some d).
Proof.
  intros Hi Hn2 Hp Hr Hc Hch Hl Hn Hn1 Hfuel. pose proof (inv_next _ _ Hi) as Hn0.
  set (i := next_handle (handler st)) in *. set (out := be_encode 4 i). set (inp := be_encode 4 (i + 1)).
  destruct (inv_fresh base (handler st) i Hi) as [Hfo _]; [unfold is_u32; lia|lia|].
  destruct (inv_fresh base (handler st) (i + 1) Hi) as [Hfi _]; [unfold is_u32; lia|lia|].
  assert (Hne : out ≠ inp) by (intros E; apply be_encode_4_inj in E; unfold is_u32; lia).
  unfold transfer. erewrite io_bind_run by (apply open_answers; [done|by_eval|exact Hr|lia]).
  set (st1 := mkSftp _ (disk st)).
  erewrite io_bind_run by (apply (open_answers id path SSH_FXF_READ p st1); [done|by_eval|exact Hr|cbn; lia]).
  set (st2 := mkSftp _ (disk st1)).
  rewrite fetch_handle_build by apply handle_wire. rewrite fetch_handle_build by apply handle_wire.
  change (be_encode 4 (next_handle (handler st))) with out. change (be_encode 4 (next_handle (handler st1))) with inp.
  assert (Hfiles : open_files (handler st2) =
    <[inp := (p, SSH_FXF_READ)]> (<[out := (p, Z.lor SSH_FXF_WRITE SSH_FXF_CREAT)]> (open_files (handler st)))) by done.
  destruct (put_and_get fuel id out inp p (Z.lor SSH_FXF_WRITE SSH_FXF_CREAT) SSH_FXF_READ chunk chunks n st2)
    as (got & st3 & Erun & Hh & Hgot); try done; [apply handle_wire..| | |].
  { rewrite Hfiles, lookup_insert_ne by done. apply lookup_insert_eq. }
  { rewrite Hfiles. apply lookup_insert_eq. }
  apply io_bind_ok in Erun as (rs & st' & Eu & Ed).
  rewrite (io_bind_run _ _ _ _ _ Eu), (io_bind_run _ _ _ _ _ Ed).
  erewrite io_bind_run by (apply close_packet_run, handle_wire).
  erewrite io_bind_run by (apply close_packet_run, handle_wire).
  eexists got, _. split; [done|]. split; [|exact Hgot].
  cbn [handler remove_handle open_files]. rewrite Hh, Hfiles. rewrite delete_insert_ne by done.
  by rewrite (delete_insert_id _ out), delete_insert_id.
Qed.
End correct.

(** C23.  What goes up comes down: a client opens a path of a file that does not exist
    yet, for writing and for reading, uploads it in chunks, downloads it [n] bytes at
    a time until end of file, and closes both handles.  Every request is answered,
    the download ends, the handler has no more open files than before, and when
    nothing was refused the client holds exactly the concatenation of its chunks,
    which is also what is on the disk. *)
Theorem upload_download {F H} `{fs_impl : !FileSystem F H, fs_laws : !FileSystemLaws F H}
    `{profile : !BuildProfile} base fuel id path p chunk chunks n (st : SftpState F) :
  sftp_inv base (handler st) → next_handle (handler st) + 2 < U32 → wire_utf8 path →
  resolve_path (H:=H) (disk st) (handler st) path = Ok p → fs_content (disk st) p = None →
  Forall wire_string (chunk :: chunks) → len (concat (chunk :: chunks)) < U64 → is_u32 n → 1 ≤ n →
  len (concat (chunk :: chunks)) < Z.of_nat fuel →
  ∃ got st', transfer (H:=H) fuel id path (chunk :: chunks) n st = (Ok got, st') ∧
    open_files (handler st') = open_files (handler st) ∧
    (∀ d, got = Some d → d = concat (chunk :: chunks) ∧ fs_content (disk st') p = Some d).
Proof. apply transfer_runs. Qed.

Lemma upload_download_witness :
  let run := @transfer _ _ mem_filesystem true 20 3 (bs "new.txt") [bs "hello "; bs "world"] 4 demo_sftp in
  run.1 = Ok (Some (bs "hello world")) ∧ open_files (handler run.2) = ∅ ∧
  fs_content (H:=mem_handle) (disk run.2) (bs "/srv/new.txt") = Some (bs "hello world").
Proof.
  intros run. assert (E : run.1 = Ok (Some (bs "hello world"))) by by_eval. split; [exact E|].
  destruct (@upload_download _ _ mem_filesystem mem_filesystem_laws true [RootDir; Normal (bs "srv")] 20 3
    (bs "new.txt") (bs "/srv/new.txt") (bs "hello ") [bs "world"] 4 demo_sftp) as (got & st' & Er & Hf & Hd);
    [apply inv_new|by_eval|by_eval|vm_compute; reflexivity|vm_compute; reflexivity|by_eval|by_eval|by_eval|
     by_eval|by_eval|].
  fold run in Er. rewrite Er in *. cbn [fst snd] in *. injection E as ->.
  split; [exact Hf|]. by apply Hd.
Defined.
