(* ===== verification/Progress.v ===== *)
(** Reasoning about one end of a connection whose peer may send anything.

    [safe_at Rel m s]: the call [m], started in [s], does not run out of fuel, and
    the state it leaves (also when it fails) is related to [s] by the preorder
    [Rel].  For a link the relation is [link_step]: reading never adds to the
    stream, and the session identifier, the MAC keys and the presence of ciphers stay
    what they are. *)
From S2P Require Export Transport.

Section safe_at.
Context {E St : Type} (Rel : St → St → Prop) {Rel_pre : PreOrder Rel}.

Definition safe_at {A} (m : io E St A) (s : St) : Prop := (m s).1 ≠ OutOfFuel ∧ Rel s (m s).2.

Lemma safe_bind {A B} (m : io E St A) (k : A → io E St B) s :
  safe_at m s → (∀ a s', m s = (Ok a, s') → Rel s s' → safe_at (k a) s') → safe_at (m ≫= k) s.
Proof.
  intros [Hm Hr] Hk. unfold safe_at, mbind, io_bind in *. destruct (m s) as [[a|e|msg|] s'] eqn:E1; try done.
  destruct (Hk a s' eq_refl Hr) as [Hf Hr2]. split; [done|]. by transitivity s'.
Qed.

Lemma safe_ret {A} (a : A) s : safe_at (mret a) s.
Proof. by split. Qed.

Lemma safe_fail {A} e s : safe_at (fail e : io E St A) s.
Proof. by split. Qed.

Lemma safe_lift {A} (m : outcome E A) s : m ≠ OutOfFuel → safe_at (lift m) s.
Proof. by split. Qed.

Lemma safe_gets {A} (f : St → A) s : safe_at (gets f) s.
Proof. by split. Qed.

Lemma safe_modify f s : Rel s (f s) → safe_at (modify f : io E St unit) s.
Proof. by split. Qed.

(** What a call that answered left behind. *)
Lemma safe_ok {A} (m : io E St A) s a s' : safe_at m s → m s = (Ok a, s') → Rel s s'.
Proof. intros [_ Hr] E1. by rewrite E1 in Hr. Qed.
End safe_at.

Lemma safe_mono {E St A} (Rel Rel' : St → St → Prop) (m : io E St A) s :
  (∀ s', Rel s s' → Rel' s s') → safe_at Rel m s → safe_at Rel' m s.
Proof. intros Hr [Hf Hs]. split; auto. Qed.

Lemma returns_no_fuel {E A} (m : outcome E A) : returns m = true → m ≠ OutOfFuel.
Proof. by destruct m. Qed.

(** One step through a call; what is left are the component's own facts. *)
Create HintDb safe.
Ltac safe_step :=
  lazymatch goal with
  | |- safe_at _ (_ ≫= _) _ => apply safe_bind; [apply _| |intros ? ? ? ?]
  | |- safe_at _ (mret _) _ => apply safe_ret, _
  | |- safe_at _ (fail _) _ => apply safe_fail, _
  | |- safe_at _ (gets _) _ => apply safe_gets, _
  | |- safe_at _ (lift _) _ => apply safe_lift; [apply _|]
  | |- safe_at _ (match ?x with _ => _ end) _ => destruct x
  | |- safe_at _ (let '(_, _) := ?x in _) _ => destruct x
  | |- _ ≠ OutOfFuel => solve [auto with safe | apply returns_no_fuel; auto with returns]
  | |- safe_at _ _ _ => solve [auto with safe]
  end.
Ltac run_safe := repeat (cbv beta zeta; safe_step).

(** ** Links *)

Section link.
Context {C R : Type} `{!StreamCipher C, hmac_impl : !Hmac, rng_impl : !Rng R} `{profile : !BuildProfile}.
Abbreviation link := (Link C R).

Definition unread (l : link) : nat := length (rd_data (lk_reader l)).

(** What the session has agreed on, and which packets and ciphertext do not change. *)
Definition session_secured (k : SessionKeys C) : option bytes * bool * option bytes * option bytes :=
  (session_id k, is_encrypted k, send_mac_key k, recv_mac_key k).

Definition link_step (l l' : link) : Prop :=
  (unread l' ≤ unread l)%nat ∧ session_secured (lk_keys l') = session_secured (lk_keys l).

#[export] Instance link_step_pre : PreOrder link_step.
Proof.
  split; [by intros l|]. intros l1 l2 l3 [? ?] [? ?]. split; [lia|congruence].
Qed.

Lemma safe_on_reader {A} (f : Reader → outcome io_error A * Reader) wrap l :
  (f (lk_reader l)).1 ≠ OutOfFuel →
  (length (rd_data (f (lk_reader l)).2) ≤ length (rd_data (lk_reader l)))%nat →
  safe_at link_step (on_reader f wrap) l.
Proof.
  unfold safe_at, on_reader. destruct (f (lk_reader l)) as [o r]. cbn. intros Ho Hl.
  split; [by destruct o|]. by split.
Qed.

Lemma safe_read_exact n wrap l : safe_at link_step (on_reader (read_exact n) wrap) l.
Proof. apply safe_on_reader; unfold read_exact; case_decide; cbn; rewrite ?length_drop; try done; lia. Qed.

Lemma safe_write_all data l : safe_at link_step (on_writer (write_all data)) l.
Proof.
  unfold safe_at, on_writer, write_all. destruct wr_fault as [[room e]|]; [case_decide|]; cbn; by split.
Qed.

Lemma safe_on_keys {A} (f : SessionKeys C → A * SessionKeys C) l :
  session_secured (f (lk_keys l)).2 = session_secured (lk_keys l) → safe_at link_step (on_keys f) l.
Proof. unfold safe_at, on_keys. destruct (f (lk_keys l)). cbn. intros ?. by split. Qed.

Lemma safe_on_rng {A} (f : R → SshResult A * R) l :
  (f (lk_rng l)).1 ≠ OutOfFuel → safe_at link_step (on_rng f) l.
Proof. unfold safe_at, on_rng. destruct (f (lk_rng l)). cbn. intros ?. by split. Qed.

Lemma encrypt_data_secured d (k : SessionKeys C) :
  session_secured (encrypt_data d k).2 = session_secured k.
Proof.
  unfold encrypt_data, session_secured, is_encrypted. destruct (ciphers k) as [cp|] eqn:E1; [|by cbn; rewrite E1].
  by destruct (apply (encrypt cp) d).
Qed.

Lemma decrypt_data_secured d (k : SessionKeys C) :
  session_secured (decrypt_data d k).2 = session_secured k.
Proof.
  unfold decrypt_data, session_secured, is_encrypted. destruct (ciphers k) as [cp|] eqn:E1; [|by cbn; rewrite E1].
  by destruct (apply (decrypt cp) d).
Qed.

Lemma serialize_no_fuel p bsz (r : R) : (serialize p bsz r).1 ≠ OutOfFuel.
Proof. unfold serialize. cbv zeta. case_decide; [done|]. by destruct fill_bytes. Qed.

Lemma usize_sub_no_fuel a b : usize_sub (E:=SshError) a b ≠ OutOfFuel.
Proof. unfold usize_sub. repeat case_match; done. Qed.

Lemma vec_zeroed_no_fuel n : vec_zeroed (E:=SshError) n ≠ OutOfFuel.
Proof. unfold vec_zeroed. by case_decide. Qed.

Lemma verify_hmac_no_fuel k d t : verify_hmac k d t ≠ OutOfFuel.
Proof. unfold verify_hmac. by case_match. Qed.

Hint Resolve safe_read_exact safe_write_all usize_sub_no_fuel vec_zeroed_no_fuel
  verify_hmac_no_fuel : safe.

Lemma safe_send_packet p l : safe_at link_step (send_packet p) l.
Proof.
  unfold send_packet. run_safe; [apply safe_on_rng, serialize_no_fuel|by apply safe_on_keys|].
  apply safe_on_keys, encrypt_data_secured.
Qed.

Lemma safe_recv_packet l : safe_at link_step recv_packet l.
Proof.
  assert (Hd : ∀ d l, safe_at link_step (on_keys (decrypt_data d)) l)
    by (intros; apply safe_on_keys, decrypt_data_secured).
  unfold recv_packet, recv_frame, recv_rest, check_mac. run_safe; try apply Hd; [by apply safe_on_keys|].
  apply returns_no_fuel, deserialize_returns.
Qed.

Lemma safe_recv_version_loop fuel buf l :
  len buf + Z.of_nat fuel = 256 → len buf ≤ 255 → safe_at link_step (recv_version_loop fuel buf) l.
Proof.
  revert buf l. induction fuel as [|fuel IH]; intros buf l Hl Hb; [lia|].
  cbn [recv_version_loop]. apply safe_bind; [apply _|apply safe_read_exact|]. intros b l1 Hr _.
  apply on_reader_read_ok in Hr as (_ & _ & Hb1 & _); [|lia].
  case_decide; [apply safe_fail, _|]. destruct ends_with; [apply safe_ret, _|]. apply IH; len_lia.
Qed.

Lemma safe_recv_version_string l : safe_at link_step recv_version_string l.
Proof. unfold recv_version_string. run_safe. by apply safe_recv_version_loop. Qed.
End link.
#[export] Hint Resolve safe_read_exact safe_write_all safe_send_packet safe_recv_packet
  safe_recv_version_string : safe.
