(* ===== verification/Dialogue.v ===== *)
(** Reasoning about two ends of a connection that talk to each other.

    [does mk m i o s a s']: started in state [s], the call [m] consumes exactly the
    input [i], writes exactly the output [o], answers [a] and ends in [s'], whatever
    follows the input in the stream and whatever was written before.  [mk] builds
    the caller's state from the two halves of its stream and the rest.  Such facts
    compose, so a whole protocol run is proved message by message; [fails] is the same for
    a call that ends in an error, [reaches] for one that is not over; [in_step] is
    what two ends must agree on between messages. *)
From S2P Require Export Transport.

Section does.
Context {St S : Type} (mk : Reader → Writer → S → St).

Definition does {A} (m : io SshError St A) (i o : bytes) (s : S) (a : A) (s' : S) : Prop :=
  ∀ rest e out,
    m (mk (mkReader (i ++ rest) e) (mkWriter out None) s) =
    (Ok a, mk (mkReader rest e) (mkWriter (out ++ o) None) s').

Lemma does_bind {A B} (m : io SshError St A) (k : A → io SshError St B) i1 i2 o1 o2 s a s1 b s2 :
  does m i1 o1 s a s1 → does (k a) i2 o2 s1 b s2 → does (m ≫= k) (i1 ++ i2) (o1 ++ o2) s b s2.
Proof.
  intros H1 H2 rest e out. rewrite <- app_assoc, (io_bind_run _ _ _ _ _ (H1 _ _ _)), H2.
  by rewrite app_assoc.
Qed.

(** The steps that do not touch the stream. *)
Lemma does_quiet {A B} (m : io SshError St A) (k : A → io SshError St B) i o s a s1 b s2 :
  does m [] [] s a s1 → does (k a) i o s1 b s2 → does (m ≫= k) i o s b s2.
Proof. intros H1 H2. exact (does_bind _ _ [] i [] o _ _ _ _ _ H1 H2). Qed.

Lemma does_ret {A} (a : A) s : does (mret a) [] [] s a s.
Proof. intros rest e out. by rewrite app_nil_r. Qed.

Lemma does_lift {A} (m : SshResult A) a s : m = Ok a → does (lift m) [] [] s a s.
Proof. intros -> rest e out. by rewrite app_nil_r. Qed.

Lemma does_gets {A} (f : St → A) a s :
  (∀ rd wr, f (mk rd wr s) = a) → does (gets f) [] [] s a s.
Proof. intros Hf rest e out. by rewrite <- (Hf (mkReader rest e) (mkWriter out None)), app_nil_r. Qed.

(** The last message a call sends, and the last one it reads. *)
Lemma does_send_then {A B} (m : io SshError St A) (k : A → io SshError St B) i o s a s1 b s2 :
  does m [] o s a s1 → does (k a) i [] s1 b s2 → does (m ≫= k) i o s b s2.
Proof. intros H1 H2. rewrite <- (app_nil_r o). exact (does_bind _ _ [] i _ _ _ _ _ _ _ H1 H2). Qed.

Lemma does_recv_then {A B} (m : io SshError St A) (k : A → io SshError St B) i o s a s1 b s2 :
  does m i [] s a s1 → does (k a) [] o s1 b s2 → does (m ≫= k) i o s b s2.
Proof. intros H1 H2. rewrite <- (app_nil_r i). exact (does_bind _ _ _ _ [] o _ _ _ _ _ H1 H2). Qed.

(** Writing the last step without a trailing empty piece. *)
Lemma does_last {A B} (m : io SshError St A) (k : A → io SshError St B) i o s a s1 b s2 :
  does m i o s a s1 → does (k a) [] [] s1 b s2 → does (m ≫= k) i o s b s2.
Proof.
  intros H1 H2. rewrite <- (app_nil_r i), <- (app_nil_r o). by eapply does_bind.
Qed.

(** The same for a call that ends in an error, with [rest] still unread. *)
Definition fails {A} (m : io SshError St A) (i o : bytes) (s : S) (e : SshError) (s' : S)
    (rest : bytes) (e0 : io_error) : Prop :=
  ∀ out,
    m (mk (mkReader (i ++ rest) e0) (mkWriter out None) s) =
    (Err e, mk (mkReader rest e0) (mkWriter (out ++ o) None) s').

Lemma does_fails {A B} (m : io SshError St A) (k : A → io SshError St B) i1 i2 o1 o2 s a s1 e s2 rest e0 :
  does m i1 o1 s a s1 → fails (k a) i2 o2 s1 e s2 rest e0 →
  fails (m ≫= k) (i1 ++ i2) (o1 ++ o2) s e s2 rest e0.
Proof.
  intros H1 H2 out. rewrite <- app_assoc, (io_bind_run _ _ _ _ _ (H1 _ _ _)), H2.
  by rewrite app_assoc.
Qed.

Lemma fails_first {A B} (m : io SshError St A) (k : A → io SshError St B) i o s e s1 rest e0 :
  fails m i o s e s1 rest e0 → fails (m ≫= k) i o s e s1 rest e0.
Proof. intros H1 out. apply io_bind_fails, H1. Qed.

(** What is left of a call after it has talked for a while. *)
Definition reaches {A} (m : io SshError St A) (i o : bytes) (s : S) (k : io SshError St A) (s1 : S) : Prop :=
  ∀ rest e out,
    m (mk (mkReader (i ++ rest) e) (mkWriter out None) s) = k (mk (mkReader rest e) (mkWriter (out ++ o) None) s1).

Lemma reaches_next {A B} (m : io SshError St A) (f : A → io SshError St B) i1 i2 o1 o2 s a s1 k s2 :
  does m i1 o1 s a s1 → reaches (f a) i2 o2 s1 k s2 → reaches (m ≫= f) (i1 ++ i2) (o1 ++ o2) s k s2.
Proof.
  intros H1 H2 rest e out. rewrite <- app_assoc, (io_bind_run _ _ _ _ _ (H1 _ _ _)), H2. by rewrite app_assoc.
Qed.

Lemma reaches_quiet {A B} (m : io SshError St A) (f : A → io SshError St B) i o s a s1 k s2 :
  does m [] [] s a s1 → reaches (f a) i o s1 k s2 → reaches (m ≫= f) i o s k s2.
Proof. intros H1 H2. exact (reaches_next _ _ [] i [] o _ _ _ _ _ H1 H2). Qed.

Lemma does_reaches {A B} (m : io SshError St A) (f : A → io SshError St B) i o s a s1 :
  does m i o s a s1 → reaches (m ≫= f) i o s (f a) s1.
Proof. intros H1 rest e out. by rewrite (io_bind_run _ _ _ _ _ (H1 _ _ _)). Qed.

Lemma reaches_does {A} (m k : io SshError St A) i1 i2 o1 o2 s s1 a s2 :
  reaches m i1 o1 s k s1 → does k i2 o2 s1 a s2 → does m (i1 ++ i2) (o1 ++ o2) s a s2.
Proof. intros H1 H2 rest e out. rewrite <- app_assoc, H1, H2. by rewrite app_assoc. Qed.

Lemma reaches_fails {A} (m k : io SshError St A) i1 i2 o1 o2 s s1 e s2 rest e0 :
  reaches m i1 o1 s k s1 → fails k i2 o2 s1 e s2 rest e0 → fails m (i1 ++ i2) (o1 ++ o2) s e s2 rest e0.
Proof. intros H1 H2 out. rewrite <- app_assoc, H1, H2. by rewrite app_assoc. Qed.
End does.

(** ** On a link *)

Section link.
Context {C R : Type} `{!StreamCipher C, hmac_impl : !Hmac, rng_impl : !Rng R} `{profile : !BuildProfile}.

Definition mk_link (rd : Reader) (wr : Writer) (s : SessionKeys C * R) : Link C R :=
  mkLink rd wr s.1 s.2.

Lemma does_on_rng {A} (f : R → SshResult A * R) k r a r' :
  f r = (Ok a, r') → does mk_link (on_rng f) [] [] (k, r) a (k, r').
Proof. intros E rest e out. unfold on_rng. cbn. by rewrite E, app_nil_r. Qed.

Lemma does_on_keys {A} (f : SessionKeys C → A * SessionKeys C) k r a k' :
  f k = (a, k') → does mk_link (on_keys f) [] [] (k, r) a (k', r).
Proof. intros E rest e out. unfold on_keys. cbn. by rewrite E, app_nil_r. Qed.

Lemma does_send_version v s : does mk_link (send_version_string v) [] (v ++ crlf) s tt s.
Proof. done. Qed.

Lemma does_recv_version v s :
  no_crlf v → len v ≤ 253 → utf8_valid v = true → starts_with (bs "SSH-2.0-") v = true →
  does mk_link recv_version_string (v ++ crlf) [] s v s.
Proof.
  intros Hno Hl Hv Hst rest e out. rewrite <- app_assoc, app_nil_r.
  by apply recv_version_string_complete.
Qed.

(** Both directions of two ends match. *)
Definition in_step (ka kb : SessionKeys C) : Prop := keys_synced ka kb ∧ keys_synced kb ka.

Lemma in_step_sym ka kb : in_step ka kb → in_step kb ka.
Proof. intros [? ?]. by split. Qed.

Lemma in_step_new : in_step SessionKeys_new SessionKeys_new.
Proof. split; (split; [done|by vm_compute]). Qed.

Context `{!StreamCipherLaws C, hmac_laws : !HmacLaws, rng_laws : !RngLaws R}.

(** One message from one end to the other. *)
Lemma message p (ka kb : SessionKeys C) (ra : R) :
  len (payload p) ≤ MAX_PACKET_SIZE - 21 → in_step ka kb →
  ∃ wire ka' ra' kb',
    does mk_link (send_packet p) [] wire (ka, ra) tt (ka', ra') ∧
    (∀ rb, does mk_link recv_packet wire [] (kb, rb) p (kb', rb)) ∧
    in_step ka' kb' ∧ 8 ≤ len wire.
Proof.
  intros Hl [Hab Hba]. destruct (send_recv_packet p ka ra Hl) as (wire & ka' & ra' & Hs & Hside & Hr).
  destruct (Hr kb Hab) as (kb' & Hrecv & Hsync & Hside'). exists wire, ka', ra', kb'. split_and!.
  - intros rest e out. apply Hs.
  - intros rb rest e out. rewrite app_nil_r. apply Hrecv.
  - split; [done|]. destruct Hba as [E Hu]. split; [congruence|]. unfold send_side in Hside'.
    congruence.
  - pose proof (Hrecv [] UnexpectedEof (mkWriter [] None) ra) as E.
    apply recv_packet_progress in E as [Hp _]. cbn in Hp. rewrite app_nil_r in Hp. exact Hp.
Qed.

(** ** Streams of packets *)

(** Small enough for every cipher's block size. *)
Definition small (p : SshPacket) : Prop := len (payload p) ≤ MAX_PACKET_SIZE - 21.

(** What one end writes for [ps] going from [ka] to [ka'] is read as [ps] by any
    receiver in step with it, which is then in step again. *)
Definition delivers (ps : list SshPacket) (wire : bytes) (ka ka' : SessionKeys C) : Prop :=
  ∀ kb, keys_synced ka kb →
    ∃ kb', (∀ rb : R, does mk_link (recv_n (length ps)) wire [] (kb, rb) ps (kb', rb)) ∧
      keys_synced ka' kb' ∧ send_side kb' = send_side kb.

Lemma delivers_nil ka : delivers [] [] ka ka.
Proof. intros kb Hs. exists kb. split; [intros rb; apply does_ret|done]. Qed.

Lemma does_recv_app ps qs w1 w2 (s s1 s2 : SessionKeys C * R) :
  does mk_link (recv_n (length ps)) w1 [] s ps s1 → does mk_link (recv_n (length qs)) w2 [] s1 qs s2 →
  does mk_link (recv_n (length (ps ++ qs))) (w1 ++ w2) [] s (ps ++ qs) s2.
Proof.
  intros H1 H2 rest e out. specialize (H1 (w2 ++ rest) e out). rewrite <- app_assoc.
  revert H1. generalize (mk_link (mkReader (w1 ++ w2 ++ rest) e) (mkWriter out None) s).
  rewrite app_nil_r. specialize (H2 rest e out). rewrite app_nil_r in *.
  revert H2. generalize (mk_link (mkReader rest e) (mkWriter out None) s2) as l2.
  generalize (mk_link (mkReader (w2 ++ rest) e) (mkWriter out None) s1) as l1. intros l1 l2 H2.
  induction ps as [|p ps IH]; intros l H1; cbn [recv_n length app] in *.
  - unfold mret, io_ret in H1. by simplify_eq.
  - apply io_bind_ok in H1 as (q & l' & Hq & (qs' & l'' & Hqs & Hr)%io_bind_ok).
    unfold mret, io_ret in Hr. simplify_eq. rewrite (io_bind_run _ _ _ _ _ Hq).
    by rewrite (io_bind_run _ _ _ _ _ (IH _ Hqs)).
Qed.

Lemma delivers_app ps qs w1 w2 k k1 k2 :
  delivers ps w1 k k1 → delivers qs w2 k1 k2 → delivers (ps ++ qs) (w1 ++ w2) k k2.
Proof.
  intros D1 D2 kb Hs.
  destruct (D1 kb Hs) as (kb1 & R1 & H1 & T1). destruct (D2 kb1 H1) as (kb2 & R2 & H2 & T2).
  exists kb2. split; [intros rb; by eapply does_recv_app|split; [done|congruence]].
Qed.

(** Sending several packets in a row. *)
Lemma stream_of ps (ka : SessionKeys C) (ra : R) :
  Forall small ps →
  ∃ wire ka' ra', does mk_link (send_all ps) [] wire (ka, ra) tt (ka', ra') ∧
    delivers ps wire ka ka' ∧ recv_side ka' = recv_side ka.
Proof.
  intros Hps. revert ka ra. induction Hps as [|p ps Hp _ IH]; intros ka ra.
  { exists [], ka, ra. split_and!; [apply does_ret|apply delivers_nil|done]. }
  destruct (send_recv_packet p ka ra Hp) as (w1 & k1 & r1 & S1 & E1 & D1).
  destruct (IH k1 r1) as (w2 & k2 & r2 & S2 & D2 & E2). exists (w1 ++ w2), k2, r2. split_and!; [| |congruence].
  - cbn [send_all]. eapply (does_bind _ _ _ [] []); [|exact S2]. intros rest e out. apply S1.
  - apply (delivers_app [p] _ _ _ _ k1); [|done]. intros kb Hs.
    destruct (D1 kb Hs) as (kb' & R1 & H1 & T1). exists kb'. split; [|done].
    intros rb. cbn [recv_n length]. eapply (does_last _ _ _ _ _ _ p (kb', rb));
      [intros rest e out; rewrite app_nil_r; apply R1|].
    eapply does_quiet; apply does_ret.
Qed.
End link.
