(* ===== verification/Server.v ===== *)
(** The server ([src/bin/server.rs]): the phases of [handle_connection], the
    dispatch of channel messages, and command execution.  [main] is in Main.v; logging
    calls are left out. *)
From S2P Require Export Transport Progress Kex Auth Connection SftpHandler.

(** ** Running commands *)

Inductive exec_result := ExecOutput (stdout stderr : bytes) | ExecFailed (error : bytes).

(** [tokio::process::Command]: a program and its arguments; it may change the file
    system. *)
Class Processes (F : Type) := run_process : F → bytes → list bytes → exec_result * F.

(** [char::is_whitespace] on a character's UTF-8 bytes. *)
Definition is_whitespace (ch : bytes) : bool :=
  match b2z <$> ch with
  | [b] => ((9 <=? b) && (b <=? 13)) || (b =? 32)
  | [194; b] => (b =? 133) || (b =? 160)
  | [225; 154; 128] => true
  | [226; 128; b] => ((128 <=? b) && (b <=? 138)) || (b =? 168) || (b =? 169) || (b =? 175)
  | [226; 129; 159] => true
  | [227; 128; 128] => true
  | _ => false
  end.

(** [str::split_whitespace]: the maximal runs of other characters. *)
Fixpoint split_ws_chars (chars : list bytes) (word : bytes) : list bytes :=
  match chars with
  | [] => if decide (word = []) then [] else [word]
  | ch :: chars =>
      if is_whitespace ch
      then (if decide (word = []) then [] else [word]) ++ split_ws_chars chars []
      else split_ws_chars chars (word ++ ch)
  end.

Definition split_whitespace (s : bytes) : list bytes := split_ws_chars (snd <$> utf8_chunks s) [].

Definition execute_command {F} `{!Processes F} (command : bytes) (fs : F) : bytes * F :=
  match split_whitespace command with
  | [] => ([], fs)
  | program :: args =>
      let '(output, fs) := run_process fs program args in
      (match output with
       | ExecOutput stdout stderr =>
           let result := from_utf8_lossy stdout in
           let stderr := from_utf8_lossy stderr in
           if decide (stderr ≠ []) then result ++ stderr else result
       | ExecFailed e => bs "Command failed: " ++ e ++ [x0a]
       end, fs)
  end.

(** ** The handshake *)

Section handshake.
Context {C R K : Type} `{!StreamCipher C, hmac_impl : !Hmac, rng_impl : !Rng R,
  x25519_impl : !X25519 R K, sha_impl : !Sha256} `{profile : !BuildProfile}.
Abbreviation net := (io SshError (Link C R)).

(** Receive a packet that must have a given type. *)
Definition expect (m : MessageType) (e : SshError) : net SshPacket :=
  pkt ← recv_packet;
  if decide (msg_type pkt ≠ msg_u8 m) then fail e else mret pkt.

Definition host_key_blob : bytes := bs "swiftssh-server-host-key".

(** The packet that carries the server's half of the key exchange. *)
Definition kex_reply (server_pub signature : bytes) : SshPacket :=
  let reply_payload := [] in
  let reply_payload := write_string reply_payload host_key_blob in
  let reply_payload := write_string reply_payload server_pub in
  let reply_payload := write_string reply_payload signature in
  SshPacket_new KexEcdhReply reply_payload.

(** Steps 1 and 2 of [handle_connection], up to the client's NEWKEYS. *)
Definition server_kex : net KexResult :=
  let server_version := SSH_VERSION_STRING in
  send_version_string server_version;;
  client_version ← recv_version_string;
  server_kexinit_payload ← on_rng (λ r, let '(p, r) := build_kexinit_payload r in (Ok p, r));
  send_packet (SshPacket_new KexInit server_kexinit_payload);;
  client_kexinit_pkt ← expect KexInit (Protocol "Expected KEXINIT");
  let client_kexinit_payload := payload client_kexinit_pkt in
  kex_init_pkt ← expect KexEcdhInit (Protocol "Expected KEX_ECDH_INIT");
  '(client_pub, _) ← lift (read_string (payload kex_init_pkt));
  if decide (len client_pub ≠ 32) then fail (KeyExchange "Invalid client public key length") else
  kex ← on_rng (λ r, let '(k, r) := KexServer_new (K:=K) r in (Ok k, r));
  let server_pub := server_ephemeral_pub kex in
  let full_client_kexinit := msg_u8 KexInit :: client_kexinit_payload in
  let full_server_kexinit := msg_u8 KexInit :: server_kexinit_payload in
  kex_result ← lift (KexServer_complete client_pub client_version server_version
                       full_client_kexinit full_server_kexinit host_key_blob kex).1;
  let signature := compute_hmac (bs "host-key-secret") (exchange_hash kex_result) in
  send_packet (kex_reply server_pub signature);;
  send_packet (SshPacket_new NewKeys []);;
  expect NewKeys (Protocol "Expected NEWKEYS");;
  mret kex_result.

(** The six keys of RFC 4253 section 7.2, with the letters both ends use. *)
Record session_secrets := mkSecrets {
  iv_cs : bytes; iv_sc : bytes; enc_key_cs : bytes; enc_key_sc : bytes;
  mac_key_cs : bytes; mac_key_sc : bytes
}.

Definition derive_secrets (r : KexResult) : SshResult session_secrets :=
  let session_id := exchange_hash r in
  let derive x n := derive_key (shared_secret r) (exchange_hash r) x session_id n in
  iv_cs ← derive x41 16;
  iv_sc ← derive x42 16;
  enc_key_cs ← derive x43 32;
  enc_key_sc ← derive x44 32;
  mac_key_cs ← derive x45 32;
  mac_key_sc ← derive x46 32;
  Ok (mkSecrets iv_cs iv_sc enc_key_cs enc_key_sc mac_key_cs mac_key_sc).

Definition server_install_keys (r : KexResult) : net unit :=
  s ← lift (derive_secrets r);
  cipher_pair ← lift (CipherPair_new (enc_key_sc s) (iv_sc s) (enc_key_cs s) (iv_cs s));
  on_keys (λ k, (tt, install_keys (exchange_hash r) cipher_pair (mac_key_sc s) (mac_key_cs s) k)).

(** Step 3: the service request. *)
Definition server_service : net unit :=
  service_req ← expect ServiceRequest (Protocol "Expected SERVICE_REQUEST");
  '(service_name, _) ← lift (read_utf8 (payload service_req));
  send_packet (build_service_accept service_name).

(** Step 4: what one authentication request is answered, and the loop. *)
Definition credential_accepted (user_db : UserDatabase) (req : AuthRequest) : bool :=
  match credential req with
  | Password password => verify_password user_db (username req) password
  | PublicKey _ key_blob _ => is_key_authorized user_db (username req) key_blob
  end.

Definition auth_step (user_db : UserDatabase) : net bool :=
  auth_pkt ← expect UserAuthRequest (Protocol "Expected USERAUTH_REQUEST");
  auth_req ← lift (AuthRequest_parse (payload auth_pkt));
  if credential_accepted user_db auth_req then
    send_packet build_auth_success;;
    mret true
  else
    send_packet (build_auth_failure [bs "password"; bs "publickey"] false);;
    mret false.

Fixpoint auth_loop (fuel : nat) (user_db : UserDatabase) : net unit :=
  match fuel with
  | O => λ l, (OutOfFuel, l)
  | S fuel =>
      authenticated ← auth_step user_db;
      if authenticated : bool then mret tt else auth_loop fuel user_db
  end.

End handshake.

(** ** The channel loop *)

(** What a connection's task owns: the link, the channels and the SFTP handler with
    the file system. *)
Record Conn (C R F : Type) := mkConn {
  cn_link : Link C R;
  cn_channels : ChannelManager;
  cn_sftp : SftpState F
}.
#[global] Arguments mkConn {C R F} _ _ _.
#[global] Arguments cn_link {C R F} _.
#[global] Arguments cn_channels {C R F} _.
#[global] Arguments cn_sftp {C R F} _.

Section connection.
Context {C R K F H : Type} `{!StreamCipher C, hmac_impl : !Hmac, rng_impl : !Rng R,
  x25519_impl : !X25519 R K, sha_impl : !Sha256, fs_impl : !FileSystem F H,
  proc_impl : !Processes F, order_impl : !MapOrder} `{profile : !BuildProfile}.
Abbreviation conn := (io SshError (Conn C R F)).

Definition on_link {A} (m : io SshError (Link C R) A) : conn A := λ c,
  let '(a, l) := m (cn_link c) in (a, mkConn l (cn_channels c) (cn_sftp c)).

Definition on_channels {A} (m : io SshError ChannelManager A) : conn A := λ c,
  let '(a, m) := m (cn_channels c) in (a, mkConn (cn_link c) m (cn_sftp c)).

Definition on_sftp {A} (m : io SshError (SftpState F) A) : conn A := λ c,
  let '(a, s) := m (cn_sftp c) in (a, mkConn (cn_link c) (cn_channels c) s).

Definition send (packet : SshPacket) : conn unit := on_link (send_packet packet).

(** [channels.find_by_remote_id(id).ok_or_else(...)?.remote_id]. *)
Definition known_remote_id (id : Z) : conn Z :=
  ch ← gets (λ c, find_by_remote_id id (cn_channels c));
  match ch with
  | Some ch => mret (remote_id ch)
  | None => fail (ChannelError "Unknown channel")
  end.

(** A CHANNEL_SUCCESS or CHANNEL_FAILURE for a recipient. *)
Definition channel_reply (m : MessageType) (remote : Z) : SshPacket :=
  SshPacket_new m (write_u32 [] remote).

Definition reply_if (want_reply : bool) (m : MessageType) (id : Z) : conn unit :=
  if want_reply then
    remote_id ← known_remote_id id;
    send (channel_reply m remote_id)
  else mret tt.

Definition handle_channel_open (payload : bytes) : conn unit :=
  msg ← lift (ChannelOpenMsg_parse payload);
  local_id ← on_channels (accept_channel (open_sender_channel msg) (open_channel_type msg)
                            (open_initial_window msg) (open_max_packet msg));
  send (build_channel_open_confirmation (open_sender_channel msg) local_id
          DEFAULT_WINDOW_SIZE DEFAULT_MAX_PACKET_SIZE).

Definition handle_exec (msg : ChannelRequestMsg) : conn unit :=
  '(command, _) ← lift (read_utf8 (req_data msg));
  output ← on_sftp (on_disk (execute_command command));
  remote_id ← known_remote_id (req_recipient_channel msg);
  (if req_want_reply msg then send (channel_reply ChannelSuccess remote_id) else mret tt);;
  send (build_channel_data remote_id output);;
  send (build_channel_eof remote_id);;
  send (build_channel_close remote_id).

Definition handle_subsystem (msg : ChannelRequestMsg) : conn unit :=
  '(subsystem, _) ← lift (read_utf8 (req_data msg));
  reply_if (req_want_reply msg)
    (if decide (subsystem = bs "sftp") then ChannelSuccess else ChannelFailure)
    (req_recipient_channel msg).

Definition handle_channel_request (payload : bytes) : conn unit :=
  msg ← lift (ChannelRequestMsg_parse payload);
  let ty := req_request_type msg in
  if decide (ty = bs "exec") then handle_exec msg
  else if decide (ty = bs "shell") then
    reply_if (req_want_reply msg) ChannelSuccess (req_recipient_channel msg)
  else if decide (ty = bs "subsystem") then handle_subsystem msg
  else if decide (ty = bs "pty-req") then
    reply_if (req_want_reply msg) ChannelSuccess (req_recipient_channel msg)
  else reply_if (req_want_reply msg) ChannelFailure (req_recipient_channel msg).

(** The SFTP packet at the start of the channel data, if there is a whole one. *)
Definition sftp_request (d : bytes) : option SftpPacket :=
  if decide (len d >= 9) then
    let sftp_len := be_decode (take 4 d) in
    if decide (sftp_len + 4 <= len d ∧ sftp_len >= 5) then
      match SftpPacket_decode (take (Z.to_nat sftp_len) (drop 4 d)) with
      | Ok pkt => Some pkt
      | _ => None
      end
    else None
  else None.

Definition handle_channel_data (payload : bytes) : conn unit :=
  msg ← lift (ChannelDataMsg_parse payload);
  match sftp_request (data_data msg) with
  | None => mret tt
  | Some pkt =>
      response ← on_sftp (handle_request (H:=H) pkt);
      let encoded := SftpPacket_encode response in
      remote_id ← known_remote_id (data_recipient_channel msg);
      send (build_channel_data remote_id encoded)
  end.

Definition handle_window_adjust (payload : bytes) : conn unit :=
  '(recipient, cursor) ← lift (read_u32 payload);
  '(bytes_to_add, _) ← lift (read_u32 cursor);
  on_channels (modify (find_by_remote_id_mut recipient (λ ch,
    set_remote_window (u32_saturating_add (remote_window ch) bytes_to_add) ch))).

Definition handle_eof (payload : bytes) : conn unit :=
  '(recipient, _) ← lift (read_u32 payload);
  on_channels (modify (find_by_remote_id_mut recipient set_eof_received)).

Definition handle_channel_close (payload : bytes) : conn unit :=
  '(recipient, _) ← lift (read_u32 payload);
  ch ← gets (λ c, find_by_remote_id recipient (cn_channels c));
  match ch with
  | Some ch => if negb (closed ch) then send (build_channel_close (remote_id ch)) else mret tt
  | None => mret tt
  end.

(** The [match msg_type] of the loop; [true] means [break]. *)
Definition handle_message (pkt : SshPacket) : conn bool :=
  match from_u8 (msg_type pkt) with
  | Some ChannelOpen => handle_channel_open (payload pkt);; mret false
  | Some ChannelRequest => handle_channel_request (payload pkt);; mret false
  | Some ChannelData => handle_channel_data (payload pkt);; mret false
  | Some ChannelWindowAdjust => handle_window_adjust (payload pkt);; mret false
  | Some ChannelEof => handle_eof (payload pkt);; mret false
  | Some ChannelClose => handle_channel_close (payload pkt);; mret false
  | Some Disconnect => mret true
  | _ => mret false
  end.

(** [match recv_packet(...) { Ok(p) => p, Err(ConnectionClosed) => break, Err(e) =>
    return Err(e) }]: [None] is the break. *)
Definition recv_or_closed : conn (option SshPacket) := λ c,
  match on_link recv_packet c with
  | (Ok p, c) => (Ok (Some p), c)
  | (Err e, c) => if decide (e = ConnectionClosed) then (Ok None, c) else (Err e, c)
  | (Panic s, c) => (Panic s, c)
  | (OutOfFuel, c) => (OutOfFuel, c)
  end.

Fixpoint channel_loop (fuel : nat) : conn unit :=
  match fuel with
  | O => λ c, (OutOfFuel, c)
  | S fuel =>
      pkt ← recv_or_closed;
      match pkt with
      | None => mret tt
      | Some pkt =>
          break ← handle_message pkt;
          if break : bool then mret tt else channel_loop fuel
      end
  end.

(** Every packet takes bytes of the stream, so its length bounds the iterations. *)
Definition stream_fuel (c : Conn C R F) : nat := S (length (rd_data (lk_reader (cn_link c)))).

Definition handle_connection (user_db : UserDatabase) (sftp_root : bytes) : conn unit :=
  on_link (on_keys (λ _, (tt, SessionKeys_new)));;
  on_channels (modify (λ _, ChannelManager_new));;
  kex_result ← on_link (server_kex (K:=K));
  on_link (server_install_keys kex_result);;
  on_link server_service;;
  fuel ← gets stream_fuel;
  on_link (auth_loop fuel user_db);;
  on_sftp (set_handler (λ _, SftpHandler_new sftp_root));;
  fuel ← gets stream_fuel;
  channel_loop fuel.

End connection.

(** ** The server against any peer: the handshake *)

Section handshake_safe.
Context {C R K : Type} `{!StreamCipher C, !StreamCipherLaws C, hmac_impl : !Hmac, hmac_laws : !HmacLaws,
  rng_impl : !Rng R, x25519_impl : !X25519 R K, sha_impl : !Sha256, sha_laws : !Sha256Laws}
  `{profile : !BuildProfile}.
Abbreviation link := (Link C R).

Lemma safe_expect m e (l : link) : safe_at link_step (expect m e) l.
Proof. unfold expect. run_safe. Qed.
Hint Resolve safe_expect : safe.

Lemma derive_secrets_no_fuel r : derive_secrets r ≠ OutOfFuel.
Proof.
  assert (Hd : ∀ x n, 0 ≤ n →
    returns (derive_key (shared_secret r) (exchange_hash r) x (exchange_hash r) n) = true).
  { intros x n Hn. by destruct (derive_key_len (shared_secret r) (exchange_hash r) x (exchange_hash r) n Hn)
      as (k & -> & _). }
  apply returns_no_fuel. unfold derive_secrets.
  repeat (apply bind_returns; [by apply Hd|intros ? _]). done.
Qed.

Lemma CipherPair_new_no_fuel a b c d : CipherPair_new (C:=C) a b c d ≠ OutOfFuel.
Proof.
  apply returns_no_fuel. unfold CipherPair_new, AesCipher_new.
  repeat (apply bind_returns; [by repeat case_match|intros ? _]). done.
Qed.

Lemma KexServer_complete_no_fuel pub cv sv ck sk hk (s : KexServer K) :
  (KexServer_complete (R:=R) pub cv sv ck sk hk s).1 ≠ OutOfFuel.
Proof. unfold KexServer_complete. by case_match. Qed.
Hint Resolve derive_secrets_no_fuel CipherPair_new_no_fuel KexServer_complete_no_fuel : safe.

Lemma safe_server_kex (l : link) : safe_at link_step (server_kex (K:=K)) l.
Proof.
  unfold server_kex, send_version_string.
  run_safe; apply safe_on_rng; [by destruct build_kexinit_payload|by destruct KexServer_new].
Qed.

(** Installing the keys reads nothing. *)
Definition reads (l l' : link) : Prop := (unread l' ≤ unread l)%nat.

#[export] Instance reads_pre : PreOrder reads.
Proof. unfold reads. split; [by intros l|]. intros l1 l2 l3; lia. Qed.

Lemma link_step_reads {A} (m : io SshError link A) l : safe_at link_step m l → safe_at reads m l.
Proof. apply safe_mono. intros ? [? _]; done. Qed.

Lemma safe_server_install r (l : link) : safe_at reads (server_install_keys r) l.
Proof. unfold server_install_keys. run_safe. split; [done|]. unfold reads. reflexivity. Qed.

Lemma safe_server_service (l : link) : safe_at link_step server_service l.
Proof. unfold server_service. run_safe. Qed.

Lemma safe_auth_step db (l : link) : safe_at link_step (auth_step db) l.
Proof. unfold auth_step. run_safe. Qed.

Lemma expect_ok m e (l l' : link) p :
  expect m e l = (Ok p, l') → recv_packet l = (Ok p, l') ∧ msg_type p = msg_u8 m.
Proof.
  unfold expect. intros (q & l1 & Hq & H)%io_bind_ok. case_decide as Hm; [done|].
  unfold mret, io_ret in H. simplify_eq. split; [done|]. by destruct (decide (msg_type p = msg_u8 m)).
Qed.

(** What answering one authentication request takes. *)
Lemma auth_step_ok db (l l' : link) b :
  auth_step db l = (Ok b, l') →
  (unread l' + 8 ≤ unread l)%nat ∧
  ∃ p l1 req, recv_packet l = (Ok p, l1) ∧ msg_type p = msg_u8 UserAuthRequest ∧
    AuthRequest_parse (payload p) = Ok req ∧ credential_accepted db req = b.
Proof.
  unfold auth_step. intros (p & l1 & [Hp Hm]%expect_ok & H)%io_bind_ok.
  apply io_bind_ok in H as (req & l2 & Hreq & H). unfold lift in Hreq. injection Hreq as Hreq <-.
  assert (Hs : ∀ q b', (send_packet q;; mret b') l1 = (Ok b, l') → b' = b ∧ (unread l' ≤ unread l1)%nat).
  { intros q b' Hs. assert (safe_at link_step (send_packet q;; mret b') l1) as Hsafe by run_safe.
    pose proof (safe_ok _ _ _ _ _ Hsafe Hs) as [Hu _].
    apply io_bind_ok in Hs as (? & ? & _ & Hs). unfold mret, io_ret in Hs. by simplify_eq. }
  apply recv_packet_progress in Hp as Hprog. destruct Hprog as [Hprog _].
  destruct (credential_accepted db req) eqn:Ec; apply Hs in H as [<- Hu];
    (split; [unfold unread, len in *; lia|eauto 10]).
Qed.

Lemma safe_auth_loop fuel db (l : link) :
  (unread l < fuel)%nat → safe_at link_step (auth_loop fuel db) l.
Proof.
  revert l. induction fuel as [|fuel IH]; intros l Hf; [lia|]. cbn [auth_loop].
  apply safe_bind; [apply _|apply safe_auth_step|]. intros [] l' Hl' _; [apply safe_ret, _|].
  apply auth_step_ok in Hl' as [Hu _]. apply IH. lia.
Qed.
End handshake_safe.
#[export] Hint Resolve safe_expect derive_secrets_no_fuel CipherPair_new_no_fuel : safe.

(** ** The server against any peer: the channel loop *)

Section connection_safe.
Context {C R K F H : Type} `{!StreamCipher C, !StreamCipherLaws C, hmac_impl : !Hmac, hmac_laws : !HmacLaws,
  rng_impl : !Rng R, x25519_impl : !X25519 R K, sha_impl : !Sha256, sha_laws : !Sha256Laws,
  fs_impl : !FileSystem F H, proc_impl : !Processes F, order_impl : !MapOrder} `{profile : !BuildProfile}.
Abbreviation conn := (Conn C R F).

(** What every message handler preserves of the connection. *)
Definition conn_step (c c' : conn) : Prop := link_step (cn_link c) (cn_link c').

#[export] Instance conn_step_pre : PreOrder conn_step.
Proof. unfold conn_step. split; [by intros c|]. intros c1 c2 c3 ? ?. by transitivity (cn_link c2). Qed.

Lemma safe_on_link {A} (m : io SshError (Link C R) A) (c : conn) :
  safe_at link_step m (cn_link c) → safe_at conn_step (on_link m) c.
Proof. unfold safe_at, on_link, conn_step. by destruct (m (cn_link c)). Qed.

Lemma safe_on_channels {A} (m : io SshError ChannelManager A) (c : conn) :
  (m (cn_channels c)).1 ≠ OutOfFuel → safe_at conn_step (on_channels m) c.
Proof. unfold safe_at, on_channels. destruct (m (cn_channels c)). intros Hm. split; [done|]. unfold conn_step. reflexivity. Qed.

Lemma safe_on_sftp {A} (m : io SshError (SftpState F) A) (c : conn) :
  (m (cn_sftp c)).1 ≠ OutOfFuel → safe_at conn_step (on_sftp m) c.
Proof. unfold safe_at, on_sftp. destruct (m (cn_sftp c)). intros Hm. split; [done|]. unfold conn_step. reflexivity. Qed.

Lemma accept_channel_no_fuel r ty w p m : (accept_channel r ty w p m).1 ≠ OutOfFuel.
Proof.
  unfold accept_channel, take_id, u32_add, mbind, io_bind, gets, lift, modify, mret, io_ret.
  repeat case_match; simplify_eq; done.
Qed.

(** An SFTP request, under the relation that says nothing of the state. *)
Abbreviation answers := (safe_at (λ _ _ : SftpState F, True)).

#[local] Instance any_state_pre : PreOrder (λ _ _ : SftpState F, True).
Proof. by split. Qed.

Lemma answers_or_return {A} (m : SshResult A) r k st :
  returns m = true → (∀ a, answers (k a) st) → answers (or_return m r k) st.
Proof. intros Hm Hk. destruct m; [apply Hk|by apply safe_ret|done..]. Qed.

Lemma answers_resolved req r k st : (∀ p, answers (k p) st) → answers (resolved (H:=H) req r k) st.
Proof. intros Hk. by apply (answers_or_return _ r k st); [apply resolve_path_returns|]. Qed.

Lemma answers_on_disk {A} (f : F → A * F) st : answers (on_disk f) st.
Proof. unfold on_disk, step, safe_at. by destruct (f (disk st)). Qed.

Lemma answers_alloc st : answers alloc_handle st.
Proof. unfold alloc_handle, u32_add. run_safe; [by repeat case_match|done]. Qed.
Hint Resolve answers_on_disk answers_alloc : safe.

Lemma handle_request_no_fuel pkt (st : SftpState F) : (handle_request (H:=H) pkt st).1 ≠ OutOfFuel.
Proof.
  enough (answers (handle_request (H:=H) pkt) st) as [? _] by done.
  unfold handle_request, handle_realpath, handle_stat, handle_opendir, handle_readdir, handle_close,
    handle_open, handle_read, handle_write, write_file, handle_mkdir, handle_rmdir, handle_remove,
    path_operation, set_handler.
  repeat first
    [ apply answers_or_return; [by auto with returns|intros ?]
    | apply answers_resolved; intros ?
    | progress run_safe
    | by apply safe_modify ].
Qed.

Lemma safe_send p (c : conn) : safe_at conn_step (send p) c.
Proof. apply safe_on_link, safe_send_packet. Qed.
Hint Resolve safe_send : safe.

Lemma safe_known_remote_id id (c : conn) : safe_at conn_step (known_remote_id id) c.
Proof. unfold known_remote_id. run_safe. Qed.
Hint Resolve safe_known_remote_id : safe.

Lemma safe_reply_if b m id (c : conn) : safe_at conn_step (reply_if b m id) c.
Proof. unfold reply_if. run_safe. Qed.
Hint Resolve safe_reply_if : safe.

Lemma safe_handle_message p (c : conn) : safe_at conn_step (handle_message (H:=H) p) c.
Proof.
  unfold handle_message, handle_channel_open, handle_channel_request, handle_exec, handle_subsystem,
    handle_channel_data, handle_window_adjust, handle_eof, handle_channel_close.
  destruct (from_u8 (msg_type p)) as [[]|]; run_safe.
  - by apply safe_on_channels, accept_channel_no_fuel.
  - by apply safe_on_channels.
  - by apply safe_on_sftp, handle_request_no_fuel.
  - by apply safe_on_channels.
  - apply safe_on_sftp. unfold on_disk, step. by destruct execute_command.
Qed.

Lemma recv_or_closed_ok (c c' : conn) p :
  recv_or_closed c = (Ok (Some p), c') → on_link recv_packet c = (Ok p, c').
Proof.
  unfold recv_or_closed. destruct (on_link recv_packet c) as [[] c1]; intros; simplify_eq; try done.
  by case_decide.
Qed.

Lemma safe_recv_or_closed (c : conn) : safe_at conn_step recv_or_closed c.
Proof.
  assert (safe_at conn_step (on_link recv_packet) c) as [Hf Hr] by apply safe_on_link, safe_recv_packet.
  unfold safe_at, recv_or_closed. destruct (on_link recv_packet c) as [[] c1]; try done.
  by case_decide.
Qed.

Lemma on_link_progress (c c' : conn) p :
  on_link recv_packet c = (Ok p, c') → (unread (cn_link c') + 8 ≤ unread (cn_link c))%nat.
Proof.
  unfold on_link. destruct (recv_packet (cn_link c)) as [o l] eqn:Hp. intros ?; simplify_eq.
  apply recv_packet_progress in Hp as [Hp _]. cbn. unfold unread, len in *. lia.
Qed.

Lemma safe_channel_loop fuel (c : conn) :
  (unread (cn_link c) < fuel)%nat → safe_at conn_step (channel_loop (H:=H) fuel) c.
Proof.
  revert c. induction fuel as [|fuel IH]; intros c Hf; [lia|]. cbn [channel_loop].
  apply safe_bind; [apply _|apply safe_recv_or_closed|]. intros [p|] c1 Hp _; [|apply safe_ret, _].
  apply recv_or_closed_ok, on_link_progress in Hp.
  apply safe_bind; [apply _|apply safe_handle_message|]. intros [] c2 _ [Hu _]; [apply safe_ret, _|].
  apply IH. lia.
Qed.

(** ** The whole connection *)

Definition conn_reads (c c' : conn) : Prop := reads (cn_link c) (cn_link c').

#[export] Instance conn_reads_pre : PreOrder conn_reads.
Proof. unfold conn_reads. split; [by intros c|]. intros c1 c2 c3 ? ?. by transitivity (cn_link c2). Qed.

Lemma reads_on_link {A} (m : io SshError (Link C R) A) (c : conn) :
  safe_at reads m (cn_link c) → safe_at conn_reads (on_link m) c.
Proof. unfold safe_at, on_link, conn_reads. by destruct (m (cn_link c)). Qed.

Lemma conn_step_reads {A} (m : io SshError conn A) (c : conn) :
  safe_at conn_step m c → safe_at conn_reads m c.
Proof. apply safe_mono. by intros ? [? _]. Qed.

Lemma safe_handle_connection db sftp_root (c : conn) :
  safe_at conn_reads (handle_connection (K:=K) (H:=H) db sftp_root) c.
Proof.
  unfold handle_connection.
  apply safe_bind; [apply _|apply reads_on_link; split; [done|unfold reads; reflexivity]|intros _ c1 _ _].
  apply safe_bind; [apply _|by apply conn_step_reads, safe_on_channels|intros _ c2 _ _].
  apply safe_bind; [apply _|apply reads_on_link, link_step_reads, safe_server_kex|intros r c3 _ _].
  apply safe_bind; [apply _|apply reads_on_link, safe_server_install|intros _ c4 _ _].
  apply safe_bind; [apply _|apply reads_on_link, link_step_reads, safe_server_service|intros _ c5 _ _].
  apply safe_bind; [apply _|apply safe_gets, _|intros fuel c6 [= <- <-] _].
  apply safe_bind; [apply _|apply reads_on_link, link_step_reads, safe_auth_loop;
    unfold stream_fuel, unread; lia|intros _ c7 _ _].
  apply safe_bind; [apply _|by apply conn_step_reads, safe_on_sftp|intros _ c8 _ _].
  apply safe_bind; [apply _|apply safe_gets, _|intros fuel c9 [= <- <-] _].
  apply conn_step_reads, safe_channel_loop. unfold stream_fuel, unread. lia.
Qed.

(** A phase that only uses the link leaves the rest of the connection alone. *)
Lemma on_link_phase {A B} (m : io SshError (Link C R) A) (k : A → io SshError conn B) c
    (Q : conn → Prop) :
  (∀ l, Q (mkConn l (cn_channels c) (cn_sftp c))) →
  (∀ a l, m (cn_link c) = (Ok a, l) → Q (k a (mkConn l (cn_channels c) (cn_sftp c))).2) →
  Q ((on_link m ≫= k) c).2.
Proof.
  intros Hq Hk. unfold mbind, io_bind, on_link. destruct (m (cn_link c)) as [[a|e|s|] l] eqn:E1; try apply Hq.
  by apply Hk.
Qed.

(** The login loop: rejected requests, then an accepted one. *)
Definition rejected db (l l' : Link C R) : Prop := auth_step db l = (Ok false, l').

Lemma auth_loop_ok fuel db (l l' : Link C R) u :
  auth_loop fuel db l = (Ok u, l') → ∃ l1, rtc (rejected db) l l1 ∧ auth_step db l1 = (Ok true, l').
Proof.
  revert l. induction fuel as [|fuel IH]; intros l; [done|]. cbn [auth_loop].
  intros ([] & l1 & E1 & H1)%io_bind_ok.
  - unfold mret, io_ret in H1. simplify_eq. by exists l.
  - apply IH in H1 as (l2 & Hr & Ha). exists l2. split; [by eapply rtc_l|done].
Qed.

Lemma rejected_secured db (l l' : Link C R) :
  rtc (rejected db) l l' → session_secured (lk_keys l') = session_secured (lk_keys l).
Proof.
  induction 1 as [l|l1 l2 l3 Hr _ IH]; [done|]. rewrite IH.
  by apply (safe_ok _ _ _ _ _ (safe_auth_step db l1)) in Hr as [_ ?].
Qed.

Lemma server_install_secured r (l l' : Link C R) u :
  server_install_keys r l = (Ok u, l') →
  is_encrypted (lk_keys l') = true ∧ is_Some (recv_mac_key (lk_keys l')).
Proof.
  unfold server_install_keys. intros (s & l1 & _ & H1)%io_bind_ok.
  apply io_bind_ok in H1 as (cp & l2 & _ & H1). unfold on_keys, install_keys in H1. simplify_eq. by split.
Qed.

(** What the server has been shown by the time it lets a client past the login. *)
Definition logged_in db (l : Link C R) : Prop :=
  ∃ l0 l1 p l2 req,
    (r ← server_kex (K:=K); server_install_keys r;; server_service) l = (Ok tt, l0) ∧
    rtc (rejected db) l0 l1 ∧
    is_encrypted (lk_keys l1) = true ∧ is_Some (recv_mac_key (lk_keys l1)) ∧
    recv_packet l1 = (Ok p, l2) ∧ msg_type p = msg_u8 UserAuthRequest ∧
    AuthRequest_parse (payload p) = Ok req ∧ credential_accepted db req = true.

Lemma phases_logged_in db (l l3 l4 l5 l6 : Link C R) r fuel u1 u2 u3 :
  server_kex (K:=K) l = (Ok r, l3) → server_install_keys r l3 = (Ok u1, l4) →
  server_service l4 = (Ok u2, l5) → auth_loop fuel db l5 = (Ok u3, l6) → logged_in db l.
Proof.
  intros E1 E2 E3 (l1 & Hr & Ha)%auth_loop_ok.
  apply auth_step_ok in Ha as (_ & p & l2 & req & Ha). exists l5, l1, p, l2, req.
  pose proof (safe_ok _ _ _ _ _ (safe_server_service l4) E3) as [_ Hs].
  apply rejected_secured in Hr as Hrs. rewrite Hs in Hrs. unfold session_secured in Hrs.
  apply server_install_secured in E2 as Hi. destruct Hi as [He Hm].
  injection Hrs as _ He' _ Hm'. rewrite He', Hm'. split; [|by split_and!; destruct_and!].
  rewrite (io_bind_run _ _ _ _ _ E1), (io_bind_run _ _ _ _ _ E2). by destruct u2.
Qed.
End connection_safe.

(** C17.  The server's loops end whatever the peer sends: [handle_connection] never
    runs out of fuel, on any input stream, with any keys, disk and command
    behaviour, so it always comes to an answer (or a panic); and it never reads
    more than the stream holds. *)
Theorem handle_connection_terminates {C R K F H} `{!StreamCipher C, !StreamCipherLaws C,
    hmac_impl : !Hmac, hmac_laws : !HmacLaws, rng_impl : !Rng R, x25519_impl : !X25519 R K,
    sha_impl : !Sha256, sha_laws : !Sha256Laws, fs_impl : !FileSystem F H, proc_impl : !Processes F,
    order_impl : !MapOrder} `{profile : !BuildProfile} db sftp_root (c : Conn C R F) :
  (handle_connection (K:=K) (H:=H) db sftp_root c).1 ≠ OutOfFuel ∧
  (unread (cn_link (handle_connection (K:=K) (H:=H) db sftp_root c).2) ≤ unread (cn_link c))%nat.
Proof. apply safe_handle_connection. Qed.

(** Nothing is reached without a login. *)
Lemma access_needs_login {C R K F H} `{!StreamCipher C, !StreamCipherLaws C,
    hmac_impl : !Hmac, hmac_laws : !HmacLaws, rng_impl : !Rng R, x25519_impl : !X25519 R K,
    sha_impl : !Sha256, sha_laws : !Sha256Laws, fs_impl : !FileSystem F H, proc_impl : !Processes F,
    order_impl : !MapOrder} `{profile : !BuildProfile} db sftp_root (c : Conn C R F) :
  let c' := (handle_connection (K:=K) (H:=H) db sftp_root c).2 in
  (cn_channels c' = ChannelManager_new ∧ cn_sftp c' = cn_sftp c) ∨
  logged_in (K:=K) db (mkLink (lk_reader (cn_link c)) (lk_writer (cn_link c)) SessionKeys_new (lk_rng (cn_link c))).
Proof.
  intros c'. subst c'. unfold handle_connection.
  erewrite io_bind_run by reflexivity. erewrite io_bind_run by reflexivity. cbn [cn_link cn_channels cn_sftp].
  apply on_link_phase; [by left|]. cbn [cn_link cn_channels cn_sftp]. intros r l3 E3.
  apply on_link_phase; [by left|]. cbn [cn_link cn_channels cn_sftp]. intros u4 l4 E4.
  apply on_link_phase; [by left|]. cbn [cn_link cn_channels cn_sftp]. intros u5 l5 E5.
  erewrite io_bind_run by reflexivity.
  apply on_link_phase; [by left|]. cbn [cn_link cn_channels cn_sftp]. intros u6 l6 E6.
  right. by eapply phases_logged_in.
Qed.

(** C8.  No access before login: whatever the peer sends, either the connection ends
    with the disk as it was and without any channel (so no command has run and no
    SFTP request has been served), or the server went through the handshake, with
    encryption and MAC on, rejected some number of authentication requests and then
    received, on that protected link, a request whose credential the user
    database accepts. *)
Theorem no_access_before_login {C R K F H} `{!StreamCipher C, !StreamCipherLaws C,
    hmac_impl : !Hmac, hmac_laws : !HmacLaws, rng_impl : !Rng R, x25519_impl : !X25519 R K,
    sha_impl : !Sha256, sha_laws : !Sha256Laws, fs_impl : !FileSystem F H, proc_impl : !Processes F,
    order_impl : !MapOrder} `{profile : !BuildProfile} db sftp_root (c : Conn C R F) :
  let c' := (handle_connection (K:=K) (H:=H) db sftp_root c).2 in
  (cn_channels c' = ChannelManager_new ∧ cn_sftp c' = cn_sftp c) ∨
  logged_in (K:=K) db (mkLink (lk_reader (cn_link c)) (lk_writer (cn_link c)) SessionKeys_new (lk_rng (cn_link c))).
Proof. apply access_needs_login. Qed.

(** ** Requests on channels *)

Section requests.
Context {C R K F H : Type} `{!StreamCipher C, !StreamCipherLaws C, hmac_impl : !Hmac, hmac_laws : !HmacLaws,
  rng_impl : !Rng R, rng_laws : !RngLaws R, fs_impl : !FileSystem F H, proc_impl : !Processes F,
  order_impl : !MapOrder} `{profile : !BuildProfile}.

Definition with_disk (fs : F) (c : Conn C R F) : Conn C R F :=
  mkConn (cn_link c) (cn_channels c) (mkSftp (handler (cn_sftp c)) fs).

Lemma known_remote_id_none id (c : Conn C R F) :
  find_by_remote_id id (cn_channels c) = None →
  known_remote_id id c = (Err (ChannelError "Unknown channel"), c).
Proof. intros Hn. unfold known_remote_id. erewrite io_bind_run by reflexivity. by rewrite Hn. Qed.

Lemma known_remote_id_some id ch (c : Conn C R F) :
  find_by_remote_id id (cn_channels c) = Some ch → known_remote_id id c = (Ok (remote_id ch), c).
Proof. intros Hn. unfold known_remote_id. erewrite io_bind_run by reflexivity. by rewrite Hn. Qed.

(** An exec request up to the point where its channel is looked up. *)
Lemma handle_exec_request id command want_reply (c : Conn C R F) output fs' :
  is_u32 id → wire_utf8 command → execute_command command (disk (cn_sftp c)) = (output, fs') →
  handle_channel_request (payload (build_exec_request id command want_reply)) c =
  (remote_id ← known_remote_id id;
   (if want_reply then send (channel_reply ChannelSuccess remote_id) else mret tt);;
   send (build_channel_data remote_id output);;
   send (build_channel_eof remote_id);;
   send (build_channel_close remote_id)) (with_disk fs' c).
Proof.
  intros Hid Hc Hrun. unfold handle_channel_request.
  erewrite io_bind_run by (unfold lift; by rewrite parse_exec_request).
  cbn [req_request_type]. rewrite decide_True by done. unfold handle_exec. cbn [req_data].
  erewrite io_bind_run by (unfold lift; by rewrite read_utf8_last). cbv beta iota.
  erewrite io_bind_run; [reflexivity|]. unfold on_sftp, on_disk, step. by rewrite Hrun.
Qed.

Lemma send_packet_too_large p (l : Link C R) :
  ¬ fits (block_size_of (lk_keys l)) p → ∃ s l', send_packet p l = (Err (InvalidPacket s), l').
Proof.
  intros Hf. destruct (serialize_too_large p _ (lk_rng l) Hf) as [s Hs]. exists s. unfold send_packet.
  erewrite io_bind_run by reflexivity. unfold mbind at 1, io_bind at 1, on_rng at 1. rewrite Hs. eauto.
Qed.

(** Where an exec request goes wrong: the command has run. *)
Lemma exec_unknown_channel id command want_reply (c : Conn C R F) output fs' :
  is_u32 id → wire_utf8 command → execute_command command (disk (cn_sftp c)) = (output, fs') →
  find_by_remote_id id (cn_channels c) = None →
  handle_message (H:=H) (build_exec_request id command want_reply) c =
  (Err (ChannelError "Unknown channel"), with_disk fs' c).
Proof.
  intros Hid Hc Hrun Hn. unfold handle_message. change (from_u8 _) with (Some ChannelRequest). cbv iota.
  apply io_bind_fails. rewrite (handle_exec_request _ _ _ _ _ _ Hid Hc Hrun).
  apply io_bind_fails. by apply known_remote_id_none.
Qed.

Lemma exec_output_too_large id ch command (want_reply : bool) rd out k r chs sf output fs' :
  is_u32 id → wire_utf8 command → execute_command command (disk sf) = (output, fs') →
  find_by_remote_id id chs = Some ch → len output > MAX_PACKET_SIZE - 14 →
  ∃ s c', handle_message (H:=H) (build_exec_request id command want_reply)
            (mkConn (mkLink rd (mkWriter out None) k r : Link C R) chs sf) = (Err (InvalidPacket s), c') ∧
          cn_sftp c' = mkSftp (handler sf) fs'.
Proof.
  intros Hid Hc Hrun Hf Hl. set (c := mkConn _ chs sf).
  assert (Hbig : ∀ k r out, ∃ s l',
    send (build_channel_data (remote_id ch) output)
      (mkConn (mkLink rd (mkWriter out None) k r : Link C R) chs (mkSftp (handler sf) fs')) =
    (Err (InvalidPacket s), mkConn l' chs (mkSftp (handler sf) fs'))).
  { intros k' r' out'. destruct (send_packet_too_large (build_channel_data (remote_id ch) output)
      (mkLink rd (mkWriter out' None) k' r')) as (s & l' & Hs).
    - unfold fits, build_channel_data. cbn [payload SshPacket_new]. autorewrite with wire. len_simpl.
      match goal with |- context [padding_len ?b ?n] =>
        pose proof (padding_len_spec b n ltac:(lia) ltac:(len_lia)) as [? _] end.
      unfold MIN_PADDING in *. lia.
    - exists s, l'. unfold send, on_link. cbn [cn_link]. by rewrite Hs. }
  assert (Hm : ∃ s l', handle_channel_request (payload (build_exec_request id command want_reply)) c =
    (Err (InvalidPacket s), mkConn l' chs (mkSftp (handler sf) fs'))).
  { rewrite (handle_exec_request _ _ _ c _ _ Hid Hc Hrun).
    erewrite io_bind_run by (by apply known_remote_id_some). destruct want_reply.
    - destruct (send_recv_packet (channel_reply ChannelSuccess (remote_id ch)) k r)
        as (w & k' & r' & Hs & _ & _); [by vm_compute|].
      destruct (Hbig k' r' (out ++ w)) as (s & l' & Hb). exists s, l'.
      erewrite io_bind_run by (unfold send, on_link, c, with_disk; cbn [cn_link]; by rewrite Hs).
      by apply io_bind_fails.
    - destruct (Hbig k r out) as (s & l' & Hb). exists s, l'. erewrite io_bind_run by reflexivity. by apply io_bind_fails. }
  destruct Hm as (s & l' & Hm). exists s, (mkConn l' chs (mkSftp (handler sf) fs')). split; [|done].
  unfold handle_message. change (from_u8 _) with (Some ChannelRequest). cbv iota. by apply io_bind_fails.
Qed.
End requests.

(** C33.  How an exec request fails after its command has run: the server runs the
    command before it looks the channel up and before it knows that the output fits
    a packet.  With an unknown channel, or an output of more than 34986 bytes, the
    message handler returns an error, which ends the connection, and the command's
    effects on the disk stay. *)
Theorem exec_failures {C R F H} `{!StreamCipher C, !StreamCipherLaws C, hmac_impl : !Hmac,
    hmac_laws : !HmacLaws, rng_impl : !Rng R, rng_laws : !RngLaws R, fs_impl : !FileSystem F H,
    proc_impl : !Processes F, order_impl : !MapOrder} `{profile : !BuildProfile}
    id command (want_reply : bool) rd out k r chs sf output (fs' : F) :
  is_u32 id → wire_utf8 command → execute_command command (disk sf) = (output, fs') →
  let c := mkConn (mkLink rd (mkWriter out None) k r : Link C R) chs sf in
  let request := build_exec_request id command want_reply in
  (find_by_remote_id id chs = None →
     handle_message (H:=H) request c = (Err (ChannelError "Unknown channel"), with_disk fs' c)) ∧
  (∀ ch, find_by_remote_id id chs = Some ch → len output > MAX_PACKET_SIZE - 14 →
     ∃ s c', handle_message (H:=H) request c = (Err (InvalidPacket s), c') ∧
             cn_sftp c' = mkSftp (handler sf) fs').
Proof.
  intros Hid Hc Hrun c request. split.
  - intros Hn. by eapply exec_unknown_channel.
  - intros ch Hf Hl. by eapply exec_output_too_large.
Qed.

Definition long_output : bytes := replicate (Z.to_nat 35000) x61.

Definition demo_chatty : Processes mem_fs := λ fs program args,
  (ExecOutput long_output [], <[[bs "ran"] := DirNode]> fs).

Lemma demo_chatty_runs fs :
  @execute_command _ demo_chatty (bs "yes") fs = (long_output, <[[bs "ran"] := DirNode]> fs).
Proof.
  unfold execute_command. change (split_whitespace (bs "yes")) with [bs "yes"]. cbv beta iota.
  unfold run_process, demo_chatty. cbv beta iota. change (from_utf8_lossy []) with (@nil byte).
  rewrite decide_False by (intros Hn; by apply Hn). unfold long_output.
  rewrite from_utf8_lossy_valid; [done|]. by apply utf8_valid_replicate.
Qed.

Definition demo_server (chs : ChannelManager) : Conn (Z * Z) Z mem_fs :=
  mkConn (mkLink (mkReader [] UnexpectedEof) (mkWriter [] None) (demo_keys 1 2) 0) chs demo_sftp.

Lemma exec_failures_witness :
  let request := build_exec_request 7 (bs "yes") true in
  let one := mkManager {[0 := set_remote 7 100 100 (Channel_new 0 (bs "session"))]} 1 in
  handle_message (H:=mem_handle) (proc_impl:=demo_chatty) (profile:=true) request
    (demo_server ChannelManager_new) =
    (Err (ChannelError "Unknown channel"),
     with_disk (<[[bs "ran"] := DirNode]> demo_fs) (demo_server ChannelManager_new)) ∧
  ∃ s c', handle_message (H:=mem_handle) (proc_impl:=demo_chatty) (profile:=true) request (demo_server one) =
            (Err (InvalidPacket s), c') ∧
          cn_sftp c' = mkSftp (SftpHandler_new (bs "/srv")) (<[[bs "ran"] := DirNode]> demo_fs).
Proof.
  split.
  - eapply (exec_failures (H:=mem_handle) (proc_impl:=demo_chatty) (profile:=true) 7 (bs "yes") true
      _ _ _ _ ChannelManager_new demo_sftp); [by_eval|by_eval|apply demo_chatty_runs|reflexivity].
  - eapply (exec_failures (H:=mem_handle) (proc_impl:=demo_chatty) (profile:=true) 7 (bs "yes") true
      _ _ _ _ (mkManager {[0 := set_remote 7 100 100 (Channel_new 0 (bs "session"))]} 1) demo_sftp);
      [by_eval|by_eval|apply demo_chatty_runs|reflexivity|].
    unfold long_output. rewrite len_replicate by done. reflexivity.
Defined.

(** An exec request for a channel that is found: everything goes to that channel. *)
Lemma exec_known_channel {C R F H} `{!StreamCipher C, hmac_impl : !Hmac, rng_impl : !Rng R,
    fs_impl : !FileSystem F H, proc_impl : !Processes F, order_impl : !MapOrder} `{profile : !BuildProfile}
    id ch command (want_reply : bool) (c : Conn C R F) output fs' :
  is_u32 id → wire_utf8 command → execute_command command (disk (cn_sftp c)) = (output, fs') →
  find_by_remote_id id (cn_channels c) = Some ch →
  handle_message (H:=H) (build_exec_request id command want_reply) c =
  ((if want_reply then send (channel_reply ChannelSuccess (remote_id ch)) else mret tt);;
   send (build_channel_data (remote_id ch) output);;
   send (build_channel_eof (remote_id ch));;
   send (build_channel_close (remote_id ch));; mret false) (with_disk fs' c).
Proof.
  intros Hid Hc Hrun Hf. unfold handle_message. change (from_u8 _) with (Some ChannelRequest). cbv iota.
  rewrite (io_bind_from _ _ _ _ _ (handle_exec_request _ _ _ _ _ _ Hid Hc Hrun)), io_bind_assoc.
  erewrite io_bind_run by (by apply known_remote_id_some).
  generalize (with_disk fs' c) as c1. intros c1.
  by repeat (rewrite io_bind_assoc; apply io_bind_ext; clear c1; intros [] c1).
Qed.

(** After a channel is accepted under [local], who else is numbered [local]? *)
Lemma accepted_lookup `{order_impl : !MapOrder, order_laws : !MapOrderLaws} m local r ty w p next :
  channels m !! local = None → r ≠ local →
  let m' := mkManager (<[local := set_remote r w p (Channel_new local ty)]> (channels m)) next in
  match find_by_remote_id local m' with
  | Some ch => ∃ other, other ≠ local ∧ channels m !! other = Some ch ∧ remote_id ch = local
  | None => ∀ other ch, channels m !! other = Some ch → remote_id ch ≠ local
  end.
Proof.
  intros Hfree Hr m'. unfold find_by_remote_id. destruct (find_entry local m') as [[i ch]|] eqn:E; cbn.
  - apply find_entry_some in E as [Hch Hl]. unfold m' in Hch. cbn in Hch.
    apply lookup_insert_Some in Hch as [[<- <-]|[Hi Hch]]; [done|]. by exists i.
  - intros other ch Hc. eapply (find_entry_none local m' other); [done|]. cbn.
    rewrite lookup_insert_ne; [done|]. intros ->. by rewrite Hfree in Hc.
Qed.

(** C34.  The channel number the server hands out is not the one it answers to.  When it
    accepts a channel the client numbers [r], in any state of its channels, under a
    free number [local] of its own that is not [r], a request addressed to [local] (as
    [run_client] addresses it) is never taken for that channel.  If the client has no
    channel it numbers [local] itself, an exec request ends in "Unknown channel"
    after the command has run; if it has one, that other channel gets the success, the
    output, the end of file and the close. *)
Theorem confirmed_channel_unknown {C R F H} `{!StreamCipher C, hmac_impl : !Hmac, rng_impl : !Rng R,
    fs_impl : !FileSystem F H, proc_impl : !Processes F, order_impl : !MapOrder, order_laws : !MapOrderLaws}
    `{profile : !BuildProfile} m r ty window max_packet local command (want_reply : bool) (c : Conn C R F)
    output fs' :
  channels m !! next_id m = None → 0 ≤ next_id m → next_id m + 1 < U32 → r ≠ next_id m → wire_utf8 command →
  accept_channel r ty window max_packet m = (Ok local, cn_channels c) →
  execute_command command (disk (cn_sftp c)) = (output, fs') →
  local = next_id m ∧
  let request := build_exec_request local command want_reply in
  ((∀ other ch, channels m !! other = Some ch → remote_id ch ≠ local) →
     handle_message (H:=H) request c = (Err (ChannelError "Unknown channel"), with_disk fs' c)) ∧
  ((∃ other ch, channels m !! other = Some ch ∧ remote_id ch = local) →
     ∃ other ch, other ≠ local ∧ channels m !! other = Some ch ∧ remote_id ch = local ∧
       find_by_remote_id local (cn_channels c) = Some ch ∧
       handle_message (H:=H) request c =
       ((if want_reply then send (channel_reply ChannelSuccess local) else mret tt);;
        send (build_channel_data local output);;
        send (build_channel_eof local);;
        send (build_channel_close local);; mret false) (with_disk fs' c)).
Proof.
  intros Hfree Hn Hu Hr Hc Hacc Hrun. rewrite accept_channel_run in Hacc by done. injection Hacc as <- Hm.
  split; [done|]. intros request. pose proof (accepted_lookup m (next_id m) r ty window max_packet (next_id m + 1) Hfree Hr) as Hl.
  cbv zeta in Hl. rewrite Hm in Hl. assert (Hid : is_u32 (next_id m)) by (split; lia).
  destruct (find_by_remote_id (next_id m) (cn_channels c)) as [ch|] eqn:E; split.
  - intros Hno. destruct Hl as (other & _ & Hch & Hrem). by destruct (Hno other ch Hch).
  - intros _. destruct Hl as (other & Hne & Hch & Hrem). exists other, ch. split_and!; try done.
    unfold request. by rewrite (exec_known_channel _ ch _ _ _ output fs'), Hrem.
  - intros _. by apply (exec_unknown_channel _ _ _ _ output).
  - intros (other & ch & Hch & Hrem). by apply (Hl other ch) in Hch.
Qed.

(** The client's only channel is its number 7; then its channels are its numbers 1 and 0. *)
Lemma confirmed_channel_unknown_witness :
  let c := demo_server (mkManager {[0 := set_remote 7 100 50 (Channel_new 0 (bs "session"))]} 1) in
  let two := demo_server (mkManager {[0 := set_remote 1 9 9 (Channel_new 0 (bs "session"));
                                      1 := set_remote 0 9 9 (Channel_new 1 (bs "session"))]} 2) in
  let ran := <[[bs "ran"] := DirNode]> demo_fs in
  handle_message (H:=mem_handle) (proc_impl:=demo_chatty) (profile:=true)
    (build_exec_request 0 (bs "yes") true) c = (Err (ChannelError "Unknown channel"), with_disk ran c) ∧
  ∃ other ch, other ≠ 1 ∧
    channels (mkManager {[0 := set_remote 1 9 9 (Channel_new 0 (bs "session"))]} 1) !! other = Some ch ∧
    remote_id ch = 1 ∧ find_by_remote_id 1 (cn_channels two) = Some ch.
Proof.
  intros c two ran. split.
  - eapply (confirmed_channel_unknown (H:=mem_handle) (proc_impl:=demo_chatty) (profile:=true) ChannelManager_new 7
      (bs "session") 100 50 0 (bs "yes") true c long_output ran);
      [done|done|done|done|by_eval|vm_compute; reflexivity|apply demo_chatty_runs|].
    intros other ch Hch. cbn in Hch. by rewrite lookup_empty in Hch.
  - edestruct (confirmed_channel_unknown (H:=mem_handle) (proc_impl:=demo_chatty) (profile:=true)
      (mkManager {[0 := set_remote 1 9 9 (Channel_new 0 (bs "session"))]} 1) 0 (bs "session") 9 9 1 (bs "yes") true
      two long_output ran) as (_ & _ & Hother);
      [vm_compute; reflexivity|done|done|done|by_eval|vm_compute; reflexivity|apply demo_chatty_runs|].
    destruct Hother as (other & ch & Hne & Hch & Hrem & Hf & _).
    { exists 0, (set_remote 1 9 9 (Channel_new 0 (bs "session"))). split; [vm_compute; reflexivity|done]. }
    by exists other, ch.
Defined.

(** ** SFTP inside channel data *)

(** An encoded SFTP packet at the start of the channel data is recognised. *)
Lemma sftp_request_encode p rest :
  is_u32 (request_id p) → 5 + len (data p) < U32 →
  sftp_request (SftpPacket_encode p ++ rest) = Some p.
Proof.
  intros Hid Hl. rewrite SftpPacket_encode_enc.
  set (body := packet_type p :: be_encode 4 (request_id p) ++ data p).
  assert (Hb : len body = 5 + len (data p)) by (unfold body; len_lia).
  pose proof (len_nonneg (data p)). pose proof (len_nonneg rest). unfold sftp_request. rewrite <- app_assoc.
  rewrite decide_True by len_lia.
  rewrite take_app_length', drop_app_length' by (by rewrite length_be_encode).
  rewrite as_u32_small by (unfold is_u32; lia).
  rewrite be_decode_encode_small by (rewrite u32_256; lia).
  rewrite decide_True by len_lia. rewrite <- Hb, take_len_app by done.
  unfold body. by rewrite SftpPacket_decode_body.
Qed.

(** The server does not speak the start of the SFTP protocol: the client's INIT
    packet, in a channel's data, is taken for a request with the version as its
    number and answered "unsupported operation"; no VERSION is ever sent. *)
Theorem sftp_init_unsupported {F H} `{fs_impl : !FileSystem F H} `{profile : !BuildProfile}
    (st : SftpState F) :
  ∃ p, sftp_request build_sftp_init = Some p ∧ request_id p = SFTP_VERSION ∧
    handle_request (H:=H) p st = (Ok (status p SSH_FX_OP_UNSUPPORTED "Unsupported operation"), st).
Proof. eexists. split; [vm_compute; reflexivity|]. split; reflexivity. Qed.

(** The two properties of every connection, on a peer that sends rubbish. *)
Definition demo_hostile : Conn (Z * Z) Z mem_fs :=
  mkConn (mkLink (mkReader (bs "SSH-2.0-x" ++ crlf ++ replicate 40 xff) UnexpectedEof) (mkWriter [] None)
            SessionKeys_new 3) ChannelManager_new demo_sftp.

Lemma handle_connection_terminates_witness :
  (handle_connection (K:=N) (H:=mem_handle) (proc_impl:=demo_chatty) (profile:=true) UserDatabase_new
     (bs "/srv") demo_hostile).1 ≠ OutOfFuel ∧
  (unread (cn_link (handle_connection (K:=N) (H:=mem_handle) (proc_impl:=demo_chatty) (profile:=true)
     UserDatabase_new (bs "/srv") demo_hostile).2) ≤ unread (cn_link demo_hostile))%nat.
Proof.
  apply (handle_connection_terminates (K:=N) (H:=mem_handle) (proc_impl:=demo_chatty) (profile:=true)
    UserDatabase_new (bs "/srv") demo_hostile).
Defined.

Lemma no_access_before_login_witness :
  let c' := (handle_connection (K:=N) (H:=mem_handle) (proc_impl:=demo_chatty) (profile:=true)
     UserDatabase_new (bs "/srv") demo_hostile).2 in
  (cn_channels c' = ChannelManager_new ∧ cn_sftp c' = demo_sftp) ∨
  logged_in (K:=N) (profile:=true) UserDatabase_new (cn_link demo_hostile).
Proof.
  apply (no_access_before_login (K:=N) (H:=mem_handle) (proc_impl:=demo_chatty) (profile:=true)
    UserDatabase_new (bs "/srv") demo_hostile).
Defined.
