(* ===== verification/ServerSpec.v ===== *)
(** What the server's channel loop promises, without its bookkeeping: an abstract
    service that knows which channels exist and keeps the SFTP handler, reads one
    message at a time and answers each with a list of replies.  [channel_loop] and its
    handlers ([src/bin/server.rs]) refine it: windows, buffers, channel types and the
    order of the hash map have no influence on what the server sends. *)
From S2P Require Export Server.

(** ** Messages and replies *)

(** What a client can ask for.  [Ask] stands for the requests that are only granted
    or refused: a shell, a terminal, a subsystem, anything unknown. *)
Inductive client_msg : Type :=
| AskChannel (peer : Z)
| AskExec (id : Z) (want_reply : bool) (command : bytes)
| Ask (id : Z) (want_reply granted : bool)
| AskSftp (id : Z) (request : SftpPacket)
| AskClose (id : Z)
| Leave
| Nothing.

Inductive reply : Type :=
| Confirmed (peer local : Z)
| Granted (id : Z)
| Refused (id : Z)
| Output (id : Z) (output : bytes)
| EndOfOutput (id : Z)
| Closed (id : Z).

#[export] Instance client_msg_eq_dec : EqDecision client_msg.
Proof. solve_decision. Defined.
#[export] Instance reply_eq_dec : EqDecision reply.
Proof. solve_decision. Defined.

(** A reply on the wire. *)
Definition reply_packet (r : reply) : SshPacket :=
  match r with
  | Confirmed peer local =>
      build_channel_open_confirmation peer local DEFAULT_WINDOW_SIZE DEFAULT_MAX_PACKET_SIZE
  | Granted id => channel_reply ChannelSuccess id
  | Refused id => channel_reply ChannelFailure id
  | Output id output => build_channel_data id output
  | EndOfOutput id => build_channel_eof id
  | Closed id => build_channel_close id
  end.

Section understand.
Context `{profile : !BuildProfile}.

(** What the server takes a packet for, or why it gives up on it. *)
Definition understand_request (payload : bytes) : SshResult client_msg :=
  msg ← ChannelRequestMsg_parse payload;
  let id := req_recipient_channel msg in
  let want := req_want_reply msg in
  let ty := req_request_type msg in
  if decide (ty = bs "exec") then
    '(command, _) ← read_utf8 (req_data msg);
    Ok (AskExec id want command)
  else if decide (ty = bs "subsystem") then
    '(subsystem, _) ← read_utf8 (req_data msg);
    Ok (Ask id want (bool_decide (subsystem = bs "sftp")))
  else Ok (Ask id want (bool_decide (ty = bs "shell" ∨ ty = bs "pty-req"))).

Definition understand (pkt : SshPacket) : SshResult client_msg :=
  match from_u8 (msg_type pkt) with
  | Some ChannelOpen =>
      msg ← ChannelOpenMsg_parse (payload pkt);
      Ok (AskChannel (open_sender_channel msg))
  | Some ChannelRequest => understand_request (payload pkt)
  | Some ChannelData =>
      msg ← ChannelDataMsg_parse (payload pkt);
      Ok match sftp_request (data_data msg) with
         | Some request => AskSftp (data_recipient_channel msg) request
         | None => Nothing
         end
  | Some ChannelWindowAdjust =>
      '(_, cursor) ← read_u32 (payload pkt);
      '(_, _) ← read_u32 cursor;
      Ok Nothing
  | Some ChannelEof => '(_, _) ← read_u32 (payload pkt); Ok Nothing
  | Some ChannelClose => '(recipient, _) ← read_u32 (payload pkt); Ok (AskClose recipient)
  | Some Disconnect => Ok Leave
  | _ => Ok Nothing
  end.
End understand.

(** ** The abstract service *)

(** [sv_peers] maps the server's number of a channel to the client's. *)
Record Service (F : Type) := mkService { sv_peers : gmap Z Z; sv_next : Z; sv_sftp : SftpState F }.
#[global] Arguments mkService {F} _ _ _.
#[global] Arguments sv_peers {F} _.
#[global] Arguments sv_next {F} _.
#[global] Arguments sv_sftp {F} _.

Section serve.
Context {F H : Type} `{fs_impl : !FileSystem F H, proc_impl : !Processes F} `{profile : !BuildProfile}.
Abbreviation service := (io SshError (Service F)).

Definition knows (id : Z) (sv : Service F) : bool :=
  bool_decide (id ∈@{gset Z} map_img (sv_peers sv)).

Definition require_channel (id : Z) : service unit :=
  known ← gets (knows id);
  if known : bool then mret tt else fail (ChannelError "Unknown channel").

Definition serve_sftp {A} (m : io SshError (SftpState F) A) : service A := λ sv,
  let '(a, s) := m (sv_sftp sv) in (a, mkService (sv_peers sv) (sv_next sv) s).

(** One message: the replies, and whether the connection is over. *)
Definition serve (m : client_msg) : service (list reply * bool) :=
  match m with
  | AskChannel peer =>
      local ← gets sv_next;
      next ← lift (u32_add local 1);
      modify (λ sv, mkService (<[local := peer]> (sv_peers sv)) next (sv_sftp sv));;
      mret ([Confirmed peer local], false)
  | AskExec id want_reply command =>
      output ← serve_sftp (on_disk (execute_command command));
      require_channel id;;
      mret ((if want_reply then [Granted id] else []) ++ [Output id output; EndOfOutput id; Closed id], false)
  | Ask id want_reply granted =>
      if want_reply : bool then
        require_channel id;;
        mret ([if granted : bool then Granted id else Refused id], false)
      else mret ([], false)
  | AskSftp id request =>
      response ← serve_sftp (handle_request (H:=H) request);
      require_channel id;;
      mret ([Output id (SftpPacket_encode response)], false)
  | AskClose id =>
      known ← gets (knows id);
      mret (if known : bool then [Closed id] else [], false)
  | Leave => mret ([], true)
  | Nothing => mret ([], false)
  end.

Definition serve_packet (pkt : SshPacket) : service (list reply * bool) :=
  m ← lift (understand pkt);
  serve m.

(** The service behind a link: read, serve, send every reply, until the client
    leaves. *)
Context {C R : Type} `{!StreamCipher C, hmac_impl : !Hmac, rng_impl : !Rng R}.
Abbreviation served := (io SshError (Link C R * Service F)).

Definition by_link {A} (m : io SshError (Link C R) A) : served A := λ x,
  let '(a, l) := m x.1 in (a, (l, x.2)).

Definition by_service {A} (m : service A) : served A := λ x,
  let '(a, sv) := m x.2 in (a, (x.1, sv)).

Definition answer_packet (pkt : SshPacket) : served bool :=
  '(replies, stop) ← by_service (serve_packet pkt);
  by_link (send_all (reply_packet <$> replies));;
  mret stop.

Definition next_packet : served (option SshPacket) := λ x,
  match by_link recv_packet x with
  | (Ok p, x) => (Ok (Some p), x)
  | (Err e, x) => if decide (e = ConnectionClosed) then (Ok None, x) else (Err e, x)
  | (Panic s, x) => (Panic s, x)
  | (OutOfFuel, x) => (OutOfFuel, x)
  end.

Fixpoint service_loop (fuel : nat) : served unit :=
  match fuel with
  | O => λ x, (OutOfFuel, x)
  | S fuel =>
      pkt ← next_packet;
      match pkt with
      | None => mret tt
      | Some pkt =>
          stop ← answer_packet pkt;
          if stop : bool then mret tt else service_loop fuel
      end
  end.
End serve.

(** ** The server refines the service *)

(** Evaluates calls that do not touch the link. *)
Ltac run_io := unfold mbind, io_bind, mret, io_ret, lift, gets, modify, fail;
  cbn [fst snd cn_channels cn_link cn_sftp sv_peers sv_next sv_sftp].

Section refinement.
Context {C R F H : Type} `{!StreamCipher C, hmac_impl : !Hmac, rng_impl : !Rng R,
  fs_impl : !FileSystem F H, proc_impl : !Processes F, order_impl : !MapOrder, order_laws : !MapOrderLaws}
  `{profile : !BuildProfile}.
Abbreviation conn := (Conn C R F).

(** A channel manager and the service it implements: the same identifiers with the
    same peers, the same next identifier, and no channel is marked closed. *)
Record represents (chs : ChannelManager) (sv : Service F) : Prop := {
  rep_peers : sv_peers sv = remote_id <$> channels chs;
  rep_next : sv_next sv = next_id chs;
  rep_open : ∀ id ch, channels chs !! id = Some ch → closed ch = false
}.

Lemma represents_found chs sv id :
  represents chs sv →
  match find_by_remote_id id chs with
  | Some ch => knows id sv = true ∧ remote_id ch = id ∧ closed ch = false
  | None => knows id sv = false
  end.
Proof.
  intros [Hp _ Ho]. unfold find_by_remote_id, knows. rewrite Hp.
  destruct (find_entry id chs) as [[i ch]|] eqn:E; cbn.
  - apply find_entry_some in E as [Hc <-]. split; [|by eauto].
    apply bool_decide_eq_true, elem_of_map_img. exists i. by rewrite lookup_fmap, Hc.
  - apply bool_decide_eq_false. intros (i & Hi)%elem_of_map_img.
    rewrite lookup_fmap in Hi. apply fmap_Some in Hi as (ch & Hc & ->).
    by eapply find_entry_none in E.
Qed.

(** Writing to one channel's bookkeeping is invisible to the service. *)
Lemma represents_update chs sv id f :
  represents chs sv → (∀ ch, remote_id (f ch) = remote_id ch ∧ closed (f ch) = closed ch) →
  represents (find_by_remote_id_mut id f chs) sv.
Proof.
  intros Hrep Hf. unfold find_by_remote_id_mut. destruct (find_entry id chs) as [[i ch]|] eqn:E; [|done].
  apply find_entry_some in E as [Hc _]. destruct Hrep as [Hp Hn Ho], (Hf ch) as [Hr Hcl]. split; cbn.
  - rewrite fmap_insert, Hr, Hp. symmetry. apply insert_id. by rewrite lookup_fmap, Hc.
  - done.
  - intros j c [[<- <-]|[_ Hj]]%lookup_insert_Some; [rewrite Hcl; by eapply Ho|by eapply Ho].
Qed.

Lemma represents_accept chs sv peer ty w m next :
  represents chs sv →
  represents (mkManager (<[next_id chs := set_remote peer w m (Channel_new (next_id chs) ty)]> (channels chs)) next)
    (mkService (<[sv_next sv := peer]> (sv_peers sv)) next (sv_sftp sv)).
Proof.
  intros [Hp Hn Ho]. split; cbn.
  - by rewrite Hp, Hn, fmap_insert.
  - done.
  - intros j c [[<- <-]|[_ Hj]]%lookup_insert_Some; [done|by eapply Ho].
Qed.

(** The rest of answering a message, once the service has decided on it. *)
Definition deliver (o : SshResult (list reply * bool)) : io SshError conn bool :=
  '(replies, stop) ← lift o;
  on_link (send_all (reply_packet <$> replies));;
  mret stop.

Lemma deliver_nil stop (c : conn) : deliver (Ok ([], stop)) c = (Ok stop, c).
Proof. by destruct c. Qed.

Lemma deliver_cons r rs stop (k : io SshError conn bool) (c : conn) :
  (∀ c, k c = deliver (Ok (rs, stop)) c) →
  (send (reply_packet r);; k) c = deliver (Ok (r :: rs, stop)) c.
Proof.
  intros Hk. transitivity ((send (reply_packet r);; deliver (Ok (rs, stop))) c).
  { unfold mbind, io_bind. destruct (send (reply_packet r) c) as [[] c']; [apply Hk|done..]. }
  unfold deliver, send, lift, on_link, mbind, io_bind. cbn [fmap list_fmap send_all]. unfold mbind, io_bind.
  by destruct (send_packet (reply_packet r) (cn_link c)) as [[] l].
Qed.

Lemma deliver_one r (c : conn) : (send (reply_packet r);; mret false) c = deliver (Ok ([r], false)) c.
Proof. apply deliver_cons. intros c'. by rewrite deliver_nil. Qed.

Lemma known_serves id l chs sv :
  represents chs sv →
  known_remote_id id (mkConn l chs (sv_sftp sv) : conn) =
  (if knows id sv then Ok id else Err (ChannelError "Unknown channel"), mkConn l chs (sv_sftp sv)).
Proof.
  intros Hr. pose proof (represents_found chs sv id Hr) as Hf.
  destruct (find_by_remote_id id chs) as [ch|] eqn:E.
  - destruct Hf as (-> & <- & _). by rewrite known_remote_id_some with (ch := ch).
  - rewrite Hf. by rewrite known_remote_id_none.
Qed.

Lemma require_serves id (sv : Service F) :
  require_channel id sv = (if knows id sv then Ok tt else Err (ChannelError "Unknown channel"), sv).
Proof. unfold require_channel, mbind, io_bind, gets. by destruct (knows id sv). Qed.

(** [m] answers the packet as the service does. *)
Definition serves_as (m : io SshError conn bool) (spec : io SshError (Service F) (list reply * bool))
    (chs : ChannelManager) (sv : Service F) : Prop :=
  ∃ chs', represents chs' (spec sv).2 ∧ ∀ l,
    m (mkConn l chs (sv_sftp sv)) = deliver (spec sv).1 (mkConn l chs' (sv_sftp (spec sv).2)).

Lemma serves_open peer ty w m chs sv :
  represents chs sv →
  serves_as (local_id ← on_channels (accept_channel peer ty w m);
             send (reply_packet (Confirmed peer local_id));; mret false)
    (serve (H:=H) (AskChannel peer)) chs sv.
Proof.
  intros Hr. pose proof (rep_next _ _ Hr) as Hn. unfold serves_as, serve, accept_channel, take_id, on_channels.
  run_io. rewrite <- Hn. destruct (u32_add (sv_next sv) 1) as [next|e|s|] eqn:E; cbn [fst snd]; [|by exists chs..].
  eexists. split; [by eapply represents_accept|]. rewrite Hn. intros l. apply deliver_one.
Qed.

Lemma serves_ask id want (granted : bool) m chs sv :
  represents chs sv → m = (if granted then ChannelSuccess else ChannelFailure) →
  serves_as (reply_if want m id;; mret false) (serve (H:=H) (Ask id want granted)) chs sv.
Proof.
  intros Hr ->. exists chs. unfold reply_if, serve. destruct want; [|split; [done|intros l; symmetry; apply deliver_nil]].
  split; [by run_io; rewrite require_serves; destruct knows|].
  run_io. intros l. rewrite require_serves, known_serves by done. destruct (knows id sv); [|done]. cbn [fst snd].
  rewrite <- deliver_one. run_io. by destruct granted.
Qed.

Lemma serves_close id chs sv :
  represents chs sv →
  serves_as (ch ← gets (λ c, find_by_remote_id id (cn_channels c));
             (match ch with
              | Some ch => if negb (closed ch) then send (build_channel_close (remote_id ch)) else mret tt
              | None => mret tt
              end);; mret false) (serve (H:=H) (AskClose id)) chs sv.
Proof.
  intros Hr. exists chs. split; [done|]. intros l. unfold serve. run_io.
  pose proof (represents_found chs sv id Hr) as Hf. destruct (find_by_remote_id id chs) as [ch|].
  - destruct Hf as (-> & -> & ->). cbn [negb]. apply (deliver_one (Closed id)).
  - rewrite Hf. symmetry. apply deliver_nil.
Qed.

Lemma serves_update id f chs sv :
  represents chs sv → (∀ ch, remote_id (f ch) = remote_id ch ∧ closed (f ch) = closed ch) →
  serves_as (on_channels (modify (find_by_remote_id_mut id f));; mret false) (serve (H:=H) Nothing) chs sv.
Proof. intros Hr Hf. eexists. split; [by eapply represents_update|]. intros l. symmetry. apply deliver_nil. Qed.

Lemma represents_sftp chs sv sf :
  represents chs sv → represents chs (mkService (sv_peers sv) (sv_next sv) sf).
Proof. by intros [? ? ?]. Qed.

Lemma serves_sftp id request chs sv :
  represents chs sv →
  serves_as (response ← on_sftp (handle_request (H:=H) request);
             remote_id ← known_remote_id id;
             send (build_channel_data remote_id (SftpPacket_encode response));; mret false)
    (serve (AskSftp id request)) chs sv.
Proof.
  intros Hr. exists chs. unfold serve, serve_sftp, on_sftp. run_io.
  destruct (handle_request request (sv_sftp sv)) as [[r|e|s|] sf] eqn:E; cbn [fst snd];
    try (split; [by apply represents_sftp|done]).
  set (sv' := mkService (sv_peers sv) (sv_next sv) sf). rewrite require_serves.
  change sf with (sv_sftp sv'). setoid_rewrite known_serves; [|by apply represents_sftp].
  destruct (knows id sv'); cbn [fst snd]; (split; [by apply represents_sftp|]); [intros l|done].
  apply (deliver_one (Output id (SftpPacket_encode r))).
Qed.

Lemma serves_exec id (want_reply : bool) command chs sv :
  represents chs sv →
  serves_as (output ← on_sftp (on_disk (execute_command command));
             remote_id ← known_remote_id id;
             (if want_reply then send (channel_reply ChannelSuccess remote_id) else mret tt);;
             send (build_channel_data remote_id output);;
             send (build_channel_eof remote_id);;
             send (build_channel_close remote_id);; mret false)
    (serve (H:=H) (AskExec id want_reply command)) chs sv.
Proof.
  intros Hr. exists chs. unfold serve, serve_sftp, on_sftp, on_disk, step. run_io.
  destruct (execute_command command (disk (sv_sftp sv))) as [output fs]. cbn [fst snd].
  set (sv' := mkService (sv_peers sv) (sv_next sv) (mkSftp (handler (sv_sftp sv)) fs)). rewrite require_serves.
  change (mkSftp (handler (sv_sftp sv)) fs) with (sv_sftp sv'). setoid_rewrite known_serves; [|by apply represents_sftp].
  destruct (knows id sv'); cbn [fst snd]; (split; [by apply represents_sftp|]); [intros l|done].
  assert (Hout : ∀ c, (send (build_channel_data id output);; send (build_channel_eof id);;
      send (build_channel_close id);; mret false) c =
    deliver (Ok ([Output id output; EndOfOutput id; Closed id], false)) c).
  { intros c. apply (deliver_cons (Output id output)). clear c. intros c.
    apply (deliver_cons (EndOfOutput id)). clear c. intros c. apply (deliver_one (Closed id)). }
  destruct want_reply; [by apply (deliver_cons (Granted id))|apply Hout].
Qed.

(** Taking the handlers apart: both sides read the same fields first. *)
Lemma serves_ext m m' spec spec' chs sv :
  (∀ c, m c = m' c) → spec sv = spec' sv → serves_as m' spec' chs sv → serves_as m spec chs sv.
Proof. intros Hm Hs (chs' & Hr & E). exists chs'. rewrite Hs. split; [done|]. intros l. by rewrite Hm. Qed.

Lemma serves_lift {A B} (o : SshResult A) (f : A → io SshError conn B) (g : A → SshResult client_msg)
    (j : B → io SshError conn bool) chs sv :
  represents chs sv →
  (∀ a, o = Ok a → serves_as (f a ≫= j) (m ← lift (g a); serve (H:=H) m) chs sv) →
  serves_as ((lift o ≫= f) ≫= j) (m ← lift (o ≫= g); serve (H:=H) m) chs sv.
Proof.
  intros Hr Hk. destruct o as [a|e|s|]; [|by exists chs..].
  apply (serves_ext _ (f a ≫= j) _ (m ← lift (g a); serve (H:=H) m)); [done|done|by apply Hk].
Qed.

Lemma serves_now m (p : client_msg) chs sv :
  serves_as m (serve (H:=H) p) chs sv → serves_as m (m ← lift (Ok p); serve (H:=H) m) chs sv.
Proof. by apply serves_ext. Qed.

Lemma serves_request payload chs sv :
  represents chs sv →
  serves_as (handle_channel_request payload;; mret false)
    (m ← lift (understand_request payload); serve (H:=H) m) chs sv.
Proof.
  intros Hr. apply serves_lift; [done|]. intros msg _. cbv zeta.
  destruct (decide (req_request_type msg = bs "exec")).
  { apply serves_lift; [done|]. intros [command rest] _. apply serves_now.
    eapply serves_ext; [|done|by apply serves_exec]. intros c.
    rewrite io_bind_assoc. apply io_bind_ext. clear c. intros output c.
    rewrite io_bind_assoc. apply io_bind_ext. clear c. intros id c.
    by repeat (rewrite io_bind_assoc; apply io_bind_ext; clear c; intros [] c). }
  assert (Hask : ∀ (granted : bool) m, m = (if granted then ChannelSuccess else ChannelFailure) →
    serves_as (reply_if (req_want_reply msg) m (req_recipient_channel msg);; mret false)
      (m ← lift (Ok (Ask (req_recipient_channel msg) (req_want_reply msg) granted)); serve (H:=H) m) chs sv).
  { intros granted m Hm. by apply serves_now, serves_ask. }
  destruct (decide (req_request_type msg = bs "shell")) as [Hs|Hs].
  { rewrite (decide_False (P := req_request_type msg = bs "subsystem")) by (by rewrite Hs).
    apply Hask. by rewrite bool_decide_true by auto. }
  destruct (decide (req_request_type msg = bs "subsystem")).
  { apply serves_lift; [done|]. intros [name rest] _. apply Hask. by case_decide; case_bool_decide. }
  destruct (decide (req_request_type msg = bs "pty-req")); apply Hask.
  - by rewrite bool_decide_true by auto.
  - by rewrite bool_decide_false by naive_solver.
Qed.

Lemma handle_message_serves pkt chs sv :
  represents chs sv → serves_as (handle_message (H:=H) pkt) (serve_packet (H:=H) pkt) chs sv.
Proof.
  intros Hr. unfold handle_message, serve_packet, understand.
  assert (Hnothing : serves_as (mret false) (m ← lift (Ok Nothing); serve (H:=H) m) chs sv).
  { exists chs. split; [done|]. intros l. symmetry. apply deliver_nil. }
  destruct (from_u8 (msg_type pkt)) as [[]|]; try apply Hnothing.
  - exists chs. split; [done|]. intros l. symmetry. apply deliver_nil.
  - apply serves_lift; [done|]. intros msg _. apply serves_now.
    eapply serves_ext; [|done|by apply (serves_open _ (open_channel_type msg)
      (open_initial_window msg) (open_max_packet msg))]. intros c. apply io_bind_assoc.
  - apply serves_lift; [done|]. intros [id cursor] _. apply serves_lift; [done|]. intros [n rest] _.
    by apply serves_now, serves_update.
  - apply serves_lift; [done|]. intros msg _. apply serves_now.
    destruct (sftp_request (data_data msg)) as [request|]; [|exact Hnothing].
    eapply serves_ext; [|done|by apply serves_sftp]. intros c.
    rewrite io_bind_assoc. apply io_bind_ext. clear c. intros response c. apply io_bind_assoc.
  - apply serves_lift; [done|]. intros [id rest] _. by apply serves_now, serves_update.
  - apply serves_lift; [done|]. intros [id rest] _. apply serves_now.
    eapply serves_ext; [|done|by apply serves_close]. intros c. apply io_bind_assoc.
  - by apply serves_request.
Qed.

(** The relation between the server's state and the service behind its link. *)
Definition implements (c : conn) (x : Link C R * Service F) : Prop :=
  cn_link c = x.1 ∧ cn_sftp c = sv_sftp x.2 ∧ represents (cn_channels c) x.2.

(** Same outcome, and related states again. *)
Definition simulates {A} (m : io SshError conn A) (spec : io SshError (Link C R * Service F) A) : Prop :=
  ∀ c x, implements c x → (m c).1 = (spec x).1 ∧ implements (m c).2 (spec x).2.

Lemma simulates_bind {A B} m spec (k : A → io SshError conn B) (k' : A → io _ _ B) :
  simulates m spec → (∀ a, simulates (k a) (k' a)) → simulates (m ≫= k) (spec ≫= k').
Proof.
  intros Hm Hk c x Hc. destruct (Hm c x Hc) as [E Hi]. unfold mbind, io_bind.
  destruct (m c) as [o c'], (spec x) as [o' x']. cbn in E, Hi. subst o'. destruct o; try done. by apply Hk.
Qed.

Lemma simulates_ret {A} (a : A) : simulates (mret a) (mret a).
Proof. by intros c x. Qed.

Lemma simulates_answer pkt : simulates (handle_message (H:=H) pkt) (answer_packet (H:=H) pkt).
Proof.
  intros [l chs sf] [l' sv] (El & Es & Hr). cbn in *. subst l' sf.
  destruct (handle_message_serves pkt chs sv Hr) as (chs' & Hr' & E). rewrite E. clear E.
  unfold deliver, answer_packet, by_service, by_link, on_link. run_io.
  destruct (serve_packet pkt sv) as [[[rs stop]|e|s|] sv']; cbn in *; try done.
  by destruct (send_all (reply_packet <$> rs) l) as [[] l1].
Qed.

Lemma simulates_next : simulates recv_or_closed next_packet.
Proof.
  intros [l chs sf] [l' sv] (El & Es & Hr). cbn in *. subst l' sf.
  unfold recv_or_closed, next_packet, on_link, by_link. cbn.
  destruct (recv_packet l) as [[p|e|s|] l1]; cbn; try done. by case_decide.
Qed.

Lemma simulates_loop fuel : simulates (channel_loop (H:=H) fuel) (service_loop (H:=H) fuel).
Proof.
  induction fuel as [|fuel IH]; [by intros c x|]. cbn [channel_loop service_loop].
  apply simulates_bind; [apply simulates_next|]. intros [p|]; [|apply simulates_ret].
  apply simulates_bind; [apply simulates_answer|]. intros []; [apply simulates_ret|exact IH].
Qed.
End refinement.

(** C3.  The server's channel loop implements the abstract service: started with the
    same link, SFTP handler and disk, on any input, with any fault of the writer and
    for every iteration order of the hash map, [channel_loop] has the outcome of
    the service, leaves the link (so every byte it sent), the handler and the disk
    as the service does, and its channel manager still stands for the service's
    map of channels.  So nothing a client sees depends on windows, buffers,
    end-of-file marks or hash-map order. *)
Theorem channel_loop_refines {C R F H} `{!StreamCipher C, hmac_impl : !Hmac, rng_impl : !Rng R,
    fs_impl : !FileSystem F H, proc_impl : !Processes F, order_impl : !MapOrder, order_laws : !MapOrderLaws}
    `{profile : !BuildProfile} fuel l chs (sv : Service F) :
  represents chs sv →
  let run := channel_loop (H:=H) fuel (mkConn l chs (sv_sftp sv) : Conn C R F) in
  let spec := service_loop (H:=H) fuel (l, sv) in
  run.1 = spec.1 ∧ cn_link run.2 = spec.2.1 ∧ cn_sftp run.2 = sv_sftp spec.2.2 ∧
  represents (cn_channels run.2) spec.2.2.
Proof.
  intros Hr run spec. destruct (simulates_loop (H:=H) fuel (mkConn l chs (sv_sftp sv)) (l, sv)) as [E Hi];
    [by split_and!|]. by destruct Hi.
Qed.

Lemma channel_loop_refines_witness :
  let sv := mkService {[0 := 7]} 1 demo_sftp in
  let chs := mkManager {[0 := set_remote 7 100 100 (Channel_new 0 (bs "session"))]} 1 in
  let l := mkLink (mkReader (replicate 40 xff) UnexpectedEof) (mkWriter [] None) (demo_keys 1 2) 0 in
  represents chs sv ∧
  let run := channel_loop (H:=mem_handle) (proc_impl:=demo_chatty) (profile:=true) 5
               (mkConn l chs demo_sftp : Conn (Z * Z) Z mem_fs) in
  let spec := service_loop (H:=mem_handle) (proc_impl:=demo_chatty) (profile:=true) 5 (l, sv) in
  run.1 = spec.1 ∧ cn_link run.2 = spec.2.1 ∧ cn_sftp run.2 = sv_sftp spec.2.2 ∧
  represents (cn_channels run.2) spec.2.2.
Proof.
  intros sv chs l. assert (Hr : represents chs sv).
  { split; cbn; [by rewrite map_fmap_singleton|done|]. by intros id ch [_ <-]%lookup_singleton_Some. }
  split; [exact Hr|].
  exact (channel_loop_refines (H:=mem_handle) (proc_impl:=demo_chatty) (profile:=true) 5 l chs sv Hr).
Defined.

(** ** Histories of messages *)

Section histories.
Context {F H : Type} `{fs_impl : !FileSystem F H, proc_impl : !Processes F} `{profile : !BuildProfile}.
Abbreviation service := (io SshError (Service F)).

(** The service on a list of messages, with everything it replies. *)
Fixpoint serve_all (ms : list client_msg) : service (list reply) :=
  match ms with
  | [] => mret []
  | m :: ms =>
      '(replies, stop) ← serve (H:=H) m;
      if stop : bool then mret replies
      else more ← serve_all ms; mret (replies ++ more)
  end.

(** The answer a request deserves: none when it does not want one. *)
Definition answer (m : client_msg) : option reply :=
  match m with
  | AskExec id true _ => Some (Granted id)
  | Ask id true granted => Some (if granted then Granted id else Refused id)
  | _ => None
  end.

Definition is_answer (r : reply) : bool :=
  match r with Granted _ | Refused _ => true | _ => false end.

(** Every message is for a channel that exists by then, and nobody leaves. *)
Fixpoint addressed (known : gset Z) (ms : list client_msg) : bool :=
  match ms with
  | [] => true
  | m :: ms =>
      match m with
      | AskChannel peer => addressed ({[peer]} ∪ known) ms
      | AskExec id _ _ | Ask id true _ | AskSftp id _ => bool_decide (id ∈ known) && addressed known ms
      | Leave => false
      | _ => addressed known ms
      end
  end.

Lemma handle_request_counts pkt (st : SftpState F) :
  next_handle (handler st) + 1 < U32 →
  runs (handle_request (H:=H) pkt) st (λ _ st', next_handle (handler st') ≤ next_handle (handler st) + 1).
Proof.
  intros Hn. unfold handle_request, handle_realpath, handle_stat, handle_opendir, handle_readdir,
    handle_close, handle_open, handle_read, handle_write, write_file, handle_mkdir, handle_rmdir,
    handle_remove, path_operation.
  run_handler; cbn; lia.
Qed.

(** A service that knows the channels [known] and has [n] more numbers of each kind
    to give. *)
Record ready (known : gset Z) (n : Z) (sv : Service F) : Prop := {
  ready_known : known ⊆ map_img (sv_peers sv);
  ready_fresh : ∀ id, is_Some (sv_peers sv !! id) → id < sv_next sv;
  ready_next : sv_next sv + n < U32;
  ready_handle : next_handle (handler (sv_sftp sv)) + n < U32
}.

Lemma ready_less known n m sv : ready known n sv → m ≤ n → ready known m sv.
Proof. intros [? ? ? ?] Hm. split; [done|done|lia|lia]. Qed.

Lemma ready_open known n peer sv :
  ready known (1 + n) sv →
  ready ({[peer]} ∪ known) n
    (mkService (<[sv_next sv := peer]> (sv_peers sv)) (sv_next sv + 1) (sv_sftp sv)).
Proof.
  intros [Hk Hf Hn Hh]. split; cbn; [| |lia|lia].
  - rewrite map_img_insert_notin; [set_solver|]. apply eq_None_not_Some. intros Hs%Hf. lia.
  - intros id [p [[<- _]|[_ Hi]]%lookup_insert_Some]; [lia|]. specialize (Hf id ltac:(by eauto)). lia.
Qed.

Lemma ready_sftp known n sv sf :
  ready known (1 + n) sv → next_handle (handler sf) ≤ next_handle (handler (sv_sftp sv)) + 1 →
  ready known n (mkService (sv_peers sv) (sv_next sv) sf).
Proof. intros [? ? ? ?] Hh. split; cbn; [done|done|lia|lia]. Qed.

Lemma require_ready known n id (sv : Service F) :
  ready known n sv → id ∈ known → require_channel id sv = (Ok tt, sv).
Proof.
  intros [Hk _ _ _] Hid. rewrite require_serves. unfold knows. by rewrite bool_decide_true by set_solver.
Qed.

(** One message to a service that is ready for it. *)
Lemma serve_ready known n m ms sv :
  addressed known (m :: ms) = true → 0 ≤ n → ready known (1 + n) sv →
  ∃ rs sv' known', serve (H:=H) m sv = (Ok (rs, false), sv') ∧ filter is_answer rs = option_list (answer m) ∧
    ready known' n sv' ∧ addressed known' ms = true.
Proof.
  intros Ha Hn0 Hr. assert (Hr0 : ready known n sv) by (eapply ready_less; [done|lia]).
  destruct m as [peer|id want cmd|id [] granted|id req|id| |]; cbn [addressed] in Ha; try done.
  - pose proof (ready_next _ _ _ Hr). exists [Confirmed peer (sv_next sv)]. unfold serve. run_io.
    rewrite u32_add_small by lia. eexists _, _. split_and!; [done|done|by apply ready_open|done].
  - apply andb_true_iff in Ha as [Hid%bool_decide_eq_true Ha]. unfold serve, serve_sftp, on_disk, step. run_io.
    destruct (execute_command cmd (disk (sv_sftp sv))) as [output fs]. cbn [fst snd].
    assert (Hr1 : ready known n (mkService (sv_peers sv) (sv_next sv) (mkSftp (handler (sv_sftp sv)) fs)))
      by (apply ready_sftp; [done|cbn; lia]).
    erewrite require_ready by done. eexists _, _, _. split_and!; [done|by destruct want|exact Hr1|done].
  - apply andb_true_iff in Ha as [Hid%bool_decide_eq_true Ha]. unfold serve. run_io.
    erewrite require_ready by done. eexists _, _, _. split_and!; [done|by destruct granted|done|done].
  - eexists [], _, _. by split_and!.
  - apply andb_true_iff in Ha as [Hid%bool_decide_eq_true Ha]. unfold serve, serve_sftp. run_io.
    destruct (handle_request_counts req (sv_sftp sv)) as (r & sf & -> & Hc);
      [pose proof (ready_handle _ _ _ Hr); lia|]. cbn [fst snd].
    assert (Hr1 : ready known n (mkService (sv_peers sv) (sv_next sv) sf)) by by apply ready_sftp.
    erewrite require_ready by done. eexists _, _, _. split_and!; [done|done|exact Hr1|done].
  - unfold serve. run_io. eexists _, _, _. split_and!; [done|by destruct (knows id sv)|done|done].
  - eexists [], _, _. by split_and!.
Qed.

Lemma serve_all_ready known ms sv :
  addressed known ms = true → ready known (len ms) sv →
  ∃ rs sv', serve_all ms sv = (Ok rs, sv') ∧ filter is_answer rs = omap answer ms.
Proof.
  revert known sv. induction ms as [|m ms IH]; intros known sv Ha Hr; [by exists [], sv|].
  rewrite len_cons in Hr.
  destruct (serve_ready known (len ms) m ms sv) as (rs & sv1 & known' & E & Hf & Hr1 & Ha1);
    [done|apply len_nonneg|done|].
  destruct (IH known' sv1 Ha1 Hr1) as (rs' & sv' & E' & Hf').
  exists (rs ++ rs'), sv'. cbn [serve_all]. rewrite (io_bind_run _ _ _ _ _ E). cbv beta iota.
  rewrite (io_bind_run _ _ _ _ _ E'). split; [done|]. rewrite filter_app, Hf, Hf'. cbn. by destruct (answer m).
Qed.

(** Only [Leave] ends the connection. *)
Lemma serve_stays m rs stop (sv sv' : Service F) :
  serve (H:=H) m sv = (Ok (rs, stop), sv') → m ≠ Leave → stop = false.
Proof.
  destruct m as [peer|id want cmd|id [] granted|id req|id| |]; unfold serve, serve_sftp, require_channel;
    run_io; intros E Hm; by repeat case_match; simplify_eq.
Qed.

Lemma addressed_stays known ms : addressed known ms = true → Leave ∉ ms.
Proof.
  revert known. induction ms as [|m ms IH]; intros known Ha; [apply not_elem_of_nil|].
  apply not_elem_of_cons. cbn [addressed] in Ha.
  destruct m as [peer|id want cmd|id [] granted|id req|id| |]; try apply andb_true_iff in Ha as [_ Ha];
    try done; (split; [done|by eapply IH]).
Qed.
End histories.
