(* ===== verification/Client.v ===== *)
(** The client ([src/bin/client.rs]): the phases of [run_client] up to an open
    channel, and running one command; the interactive mode is in Interactive.v,
    [main] and its arguments in Main.v. *)
From S2P Require Export Server.

(** What the client owns: the link, its channels, and what it has printed. *)
Record Client (C R : Type) := mkClient {
  cl_link : Link C R;
  cl_channels : ChannelManager;
  cl_stdout : bytes;
  cl_stderr : bytes
}.
#[global] Arguments mkClient {C R} _ _ _ _.
#[global] Arguments cl_link {C R} _.
#[global] Arguments cl_channels {C R} _.
#[global] Arguments cl_stdout {C R} _.
#[global] Arguments cl_stderr {C R} _.

Section client_handshake.
Context {C R K : Type} `{!StreamCipher C, hmac_impl : !Hmac, rng_impl : !Rng R,
  x25519_impl : !X25519 R K, sha_impl : !Sha256} `{profile : !BuildProfile}.
Abbreviation net := (io SshError (Link C R)).

(** Steps 1 and 2 of [run_client], up to sending NEWKEYS. *)
Definition client_kex : net KexResult :=
  let client_version := SSH_VERSION_STRING in
  send_version_string client_version;;
  server_version ← recv_version_string;
  server_kexinit_pkt ← expect KexInit (Protocol "Expected KEXINIT from server");
  let server_kexinit_payload := payload server_kexinit_pkt in
  client_kexinit_payload ← on_rng (λ r, let '(p, r) := build_kexinit_payload r in (Ok p, r));
  send_packet (SshPacket_new KexInit client_kexinit_payload);;
  kex ← on_rng (λ r, let '(k, r) := KexClient_new (K:=K) r in (Ok k, r));
  send_packet (SshPacket_new KexEcdhInit (write_string [] (client_ephemeral_pub kex)));;
  reply_pkt ← expect KexEcdhReply (Protocol "Expected KEX_ECDH_REPLY");
  '(host_key_blob, cursor) ← lift (read_string (payload reply_pkt));
  '(server_pub, cursor) ← lift (read_string cursor);
  '(_signature, _) ← lift (read_string cursor);
  if decide (len server_pub ≠ 32) then fail (KeyExchange "Invalid server public key length") else
  let full_client_kexinit := msg_u8 KexInit :: client_kexinit_payload in
  let full_server_kexinit := msg_u8 KexInit :: server_kexinit_payload in
  kex_result ← lift (KexClient_complete server_pub client_version server_version
                       full_client_kexinit full_server_kexinit host_key_blob kex).1;
  expect NewKeys (Protocol "Expected NEWKEYS");;
  send_packet (SshPacket_new NewKeys []);;
  mret kex_result.

Definition client_install_keys (r : KexResult) : net unit :=
  s ← lift (derive_secrets r);
  cipher_pair ← lift (CipherPair_new (enc_key_cs s) (iv_cs s) (enc_key_sc s) (iv_sc s));
  on_keys (λ k, (tt, install_keys (exchange_hash r) cipher_pair (mac_key_cs s) (mac_key_sc s) k)).

(** Step 3. *)
Definition client_service : net unit :=
  send_packet (build_service_request (bs "ssh-userauth"));;
  expect ServiceAccept (Protocol "Expected SERVICE_ACCEPT");;
  mret tt.

(** Step 4. *)
Definition client_auth (user password : bytes) : net unit :=
  send_packet (build_password_auth_request user (bs "ssh-connection") password);;
  auth_response ← recv_packet;
  if decide (msg_type auth_response = msg_u8 UserAuthSuccess) then mret tt
  else if decide (msg_type auth_response = msg_u8 UserAuthFailure) then
    fail (AuthFailed "Authentication rejected by server")
  else fail (Protocol "Unexpected auth response").

End client_handshake.

Section client.
Context {C R K : Type} `{!StreamCipher C, hmac_impl : !Hmac, rng_impl : !Rng R,
  x25519_impl : !X25519 R K, sha_impl : !Sha256} `{profile : !BuildProfile}.
Abbreviation cli := (io SshError (Client C R)).

Definition cl_on_link {A} (m : io SshError (Link C R) A) : cli A := λ c,
  let '(a, l) := m (cl_link c) in (a, mkClient l (cl_channels c) (cl_stdout c) (cl_stderr c)).

Definition cl_on_channels {A} (m : io SshError ChannelManager A) : cli A := λ c,
  let '(a, m) := m (cl_channels c) in (a, mkClient (cl_link c) m (cl_stdout c) (cl_stderr c)).

Definition print_stdout (s : bytes) : cli unit :=
  modify (λ c, mkClient (cl_link c) (cl_channels c) (cl_stdout c ++ s) (cl_stderr c)).

Definition print_stderr (s : bytes) : cli unit :=
  modify (λ c, mkClient (cl_link c) (cl_channels c) (cl_stdout c) (cl_stderr c ++ s)).

(** Step 5: open a session channel; answers the server's channel number. *)
Definition client_open_session : cli Z :=
  ch_id ← cl_on_channels (open_channel (bs "session"));
  ch ← gets (λ c, get ch_id (cl_channels c));
  match ch with
  | None => λ c, (Panic "called `Option::unwrap()` on a `None` value", c)
  | Some ch =>
      cl_on_link (send_packet (build_channel_open (bs "session") (local_id ch) (local_window ch)
                                 (local_max_packet ch)));;
      confirm_pkt ← cl_on_link (expect ChannelOpenConfirmation (ChannelError "Channel open failed"));
      '(_recipient, cursor) ← lift (read_u32 (payload confirm_pkt));
      '(remote_id, cursor) ← lift (read_u32 cursor);
      '(remote_window, cursor) ← lift (read_u32 cursor);
      '(remote_max_packet, _) ← lift (read_u32 cursor);
      cl_on_channels (confirm_channel ch_id remote_id remote_window remote_max_packet);;
      mret remote_id
  end.

(** The [match] on a packet received while the command runs; [true] is [break]. *)
Definition client_handle (remote_id : Z) (pkt : SshPacket) : cli bool :=
  match from_u8 (msg_type pkt) with
  | Some ChannelData =>
      msg ← lift (ChannelDataMsg_parse (payload pkt));
      print_stdout (from_utf8_lossy (data_data msg));;
      mret false
  | Some ChannelExtendedData =>
      '(_channel, cursor) ← lift (read_u32 (payload pkt));
      '(_data_type, cursor) ← lift (read_u32 cursor);
      '(data, _) ← lift (read_string cursor);
      print_stderr (from_utf8_lossy data);;
      mret false
  | Some ChannelClose =>
      cl_on_link (send_packet (build_channel_close remote_id));;
      mret true
  | _ => mret false
  end.

Definition client_recv_or_closed : cli (option SshPacket) := λ c,
  match cl_on_link recv_packet c with
  | (Ok p, c) => (Ok (Some p), c)
  | (Err e, c) => if decide (e = ConnectionClosed) then (Ok None, c) else (Err e, c)
  | (Panic s, c) => (Panic s, c)
  | (OutOfFuel, c) => (OutOfFuel, c)
  end.

Fixpoint client_loop (fuel : nat) (remote_id : Z) : cli unit :=
  match fuel with
  | O => λ c, (OutOfFuel, c)
  | S fuel =>
      pkt ← client_recv_or_closed;
      match pkt with
      | None => mret tt
      | Some pkt =>
          break ← client_handle remote_id pkt;
          if break : bool then mret tt else client_loop fuel remote_id
      end
  end.

Definition disconnect_packet : SshPacket :=
  let payload := [] in
  let payload := write_u32 payload 11 in
  let payload := write_utf8 payload (bs "Session ended") in
  let payload := write_utf8 payload (bs "en") in
  SshPacket_new Disconnect payload.

Definition client_fuel (c : Client C R) : nat := S (length (rd_data (lk_reader (cl_link c)))).

(** The phases up to the open channel, whose remote number it answers. *)
Definition client_session (user password : bytes) : cli Z :=
  cl_on_link (on_keys (λ _, (tt, SessionKeys_new)));;
  cl_on_channels (modify (λ _, ChannelManager_new));;
  kex_result ← cl_on_link (client_kex (K:=K));
  cl_on_link (client_install_keys kex_result);;
  cl_on_link client_service;;
  cl_on_link (client_auth user password);;
  client_open_session.

(** [run_client] with [--command], or with no mode at all: then the channel is just
    closed down. *)
Definition run_client (user password : bytes) (command : option bytes) : cli unit :=
  remote_id ← client_session user password;
  match command with
  | Some command =>
      cl_on_link (send_packet (build_exec_request remote_id command true));;
      fuel ← gets client_fuel;
      client_loop fuel remote_id
  | None => mret tt
  end;;
  cl_on_link (send_packet disconnect_packet).

End client.

(** ** The client against any server *)

Section client_safe.
Context {C R K : Type} `{!StreamCipher C, !StreamCipherLaws C, hmac_impl : !Hmac, hmac_laws : !HmacLaws,
  rng_impl : !Rng R, x25519_impl : !X25519 R K, sha_impl : !Sha256, sha_laws : !Sha256Laws}
  `{profile : !BuildProfile}.
Abbreviation client := (Client C R).

Lemma KexClient_complete_no_fuel pub cv sv ck sk hk (s : KexClient K) :
  (KexClient_complete (R:=R) pub cv sv ck sk hk s).1 ≠ OutOfFuel.
Proof. unfold KexClient_complete. by case_match. Qed.
Hint Resolve KexClient_complete_no_fuel : safe.

Lemma safe_client_kex (l : Link C R) : safe_at link_step (client_kex (K:=K)) l.
Proof.
  unfold client_kex, send_version_string.
  run_safe; apply safe_on_rng; [by destruct build_kexinit_payload|by destruct KexClient_new].
Qed.

Lemma safe_client_install r (l : Link C R) : safe_at reads (client_install_keys r) l.
Proof. unfold client_install_keys. run_safe. split; [done|]. unfold reads. reflexivity. Qed.

Lemma safe_client_service (l : Link C R) : safe_at link_step client_service l.
Proof. unfold client_service. run_safe. Qed.

Lemma safe_client_auth u p (l : Link C R) : safe_at link_step (client_auth u p) l.
Proof. unfold client_auth. run_safe. Qed.

Definition client_reads (c c' : client) : Prop := reads (cl_link c) (cl_link c').

#[export] Instance client_reads_pre : PreOrder client_reads.
Proof. unfold client_reads. split; [by intros c|]. intros c1 c2 c3 ? ?. by transitivity (cl_link c2). Qed.

Lemma safe_cl_on_link {A} (m : io SshError (Link C R) A) (c : client) :
  safe_at reads m (cl_link c) → safe_at client_reads (cl_on_link m) c.
Proof. unfold safe_at, cl_on_link, client_reads. by destruct (m (cl_link c)). Qed.

Lemma safe_cl_on_channels {A} (m : io SshError ChannelManager A) (c : client) :
  (m (cl_channels c)).1 ≠ OutOfFuel → safe_at client_reads (cl_on_channels m) c.
Proof.
  unfold safe_at, cl_on_channels. destruct (m (cl_channels c)). intros Hm. split; [done|].
  unfold client_reads. reflexivity.
Qed.

Lemma safe_cl_send p (c : client) : safe_at client_reads (cl_on_link (send_packet p)) c.
Proof. apply safe_cl_on_link, link_step_reads, safe_send_packet. Qed.
Hint Resolve safe_cl_send : safe.

Lemma safe_print_stdout d (c : client) : safe_at client_reads (print_stdout d) c.
Proof. split; [done|]. unfold client_reads. reflexivity. Qed.

Lemma safe_print_stderr d (c : client) : safe_at client_reads (print_stderr d) c.
Proof. split; [done|]. unfold client_reads. reflexivity. Qed.
Hint Resolve safe_print_stdout safe_print_stderr : safe.

Lemma open_channel_no_fuel ty m : (open_channel ty m).1 ≠ OutOfFuel.
Proof.
  unfold open_channel, take_id, u32_add, mbind, io_bind, gets, lift, modify, mret, io_ret.
  repeat case_match; simplify_eq; done.
Qed.

Lemma safe_client_open (c : client) : safe_at client_reads client_open_session c.
Proof.
  unfold client_open_session. run_safe.
  - apply safe_cl_on_channels, open_channel_no_fuel.
  - by apply safe_cl_on_link, link_step_reads, safe_expect.
  - apply safe_cl_on_channels. unfold confirm_channel, update_channel. by case_match.
  - by split.
Qed.

Lemma safe_client_handle id p (c : client) : safe_at client_reads (client_handle id p) c.
Proof. unfold client_handle. destruct (from_u8 (msg_type p)) as [[]|]; run_safe. Qed.

Lemma safe_client_recv (c : client) : safe_at client_reads client_recv_or_closed c.
Proof.
  assert (safe_at client_reads (cl_on_link recv_packet) c) as [Hf Hr]
    by apply safe_cl_on_link, link_step_reads, safe_recv_packet.
  unfold safe_at, client_recv_or_closed. destruct (cl_on_link recv_packet c) as [[] c1]; try done.
  by case_decide.
Qed.

Lemma client_recv_progress (c c' : client) p :
  client_recv_or_closed c = (Ok (Some p), c') → (unread (cl_link c') + 8 ≤ unread (cl_link c))%nat.
Proof.
  unfold client_recv_or_closed, cl_on_link. destruct (recv_packet (cl_link c)) as [[q|e|s|] l] eqn:Hp;
    try case_decide; intros ?; simplify_eq.
  apply recv_packet_progress in Hp as [Hp _]. cbn. unfold unread, len in *. lia.
Qed.

Lemma safe_client_loop fuel id (c : client) :
  (unread (cl_link c) < fuel)%nat → safe_at client_reads (client_loop fuel id) c.
Proof.
  revert c. induction fuel as [|fuel IH]; intros c Hf; [lia|]. cbn [client_loop].
  apply safe_bind; [apply _|apply safe_client_recv|]. intros [p|] c1 Hp _; [|apply safe_ret, _].
  apply client_recv_progress in Hp.
  apply safe_bind; [apply _|apply safe_client_handle|]. intros [] c2 _ Hu; [apply safe_ret, _|].
  apply IH. unfold client_reads, reads in Hu. lia.
Qed.

Lemma safe_client_session user password (c : client) :
  safe_at client_reads (client_session (K:=K) user password) c.
Proof.
  assert (Hl : ∀ A (m : io SshError (Link C R) A) c, safe_at link_step m (cl_link c) →
    safe_at client_reads (cl_on_link m) c) by (intros; by apply safe_cl_on_link, link_step_reads).
  unfold client_session.
  apply safe_bind; [apply _|apply safe_cl_on_link; split; [done|unfold reads; reflexivity]|intros _ c1 _ _].
  apply safe_bind; [apply _|by apply safe_cl_on_channels|intros _ c2 _ _].
  apply safe_bind; [apply _|apply Hl, safe_client_kex|intros r c3 _ _].
  apply safe_bind; [apply _|apply safe_cl_on_link, safe_client_install|intros _ c4 _ _].
  apply safe_bind; [apply _|apply Hl, safe_client_service|intros _ c5 _ _].
  apply safe_bind; [apply _|apply Hl, safe_client_auth|intros _ c6 _ _].
  apply safe_client_open.
Qed.

Lemma safe_run_client user password command (c : client) :
  safe_at client_reads (run_client (K:=K) user password command) c.
Proof.
  unfold run_client. apply safe_bind; [apply _|apply safe_client_session|intros id c7 _ _].
  apply safe_bind; [apply _| |intros _ c8 _ _; apply safe_cl_send].
  destruct command as [command|]; [|apply safe_ret, _].
  apply safe_bind; [apply _|apply safe_cl_send|intros _ c9 _ _].
  apply safe_bind; [apply _|apply safe_gets, _|intros fuel c10 [= <- <-] _].
  apply safe_client_loop. unfold client_fuel, unread. lia.
Qed.
End client_safe.

(** C19.  The client ends whatever the server sends: [run_client] never runs out of fuel,
    on any input stream, so it comes to an answer (or a panic) once the server's
    side of the stream ends, and it never reads more than the stream holds. *)
Theorem run_client_terminates {C R K} `{!StreamCipher C, !StreamCipherLaws C, hmac_impl : !Hmac,
    hmac_laws : !HmacLaws, rng_impl : !Rng R, x25519_impl : !X25519 R K, sha_impl : !Sha256,
    sha_laws : !Sha256Laws} `{profile : !BuildProfile} user password command (c : Client C R) :
  (run_client (K:=K) user password command c).1 ≠ OutOfFuel ∧
  (unread (cl_link (run_client (K:=K) user password command c).2) ≤ unread (cl_link c))%nat.
Proof. apply safe_run_client. Qed.

Lemma run_client_terminates_witness :
  let c := mkClient (cn_link demo_hostile) ChannelManager_new [] [] in
  let run := run_client (K:=N) (profile:=true) (bs "user") (bs "password") (Some (bs "ls")) c in
  run.1 ≠ OutOfFuel ∧ (unread (cl_link run.2) ≤ unread (cl_link c))%nat.
Proof.
  apply (run_client_terminates (K:=N) (profile:=true) (bs "user") (bs "password") (Some (bs "ls"))
    (mkClient (cn_link demo_hostile) ChannelManager_new [] [])).
Defined.
