(* ===== verification/EndToEnd.v ===== *)
(** Both programs together: the key exchange of [run_client] and
    [handle_connection] against each other, and a whole session that runs one
    command. *)
From S2P Require Export Dialogue Client.

(** ** The key exchange *)

Section key_exchange.
Context {C R K : Type} `{!StreamCipher C, !StreamCipherLaws C, hmac_impl : !Hmac, hmac_laws : !HmacLaws,
  rng_impl : !Rng R, rng_laws : !RngLaws R, x25519_impl : !X25519 R K, x25519_laws : !X25519Laws R K,
  sha_impl : !Sha256, sha_laws : !Sha256Laws} `{profile : !BuildProfile}.

Lemma does_expect m e p i (s s' : SessionKeys C * R) :
  msg_type p = msg_u8 m → does mk_link recv_packet i [] s p s' →
  does mk_link (expect m e) i [] s p s'.
Proof.
  intros Hm H. unfold expect. eapply does_last; [exact H|].
  rewrite decide_False by (intros Hn; by apply Hn). apply does_ret.
Qed.

Lemma kexinit_len (r : R) : len (build_kexinit_payload r).1 ≤ 1000.
Proof.
  unfold build_kexinit_payload. pose proof (fill_bytes_len 16 r ltac:(lia)) as Hl.
  destruct (fill_bytes 16 r) as [c r']. cbn [fst] in Hl |- *. autorewrite with wire. len_simpl.
  repeat match goal with |- context [len (join_str ?s ?l)] =>
    let v := eval vm_compute in (len (join_str s l)) in change (len (join_str s l)) with v end.
  change (len [x00]) with 1. lia.
Qed.

Definition version_line : bytes := SSH_VERSION_STRING ++ crlf.

Lemma does_own_version (s : SessionKeys C * R) :
  does mk_link recv_version_string version_line [] s SSH_VERSION_STRING s.
Proof.
  apply does_recv_version; [|by vm_compute..].
  intros a b E. assert (x0a ∉ SSH_VERSION_STRING) as Hn by by_eval.
  rewrite E in Hn. apply Hn. unfold crlf. set_solver.
Qed.

(** The server's reply, as the client parses it. *)
Lemma kex_reply_fields pub sig :
  len pub = 32 → len sig = 32 →
  read_string (payload (kex_reply pub sig)) =
    Ok (host_key_blob, enc_string pub ++ enc_string sig) ∧
  read_string (enc_string pub ++ enc_string sig) = Ok (pub, enc_string sig) ∧
  read_string (enc_string sig) = Ok (sig, []) ∧
  len (payload (kex_reply pub sig)) ≤ 1000.
Proof.
  intros Hp Hs.
  assert (wire_string host_key_blob) by by_eval.
  assert (wire_string pub) by (unfold wire_string, MAX_PACKET_SIZE; lia).
  assert (wire_string sig) by (unfold wire_string, MAX_PACKET_SIZE; lia).
  unfold kex_reply. cbn [payload SshPacket_new]. autorewrite with wire.
  split_and!; [by rewrite read_string_encode|by rewrite read_string_encode|by rewrite read_string_last|].
  len_simpl. change (len host_key_blob) with 24. lia.
Qed.

(** Each side of the key exchange, given the packets it sends and receives. *)
Lemma does_server_kex pay_s pay_c client_pub kex_s result rs rs1 rs2 rs3 rs4 rs5
    (ks ks1 ks2 ks3 ks4 ks5 ks6 : SessionKeys C) w1 w2 w3 w4 w5 w6 :
  build_kexinit_payload rs = (pay_s, rs1) → KexServer_new (K:=K) rs2 = (kex_s, rs3) →
  len client_pub = 32 →
  (KexServer_complete (R:=R) client_pub SSH_VERSION_STRING SSH_VERSION_STRING (msg_u8 KexInit :: pay_c)
     (msg_u8 KexInit :: pay_s) host_key_blob kex_s).1 = Ok result →
  does mk_link (send_packet (SshPacket_new KexInit pay_s)) [] w1 (ks, rs1) tt (ks1, rs2) →
  does mk_link recv_packet w2 [] (ks1, rs2) (SshPacket_new KexInit pay_c) (ks2, rs2) →
  does mk_link recv_packet w3 [] (ks2, rs2) (SshPacket_new KexEcdhInit (write_string [] client_pub)) (ks3, rs2) →
  does mk_link (send_packet (kex_reply (server_ephemeral_pub kex_s)
                  (compute_hmac (bs "host-key-secret") (exchange_hash result)))) [] w4 (ks3, rs3) tt (ks4, rs4) →
  does mk_link (send_packet (SshPacket_new NewKeys [])) [] w5 (ks4, rs4) tt (ks5, rs5) →
  does mk_link recv_packet w6 [] (ks5, rs5) (SshPacket_new NewKeys []) (ks6, rs5) →
  does mk_link (server_kex (K:=K)) (version_line ++ w2 ++ w3 ++ w6) (version_line ++ w1 ++ w4 ++ w5)
    (ks, rs) result (ks6, rs5).
Proof.
  intros Ps Ks Hl Es S1 R2 R3 S4 S5 R6.
  assert (wire_string client_pub) by (unfold wire_string, MAX_PACKET_SIZE; lia).
  unfold server_kex. cbv zeta.
  eapply (does_bind _ _ _ [] _ version_line); [apply does_send_version|].
  eapply (does_bind _ _ _ version_line _ []); [apply does_own_version|].
  eapply does_quiet; [by apply does_on_rng; rewrite Ps|].
  eapply (does_bind _ _ _ [] _ w1); [exact S1|].
  eapply (does_bind _ _ _ w2 _ []); [by apply does_expect, R2|].
  eapply (does_bind _ _ _ w3 w6 []); [by apply does_expect, R3|].
  eapply does_quiet; [apply does_lift; cbn [payload SshPacket_new];
    rewrite write_string_enc, app_nil_l; by rewrite read_string_last by auto|].
  cbv beta iota. rewrite decide_False by auto.
  eapply does_quiet; [by apply does_on_rng; rewrite Ks|]. cbv zeta.
  eapply does_quiet; [apply does_lift; cbn [payload SshPacket_new]; by rewrite Es|]. cbv beta zeta.
  eapply (does_bind _ _ _ [] _ w4); [exact S4|].
  eapply does_send_then; [exact S5|].
  eapply does_last; [by apply does_expect, R6|]. apply does_ret.
Qed.

Lemma does_client_kex pay_s pay_c server_pub sig kex_c result rc rc1 rc2 rc3 rc4 rc5
    (kc kc1 kc2 kc3 kc4 kc5 kc6 : SessionKeys C) w1 w2 w3 w4 w5 w6 :
  build_kexinit_payload rc = (pay_c, rc1) → KexClient_new (K:=K) rc2 = (kex_c, rc3) →
  len server_pub = 32 → len sig = 32 →
  (KexClient_complete (R:=R) server_pub SSH_VERSION_STRING SSH_VERSION_STRING (msg_u8 KexInit :: pay_c)
     (msg_u8 KexInit :: pay_s) host_key_blob kex_c).1 = Ok result →
  does mk_link recv_packet w1 [] (kc, rc) (SshPacket_new KexInit pay_s) (kc1, rc) →
  does mk_link (send_packet (SshPacket_new KexInit pay_c)) [] w2 (kc1, rc1) tt (kc2, rc2) →
  does mk_link (send_packet (SshPacket_new KexEcdhInit (write_string [] (client_ephemeral_pub kex_c))))
    [] w3 (kc2, rc3) tt (kc3, rc4) →
  does mk_link recv_packet w4 [] (kc3, rc4) (kex_reply server_pub sig) (kc4, rc4) →
  does mk_link recv_packet w5 [] (kc4, rc4) (SshPacket_new NewKeys []) (kc5, rc4) →
  does mk_link (send_packet (SshPacket_new NewKeys [])) [] w6 (kc5, rc4) tt (kc6, rc5) →
  does mk_link (client_kex (K:=K)) (version_line ++ w1 ++ w4 ++ w5) (version_line ++ w2 ++ w3 ++ w6)
    (kc, rc) result (kc6, rc5).
Proof.
  intros Pc Kc Hl Hs Ec R1 S2 S3 R4 R5 S6.
  destruct (kex_reply_fields server_pub sig Hl Hs) as (F1 & F2 & F3 & _).
  unfold client_kex. cbv zeta.
  eapply (does_bind _ _ _ [] _ version_line); [apply does_send_version|].
  eapply (does_bind _ _ _ version_line _ []); [apply does_own_version|].
  eapply (does_bind _ _ _ w1 _ []); [by apply does_expect, R1|].
  eapply does_quiet; [by apply does_on_rng; rewrite Pc|].
  eapply (does_bind _ _ _ [] _ w2); [exact S2|].
  eapply does_quiet; [by apply does_on_rng; rewrite Kc|].
  eapply (does_bind _ _ _ [] _ w3); [exact S3|].
  eapply (does_bind _ _ _ w4 _ []); [by apply does_expect, R4|].
  eapply does_quiet; [apply does_lift; exact F1|].
  eapply does_quiet; [apply does_lift; exact F2|].
  eapply does_quiet; [apply does_lift; exact F3|].
  cbv beta iota. rewrite decide_False by auto. cbv zeta.
  eapply does_quiet; [apply does_lift; cbn [payload SshPacket_new]; by rewrite Ec|]. cbv beta zeta.
  eapply does_recv_then; [by apply does_expect, R5|].
  eapply does_last; [exact S6|]. apply does_ret.
Qed.

Lemma kex_dialogue (ks kc : SessionKeys C) (rs rc : R) :
  in_step ks kc →
  ∃ ws wc ks' kc' rs' rc' result,
    does mk_link (server_kex (K:=K)) wc ws (ks, rs) result (ks', rs') ∧
    does mk_link (client_kex (K:=K)) ws wc (kc, rc) result (kc', rc') ∧
    in_step ks' kc'.
Proof.
  intros H0.
  destruct (build_kexinit_payload rs) as [pay_s rs1] eqn:Ps.
  destruct (build_kexinit_payload rc) as [pay_c rc1] eqn:Pc.
  pose proof (kexinit_len rs) as Ls. pose proof (kexinit_len rc) as Lc.
  rewrite Ps in Ls. rewrite Pc in Lc. cbn [fst] in Ls, Lc.
  (* server: KEXINIT *)
  destruct (message (SshPacket_new KexInit pay_s) ks kc rs1) as (w1 & ks1 & rs2 & kc1 & S1 & R1 & H1 & _);
    [cbn; unfold MAX_PACKET_SIZE; lia|done|].
  (* client: KEXINIT, KEX_ECDH_INIT *)
  destruct (message (SshPacket_new KexInit pay_c) kc1 ks1 rc1) as (w2 & kc2 & rc2 & ks2 & S2 & R2 & H2 & _);
    [cbn; unfold MAX_PACKET_SIZE; lia|by apply in_step_sym|].
  destruct (KexClient_new (K:=K) rc2) as [kex_c rc3] eqn:Kc.
  pose proof (KexClient_new_pub _ _ _ Kc) as Lpc.
  destruct (message (SshPacket_new KexEcdhInit (write_string [] (client_ephemeral_pub kex_c))) kc2 ks2 rc3)
    as (w3 & kc3 & rc4 & ks3 & S3 & R3 & H3 & _);
    [cbn [payload SshPacket_new]; rewrite write_string_enc; unfold MAX_PACKET_SIZE; len_lia|done|].
  (* server: the exchange, KEX_ECDH_REPLY, NEWKEYS *)
  destruct (KexServer_new (K:=K) rs2) as [kex_s rs3] eqn:Ks.
  pose proof (KexServer_new_pub _ _ _ Ks) as Lps.
  destruct (kex_both rc2 rs2 rc3 rs3 kex_c kex_s SSH_VERSION_STRING SSH_VERSION_STRING
              (msg_u8 KexInit :: pay_c) (msg_u8 KexInit :: pay_s) host_key_blob Kc Ks)
    as (result & Ec & Es).
  set (sig := compute_hmac (bs "host-key-secret") (exchange_hash result)).
  destruct (kex_reply_fields (server_ephemeral_pub kex_s) sig Lps) as (F1 & F2 & F3 & Lr);
    [apply hmac_len|].
  destruct (message (kex_reply (server_ephemeral_pub kex_s) sig) ks3 kc3 rs3)
    as (w4 & ks4 & rs4 & kc4 & S4 & R4 & H4 & _);
    [unfold MAX_PACKET_SIZE; lia|by apply in_step_sym|].
  destruct (message (SshPacket_new NewKeys []) ks4 kc4 rs4) as (w5 & ks5 & rs5 & kc5 & S5 & R5 & H5 & _);
    [by vm_compute|done|].
  (* client: NEWKEYS *)
  destruct (message (SshPacket_new NewKeys []) kc5 ks5 rc4) as (w6 & kc6 & rc5 & ks6 & S6 & R6 & H6 & _);
    [by vm_compute|by apply in_step_sym|].
  exists (version_line ++ w1 ++ w4 ++ w5), (version_line ++ w2 ++ w3 ++ w6), ks6, kc6, rs5, rc5, result.
  split; [|split; [|by apply in_step_sym]].
  - eapply does_server_kex; [exact Ps|exact Ks|exact Lpc|by rewrite Es|
      exact S1|exact (R2 _)|exact (R3 _)|exact S4|exact S5|exact (R6 _)].
  - eapply does_client_kex; [exact Pc|exact Kc|exact Lps|apply hmac_len|by rewrite Ec|
      exact (R1 _)|exact S2|exact S3|exact (R4 _)|exact (R5 _)|exact S6].
Qed.
(** ** Installing the keys *)

Lemma derive_secrets_ok (r : KexResult) :
  ∃ s, derive_secrets r = Ok s ∧ len (iv_cs s) = 16 ∧ len (iv_sc s) = 16 ∧
    len (enc_key_cs s) = 32 ∧ len (enc_key_sc s) = 32.
Proof.
  unfold derive_secrets.
  assert (D : ∀ x n, 0 ≤ n → ∃ k, derive_key (shared_secret r) (exchange_hash r) x (exchange_hash r) n = Ok k ∧
    len k = n) by (intros; by apply derive_key_len).
  destruct (D x41 16) as (k1 & -> & ?); [lia|]. destruct (D x42 16) as (k2 & -> & ?); [lia|].
  destruct (D x43 32) as (k3 & -> & ?); [lia|]. destruct (D x44 32) as (k4 & -> & ?); [lia|].
  destruct (D x45 32) as (k5 & -> & ?); [lia|]. destruct (D x46 32) as (k6 & -> & ?); [lia|].
  cbn. eexists. split; [done|]. done.
Qed.

(** What the two ends hold after the handshake. *)
Definition secured (r : KexResult) (k : SessionKeys C) : Prop :=
  session_id k = Some (exchange_hash r) ∧ is_encrypted k = true ∧
  is_Some (send_mac_key k) ∧ is_Some (recv_mac_key k).

Lemma install_dialogue (r : KexResult) (ks kc : SessionKeys C) (rs rc : R) :
  in_step ks kc →
  ∃ ks' kc', does mk_link (server_install_keys r) [] [] (ks, rs) tt (ks', rs) ∧
    does mk_link (client_install_keys r) [] [] (kc, rc) tt (kc', rc) ∧
    in_step ks' kc' ∧ secured r ks' ∧ secured r kc'.
Proof.
  intros [[E1 H1] [E2 H2]]. destruct (derive_secrets_ok r) as (s & Es & L1 & L2 & L3 & L4).
  assert (N : ∀ ek ei dk di, len ek = 32 → len ei = 16 → len dk = 32 → len di = 16 →
    CipherPair_new (C:=C) ek ei dk di =
      Ok (mkCipherPair (mkAesCipher (cipher_new ek ei)) (mkAesCipher (cipher_new dk di)))).
  { intros. unfold CipherPair_new. by rewrite !AesCipher_new_ok by done. }
  eexists _, _. split_and!.
  - unfold server_install_keys. eapply does_quiet; [by apply does_lift|]. cbv beta.
    eapply does_quiet; [apply does_lift; by apply N|]. by apply does_on_keys.
  - unfold client_install_keys. eapply does_quiet; [by apply does_lift|]. cbv beta.
    eapply does_quiet; [apply does_lift; by apply N|]. by apply does_on_keys.
  - unfold send_side, recv_side in *. simplify_eq.
    split; split; unfold send_side, recv_side; cbn; congruence.
  - done.
  - done.
Qed.

Definition server_handshake : io SshError (Link C R) unit :=
  r ← server_kex (K:=K); server_install_keys r.
Definition client_handshake : io SshError (Link C R) unit :=
  r ← client_kex (K:=K); client_install_keys r.

Lemma handshake_dialogue (rs rc : R) :
  ∃ ws wc ks kc rs' rc' result,
    does mk_link server_handshake wc ws (SessionKeys_new, rs) tt (ks, rs') ∧
    does mk_link client_handshake ws wc (SessionKeys_new, rc) tt (kc, rc') ∧
    in_step ks kc ∧ secured result ks ∧ secured result kc.
Proof.
  destruct (kex_dialogue SessionKeys_new SessionKeys_new rs rc in_step_new)
    as (ws & wc & ks & kc & rs' & rc' & result & Hs & Hc & H).
  destruct (install_dialogue result ks kc rs' rc' H) as (ks' & kc' & Is & Ic & H' & Ss & Sc).
  exists ws, wc, ks', kc', rs', rc', result. split_and!; [..|done|done|done].
  - eapply does_last; [exact Hs|exact Is].
  - eapply does_last; [exact Hc|exact Ic].
Qed.
End key_exchange.

(** C4.  The handshake succeeds and agrees: run against each other, whatever
    randomness each side draws, the client's and the server's version exchange and
    key exchange both finish; each consumes exactly what the other wrote (any
    further bytes are left in the stream), both derive the same session
    identifier, encryption and both MACs are on, and each direction's cipher, MAC
    key and sequence number match at the two ends. *)
Theorem handshake_agreement {C R K} `{!StreamCipher C, !StreamCipherLaws C, hmac_impl : !Hmac,
    hmac_laws : !HmacLaws, rng_impl : !Rng R, rng_laws : !RngLaws R, x25519_impl : !X25519 R K,
    x25519_laws : !X25519Laws R K, sha_impl : !Sha256, sha_laws : !Sha256Laws}
    `{profile : !BuildProfile} (rs rc : R) :
  ∃ ws wc ks kc rs' rc' sid,
    (∀ rest e out,
       (r ← server_kex (K:=K); server_install_keys r)
         (mkLink (mkReader (wc ++ rest) e) (mkWriter out None) SessionKeys_new rs) =
       (Ok tt, mkLink (C:=C) (mkReader rest e) (mkWriter (out ++ ws) None) ks rs')) ∧
    (∀ rest e out,
       (r ← client_kex (K:=K); client_install_keys r)
         (mkLink (mkReader (ws ++ rest) e) (mkWriter out None) SessionKeys_new rc) =
       (Ok tt, mkLink (C:=C) (mkReader rest e) (mkWriter (out ++ wc) None) kc rc')) ∧
    keys_synced ks kc ∧ keys_synced kc ks ∧
    session_id ks = Some sid ∧ session_id kc = Some sid ∧
    is_encrypted ks = true ∧ is_Some (recv_mac_key ks) ∧ is_Some (send_mac_key ks).
Proof.
  destruct (handshake_dialogue (K:=K) rs rc)
    as (ws & wc & ks & kc & rs' & rc' & result & Hs & Hc & [H1 H2] & (S1 & S2 & S3 & S4) & S5 & _).
  exists ws, wc, ks, kc, rs', rc', (exchange_hash result). by split_and!.
Qed.

Lemma handshake_agreement_witness :
  ∃ ws wc ks kc rs' rc' sid,
    (∀ rest e out,
       @mbind _ (@io_bind _ _) _ _ (@server_install_keys (Z * Z) Z _ _)
         (@server_kex (Z * Z) Z N _ _ _ _ _ true)
         (mkLink (mkReader (wc ++ rest) e) (mkWriter out None) SessionKeys_new 5) =
       (Ok tt, mkLink (mkReader rest e) (mkWriter (out ++ ws) None) ks rs')) ∧
    (∀ rest e out,
       @mbind _ (@io_bind _ _) _ _ (@client_install_keys (Z * Z) Z _ _)
         (@client_kex (Z * Z) Z N _ _ _ _ _ true)
         (mkLink (mkReader (ws ++ rest) e) (mkWriter out None) SessionKeys_new 9) =
       (Ok tt, mkLink (mkReader rest e) (mkWriter (out ++ wc) None) kc rc')) ∧
    keys_synced ks kc ∧ keys_synced kc ks ∧
    session_id ks = Some sid ∧ session_id kc = Some sid ∧
    is_encrypted ks = true ∧ is_Some (recv_mac_key ks) ∧ is_Some (send_mac_key ks).
Proof. apply (@handshake_agreement (Z * Z) Z N _ _ _ _ _ _ _ _ _ _ true 5 9). Defined.

(** ** Service request and authentication *)

Section login.
Context {C R : Type} `{!StreamCipher C, !StreamCipherLaws C, hmac_impl : !Hmac, hmac_laws : !HmacLaws,
  rng_impl : !Rng R, rng_laws : !RngLaws R} `{profile : !BuildProfile}.

Lemma service_dialogue (ks kc : SessionKeys C) (rs rc : R) :
  in_step ks kc →
  ∃ ws wc ks' kc' rs' rc',
    does mk_link server_service wc ws (ks, rs) tt (ks', rs') ∧
    does mk_link client_service ws wc (kc, rc) tt (kc', rc') ∧ in_step ks' kc'.
Proof.
  intros H0. set (name := bs "ssh-userauth"). assert (Hn : wire_utf8 name) by by_eval.
  destruct (message (build_service_request name) kc ks rc) as (w1 & kc1 & rc1 & ks1 & S1 & R1 & H1 & _);
    [by vm_compute|by apply in_step_sym|].
  destruct (message (build_service_accept name) ks1 kc1 rs) as (w2 & ks2 & rs2 & kc2 & S2 & R2 & H2 & _);
    [by vm_compute|by apply in_step_sym|].
  exists w2, w1, ks2, kc2, rs2, rc1. split_and!; [..|done].
  - unfold server_service. eapply does_recv_then; [by apply does_expect, R1|].
    eapply does_quiet; [apply does_lift; by apply (read_utf8_last name)|]. exact S2.
  - unfold client_service. eapply does_send_then; [exact S1|].
    eapply does_last; [by apply does_expect, R2|]. apply does_ret.
Qed.

Lemma auth_dialogue db user password (ks kc : SessionKeys C) (rs rc : R) :
  in_step ks kc → verify_password db user password = true →
  wire_utf8 user → wire_utf8 password → len user + len password ≤ MAX_PACKET_SIZE - 100 →
  ∃ ws wc ks' kc' rs' rc',
    (∀ fuel, does mk_link (auth_loop (S fuel) db) wc ws (ks, rs) tt (ks', rs')) ∧
    does mk_link (client_auth user password) ws wc (kc, rc) tt (kc', rc') ∧ in_step ks' kc'.
Proof.
  intros H0 Hv Hu Hp Hl. set (req := build_password_auth_request user (bs "ssh-connection") password).
  assert (Hs : wire_utf8 (bs "ssh-connection")) by by_eval.
  destruct (message req kc ks rc) as (w1 & kc1 & rc1 & ks1 & S1 & R1 & H1 & _);
    [|by apply in_step_sym|].
  { unfold req, build_password_auth_request. cbn [payload SshPacket_new]. autorewrite with wire.
    len_simpl. change (len (bs "ssh-connection")) with 14. change (len (bs "password")) with 8. lia. }
  destruct (message build_auth_success ks1 kc1 rs) as (w2 & ks2 & rs2 & kc2 & S2 & R2 & H2 & _);
    [by vm_compute|by apply in_step_sym|].
  exists w2, w1, ks2, kc2, rs2, rc1. split_and!; [..|done].
  - intros fuel. cbn [auth_loop]. eapply (does_last _ _ _ _ _ _ true); [|apply does_ret].
    unfold auth_step. eapply does_recv_then; [by apply does_expect, R1|].
    eapply does_quiet; [apply does_lift; by apply parse_password_request|].
    unfold credential_accepted. cbn [credential username]. rewrite Hv.
    eapply does_last; [exact S2|apply does_ret].
  - unfold client_auth. eapply does_send_then; [exact S1|].
    eapply does_last; [exact (R2 _)|]. rewrite decide_True by done. apply does_ret.
Qed.
End login.

(** ** A session on the server's and the client's full state *)

Section session.
Context {C R K F H : Type} `{!StreamCipher C, !StreamCipherLaws C, hmac_impl : !Hmac, hmac_laws : !HmacLaws,
  rng_impl : !Rng R, rng_laws : !RngLaws R, x25519_impl : !X25519 R K, x25519_laws : !X25519Laws R K,
  sha_impl : !Sha256, sha_laws : !Sha256Laws, fs_impl : !FileSystem F H, proc_impl : !Processes F,
  order_impl : !MapOrder, order_laws : !MapOrderLaws} `{profile : !BuildProfile}.

Definition mk_conn (rd : Reader) (wr : Writer) (s : (SessionKeys C * R) * (ChannelManager * SftpState F))
    : Conn C R F := mkConn (mk_link rd wr s.1) s.2.1 s.2.2.

Definition mk_client (rd : Reader) (wr : Writer) (s : (SessionKeys C * R) * (ChannelManager * (bytes * bytes)))
    : Client C R := mkClient (mk_link rd wr s.1) s.2.1 s.2.2.1 s.2.2.2.

Lemma does_on_link {A} (m : io SshError (Link C R) A) i o s a s' x :
  does mk_link m i o s a s' → does mk_conn (on_link m) i o (s, x) a (s', x).
Proof. intros Hm rest e out. unfold on_link, mk_conn. cbn [cn_link fst snd]. by rewrite Hm. Qed.

Lemma does_cl_on_link {A} (m : io SshError (Link C R) A) i o s a s' x :
  does mk_link m i o s a s' → does mk_client (cl_on_link m) i o (s, x) a (s', x).
Proof. intros Hm rest e out. unfold cl_on_link, mk_client. cbn [cl_link fst snd]. by rewrite Hm. Qed.

Lemma does_on_channels {A} (m : io SshError ChannelManager A) s chs a chs' x :
  m chs = (Ok a, chs') → does mk_conn (on_channels m) [] [] (s, (chs, x)) a (s, (chs', x)).
Proof. intros Hm rest e out. unfold on_channels, mk_conn. cbn. by rewrite Hm, app_nil_r. Qed.

Lemma does_cl_on_channels {A} (m : io SshError ChannelManager A) s chs a chs' x :
  m chs = (Ok a, chs') → does mk_client (cl_on_channels m) [] [] (s, (chs, x)) a (s, (chs', x)).
Proof. intros Hm rest e out. unfold cl_on_channels, mk_client. cbn. by rewrite Hm, app_nil_r. Qed.

Lemma does_on_sftp {A} (m : io SshError (SftpState F) A) s chs a sf sf' :
  m sf = (Ok a, sf') → does mk_conn (on_sftp m) [] [] (s, (chs, sf)) a (s, (chs, sf')).
Proof. intros Hm rest e out. unfold on_sftp, mk_conn. cbn. by rewrite Hm, app_nil_r. Qed.

Lemma does_stdout d s chs out err :
  does mk_client (print_stdout d) [] [] (s, (chs, (out, err))) tt (s, (chs, (out ++ d, err))).
Proof. intros rest e w. by rewrite app_nil_r. Qed.

(** Receiving in the loops. *)
Lemma does_recv_or_closed p i s s' x :
  does mk_link recv_packet i [] s p s' → does mk_conn recv_or_closed i [] (s, x) (Some p) (s', x).
Proof. intros Hp rest e out. unfold recv_or_closed. by rewrite (does_on_link _ _ _ _ _ _ _ Hp). Qed.

Lemma does_client_recv p i s s' x :
  does mk_link recv_packet i [] s p s' → does mk_client client_recv_or_closed i [] (s, x) (Some p) (s', x).
Proof. intros Hp rest e out. unfold client_recv_or_closed. by rewrite (does_cl_on_link _ _ _ _ _ _ _ Hp). Qed.

(** One iteration of each loop. *)
Lemma does_channel_loop fuel p i i2 o o2 s s1 s2 s3 x x2 :
  does mk_link recv_packet i [] s p s1 →
  does mk_conn (handle_message p) [] o (s1, x) false (s2, x2) →
  does mk_conn (channel_loop fuel) i2 o2 (s2, x2) tt s3 →
  does mk_conn (channel_loop (S fuel)) (i ++ i2) (o ++ o2) (s, x) tt s3.
Proof.
  intros Hp Hm Hl. cbn [channel_loop]. eapply (does_bind _ _ _ i i2 [] (o ++ o2));
    [by apply does_recv_or_closed|].
  eapply (does_bind _ _ _ [] i2 o o2); [exact Hm|exact Hl].
Qed.

Lemma does_client_loop fuel id p i i2 o2 s s1 s3 x x2 :
  does mk_link recv_packet i [] s p s1 →
  does mk_client (client_handle id p) [] [] (s1, x) false (s1, x2) →
  does mk_client (client_loop fuel id) i2 o2 (s1, x2) tt s3 →
  does mk_client (client_loop (S fuel) id) (i ++ i2) o2 (s, x) tt s3.
Proof.
  intros Hp Hm Hl. cbn [client_loop]. eapply (does_bind _ _ _ i i2 [] o2);
    [by apply does_client_recv|].
  eapply does_quiet; [exact Hm|exact Hl].
Qed.

(** A call whose fuel is the length of what is left to read. *)
Lemma does_fuel {A} (k : nat → io SshError (Conn C R F) A) n i o s a s' :
  (n ≤ S (length i))%nat → (∀ fuel, (n ≤ fuel)%nat → does mk_conn (k fuel) i o s a s') →
  does mk_conn (fuel ← gets stream_fuel; k fuel) i o s a s'.
Proof.
  intros Hn Hk rest e out. erewrite io_bind_run by reflexivity. apply Hk.
  unfold stream_fuel, mk_conn. cbn. rewrite length_app. lia.
Qed.

Lemma does_client_fuel {A} (k : nat → io SshError (Client C R) A) n i o s a s' :
  (n ≤ S (length i))%nat → (∀ fuel, (n ≤ fuel)%nat → does mk_client (k fuel) i o s a s') →
  does mk_client (fuel ← gets client_fuel; k fuel) i o s a s'.
Proof.
  intros Hn Hk rest e out. erewrite io_bind_run by reflexivity. apply Hk.
  unfold client_fuel, mk_client. cbn. rewrite length_app. lia.
Qed.

Lemma does_send p o s s' x :
  does mk_link (send_packet p) [] o s tt s' → does mk_conn (send p) [] o (s, x) tt (s', x).
Proof. apply does_on_link. Qed.

Lemma does_known_remote id ch s chs sf :
  find_by_remote_id id chs = Some ch →
  does mk_conn (known_remote_id id) [] [] (s, (chs, sf)) (remote_id ch) (s, (chs, sf)).
Proof.
  intros Hf. unfold known_remote_id.
  eapply (does_quiet _ _ _ _ _ _ (Some ch)); [by apply does_gets|]. apply does_ret.
Qed.

(** ** Opening the channel *)

(** The only channel of such a session, as the server keeps it. *)
Definition one_channel (chs : ChannelManager) : Prop :=
  ∃ ch, channels chs = {[0 := ch]} ∧ remote_id ch = 0 ∧ closed ch = false.

Lemma one_channel_found chs :
  one_channel chs → ∃ ch, find_by_remote_id 0 chs = Some ch ∧ remote_id ch = 0 ∧ closed ch = false.
Proof. intros (ch & Hc & Hr & Hcl). exists ch. split; [by eapply find_by_remote_id_some|done]. Qed.

Lemma open_dialogue (ks kc : SessionKeys C) (rs rc : R) sf px :
  in_step ks kc →
  ∃ w1 w2 p ks1 ks' kc' rs' rc' chs chc,
    (∀ r : R, does mk_link recv_packet w1 [] (ks, r) p (ks1, r)) ∧
    does mk_conn (handle_message (H:=H) p) [] w2 ((ks1, rs), (ChannelManager_new, sf)) false
      ((ks', rs'), (chs, sf)) ∧
    does mk_client client_open_session w2 w1 ((kc, rc), (ChannelManager_new, px)) 0
      ((kc', rc'), (chc, px)) ∧
    in_step ks' kc' ∧ one_channel chs ∧ 8 ≤ len w1.
Proof.
  intros H0. set (open := build_channel_open (bs "session") 0 DEFAULT_WINDOW_SIZE DEFAULT_MAX_PACKET_SIZE).
  set (confirm := build_channel_open_confirmation 0 0 DEFAULT_WINDOW_SIZE DEFAULT_MAX_PACKET_SIZE).
  destruct (message open kc ks rc) as (w1 & kc1 & rc1 & ks1 & S1 & R1 & H1 & L1);
    [by vm_compute|by apply in_step_sym|].
  destruct (message confirm ks1 kc1 rs) as (w2 & ks2 & rs2 & kc2 & S2 & R2 & H2 & _);
    [by vm_compute|by apply in_step_sym|].
  eexists w1, w2, open, ks1, ks2, kc2, rs2, rc1, _, _. split_and!; [exact R1|..].
  - unfold handle_message. change (from_u8 (msg_type open)) with (Some ChannelOpen). cbv iota.
    eapply does_last; [|apply does_ret]. unfold handle_channel_open.
    eapply does_quiet; [by apply does_lift, parse_channel_open; by_eval|].
    eapply does_quiet; [by apply does_on_channels, accept_channel_run|]. by apply does_send.
  - unfold client_open_session. eapply does_quiet; [by apply does_cl_on_channels, open_channel_run|].
    eapply (does_quiet _ _ _ _ _ _ (Some (Channel_new 0 (bs "session"))));
      [apply does_gets; intros; apply lookup_insert_eq|]. cbv iota.
    eapply does_send_then; [by apply does_cl_on_link|].
    eapply does_recv_then; [by apply does_cl_on_link, does_expect, R2|].
    do 4 (eapply does_quiet; [by apply does_lift|]; cbv beta iota).
    eapply does_quiet; [by apply does_cl_on_channels|]. apply does_ret.
  - done.
  - eexists. split; [by cbn; rewrite insert_empty|done].
  - done.
Qed.

(** ** Running the command *)

(** What the server sends for a command whose output is [output]. *)
Lemma exec_dialogue command output fs' (ks kc : SessionKeys C) (rs rc : R) chs sf px :
  in_step ks kc → one_channel chs → wire_utf8 command → len command ≤ MAX_PACKET_SIZE - 100 →
  execute_command command (disk sf) = (output, fs') → len output ≤ MAX_PACKET_SIZE - 29 →
  ∃ w1 w2 wx p ks1 ks5 ks6 kc1 kc6 rs' rc1 rc',
    (∀ r : R, does mk_link recv_packet w1 [] (ks, r) p (ks1, r)) ∧
    does mk_conn (handle_message (H:=H) p) [] w2 ((ks1, rs), (chs, sf)) false
      ((ks5, rs'), (chs, mkSftp (handler sf) fs')) ∧
    does mk_link (send_packet (build_exec_request 0 command true)) [] w1 (kc, rc) tt (kc1, rc1) ∧
    (∀ chc fuel, does mk_client (client_loop (4 + fuel) 0) w2 wx ((kc1, rc1), (chc, px)) tt
                   ((kc6, rc'), (chc, (px.1 ++ from_utf8_lossy output, px.2)))) ∧
    (∀ r : R, does mk_link recv_packet wx [] (ks5, r) (build_channel_close 0) (ks6, r)) ∧
    in_step ks6 kc6 ∧ 8 ≤ len w1 ∧ 8 ≤ len w2 ∧ 8 ≤ len wx.
Proof.
  intros H0 Hone Hcmd Hlc Hrun Hlo. destruct (one_channel_found _ Hone) as (ch & Hf & Hr & _).
  assert (Hout : wire_string output) by (unfold wire_string, MAX_PACKET_SIZE in *; lia).
  set (exec := build_exec_request 0 command true).
  destruct (message exec kc ks rc) as (w1 & kc1 & rc1 & ks1 & S1 & R1 & H1 & L1);
    [|by apply in_step_sym|].
  { unfold exec, build_exec_request. cbn [payload SshPacket_new]. autorewrite with wire. len_simpl.
    change (len (bs "exec")) with 4. lia. }
  destruct (message (channel_reply ChannelSuccess 0) ks1 kc1 rs)
    as (w2 & ks2 & rs2 & kc2 & S2 & R2 & H2 & L2); [by vm_compute|by apply in_step_sym|].
  destruct (message (build_channel_data 0 output) ks2 kc2 rs2)
    as (w3 & ks3 & rs3 & kc3 & S3 & R3 & H3 & _); [|done|].
  { unfold build_channel_data. cbn [payload SshPacket_new]. autorewrite with wire. len_lia. }
  destruct (message (build_channel_eof 0) ks3 kc3 rs3)
    as (w4 & ks4 & rs4 & kc4 & S4 & R4 & H4 & _); [by vm_compute|done|].
  destruct (message (build_channel_close 0) ks4 kc4 rs4)
    as (w5 & ks5 & rs5 & kc5 & S5 & R5 & H5 & _); [by vm_compute|done|].
  destruct (message (build_channel_close 0) kc5 ks5 rc1)
    as (wx & kc6 & rc6 & ks6 & S6 & R6 & H6 & L6); [by vm_compute|by apply in_step_sym|].
  exists w1, (w2 ++ w3 ++ w4 ++ w5), wx, exec, ks1, ks5, ks6, kc1, kc6, rs5, rc1, rc6.
  split_and!; [exact R1| |exact S1| |exact R6|by apply in_step_sym|done|len_lia|done].
  - unfold handle_message. change (from_u8 (msg_type exec)) with (Some ChannelRequest). cbv iota.
    eapply does_last; [|apply does_ret]. unfold handle_channel_request.
    eapply does_quiet; [by apply does_lift, parse_exec_request|].
    cbn [req_request_type req_data]. rewrite decide_True by done. unfold handle_exec.
    eapply does_quiet; [by apply does_lift, read_utf8_last|]. cbv beta iota.
    eapply does_quiet; [apply does_on_sftp; unfold on_disk, step; by rewrite Hrun|].
    eapply does_quiet; [by apply does_known_remote|]. rewrite Hr. cbn [req_want_reply].
    eapply (does_bind _ _ _ [] [] w2); [by apply does_send|].
    eapply (does_bind _ _ _ [] [] w3); [by apply does_send|].
    eapply (does_bind _ _ _ [] [] w4); [by apply does_send|]. by apply does_send.
  - intros chc fuel. cbn [Nat.add].
    eapply does_client_loop; [exact (R2 _)|exact (does_ret _ _ _)|].
    eapply does_client_loop; [exact (R3 _)| |].
    { unfold client_handle. cbn [msg_type build_channel_data SshPacket_new].
      eapply does_quiet; [by apply does_lift, parse_channel_data|].
      eapply does_quiet; [apply does_stdout|apply does_ret]. }
    eapply does_client_loop; [exact (R4 _)|exact (does_ret _ _ _)|].
    cbn [client_loop]. eapply does_recv_then; [exact (does_client_recv _ _ _ _ _ (R5 _))|].
    eapply (does_last _ _ _ _ _ _ true); [|apply does_ret].
    eapply does_last; [exact (does_cl_on_link _ _ _ _ _ _ _ S6)|apply does_ret].
Qed.

(** The client leaves after it has answered the server's CLOSE; the server answers
    that with another CLOSE nobody reads, and then sees the disconnect. *)
Lemma goodbye_dialogue (ks5 ks6 kc6 : SessionKeys C) wx (rs rc : R) chs :
  (∀ r : R, does mk_link recv_packet wx [] (ks5, r) (build_channel_close 0) (ks6, r)) →
  in_step ks6 kc6 → one_channel chs →
  ∃ wd tail ks' kc' rs' rc',
    does mk_link (send_packet disconnect_packet) [] wd (kc6, rc) tt (kc', rc') ∧
    ∀ sf fuel, does mk_conn (channel_loop (H:=H) (2 + fuel)) (wx ++ wd) tail
                 ((ks5, rs), (chs, sf)) tt ((ks', rs'), (chs, sf)).
Proof.
  intros Hx [_ H6] Hone. destruct (one_channel_found _ Hone) as (ch & Hf & Hr & Hcl).
  destruct (send_recv_packet (build_channel_close 0) ks6 rs) as (tail & ks7 & rs7 & S7 & E7 & _);
    [by vm_compute|].
  destruct (send_recv_packet disconnect_packet kc6 rc) as (wd & kc8 & rc8 & S8 & _ & R8); [by vm_compute|].
  destruct (R8 ks7) as (ks8 & R9 & _).
  { destruct H6 as [E Hu]. split; [congruence|done]. }
  assert (Hs : does mk_link (send_packet (build_channel_close 0)) [] tail (ks6, rs) tt (ks7, rs7))
    by (intros rest e out; apply S7).
  assert (Hd : does mk_link recv_packet wd [] (ks7, rs7) disconnect_packet (ks8, rs7))
    by (intros rest e out; rewrite app_nil_r; apply R9).
  exists wd, tail, ks8, kc8, rs7, rc8. split; [intros rest e out; apply S8|].
  intros sf fuel. cbn [Nat.add]. rewrite <- (app_nil_r tail).
  eapply does_channel_loop; [exact (Hx _)| |].
  - unfold handle_message. change (from_u8 _) with (Some ChannelClose). cbv iota.
    eapply does_last; [|apply does_ret]. unfold handle_channel_close.
    eapply does_quiet; [by apply does_lift|]. cbv beta iota.
    eapply (does_quiet _ _ _ _ _ _ (Some ch)); [by apply does_gets|]. cbv beta iota. rewrite Hcl, Hr.
    by apply does_send.
  - cbn [channel_loop]. eapply does_recv_then; [by apply does_recv_or_closed|].
    by apply (does_last _ _ _ _ _ _ true _ _ _ (does_ret _ _ _)), does_ret.
Qed.

(** ** The whole session *)

(** Both ends up to the login. *)
Lemma secured_dialogue db sftp_root user password (ks0 kc0 : SessionKeys C) (rs rc : R) chs0 chc0 sf px :
  ∃ ws wc ks kc rs' rc', in_step ks kc ∧
    reaches mk_conn (handle_connection (K:=K) (H:=H) db sftp_root) wc ws ((ks0, rs), (chs0, sf))
      (fuel ← gets stream_fuel;
       on_link (auth_loop fuel db);;
       on_sftp (set_handler (λ _, SftpHandler_new sftp_root));;
       fuel ← gets stream_fuel;
       channel_loop (H:=H) fuel) ((ks, rs'), (ChannelManager_new, sf)) ∧
    reaches mk_client (client_session (K:=K) user password) ws wc ((kc0, rc), (chc0, px))
      (cl_on_link (client_auth user password);; client_open_session) ((kc, rc'), (ChannelManager_new, px)).
Proof.
  destruct (kex_dialogue (K:=K) SessionKeys_new SessionKeys_new rs rc in_step_new)
    as (s1 & c1 & ks1 & kc1 & rs1 & rc1 & result & Ks & Kc & H1).
  destruct (install_dialogue result ks1 kc1 rs1 rc1 H1) as (ks2 & kc2 & Is & Ic & H2 & _).
  destruct (service_dialogue ks2 kc2 rs1 rc1 H2) as (s3 & c3 & ks3 & kc3 & rs3 & rc3 & Ss & Sc & H3).
  exists (s1 ++ s3), (c1 ++ c3), ks3, kc3, rs3, rc3. split_and!; [done|..].
  - unfold handle_connection.
    eapply reaches_quiet; [by apply does_on_link, does_on_keys|].
    eapply reaches_quiet; [by apply does_on_channels|].
    eapply reaches_next; [exact (does_on_link _ _ _ _ _ _ _ Ks)|].
    eapply reaches_quiet; [exact (does_on_link _ _ _ _ _ _ _ Is)|].
    exact (does_reaches _ _ (λ _, _) _ _ _ _ _ (does_on_link _ _ _ _ _ _ _ Ss)).
  - unfold client_session.
    eapply reaches_quiet; [by apply does_cl_on_link, does_on_keys|].
    eapply reaches_quiet; [by apply does_cl_on_channels|].
    eapply reaches_next; [exact (does_cl_on_link _ _ _ _ _ _ _ Kc)|].
    eapply reaches_quiet; [exact (does_cl_on_link _ _ _ _ _ _ _ Ic)|].
    exact (does_reaches _ _ (λ _, _) _ _ _ _ _ (does_cl_on_link _ _ _ _ _ _ _ Sc)).
Qed.

Lemma session_dialogue db sftp_root user password command output fs' (ks0 kc0 : SessionKeys C)
    (rs rc : R) chs0 chc0 sf px :
  verify_password db user password = true →
  wire_utf8 user → wire_utf8 password → len user + len password ≤ MAX_PACKET_SIZE - 100 →
  wire_utf8 command → len command ≤ MAX_PACKET_SIZE - 100 →
  execute_command command (disk sf) = (output, fs') → len output ≤ MAX_PACKET_SIZE - 29 →
  ∃ ws tail wc ks kc rs' rc' chs chc,
    does mk_conn (handle_connection (K:=K) (H:=H) db sftp_root) wc (ws ++ tail)
      ((ks0, rs), (chs0, sf)) tt ((ks, rs'), (chs, mkSftp (SftpHandler_new sftp_root) fs')) ∧
    does mk_client (run_client (K:=K) user password (Some command)) ws wc
      ((kc0, rc), (chc0, px)) tt ((kc, rc'), (chc, (px.1 ++ from_utf8_lossy output, px.2))).
Proof.
  intros Hv Hu Hp Hl Hcmd Hlc Hrun Hlo.
  destruct (secured_dialogue db sftp_root user password ks0 kc0 rs rc chs0 chc0 sf px)
    as (s3 & c3 & ks3 & kc3 & rs3 & rc3 & H3 & Rs & Rc).
  destruct (auth_dialogue db user password ks3 kc3 rs3 rc3 H3 Hv Hu Hp Hl)
    as (s4 & c4 & ks4 & kc4 & rs4 & rc4 & As & Ac & H4).
  set (sf1 := mkSftp (SftpHandler_new sftp_root) (disk sf)).
  destruct (open_dialogue ks4 kc4 rs4 rc4 sf1 px H4)
    as (c5 & s5 & p5 & ks5' & ks5 & kc5 & rs5 & rc5 & chs & chc & O1 & O2 & O3 & H5 & Hone & L5).
  destruct (exec_dialogue command output fs' ks5 kc5 rs5 rc5 chs sf1 px)
    as (c6 & s6 & c7 & p6 & ks6' & ks6 & ks7 & kc6 & kc7 & rs6 & rc6 & rc7 & E1 & E2 & E3 & E4 & E5 & H7
        & L6 & M6 & L7); [done..|].
  destruct (goodbye_dialogue ks6 ks7 kc7 c7 rs6 rc7 chs E5 H7 Hone)
    as (c8 & tail & ks8 & kc8 & rs8 & rc8 & G1 & G2).
  exists (s3 ++ s4 ++ s5 ++ s6), tail, (c3 ++ c4 ++ c5 ++ c6 ++ c7 ++ c8),
    ks8, kc8, rs8, rc8, chs, chc.
  split.
  - rewrite <- !app_assoc. eapply reaches_does; [exact Rs|].
    apply (does_fuel _ 1); [lia|]. intros [|fuel] Hfuel; [lia|].
    eapply does_bind; [exact (does_on_link _ _ _ _ _ _ _ (As fuel))|].
    eapply does_quiet; [by apply does_on_sftp|].
    apply (does_fuel _ 4); [rewrite !length_app; unfold len in *; lia|].
    intros [|[|[|[|f]]]] Hf; try lia.
    eapply does_channel_loop; [exact (O1 _)|exact O2|].
    eapply does_channel_loop; [exact (E1 _)|exact E2|]. exact (G2 _ _).
  - replace (c3 ++ c4 ++ c5 ++ c6 ++ c7 ++ c8) with ((c3 ++ c4 ++ c5) ++ (c6 ++ c7) ++ c8)
      by by rewrite <- !app_assoc.
    replace (s3 ++ s4 ++ s5 ++ s6) with ((s3 ++ s4 ++ s5) ++ s6) by by rewrite <- !app_assoc.
    unfold run_client. eapply does_bind.
    { eapply reaches_does; [exact Rc|]. eapply does_bind; [exact (does_cl_on_link _ _ _ _ _ _ _ Ac)|exact O3]. }
    rewrite <- (app_nil_r s6).
    eapply does_bind; [|exact (does_cl_on_link _ _ _ _ _ _ _ G1)].
    eapply (does_bind _ _ _ [] s6); [exact (does_cl_on_link _ _ _ _ _ _ _ E3)|].
    apply (does_client_fuel _ 4); [unfold len in *; lia|].
    intros [|[|[|[|f]]]] Hf; try lia. apply E4.
Qed.
End session.

(** C1.  A whole session: the client logs in with a right password, runs one
    command and leaves.  Run against each other from any initial states, both
    programs finish without an error, each consumes exactly what the other wrote
    (the server's last CLOSE apart, which nobody reads), the server has run the
    command once, on its disk, and the client has printed the command's output
    and nothing else. *)
Theorem exec_session {C R K F H} `{!StreamCipher C, !StreamCipherLaws C, hmac_impl : !Hmac,
    hmac_laws : !HmacLaws, rng_impl : !Rng R, rng_laws : !RngLaws R, x25519_impl : !X25519 R K,
    x25519_laws : !X25519Laws R K, sha_impl : !Sha256, sha_laws : !Sha256Laws,
    fs_impl : !FileSystem F H, proc_impl : !Processes F, order_impl : !MapOrder,
    order_laws : !MapOrderLaws} `{profile : !BuildProfile}
    db sftp_root user password command output (fs' : F) (ks0 kc0 : SessionKeys C) (rs rc : R)
    chs0 chc0 sf so se :
  verify_password db user password = true →
  wire_utf8 user → wire_utf8 password → len user + len password ≤ MAX_PACKET_SIZE - 100 →
  wire_utf8 command → len command ≤ MAX_PACKET_SIZE - 100 →
  execute_command command (disk sf) = (output, fs') →
  utf8_valid output = true → len output ≤ MAX_PACKET_SIZE - 29 →
  ∃ ws tail wc ks kc rs' rc' chs chc,
    (∀ rest e out,
       handle_connection (K:=K) (H:=H) db sftp_root
         (mkConn (mkLink (mkReader (wc ++ rest) e) (mkWriter out None) ks0 rs) chs0 sf) =
       (Ok tt, mkConn (mkLink (mkReader rest e) (mkWriter (out ++ ws ++ tail) None) ks rs') chs
                 (mkSftp (SftpHandler_new sftp_root) fs'))) ∧
    (∀ rest e out,
       run_client (K:=K) user password (Some command)
         (mkClient (mkLink (mkReader (ws ++ rest) e) (mkWriter out None) kc0 rc) chc0 so se) =
       (Ok tt, mkClient (mkLink (mkReader rest e) (mkWriter (out ++ wc) None) kc rc') chc
                 (so ++ output) se)).
Proof.
  intros. destruct (session_dialogue (K:=K) (H:=H) db sftp_root user password command output fs' ks0 kc0
                      rs rc chs0 chc0 sf (so, se))
    as (ws & tail & wc & ks & kc & rs' & rc' & chs & chc & Hs & Hc); [done..|].
  exists ws, tail, wc, ks, kc, rs', rc', chs, chc. split; [done|].
  rewrite <- (from_utf8_lossy_valid output) by done. exact Hc.
Qed.

(** A process table for examples: [echo] prints its arguments, [rm] deletes a file of the
    served directory. *)
Definition demo_processes : Processes mem_fs := λ fs program args,
  if decide (program = bs "echo") then (ExecOutput (join_str x20 args ++ [x0a]) [], fs)
  else if decide (program = bs "rm") then (ExecOutput [] [], delete (bs "srv" :: args) fs)
  else (ExecFailed (bs "No such file or directory"), fs).

Definition demo_db : UserDatabase :=
  add_password_user (bs "user") (bs "password") (add_password_user (bs "admin") (bs "admin") UserDatabase_new).

Lemma exec_session_witness :
  ∃ ws tail wc ks kc rs' rc' chs chc,
    (∀ rest e out,
       handle_connection (K:=N) (H:=mem_handle) (proc_impl:=demo_processes) (profile:=true) demo_db (bs "/srv")
         (mkConn (mkLink (mkReader (wc ++ rest) e) (mkWriter out None) SessionKeys_new 5) ChannelManager_new
            demo_sftp) =
       (Ok tt, mkConn (mkLink (mkReader rest e) (mkWriter (out ++ ws ++ tail) None) ks rs') chs
                 (mkSftp (SftpHandler_new (bs "/srv")) demo_fs))) ∧
    (∀ rest e out,
       run_client (K:=N) (profile:=true) (bs "user") (bs "password") (Some (bs " echo  hello world"))
         (mkClient (mkLink (mkReader (ws ++ rest) e) (mkWriter out None) SessionKeys_new 9)
            ChannelManager_new [] []) =
       (Ok tt, mkClient (mkLink (mkReader rest e) (mkWriter (out ++ wc) None) kc rc') chc
                 ([] ++ bs "hello world" ++ [x0a]) [])).
Proof.
  apply (exec_session (proc_impl:=demo_processes) (profile:=true) demo_db (bs "/srv") (bs "user")
    (bs "password") (bs " echo  hello world") (bs "hello world" ++ [x0a])); by_eval || reflexivity.
Defined.

(** ** Single exchanges *)

Section login.
Context {C R : Type} `{!StreamCipher C, !StreamCipherLaws C, hmac_impl : !Hmac, hmac_laws : !HmacLaws,
  rng_impl : !Rng R, rng_laws : !RngLaws R} `{profile : !BuildProfile}.

Lemma fails_now {St S A} (mk : Reader → Writer → S → St) e (s : S) rest e0 :
  fails mk (fail e : io SshError St A) [] [] s e s rest e0.
Proof. intros out. by rewrite app_nil_r. Qed.

Lemma fails_lift {St S A} (mk : Reader → Writer → S → St) (m : SshResult A) e (s : S) rest e0 :
  m = Err e → fails mk (lift m) [] [] s e s rest e0.
Proof. intros -> out. by rewrite app_nil_r. Qed.

(** A login loop that has read a packet it cannot answer. *)
Lemma login_gives_up db p e w (s s1 : SessionKeys C * R) fuel rest e0 :
  does mk_link recv_packet w [] s p s1 →
  (if decide (msg_type p = msg_u8 UserAuthRequest) then AuthRequest_parse (payload p) = Err e
   else e = Protocol "Expected USERAUTH_REQUEST") →
  fails mk_link (auth_loop (S fuel) db) w [] s e s1 rest e0.
Proof.
  intros Hr He. cbn [auth_loop]. apply fails_first. unfold auth_step. rewrite <- (app_nil_r w).
  case_decide as Hm.
  - eapply (does_fails _ _ _ w [] [] []); [by apply does_expect, Hr|]. by apply fails_first, fails_lift.
  - subst e. rewrite app_nil_r. apply fails_first. unfold expect. rewrite <- (app_nil_r w).
    eapply (does_fails _ _ _ w [] [] []); [exact Hr|]. rewrite decide_True by done. apply fails_now.
Qed.

Lemma login_answers db p req (ks kc : SessionKeys C) (rs : R) w ks1 kc1 :
  (∀ r : R, does mk_link recv_packet w [] (ks, r) p (ks1, r)) → in_step kc1 ks1 →
  msg_type p = msg_u8 UserAuthRequest → AuthRequest_parse (payload p) = Ok req →
  ∃ ws ks' kc' rs',
    does mk_link (auth_step db) w ws (ks, rs) (credential_accepted db req) (ks', rs') ∧
    (∀ r : R, does mk_link recv_packet ws [] (kc1, r)
            (if credential_accepted db req then build_auth_success
             else build_auth_failure [bs "password"; bs "publickey"] false) (kc', r)) ∧ in_step ks' kc'.
Proof.
  intros R1 H1 Hm Hp. set (answer := if credential_accepted db req then _ else _).
  destruct (message answer ks1 kc1 rs) as (w2 & ks2 & rs2 & kc2 & S2 & R2 & H2 & _);
    [by unfold answer; destruct credential_accepted; vm_compute|by apply in_step_sym|].
  exists w2, ks2, kc2, rs2. split_and!; [|done|done].
  unfold auth_step. eapply does_recv_then; [by apply does_expect, R1|].
  eapply does_quiet; [by apply does_lift|]. subst answer.
  destruct (credential_accepted db req); (eapply does_last; [exact S2|apply does_ret]).
Qed.
End login.

(** C21.  What the server makes of the first packet of a login, whatever it is: for two ends
    in step, a packet that is not a USERAUTH_REQUEST, or a request that does not
    parse (a method other than "password" and "publickey", "none" among them, or
    malformed fields), ends the login with an error and nothing is sent; a request that
    parses is answered success exactly when the database accepts its credential,
    otherwise failure with the two methods that can continue, the client reads
    exactly that answer, and the ends are in step again. *)
Theorem login_answered {C R} `{!StreamCipher C, !StreamCipherLaws C, hmac_impl : !Hmac,
    hmac_laws : !HmacLaws, rng_impl : !Rng R, rng_laws : !RngLaws R} `{profile : !BuildProfile}
    db p (ks kc : SessionKeys C) (rs rc : R) :
  in_step ks kc → len (payload p) ≤ MAX_PACKET_SIZE - 21 →
  ∃ wc kc1 rc' ks1,
    does mk_link (send_packet p) [] wc (kc, rc) tt (kc1, rc') ∧
    if decide (msg_type p = msg_u8 UserAuthRequest) then
      match AuthRequest_parse (payload p) with
      | Ok req =>
          let answer := if credential_accepted db req then build_auth_success
                        else build_auth_failure [bs "password"; bs "publickey"] false in
          ∃ ws ks' kc' rs',
            does mk_link (auth_step db) wc ws (ks, rs) (credential_accepted db req) (ks', rs') ∧
            does mk_link recv_packet ws [] (kc1, rc') answer (kc', rc') ∧ in_step ks' kc'
      | Err e => ∀ fuel rest e0, fails mk_link (auth_loop (S fuel) db) wc [] (ks, rs) e (ks1, rs) rest e0
      | _ => False
      end
    else ∀ fuel rest e0,
      fails mk_link (auth_loop (S fuel) db) wc [] (ks, rs) (Protocol "Expected USERAUTH_REQUEST") (ks1, rs) rest e0.
Proof.
  intros H0 Hl.
  destruct (message p kc ks rc Hl) as (w1 & kc1 & rc1 & ks1 & S1 & R1 & H1 & _); [by apply in_step_sym|].
  exists w1, kc1, rc1, ks1. split; [done|]. pose proof (λ e, login_gives_up db p e w1 (ks, rs) (ks1, rs)) as Hg.
  pose proof (AuthRequest_parse_returns (payload p)) as Hret. case_decide as Hm.
  - destruct (AuthRequest_parse (payload p)) as [req|e|s|] eqn:Hp; [|by intros; apply Hg|done..].
    destruct (login_answers db p req ks kc rs w1 ks1 kc1 R1 H1 Hm Hp) as (ws & ks' & kc' & rs' & A & B & D).
    by exists ws, ks', kc', rs'.
  - intros. by apply Hg.
Qed.

(** A wrong password, and a request without a method, which every OpenSSH client sends first. *)
Lemma login_answered_witness :
  (∃ wc kc1 rc' (ks1 : SessionKeys (Z * Z)),
     does mk_link (send_packet (build_password_auth_request (bs "user") (bs "ssh-connection") (bs "guess"))) []
       wc (demo_keys 1 2, 3) tt (kc1, rc') ∧
     ∃ ws ks' kc' rs',
       does mk_link (auth_step (profile:=true) demo_db) wc ws (demo_keys 2 1, 4) false (ks', rs') ∧
       does mk_link (recv_packet (profile:=true)) ws [] (kc1, rc')
         (build_auth_failure [bs "password"; bs "publickey"] false) (kc', rc') ∧ in_step ks' kc') ∧
  let none := SshPacket_new UserAuthRequest
                (enc_string (bs "user") ++ enc_string (bs "ssh-connection") ++ enc_string (bs "none")) in
  ∃ wc kc1 rc' ks1,
    does mk_link (send_packet none) [] wc (demo_keys 1 2, 3) tt (kc1, rc') ∧
    ∀ fuel rest e0, fails mk_link (auth_loop (profile:=true) (S fuel) demo_db) wc [] (demo_keys 2 1, 4)
      (AuthFailed "Unsupported auth method: none") (ks1, 4) rest e0.
Proof.
  assert (Hs : in_step (demo_keys 2 1) (demo_keys 1 2)) by (split; (split; [reflexivity|by_eval])). split.
  - exact (login_answered (profile:=true) demo_db
      (build_password_auth_request (bs "user") (bs "ssh-connection") (bs "guess"))
      (demo_keys 2 1) (demo_keys 1 2) 4 3 Hs ltac:(by_eval)).
  - exact (login_answered (profile:=true) demo_db
      (SshPacket_new UserAuthRequest
         (enc_string (bs "user") ++ enc_string (bs "ssh-connection") ++ enc_string (bs "none")))
      (demo_keys 2 1) (demo_keys 1 2) 4 3 Hs ltac:(by_eval)).
Defined.

(** C20.  SFTP through the connection: for two ends in step and a known channel, a
    client's SFTP request in channel data reaches [handle_request] as it was sent,
    and the response it returns, with its new state, comes back to the client on
    the channel's remote number, where it decodes to that same response, provided
    request and response fit a packet. *)
Theorem sftp_over_channel {C R F H} `{!StreamCipher C, !StreamCipherLaws C, hmac_impl : !Hmac,
    hmac_laws : !HmacLaws, rng_impl : !Rng R, rng_laws : !RngLaws R, fs_impl : !FileSystem F H,
    proc_impl : !Processes F, order_impl : !MapOrder} `{profile : !BuildProfile}
    id ch chs p resp (sf sf' : SftpState F) (ks kc : SessionKeys C) (rs rc : R) :
  in_step ks kc → is_u32 id → find_by_remote_id id chs = Some ch → is_u32 (remote_id ch) →
  is_u32 (request_id p) → len (data p) ≤ MAX_PACKET_SIZE - 40 →
  handle_request (H:=H) p sf = (Ok resp, sf') →
  is_u32 (request_id resp) → len (data resp) ≤ MAX_PACKET_SIZE - 40 →
  ∃ wc ws pkt reply d ks1 ks' kc1 kc' rs' rc',
    does mk_link (send_packet (build_channel_data id (SftpPacket_encode p))) [] wc (kc, rc) tt (kc1, rc') ∧
    does mk_link recv_packet wc [] (ks, rs) pkt (ks1, rs) ∧
    does mk_conn (handle_message (H:=H) pkt) [] ws ((ks1, rs), (chs, sf)) false ((ks', rs'), (chs, sf')) ∧
    does mk_link recv_packet ws [] (kc1, rc') reply (kc', rc') ∧
    ChannelDataMsg_parse (payload reply) = Ok (mkChannelDataMsg (remote_id ch) d) ∧
    SftpPacket_decode (drop 4 d) = Ok resp ∧ in_step ks' kc'.
Proof.
  intros H0 Hid Hf Hrid Hp Hl Hreq Hr Hlr.
  assert (Hlen : ∀ q, len (SftpPacket_encode q) = 9 + len (data q))
    by (intros q; rewrite SftpPacket_encode_enc; len_lia).
  assert (Hsize : ∀ i q, len (data q) ≤ MAX_PACKET_SIZE - 40 →
    len (payload (build_channel_data i (SftpPacket_encode q))) ≤ MAX_PACKET_SIZE - 21 ∧
    wire_string (SftpPacket_encode q)).
  { intros i q Hq. unfold build_channel_data, wire_string. cbn [payload SshPacket_new].
    autorewrite with wire. len_simpl. rewrite Hlen. unfold MAX_PACKET_SIZE in *. lia. }
  destruct (Hsize id p Hl) as [L1 W1]. destruct (Hsize (remote_id ch) resp Hlr) as [L2 W2].
  destruct (message (build_channel_data id (SftpPacket_encode p)) kc ks rc L1)
    as (w1 & kc1 & rc1 & ks1 & S1 & R1 & H1 & _); [by apply in_step_sym|].
  destruct (message (build_channel_data (remote_id ch) (SftpPacket_encode resp)) ks1 kc1 rs L2)
    as (w2 & ks2 & rs2 & kc2 & S2 & R2 & H2 & _); [by apply in_step_sym|].
  eexists w1, w2, _, _, _, ks1, ks2, kc1, kc2, rs2, rc1.
  split_and!; [exact S1|exact (R1 rs)| |exact (R2 rc1)|by apply parse_channel_data| |done].
  - unfold handle_message. change (from_u8 _) with (Some ChannelData). cbv iota.
    eapply does_last; [|apply does_ret]. unfold handle_channel_data.
    eapply does_quiet; [by apply does_lift, parse_channel_data|]. cbn [data_data data_recipient_channel].
    rewrite <- (app_nil_r (SftpPacket_encode p)), sftp_request_encode
      by (unfold U32, MAX_PACKET_SIZE in *; done || lia).
    eapply does_quiet; [by apply does_on_sftp|].
    eapply does_quiet; [by apply does_known_remote|]. by apply does_send.
  - rewrite SftpPacket_encode_enc, drop_app_length' by (by rewrite length_be_encode).
    by apply SftpPacket_decode_body.
Qed.

Definition demo_mkdir : SftpPacket := mkSftpPacket SSH_FXP_MKDIR 42 (enc_string (bs "new")).
Definition demo_channel : Channel := set_remote 7 100 50 (Channel_new 0 (bs "session")).

Lemma sftp_over_channel_witness :
  let chs := mkManager {[0 := demo_channel]} 1 in
  let sf' := (@handle_request _ _ mem_filesystem true demo_mkdir demo_sftp).2 in
  fs_is_dir (H:=mem_handle) (disk sf') (bs "/srv/new") = true ∧
  ∃ wc ws pkt reply d ks1 ks' kc1 kc' rs' rc',
    does mk_link (send_packet (build_channel_data 7 (SftpPacket_encode demo_mkdir))) [] wc
      (demo_keys 1 2, 3) tt (kc1, rc') ∧
    does mk_link (recv_packet (profile:=true)) wc [] (demo_keys 2 1, 4) pkt (ks1, 4) ∧
    does mk_conn (handle_message (H:=mem_handle) (proc_impl:=demo_processes) (profile:=true) pkt) [] ws
      ((ks1, 4), (chs, demo_sftp)) false ((ks', rs'), (chs, sf')) ∧
    does mk_link (recv_packet (profile:=true)) ws [] (kc1, rc') reply (kc', rc') ∧
    ChannelDataMsg_parse (profile:=true) (payload reply) = Ok (mkChannelDataMsg 7 d) ∧
    SftpPacket_decode (drop 4 d) = Ok (status demo_mkdir SSH_FX_OK "OK") ∧ in_step ks' kc'.
Proof.
  intros chs sf'. split; [by_eval|].
  apply (sftp_over_channel (H:=mem_handle) (proc_impl:=demo_processes) (profile:=true) 7 demo_channel chs
    demo_mkdir (status demo_mkdir SSH_FX_OK "OK") demo_sftp sf' (demo_keys 2 1) (demo_keys 1 2) 4 3);
    [split; (split; [reflexivity|by_eval])|by_eval|vm_compute; reflexivity|by_eval|by_eval|by_eval| |
     by_eval|by_eval].
  rewrite (surjective_pairing (handle_request _ _)). f_equal; by_eval.
Defined.
