(* ===== verification/Interactive.v ===== *)
(** The client's interactive mode ([run_client] of [src/bin/client.rs], lines
    273-335): a loop that waits for the network and for a typed line at once.

    [tokio::select!] runs both branches until one completes and drops the other.
    A dropped [rx.recv()] loses nothing; a dropped [recv_packet] has taken the
    bytes it has read so far out of the stream, and may have advanced the
    decryption cipher.  A run of the loop is given by a schedule: which branch
    completes each time, and, when it is the line, how many bytes the abandoned
    receive had read.  The task that reads standard input is the list of lines. *)
From S2P Require Export EndToEnd.

Inductive event :=
| Received
| Typed (consumed : nat) (line : bytes).

Section interactive.
Context {C R K : Type} `{!StreamCipher C, hmac_impl : !Hmac, rng_impl : !Rng R,
  x25519_impl : !X25519 R K, sha_impl : !Sha256} `{profile : !BuildProfile}.
Abbreviation net := (io SshError (Link C R)).
Abbreviation cli := (io SshError (Client C R)).

(** What a receive that has got [n] bytes leaves when it is dropped: the bytes are
    gone and the keys are as far as it got. *)
Definition abandon_recv (n : nat) : net unit := λ l,
  let r := lk_reader l in
  let '(_, l1) := recv_packet (mkLink (mkReader (take n (rd_data r)) UnexpectedEof)
                                 (lk_writer l) (lk_keys l) (lk_rng l)) in
  (Ok tt, mkLink (mkReader (drop n (rd_data r)) (rd_end r)) (lk_writer l) (lk_keys l1) (lk_rng l)).

(** Whether a receive that has got [n] bytes still waits for more. *)
Definition pending (n : nat) (l : Link C R) : bool :=
  match recv_packet (mkLink (mkReader (take n (rd_data (lk_reader l))) UnexpectedEof)
                       (lk_writer l) (lk_keys l) (lk_rng l)) with
  | (Err ConnectionClosed, _) | (Err (Io UnexpectedEof), _) => true
  | _ => false
  end.

(** The [match] on a packet; [true] is [break]. *)
Definition shell_handle (remote_id : Z) (pkt : SshPacket) : cli bool :=
  match from_u8 (msg_type pkt) with
  | Some ChannelData =>
      msg ← lift (ChannelDataMsg_parse (payload pkt));
      print_stdout (from_utf8_lossy (data_data msg));;
      mret false
  | Some ChannelClose =>
      cl_on_link (send_packet (build_channel_close remote_id));;
      mret true
  | _ => mret false
  end.

(** The two branches of the [select!]. *)
Definition select_recv (remote_id : Z) : cli bool :=
  pkt ← client_recv_or_closed;
  match pkt with
  | None => mret true
  | Some pkt => shell_handle remote_id pkt
  end.

Definition select_line (remote_id : Z) (n : nat) (line : bytes) : cli unit :=
  cl_on_link (abandon_recv n);;
  cl_on_link (send_packet (build_channel_data remote_id line)).

(** The loop along a schedule; [false] when the schedule ends before the loop. *)
Fixpoint shell_loop (schedule : list event) (remote_id : Z) : cli bool :=
  match schedule with
  | [] => mret false
  | Received :: schedule =>
      break ← select_recv remote_id;
      if break : bool then mret true else shell_loop schedule remote_id
  | Typed n line :: schedule =>
      select_line remote_id n line;;
      shell_loop schedule remote_id
  end.

(** The schedules that can happen: a line only abandons a receive that waits. *)
Fixpoint feasible (schedule : list event) (remote_id : Z) (c : Client C R) : bool :=
  match schedule with
  | [] => true
  | Received :: schedule =>
      match select_recv remote_id c with
      | (Ok false, c) => feasible schedule remote_id c
      | _ => true
      end
  | Typed n line :: schedule =>
      pending n (cl_link c) &&
      match select_line remote_id n line c with
      | (Ok _, c) => feasible schedule remote_id c
      | _ => true
      end
  end.

(** [run_client] with [--interactive], along a schedule. *)
Definition run_interactive (user password : bytes) (schedule : list event) : cli bool :=
  remote_id ← client_session (K:=K) user password;
  cl_on_link (send_packet (build_shell_request remote_id true));;
  ended ← shell_loop schedule remote_id;
  if ended : bool then
    cl_on_link (send_packet disconnect_packet);;
    mret true
  else mret false.
End interactive.

(** ** Conversations *)

(** A conversation: what the server prints and what the user types, in the order in
    which the branches of the client's loop complete. *)
Inductive turn := Prints (output : bytes) | Types (line : bytes).

Definition turn_text (t : turn) : bytes := match t with Prints d | Types d => d end.

(** Lines that arrive while no packet is under way. *)
Definition quiet_event (t : turn) : event := match t with Prints _ => Received | Types l => Typed 0 l end.

Definition server_packets (cid : Z) (talk : list turn) : list SshPacket :=
  omap (λ t, match t with Prints d => Some (build_channel_data cid d) | _ => None end) talk.

Definition client_packets (rid : Z) (talk : list turn) : list SshPacket :=
  omap (λ t, match t with Types d => Some (build_channel_data rid d) | _ => None end) talk.

Definition printed (talk : list turn) : bytes :=
  concat (omap (λ t, match t with Prints d => Some (from_utf8_lossy d) | _ => None end) talk).

Section conversation.
Context {C R : Type} `{!StreamCipher C, !StreamCipherLaws C, hmac_impl : !Hmac, hmac_laws : !HmacLaws,
  rng_impl : !Rng R, rng_laws : !RngLaws R} `{profile : !BuildProfile}.

Lemma recv_nothing w k (r : R) :
  recv_packet (mkLink (mkReader [] UnexpectedEof) w k r : Link C R) =
  (Err ConnectionClosed, mkLink (mkReader [] UnexpectedEof) w k r).
Proof.
  pose proof (block_size_range k). unfold recv_packet, recv_frame.
  apply io_bind_fails. erewrite io_bind_run by reflexivity. apply io_bind_fails.
  unfold on_reader, read_exact. cbn. rewrite decide_False; [done|]. change (len []) with 0. lia.
Qed.

Lemma abandon_nothing (l : Link C R) : abandon_recv 0 l = (Ok tt, l).
Proof.
  destruct l as [[d e] w k r]. unfold abandon_recv. cbn [lk_reader lk_writer lk_keys lk_rng rd_data rd_end].
  change (take 0 d) with (@nil byte). by rewrite recv_nothing.
Qed.

Lemma pending_nothing (l : Link C R) : pending 0 l = true.
Proof. unfold pending. change (take 0 (rd_data (lk_reader l))) with (@nil byte). by rewrite recv_nothing. Qed.

Lemma data_packet_fits id d :
  len d ≤ MAX_PACKET_SIZE - 29 →
  len (payload (build_channel_data id d)) ≤ MAX_PACKET_SIZE - 21 ∧ wire_string d.
Proof.
  intros Hd. unfold build_channel_data, wire_string. cbn [payload SshPacket_new]. autorewrite with wire.
  len_simpl. unfold MAX_PACKET_SIZE in *. lia.
Qed.

Lemma does_abandon_nothing (s : SessionKeys C * R) : does mk_link (abandon_recv 0) [] [] s tt s.
Proof. intros rest e out. rewrite app_nil_r. apply abandon_nothing. Qed.

Lemma does_typed rid line w (s s' : SessionKeys C * R) x :
  does mk_link (send_packet (build_channel_data rid line)) [] w s tt s' →
  does mk_client (select_line rid 0 line) [] w (s, x) tt (s', x).
Proof.
  intros Hs. unfold select_line. eapply does_quiet; [apply does_cl_on_link, does_abandon_nothing|].
  by apply does_cl_on_link.
Qed.

Lemma does_printed cid rid d w (s s' : SessionKeys C * R) chs so se :
  is_u32 cid → len d ≤ MAX_PACKET_SIZE - 29 →
  does mk_link recv_packet w [] s (build_channel_data cid d) s' →
  does mk_client (select_recv rid) w [] (s, (chs, (so, se))) false
    (s', (chs, (so ++ from_utf8_lossy d, se))).
Proof.
  intros Hc Hd Hr. destruct (data_packet_fits cid d Hd) as [_ Hw]. unfold select_recv.
  eapply does_recv_then; [by apply does_client_recv|]. cbv beta iota.
  unfold shell_handle. change (from_u8 _) with (Some ChannelData). cbv iota.
  eapply does_quiet; [by apply does_lift, parse_channel_data|].
  eapply does_quiet; [apply does_stdout|apply does_ret].
Qed.

(** The packets of one end, and what the other end makes of them. *)
Definition conversation (cid rid : Z) (talk : list turn) (ks kc kr : SessionKeys C) (rs rc : R)
    chs (so se : bytes) : Prop :=
  ∃ ws ks' rs' wc kc' rc' kr',
    (∀ rd out, send_all (server_packets cid talk) (mkLink rd (mkWriter out None) ks rs) =
               (Ok tt, mkLink rd (mkWriter (out ++ ws) None) ks' rs')) ∧
    does mk_client (shell_loop (quiet_event <$> talk) rid) ws wc ((kc, rc), (chs, (so, se))) false
      ((kc', rc'), (chs, (so ++ printed talk, se))) ∧
    (∀ rest e out, feasible (quiet_event <$> talk) rid
       (mk_client (mkReader (ws ++ rest) e) (mkWriter out None) ((kc, rc), (chs, (so, se)))) = true) ∧
    (∀ rest e w (r : R), recv_n (length (client_packets rid talk)) (mkLink (mkReader (wc ++ rest) e) w kr r) =
       (Ok (client_packets rid talk), mkLink (mkReader rest e) w kr' r)).

Lemma conversation_prints cid rid d talk ks kc kr rs rc chs so se :
  is_u32 cid → len d ≤ MAX_PACKET_SIZE - 29 → keys_synced ks kc → keys_synced kc kr →
  (∀ ks kc rs so, keys_synced ks kc → keys_synced kc kr → conversation cid rid talk ks kc kr rs rc chs so se) →
  conversation cid rid (Prints d :: talk) ks kc kr rs rc chs so se.
Proof.
  intros Hcid Hd Hs Hr IH.
  destruct (send_recv_packet (build_channel_data cid d) ks rs) as (w1 & ks1 & rs1 & S1 & _ & D1);
    [by apply data_packet_fits|].
  destruct (D1 kc Hs) as (kc1 & R1 & H1 & E1).
  destruct (IH ks1 kc1 rs1 (so ++ from_utf8_lossy d)) as (ws & ks' & rs' & wc & kc' & rc' & kr' & A & B & F & G);
    [done|by destruct Hr as [Hr Hu]; split; [congruence|unfold send_side in E1; congruence]|].
  assert (Hp : does mk_client (select_recv rid) w1 [] ((kc, rc), (chs, (so, se))) false
                 ((kc1, rc), (chs, (so ++ from_utf8_lossy d, se)))).
  { eapply does_printed; [exact Hcid|exact Hd|]. intros rest e out. rewrite app_nil_r. apply R1. }
  exists (w1 ++ ws), ks', rs', wc, kc', rc', kr'. split_and!; [| | |exact G].
  - intros rd out. cbn [server_packets omap list_omap send_all].
    rewrite (io_bind_run _ _ _ _ _ (S1 _ _)). fold (server_packets cid talk). by rewrite A, app_assoc.
  - cbn [fmap list_fmap quiet_event shell_loop]. eapply (does_bind _ _ _ w1 ws [] wc); [exact Hp|].
    unfold printed. cbn [omap list_omap concat]. rewrite app_assoc. exact B.
  - intros rest e out. cbn [fmap list_fmap quiet_event feasible]. rewrite <- app_assoc, (Hp _ _ _).
    rewrite app_nil_r. apply F.
Qed.

Lemma conversation_types cid rid d talk ks kc kr rs rc chs so se :
  len d ≤ MAX_PACKET_SIZE - 29 → keys_synced ks kc → keys_synced kc kr →
  (∀ kc kr rc, keys_synced ks kc → keys_synced kc kr → conversation cid rid talk ks kc kr rs rc chs so se) →
  conversation cid rid (Types d :: talk) ks kc kr rs rc chs so se.
Proof.
  intros Hd Hs Hr IH.
  destruct (send_recv_packet (build_channel_data rid d) kc rc) as (w1 & kc1 & rc1 & S1 & E1 & D1);
    [by apply data_packet_fits|].
  destruct (D1 kr Hr) as (kr1 & R1 & H1 & _).
  destruct (IH kc1 kr1 rc1) as (ws & ks' & rs' & wc & kc' & rc' & kr' & A & B & F & G);
    [by destruct Hs as [Hs Hu]; split; [congruence|done]|done|].
  assert (Hp : does mk_client (select_line rid 0 d) [] w1 ((kc, rc), (chs, (so, se))) tt
                 ((kc1, rc1), (chs, (so, se)))).
  { apply does_typed. intros rest e out. apply S1. }
  exists ws, ks', rs', (w1 ++ wc), kc', rc', kr'. split_and!; [exact A| | |].
  - cbn [fmap list_fmap quiet_event shell_loop]. eapply (does_bind _ _ _ [] ws w1 wc); [exact Hp|exact B].
  - intros rest e out. cbn [fmap list_fmap quiet_event feasible]. rewrite pending_nothing.
    rewrite <- (app_nil_l (ws ++ rest)), (Hp _ _ _). cbn [andb]. apply F.
  - intros rest e w r. cbn [client_packets omap list_omap length recv_n].
    fold (client_packets rid talk). rewrite <- app_assoc, (io_bind_run _ _ _ _ _ (R1 _ _ _ _)).
    by rewrite (io_bind_run _ _ _ _ _ (G _ _ _ _)).
Qed.

Lemma conversation_all cid rid talk ks kc kr rs rc chs so se :
  is_u32 cid → Forall (λ t, len (turn_text t) ≤ MAX_PACKET_SIZE - 29) talk →
  keys_synced ks kc → keys_synced kc kr → conversation cid rid talk ks kc kr rs rc chs so se.
Proof.
  intros Hcid. revert ks kc kr rs rc so.
  induction talk as [|[d|d] talk IH]; intros ks kc kr rs rc so Hl Hs Hr.
  - exists [], ks, rs, [], kc, rc, kr. split_and!; try done; [by intros; rewrite app_nil_r|].
    unfold printed. rewrite app_nil_r. apply does_ret.
  - apply Forall_cons in Hl as [Hd Hl]. apply conversation_prints; auto.
  - apply Forall_cons in Hl as [Hd Hl]. apply conversation_types; auto.
Qed.
End conversation.

(** C26.  The interactive mode carries a conversation when nothing is interrupted: for
    any interleaving of packets from the server and typed lines in which a line
    never arrives in the middle of a packet, the schedule can happen, the client
    prints what the server sent, in order, and nothing else, and the server reads
    exactly the lines that were typed, in order. *)
Theorem shell_conversation {C R} `{!StreamCipher C, !StreamCipherLaws C, hmac_impl : !Hmac,
    hmac_laws : !HmacLaws, rng_impl : !Rng R, rng_laws : !RngLaws R} `{profile : !BuildProfile}
    (cid rid : Z) (talk : list turn) (ks kc : SessionKeys C) (rs rc : R) chs (so se : bytes) :
  is_u32 cid → Forall (λ t, len (turn_text t) ≤ MAX_PACKET_SIZE - 29) talk → in_step ks kc →
  ∃ ws ks' rs' wc kc' rc' kr',
    (∀ rd out, send_all (server_packets cid talk) (mkLink rd (mkWriter out None) ks rs) =
               (Ok tt, mkLink rd (mkWriter (out ++ ws) None) ks' rs')) ∧
    (∀ rest e out,
       let c := mkClient (mkLink (mkReader (ws ++ rest) e) (mkWriter out None) kc rc) chs so se in
       feasible (quiet_event <$> talk) rid c = true ∧
       shell_loop (quiet_event <$> talk) rid c =
       (Ok false, mkClient (mkLink (mkReader rest e) (mkWriter (out ++ wc) None) kc' rc') chs
                    (so ++ printed talk) se)) ∧
    (∀ rest e w (r : R), recv_n (length (client_packets rid talk)) (mkLink (mkReader (wc ++ rest) e) w ks r) =
       (Ok (client_packets rid talk), mkLink (mkReader rest e) w kr' r)).
Proof.
  intros Hcid Hl [Hs Hr].
  destruct (conversation_all cid rid talk ks kc ks rs rc chs so se Hcid Hl Hs Hr)
    as (ws & ks' & rs' & wc & kc' & rc' & kr' & A & B & F & G).
  exists ws, ks', rs', wc, kc', rc', kr'. split_and!; [exact A| |exact G].
  intros rest e out. split; [apply F|apply B].
Qed.

Lemma shell_conversation_witness :
  let talk := [Types (bs "ls"); Prints (bs "a.txt"); Types (bs "pwd"); Prints (bs "/"); Prints (bs "$ ")] in
  ∃ ws ks' rs' wc kc' rc' kr',
    (∀ rd out, send_all (server_packets 0 talk) (mkLink rd (mkWriter out None) (demo_keys 2 1) 7) =
               (Ok tt, mkLink rd (mkWriter (out ++ ws) None) ks' rs')) ∧
    (∀ rest e out,
       let c := mkClient (mkLink (mkReader (ws ++ rest) e) (mkWriter out None) (demo_keys 1 2) 9)
                  ChannelManager_new [] [] in
       feasible (profile:=true) (quiet_event <$> talk) 0 c = true ∧
       shell_loop (profile:=true) (quiet_event <$> talk) 0 c =
       (Ok false, mkClient (mkLink (mkReader rest e) (mkWriter (out ++ wc) None) kc' rc') ChannelManager_new
                    ([] ++ printed talk) [])) ∧
    (∀ rest e w (r : Z), recv_n (profile:=true) (length (client_packets 0 talk))
         (mkLink (mkReader (wc ++ rest) e) w (demo_keys 2 1) r) =
       (Ok (client_packets 0 talk), mkLink (mkReader rest e) w kr' r)).
Proof.
  apply (shell_conversation (profile:=true) 0 0
    [Types (bs "ls"); Prints (bs "a.txt"); Types (bs "pwd"); Prints (bs "/"); Prints (bs "$ ")]
    (demo_keys 2 1) (demo_keys 1 2) 7 9 ChannelManager_new [] []);
    [by_eval|by_eval|split; (split; [reflexivity|by_eval])].
Defined.

(** ** An interrupted receive *)

Section interrupted.
Context {C R : Type} `{!StreamCipher C, !StreamCipherLaws C, hmac_impl : !Hmac, hmac_laws : !HmacLaws,
  rng_impl : !Rng R, rng_laws : !RngLaws R} `{profile : !BuildProfile}.

(** The stream holds, from where it stands, a frame with the MAC of the packet number
    the receiver expects. *)
Definition authenticated_here (l : Link C R) (mac_key : bytes) : Prop :=
  ∃ ct plain more, rd_data (lk_reader l) =
    ct ++ compute_hmac mac_key (be_encode 4 (recv_seq (lk_keys l)) ++ plain) ++ more ∧
    plain = (decrypt_data ct (lk_keys l)).1.

(** A line typed when [n] bytes of the packet's frame have arrived. *)
Lemma typed_inside p pad rid line (ks kc : SessionKeys C) (rc : R) n rest e out chs so se :
  let w := (Transport.seal (frame p pad) ks).1 in
  let c := mkClient (mkLink (mkReader (w ++ rest) e) (mkWriter out None) kc rc) chs so se in
  keys_synced ks kc → block_size_of ks < len (frame p pad) →
  2 + len (payload p) + len pad ≤ MAX_PACKET_SIZE → Z.of_nat n < len (frame p pad) →
  pending n (cl_link c) = true ∧
  ∃ kc', same_but_ciphers kc kc' ∧ send_side kc' = send_side kc ∧
    select_line rid n line c =
    cl_on_link (send_packet (build_channel_data rid line))
      (mkClient (mkLink (mkReader (drop n w ++ rest) e) (mkWriter out None) kc' rc) chs so se).
Proof.
  intros w c Hs Hb Hsz Hn. destruct (recv_packet_cut (R:=R) p pad ks kc n Hs Hb Hsz Hn)
    as (kc' & err & Hcut & He & Hsame & Hsend). fold w in Hcut.
  assert (n ≤ length w)%nat as Hnw by (pose proof (len_seal (frame p pad) ks) as Hl; fold w in Hl; unfold len in *; lia).
  assert (take n (w ++ rest) = take n w) as Htake by by apply take_app_le.
  unfold c, pending, select_line. cbn [cl_link lk_reader lk_writer lk_keys lk_rng rd_data rd_end].
  rewrite Htake, Hcut. split; [by destruct He as [-> | ->]|].
  exists kc'. split; [done|]. split; [done|]. erewrite io_bind_run; [reflexivity|].
  unfold cl_on_link, abandon_recv.
  cbn [cl_link cl_channels cl_stdout cl_stderr lk_reader lk_writer lk_keys lk_rng rd_data rd_end].
  rewrite Htake, Hcut. by rewrite drop_app_le.
Qed.

(** The next turn of the loop prints nothing, unless what it finds is authentic. *)
Lemma select_recv_quiet rid (c : Client C R) mac_key :
  recv_mac_key (lk_keys (cl_link c)) = Some mac_key →
  (cl_stdout (select_recv rid c).2 = cl_stdout c ∧ cl_stderr (select_recv rid c).2 = cl_stderr c) ∨
  authenticated_here (cl_link c) mac_key.
Proof.
  intros Hm. unfold select_recv, client_recv_or_closed, mbind, io_bind, cl_on_link.
  destruct (recv_packet (cl_link c)) as [[p|err|s|] l'] eqn:E; [|left; by repeat case_decide|by left|by left].
  right. destruct (recv_packet_mac _ _ _ _ Hm E) as (ct & plain & Hd & Hp & _). by exists ct, plain, (rd_data (lk_reader l')).
Qed.
End interrupted.

(** C37.  [recv_packet] is not safe to abandon, and the interactive mode abandons it.  Let
    the server send any packet, and let a line be typed when [n] bytes of its frame
    have arrived, [0 < n].  The line goes out and the server reads it; but the [n]
    bytes are gone from the client's stream, which now stands inside the packet, while
    the client still expects the packet's number.  The next turn of the loop prints
    nothing, whatever the server sends after the packet, unless the rest of the stream
    read from that point happens to carry the MAC of that number.  (The witness is a
    run in which the session dies, and is fine when the line comes before or after
    the packet.) *)
Theorem interrupted_receive_corrupts {C R} `{!StreamCipher C, !StreamCipherLaws C, hmac_impl : !Hmac,
    hmac_laws : !HmacLaws, rng_impl : !Rng R, rng_laws : !RngLaws R} `{profile : !BuildProfile}
    (rid : Z) (p : SshPacket) (line mac_key : bytes) (ks kc : SessionKeys C) (rs rc : R) chs (so se : bytes) :
  len (payload p) ≤ MAX_PACKET_SIZE - 21 → len line ≤ MAX_PACKET_SIZE - 29 →
  in_step ks kc → recv_mac_key kc = Some mac_key →
  ∃ w ks' rs', (∀ rd out, send_packet p (mkLink rd (mkWriter out None) ks rs) =
                  (Ok tt, mkLink rd (mkWriter (out ++ w) None) ks' rs')) ∧
  ∀ n rest e out, (0 < n)%nat → Z.of_nat n + HMAC_SHA256_SIZE < len w →
    let c := mkClient (mkLink (mkReader (w ++ rest) e) (mkWriter out None) kc rc) chs so se in
    feasible [Typed n line] rid c = true ∧
    ∃ wc kc' rc',
      let c' := mkClient (mkLink (mkReader (drop n w ++ rest) e) (mkWriter (out ++ wc) None) kc' rc') chs so se in
      select_line rid n line c = (Ok tt, c') ∧ recv_seq kc' = recv_seq kc ∧
      (∀ more e' w' (r : R), ∃ ks2, recv_packet (mkLink (mkReader (wc ++ more) e') w' ks' r) =
         (Ok (build_channel_data rid line), mkLink (mkReader more e') w' ks2 r)) ∧
      ((cl_stdout (select_recv rid c').2 = so ∧ cl_stderr (select_recv rid c').2 = se) ∨
       authenticated_here (cl_link c') mac_key).
Proof.
  intros Hp Hline [Hs Hr] Hm. pose proof (block_size_range ks) as Hb. pose proof (len_nonneg (payload p)) as Hpl.
  destruct (send_packet_sealed p ks rs) as (pad & rs' & Hpad & Hsend); [apply fits_small; lia|].
  exists (Transport.seal (frame p pad) ks).1, (Transport.seal (frame p pad) ks).2, rs'. split; [exact Hsend|].
  intros n rest e out _ Hn c.
  destruct (frame_sizes p pad ks Hpad Hp) as (Hf1 & _ & Hf2). pose proof (len_seal (frame p pad) ks) as Hl.
  destruct (typed_inside p pad rid line ks kc rc n rest e out chs so se) as (Hpend & k1 & Hsame & Hk1 & Hsel);
    [done..|lia|]. fold c in Hpend, Hsel. destruct (data_packet_fits rid line Hline) as [Hfits _].
  destruct (send_recv_packet (build_channel_data rid line) k1 rc) as (wc & kc' & rc' & Hs1 & Hside & Hrecv); [done|].
  assert (select_line rid n line c = (Ok tt, mkClient (mkLink (mkReader (drop n (Transport.seal (frame p pad) ks).1 ++ rest) e)
    (mkWriter (out ++ wc) None) kc' rc') chs so se)) as Hline'.
  { rewrite Hsel. unfold cl_on_link. cbn [cl_link]. by rewrite Hs1. }
  destruct Hsame as (_ & Hseq & _ & Hmk & _). unfold recv_side in Hside. injection Hside as Hrs Hrm _.
  split; [cbn [feasible]; by rewrite Hpend, Hline'|].
  exists wc, kc', rc'. cbv zeta. split; [exact Hline'|]. split; [congruence|].
  split; [|apply select_recv_quiet; cbn [cl_link lk_keys]; congruence].
  intros more e' w' r. destruct (Hrecv (Transport.seal (frame p pad) ks).2) as (ks2 & Hk2 & _).
  { destruct Hr as [Hr1 Hr2]. split; [by rewrite seal_recv_side, Hk1|]. unfold send_side in Hk1. congruence. }
  exists ks2. apply Hk2.
Qed.

Lemma interrupted_receive_corrupts_witness :
  let packet := build_channel_data 0 (bs "hello") in
  let sent := send_packet packet (mkLink (mkReader [] UnexpectedEof) (mkWriter [] None) (demo_keys 2 1) 7) in
  let w := wr_out (lk_writer sent.2) in
  let c := mkClient (mkLink (mkReader w UnexpectedEof) (mkWriter [] None) (demo_keys 1 2) 9) ChannelManager_new [] [] in
  let run schedule := shell_loop (profile:=true) schedule 0 c in
  let line := bs "ls" in
  feasible (profile:=true) [Typed 16 line] 0 c = true ∧
  cl_stdout (run [Typed 16 line; Received]).2 = [] ∧
  bool_decide ((run [Typed 16 line; Received]).1 = Ok false) = false ∧
  cl_stdout (run [Typed 0 line; Received]).2 = bs "hello" ∧
  cl_stdout (run [Received; Typed 0 line]).2 = bs "hello".
Proof.
  intros packet sent w c run line.
  destruct (interrupted_receive_corrupts (profile:=true) 0 packet line (be_encode 32 2) (demo_keys 2 1) (demo_keys 1 2)
    7 9 ChannelManager_new [] []) as (w' & ks' & rs' & Hsend & Hcut);
    [by_eval|by_eval|split; (split; [reflexivity|by_eval])|reflexivity|].
  assert (w' = w) as -> by (unfold w, sent; by rewrite Hsend).
  destruct (Hcut 16%nat [] UnexpectedEof []) as (Hf & _); [lia|by_eval|].
  rewrite app_nil_r in Hf. split; [exact Hf|]. split_and!; by_eval.
Defined.
