(* ===== verification/Conversation.v ===== *)
(** Whole conversations between a client and the server's channel loop
    ([src/bin/server.rs]): whatever well-addressed messages the client sends, one after
    the other and without waiting, the loop sends back what the abstract service of
    ServerSpec.v replies, and every request that wants an answer gets it. *)
From S2P Require Export ServerSpec EndToEnd.

Section conversation.
Context {C R F H : Type} `{!StreamCipher C, !StreamCipherLaws C, hmac_impl : !Hmac, hmac_laws : !HmacLaws,
  rng_impl : !Rng R, rng_laws : !RngLaws R, fs_impl : !FileSystem F H, proc_impl : !Processes F,
  order_impl : !MapOrder, order_laws : !MapOrderLaws} `{profile : !BuildProfile}.

Definition understood (p : SshPacket) (m : client_msg) : Prop := understand p = Ok m.

(** Answering one packet on the wire. *)
Lemma does_serve pkt m rs (sv sv' : Service F) chs (ks : SessionKeys C) (r : R) :
  understood pkt m → serve (H:=H) m sv = (Ok (rs, false), sv') → represents chs sv →
  Forall small (reply_packet <$> rs) →
  ∃ wire ks' r' chs',
    does mk_conn (handle_message (H:=H) pkt) [] wire ((ks, r), (chs, sv_sftp sv)) false
      ((ks', r'), (chs', sv_sftp sv')) ∧
    delivers (R:=R) (reply_packet <$> rs) wire ks ks' ∧ recv_side ks' = recv_side ks ∧ represents chs' sv'.
Proof.
  intros Hu Hs Hr Hsmall. destruct (stream_of (reply_packet <$> rs) ks r Hsmall)
    as (wire & ks' & r' & Hsend & Hdel & Hside).
  assert (Hsp : serve_packet (H:=H) pkt sv = (Ok (rs, false), sv')).
  { unfold serve_packet. by erewrite io_bind_run by (unfold lift; by rewrite Hu). }
  destruct (handle_message_serves (C:=C) (R:=R) (H:=H) pkt chs sv Hr) as (chs' & Hr' & Hrun).
  rewrite Hsp in Hr', Hrun. exists wire, ks', r', chs'. split_and!; [|done|done|done].
  intros rest e out. unfold mk_conn. rewrite Hrun. unfold deliver, lift.
  erewrite io_bind_run by reflexivity. cbv beta iota. cbn [fst snd].
  by erewrite io_bind_run by (unfold on_link; cbn [cn_link]; by rewrite Hsend).
Qed.

(** The server's loop on the packets [ps] of a client that does not wait: it writes the
    packets [replies], going on from [x'] to whatever it would do next. *)
Definition transduces (ps replies : list SshPacket) (kc kc' : SessionKeys C) (wc : bytes)
    (ks : SessionKeys C) (rs : R) (chs : ChannelManager) (sf : SftpState F)
    (ks' : SessionKeys C) (rs' : R) (chs' : ChannelManager) (sf' : SftpState F) : Prop :=
  ∃ ws,
    (∀ fuel i o s3,
       does mk_conn (channel_loop (H:=H) fuel) i o ((ks', rs'), (chs', sf')) tt s3 →
       does mk_conn (channel_loop (H:=H) (length ps + fuel)) (wc ++ i) (ws ++ o) ((ks, rs), (chs, sf)) tt s3) ∧
    delivers (R:=R) replies ws ks ks' ∧ keys_synced kc' ks'.

Lemma transduces_all ps ms rs (sv sv' : Service F) chs (kc ks : SessionKeys C) (rc r : R) :
  Forall2 understood ps ms → Leave ∉ ms → serve_all (H:=H) ms sv = (Ok rs, sv') → represents chs sv →
  Forall small ps → Forall small (reply_packet <$> rs) → keys_synced kc ks →
  ∃ wc kc' rc' ks' r' chs',
    does mk_link (send_all ps) [] wc (kc, rc) tt (kc', rc') ∧ recv_side kc' = recv_side kc ∧
    transduces ps (reply_packet <$> rs) kc kc' wc ks r chs (sv_sftp sv) ks' r' chs' (sv_sftp sv').
Proof.
  intros Hu. revert rs sv chs kc ks rc r.
  induction Hu as [|p m ps ms Hp _ IH]; intros rs sv chs kc ks rc r Hl Hs Hr Hps Hrs Hk.
  - injection Hs as <- <-. exists [], kc, rc, ks, r, chs. split_and!; [apply does_ret|done|].
    exists []. split_and!; [done|apply delivers_nil|done].
  - apply not_elem_of_cons in Hl as [Hm Hl]. apply Forall_cons in Hps as [Hp1 Hps].
    cbn [serve_all] in Hs. apply io_bind_ok in Hs as ([rs1 stop] & sv1 & Hs1 & Hs).
    assert (stop = false) as -> by by apply serve_stays in Hs1.
    apply io_bind_ok in Hs as (rs2 & sv2 & Hs2 & Hs). unfold mret, io_ret in Hs. simplify_eq.
    rewrite fmap_app in Hrs. apply Forall_app in Hrs as [Hrs1 Hrs2].
    destruct (send_recv_packet p kc rc Hp1) as (w1 & kc1 & rc1 & S1 & E1 & D1).
    destruct (D1 ks Hk) as (ks1 & R1 & Hk1 & T1).
    destruct (does_serve p m rs1 sv sv1 chs ks1 r Hp Hs1 Hr Hrs1) as (v1 & ks2 & r2 & chs1 & H1 & L1 & El & Hr1).
    assert (Hk2 : keys_synced kc1 ks2) by (destruct Hk1; split; [congruence|done]).
    destruct (IH rs2 sv1 chs1 kc1 ks2 rc1 r2 Hl Hs2 Hr1 Hps Hrs2 Hk2)
      as (w2 & kc' & rc' & ks' & r' & chs' & S2 & E2 & v2 & Hloop & L2 & Hk').
    exists (w1 ++ w2), kc', rc', ks', r', chs'. split_and!; [|congruence|].
    + cbn [send_all]. eapply (does_bind _ _ _ [] []); [|exact S2]. intros rest e out. apply S1.
    + exists (v1 ++ v2). split_and!; [|rewrite fmap_app|done].
      * intros fuel i o s3 Hnext. rewrite <- !app_assoc. cbn [length Nat.add].
        eapply does_channel_loop; [|exact H1|by apply Hloop].
        intros rest e out. rewrite app_nil_r. apply R1.
      * eapply delivers_app; [|exact L2].
        intros kb [Es Hu]. apply L1. split; [congruence|].
        unfold send_side in T1. injection T1 as -> _ _. exact Hu.
Qed.

(** The client's disconnect ends the loop. *)
Lemma does_leave (kc ks : SessionKeys C) (rc : R) :
  keys_synced kc ks →
  ∃ wd kc' rc' ks',
    does mk_link (send_all [disconnect_packet]) [] wd (kc, rc) tt (kc', rc') ∧ recv_side kc' = recv_side kc ∧
    send_side ks' = send_side ks ∧
    ∀ r chs sf fuel, does mk_conn (channel_loop (H:=H) (S fuel)) wd [] ((ks, r), (chs, sf)) tt ((ks', r), (chs, sf)).
Proof.
  intros Hk. destruct (send_recv_packet disconnect_packet kc rc) as (wd & kc' & rc' & S1 & E1 & D1); [by vm_compute|].
  destruct (D1 ks Hk) as (ks' & R1 & _ & T1). exists wd, kc', rc', ks'. split_and!; [|done|done|].
  - cbn [send_all]. eapply (does_send_then _ _ _ _ _ _ tt (kc', rc')); [intros rest e out; apply S1|apply does_ret].
  - intros r chs sf fuel. cbn [channel_loop]. eapply does_recv_then.
    + apply (does_recv_or_closed disconnect_packet _ _ (ks', r)). intros rest e out. rewrite app_nil_r. apply R1.
    + by apply (does_last _ _ _ _ _ _ true _ _ _ (does_ret _ _ _)), does_ret.
Qed.

Lemma does_send_all_app ps qs o1 o2 (s s1 s2 : SessionKeys C * R) :
  does mk_link (send_all ps) [] o1 s tt s1 → does mk_link (send_all qs) [] o2 s1 tt s2 →
  does mk_link (send_all (ps ++ qs)) [] (o1 ++ o2) s tt s2.
Proof.
  intros H1 H2 rest e out. specialize (H1 rest e out). specialize (H2 rest e (out ++ o1)).
  rewrite <- app_assoc in H2. cbn [app] in *. revert H1 H2.
  generalize (mk_link (mkReader rest e) (mkWriter out None) s).
  induction ps as [|p ps IH]; intros l H1 H2; cbn [send_all app] in *.
  - unfold mret, io_ret in H1. by simplify_eq.
  - apply io_bind_ok in H1 as (u & l' & Hp & H1). rewrite (io_bind_run _ _ _ _ _ Hp). by apply IH.
Qed.

Lemma conversation_served known ps ms (sv : Service F) chs (kc ks : SessionKeys C) (rc r : R) :
  in_step ks kc → represents chs sv → ready known (len ms) sv → addressed known ms = true →
  Forall2 understood ps ms → Forall small ps →
  ∃ rs sv', serve_all (H:=H) ms sv = (Ok rs, sv') ∧ filter is_answer rs = omap answer ms ∧
    (Forall small (reply_packet <$> rs) →
     ∃ wc ws kc1 rc' ks' r' chs' kc2,
       does mk_link (send_all (ps ++ [disconnect_packet])) [] wc (kc, rc) tt (kc1, rc') ∧
       (∀ fuel, (length ps < fuel)%nat →
          does mk_conn (channel_loop (H:=H) fuel) wc ws ((ks, r), (chs, sv_sftp sv)) tt
            ((ks', r'), (chs', sv_sftp sv'))) ∧
       does mk_link (recv_n (length rs)) ws [] (kc1, rc') (reply_packet <$> rs) (kc2, rc')).
Proof.
  intros [Hsc Hcs] Hr Hready Ha Hu Hps.
  destruct (serve_all_ready known ms sv Ha Hready) as (rs & sv' & Hs & Hf).
  exists rs, sv'. split_and!; [done|done|]. intros Hrs.
  destruct (transduces_all ps ms rs sv sv' chs kc ks rc r Hu (addressed_stays _ _ Ha) Hs Hr Hps Hrs Hcs)
    as (wc & kc' & rc' & ks' & r' & chs' & S1 & E1 & ws & Hloop & Hdel & Hk').
  destruct (does_leave kc' ks' rc' Hk') as (wd & kc1 & rc1 & ks1 & S2 & E2 & T2 & Hend).
  destruct (Hdel kc1) as (kc2 & Hrecv & _); [destruct Hsc; split; [congruence|done]|].
  exists (wc ++ wd), ws, kc1, rc1, ks1, r', chs', kc2. split_and!.
  - by eapply does_send_all_app.
  - intros fuel Hfuel. replace fuel with (length ps + S (fuel - length ps - 1))%nat by lia.
    rewrite <- (app_nil_r ws). apply Hloop, Hend.
  - rewrite <- (length_fmap reply_packet). apply Hrecv.
Qed.
End conversation.

(** C6.  Every request is answered: take two ends in step, a server whose channels
    are [known], and any list of packets the server understands, in which every
    request is for a channel that exists by then.  The client sends them all
    without waiting, then DISCONNECT.  The server then handles every one of
    them (its channel loop reads all that was sent and ends without an error), its
    SUCCESS and FAILURE messages are exactly one for each request that wants an
    answer, none for the others, in the order of the requests and with the
    channel's number, and the client can read every reply, provided that each fits a
    packet. *)
Theorem requests_answered {C R F H} `{!StreamCipher C, !StreamCipherLaws C, hmac_impl : !Hmac,
    hmac_laws : !HmacLaws, rng_impl : !Rng R, rng_laws : !RngLaws R, fs_impl : !FileSystem F H,
    proc_impl : !Processes F, order_impl : !MapOrder, order_laws : !MapOrderLaws} `{profile : !BuildProfile}
    known ps ms (sv : Service F) chs (kc ks : SessionKeys C) (rc r : R) :
  in_step ks kc → represents chs sv → ready known (len ms) sv → addressed known ms = true →
  Forall2 (λ p m, understand p = Ok m) ps ms → Forall small ps →
  ∃ rs sv', serve_all (H:=H) ms sv = (Ok rs, sv') ∧ filter is_answer rs = omap answer ms ∧
    (Forall small (reply_packet <$> rs) →
     ∃ wc ws kc1 rc' ks' r' chs' kc2,
       does mk_link (send_all (ps ++ [disconnect_packet])) [] wc (kc, rc) tt (kc1, rc') ∧
       (∀ fuel, (length ps < fuel)%nat →
          does mk_conn (channel_loop (H:=H) fuel) wc ws ((ks, r), (chs, sv_sftp sv)) tt
            ((ks', r'), (chs', sv_sftp sv'))) ∧
       does mk_link (recv_n (length rs)) ws [] (kc1, rc') (reply_packet <$> rs) (kc2, rc')).
Proof. apply conversation_served. Qed.

Definition demo_service : Service mem_fs := mkService {[0 := 7]} 1 demo_sftp.
Definition demo_channels : ChannelManager := mkManager {[0 := demo_channel]} 1.

Lemma demo_represents : represents demo_channels demo_service.
Proof.
  split; cbn; [by rewrite map_fmap_singleton|done|].
  intros id ch [_ <-]%lookup_singleton_Some. done.
Qed.

Lemma demo_ready n : n ≤ 1000 → ready {[7]} n demo_service.
Proof.
  intros Hn. split.
  - unfold demo_service. cbn [sv_peers]. by rewrite map_img_singleton.
  - unfold demo_service. cbn. intros id [p [<- _]%lookup_singleton_Some]. lia.
  - unfold U32. cbn. lia.
  - unfold U32. cbn. lia.
Qed.

Lemma requests_answered_witness :
  let ps := [build_shell_request 7 true; build_window_adjust 7 5; build_channel_open (bs "session") 9 10 10;
             build_shell_request 9 false; build_exec_request 9 (bs "echo hi") true] in
  let ms := [Ask 7 true true; Nothing; AskChannel 9; Ask 9 false true; AskExec 9 true (bs "echo hi")] in
  ∃ rs sv', serve_all (H:=mem_handle) (proc_impl:=demo_processes) (profile:=true) ms demo_service = (Ok rs, sv') ∧
    filter is_answer rs = [Granted 7; Granted 9] ∧
    (Forall small (reply_packet <$> rs) →
     ∃ wc ws kc1 rc' ks' r' chs' kc2,
       does mk_link (send_all (ps ++ [disconnect_packet])) [] wc (demo_keys 1 2, 3) tt (kc1, rc') ∧
       (∀ fuel, (length ps < fuel)%nat →
          does mk_conn (channel_loop (H:=mem_handle) (proc_impl:=demo_processes) (profile:=true) fuel) wc ws
            ((demo_keys 2 1, 4), (demo_channels, demo_sftp)) tt ((ks', r'), (chs', sv_sftp sv'))) ∧
       does mk_link (recv_n (profile:=true) (length rs)) ws [] (kc1, rc') (reply_packet <$> rs) (kc2, rc')).
Proof.
  intros ps ms.
  apply (requests_answered (H:=mem_handle) (proc_impl:=demo_processes) (profile:=true) {[7]} ps ms demo_service
    demo_channels (demo_keys 1 2) (demo_keys 2 1) 3 4).
  - split; (split; [reflexivity|by_eval]).
  - apply demo_represents.
  - by apply demo_ready.
  - vm_compute. reflexivity.
  - repeat (constructor; [vm_compute; reflexivity|]). constructor.
  - repeat (constructor; [by_eval || (unfold small; vm_compute; discriminate)|]). constructor.
Defined.
