(* ===== verification/Sealed.v ===== *)
(** Nothing in clear: once its keys are installed, an end of the connection
    ([src/bin/server.rs], [src/bin/client.rs]) writes nothing but packets that are
    encrypted and authenticated, one sequence number after the other, whatever its
    peer sends and even when the stream breaks.

    [leaves Rel m]: the state a call leaves, also when it fails, is related by [Rel] to
    the one it was started in.  The database [leaves] holds what is known of each
    call; [run_leaves] follows a function's structure. *)
From S2P Require Export Interactive.

Section leaves.
Context {E S : Type} (Rel : S → S → Prop) {Rel_pre : PreOrder Rel}.

Definition leaves {A} (m : io E S A) : Prop := ∀ s, Rel s (m s).2.

Lemma leaves_bind {A B} (m : io E S A) (k : A → io E S B) :
  leaves m → (∀ a, leaves (k a)) → leaves (m ≫= k).
Proof.
  intros Hm Hk s. pose proof (Hm s) as H1. unfold mbind, io_bind.
  destruct (m s) as [[a|e|msg|] s1]; try done. transitivity s1; [exact H1|apply Hk].
Qed.

Lemma leaves_still {A} (m : io E S A) : (∀ s, (m s).2 = s) → leaves m.
Proof. intros Hm s. by rewrite Hm. Qed.
End leaves.

Lemma leaves_mono {E S A} (Rel Rel' : S → S → Prop) (m : io E S A) :
  (∀ s s', Rel s s' → Rel' s s') → leaves Rel m → leaves Rel' m.
Proof. intros Hr Hm s. by apply Hr. Qed.

Create HintDb leaves.
Ltac leaves_step :=
  lazymatch goal with
  | |- leaves _ (_ ≫= _) => apply leaves_bind; [apply _| |intros ?]
  | |- leaves _ (mret _) => apply leaves_still; [apply _|by intros ?]
  | |- leaves _ (fail _) => apply leaves_still; [apply _|by intros ?]
  | |- leaves _ (lift _) => apply leaves_still; [apply _|by intros ?]
  | |- leaves _ (gets _) => apply leaves_still; [apply _|by intros ?]
  | |- leaves _ (λ _, (_, _)) => apply leaves_still; [apply _|by intros ?]
  | |- leaves _ (match ?x with _ => _ end) => destruct x
  | |- leaves _ (let '(_, _) := ?x in _) => destruct x
  | |- leaves _ _ => solve [auto with leaves]
  end.
Ltac run_leaves := repeat (cbv beta zeta; leaves_step).

(** ** The stream of a secured end *)

(** A writer that breaks has some room left until then. *)
Definition has_room (w : Writer) : Prop :=
  match wr_fault w with Some (room, _) => 0 ≤ room | None => True end.

Definition write (data : bytes) (w : Writer) : Writer := (write_all data w).2.

Lemma write_nil w : has_room w → write [] w = w.
Proof.
  destruct w as [out [[room e]|]]; unfold has_room, write, write_all; cbn [wr_fault wr_out]; intros Hr;
    [rewrite decide_True by done|]; cbn [snd]; rewrite app_nil_r; change (len []) with 0;
    by rewrite ?Z.sub_0_r.
Qed.

Lemma write_room data w : has_room w → has_room (write data w).
Proof.
  unfold has_room, write, write_all. destruct (wr_fault w) as [[room e]|]; [|done].
  case_decide; cbn; lia.
Qed.

(** Two writes in a row; the second is not made when the first fails. *)
Lemma write_app a b w :
  has_room w →
  write (a ++ b) w = write b (write a w) ∧ ((write_all a w).1 ≠ Ok tt → write (a ++ b) w = write a w).
Proof.
  destruct w as [out [[room e]|]]; unfold has_room, write, write_all; cbn [wr_fault wr_out]; intros Hr.
  - rewrite len_app. pose proof (len_nonneg b). destruct (decide (len a ≤ room)) as [Ha|Ha]; cbn [fst snd wr_fault wr_out].
    + split; [|done]. destruct (decide (len b ≤ room - len a)).
      * rewrite decide_True by lia. cbn [snd]. rewrite app_assoc. do 3 f_equal. lia.
      * rewrite decide_False by lia. cbn [snd]. rewrite take_app, app_assoc, (take_ge a) by (unfold len in *; lia).
        do 4 f_equal. unfold len in *. lia.
    + rewrite (decide_False (P:=len a + len b ≤ room)) by lia. cbn [snd].
      rewrite take_app_le by (unfold len in *; lia). split; [|done].
      destruct (decide (len b ≤ 0)) as [Hb|Hb]; cbn [snd]; rewrite <- app_assoc.
      * destruct b; [|len_lia]. rewrite app_nil_r. by rewrite Z.sub_0_r.
      * change (Z.to_nat 0) with 0%nat. by rewrite app_nil_r.
  - cbn [fst snd wr_out wr_fault]. by rewrite app_assoc.
Qed.

(** What the sending direction writes for some frames: each encrypted, going on with
    the cipher of the one before, and followed by the MAC of its sequence number and
    its plaintext. *)
Section sealed.
Context {C : Type} `{!StreamCipher C, hmac_impl : !Hmac}.

Fixpoint sealed (mac_key : bytes) (frames : list bytes) (c : AesCipher C) (seq : Z)
    : bytes * (AesCipher C * Z) :=
  match frames with
  | [] => ([], (c, seq))
  | f :: frames =>
      let '(ciphertext, c) := Crypto.apply c f in
      let mac := hmac_sha256 mac_key (be_encode 4 seq ++ f) in
      let '(wire, s) := sealed mac_key frames c ((seq + 1) mod U32) in
      (ciphertext ++ mac ++ wire, s)
  end.

Lemma sealed_app mk fs gs c seq :
  let '(w1, (c1, s1)) := sealed mk fs c seq in
  let '(w2, st) := sealed mk gs c1 s1 in
  sealed mk (fs ++ gs) c seq = (w1 ++ w2, st).
Proof.
  revert c seq. induction fs as [|f fs IH]; intros c seq; cbn [sealed app].
  - by destruct (sealed mk gs c seq).
  - destruct (Crypto.apply c f) as [ct c0]. specialize (IH c0 ((seq + 1) mod U32)).
    destruct (sealed mk fs c0 ((seq + 1) mod U32)) as [w1 [c1 s1]].
    destruct (sealed mk gs c1 s1) as [w2 st]. by rewrite IH, <- !app_assoc.
Qed.
End sealed.

(** The plaintext of a packet, as [serialize] lays it out. *)
Definition is_frame (f : bytes) : Prop := ∃ p pad, f = frame p pad ∧ MIN_PADDING ≤ len pad.

Section speaks.
Context {C R : Type} `{!StreamCipher C, hmac_impl : !Hmac, rng_impl : !Rng R, rng_laws : !RngLaws R}
  `{profile : !BuildProfile}.
Abbreviation link := (Link C R).

(** From [l] on, only sealed frames were written, to get to [l']. *)
Definition wrote_sealed (l l' : link) : Prop :=
  ∀ seq mac_key c, send_side (lk_keys l) = (seq, Some mac_key, Some c) →
  ∃ frames c' seq', Forall is_frame frames ∧
    sealed mac_key frames c seq = ((sealed mac_key frames c seq).1, (c', seq')) ∧
    lk_writer l' = write (sealed mac_key frames c seq).1 (lk_writer l) ∧
    send_side (lk_keys l') = (seq', Some mac_key, Some c').

Definition intact (l l' : link) : Prop := has_room (lk_writer l) → has_room (lk_writer l').

Definition speaks (l l' : link) : Prop :=
  intact l l' ∧ (has_room (lk_writer l) → wrote_sealed l l').

#[export] Instance intact_pre : PreOrder intact.
Proof. unfold intact. split; [by intros l|]. intros l1 l2 l3 ? ?. tauto. Qed.

Lemma speaks_quiet l l' :
  lk_writer l' = lk_writer l → send_side (lk_keys l') = send_side (lk_keys l) → speaks l l'.
Proof.
  intros Hw Hs. split; [by unfold intact; rewrite Hw|]. intros Hr seq mk c E. exists [], c, seq. cbn [sealed fst].
  split_and!; [done|done|by rewrite write_nil|by rewrite Hs].
Qed.

#[export] Instance speaks_pre : PreOrder speaks.
Proof.
  split; [by intros l; apply speaks_quiet|]. intros l1 l2 l3 [I1 W1] [I2 W2]. split; [by transitivity l2|].
  intros Hr seq mk c E. destruct (W1 Hr seq mk c E) as (fs & c1 & s1 & F1 & E1 & O1 & K1).
  destruct (W2 (I1 Hr) s1 mk c1 K1) as (gs & c2 & s2 & F2 & E2 & O2 & K2).
  pose proof (sealed_app mk fs gs c seq) as Ha. rewrite E1, E2 in Ha.
  exists (fs ++ gs), c2, s2. rewrite Ha. cbn [fst]. split_and!; [by apply Forall_app|done| |done].
  rewrite O2, O1. symmetry. by apply write_app.
Qed.

(** Sending one packet writes one sealed frame. *)
Lemma send_packet_link p (l : link) :
  ((send_packet p l).2 = l ∧ ¬ fits (block_size_of (lk_keys l)) p) ∨
  ∃ pad rng', MIN_PADDING ≤ len pad ∧
    (has_room (lk_writer l) → (send_packet p l).2 =
       mkLink (lk_reader l) (write (Transport.seal (frame p pad) (lk_keys l)).1 (lk_writer l))
         (Transport.seal (frame p pad) (lk_keys l)).2 rng').
Proof.
  destruct l as [rd w k r]. cbn [lk_reader lk_writer lk_keys].
  destruct (decide (fits (block_size_of k) p)) as [Hf|Hf].
  2: { left. split; [|done]. destruct (serialize_too_large p (block_size_of k) r Hf) as [s E].
       unfold send_packet. erewrite io_bind_run by done. cbn [lk_keys].
       unfold mbind, io_bind, on_rng. cbn [lk_rng]. by rewrite E. }
  right. destruct (serialize_fits p _ r Hf) as [E Hl]. eexists _, _. split.
  { rewrite Hl. pose proof (block_size_range k). pose proof (len_nonneg (payload p)).
    pose proof (padding_len_spec (Z.max (block_size_of k) 8) (1 + len (payload p)) ltac:(lia) ltac:(lia)). lia. }
  intros Hr. set (f := frame p _) in *. unfold send_packet. erewrite io_bind_run by done. cbn [lk_keys].
  erewrite io_bind_run by (unfold on_rng; cbn [lk_rng]; rewrite E; done).
  erewrite io_bind_run by done. cbn [lk_keys lk_writer lk_reader lk_rng].
  erewrite io_bind_run by done. unfold Transport.seal. cbn [next_send_seq lk_keys send_mac_key].
  set (k1 := mkKeys _ _ _ _ _ _). destruct (encrypt_data f k1) as [ct k2] eqn:Ee.
  erewrite io_bind_run by (unfold on_keys; cbn [lk_keys]; rewrite Ee; done).
  cbn [lk_writer lk_reader lk_keys lk_rng fst snd]. unfold mbind, io_bind, on_writer. cbn [lk_writer lk_reader lk_keys lk_rng].
  set (mac := match send_mac_key k with Some _ => _ | None => [] end).
  destruct (write_app ct mac w Hr) as [Ha Hb]. pose proof (write_room ct w Hr) as Hr1.
  unfold write in Ha, Hb, Hr1 |- *.
  destruct (write_all ct w) as [[[]|e|m|] w1]; cbn [map_err fst snd] in *;
    try (rewrite Hb by done; reflexivity).
  rewrite Ha. subst mac. destruct (send_mac_key k) as [mk|]; cbn [fmap option_fmap option_map].
  - cbn [lk_writer]. by destruct (write_all _ w1).
  - pose proof (write_nil w1 Hr1) as Hn. unfold write in Hn. by rewrite Hn.
Qed.

(** [send_packet] in the terms of the specification. *)
Lemma seal_sealed d (k : SessionKeys C) seq mk c :
  send_side k = (seq, Some mk, Some c) →
  ∃ c' seq', sealed mk [d] c seq = ((Transport.seal d k).1, (c', seq')) ∧
    send_side (Transport.seal d k).2 = (seq', Some mk, Some c').
Proof.
  unfold send_side. intros [= <- Hm Hc]. unfold Transport.seal, encrypt_data. cbn [next_send_seq ciphers].
  destruct (ciphers k) as [cp|]; [|done]. cbn in Hc. injection Hc as <-. rewrite Hm. cbn [sealed].
  destruct (Crypto.apply (encrypt cp) d) as [ct c'] eqn:E. exists c', ((send_seq k + 1) mod U32).
  cbn. by rewrite app_nil_r.
Qed.

Lemma speaks_send_packet p : leaves speaks (send_packet p : io SshError link unit).
Proof.
  intros l. destruct (send_packet_link p l) as [[-> _]|(pad & rng' & Hp & E)]; [reflexivity|].
  split; [intros Hr; rewrite E by done; by apply write_room|].
  intros Hr seq mk c Es. rewrite E by done. cbn [lk_writer lk_keys].
  destruct (seal_sealed (frame p pad) (lk_keys l) seq mk c Es) as (c' & seq' & E1 & E2).
  exists [frame p pad], c', seq'. rewrite E1. cbn [fst]. split_and!; try done.
  constructor; [by exists p, pad|constructor].
Qed.

(** Receiving writes nothing and leaves the sending direction of the keys alone. *)
Definition quiet (l l' : link) : Prop :=
  lk_writer l' = lk_writer l ∧ send_side (lk_keys l') = send_side (lk_keys l).

#[export] Instance quiet_pre : PreOrder quiet.
Proof. split; [by intros l|]. intros l1 l2 l3 [? ?] [? ?]. split; congruence. Qed.

Lemma quiet_on_reader {A} (f : Reader → outcome io_error A * Reader) wrap :
  leaves quiet (on_reader f wrap : io SshError link A).
Proof. intros l. unfold on_reader. by destruct (f (lk_reader l)). Qed.

Lemma quiet_on_keys {A} (f : SessionKeys C → A * SessionKeys C) :
  (∀ k, send_side (f k).2 = send_side k) → leaves quiet (on_keys f : io SshError link A).
Proof. intros Hf l. unfold on_keys. specialize (Hf (lk_keys l)). by destruct (f (lk_keys l)). Qed.

Lemma decrypt_data_send_side d (k : SessionKeys C) : send_side (decrypt_data d k).2 = send_side k.
Proof. destruct (decrypt_data_same d k) as [(Hs & _ & Hm & _) Hc]. unfold send_side. by rewrite Hs, Hm, Hc. Qed.

Hint Resolve speaks_send_packet quiet_on_reader : leaves.
Hint Extern 1 (leaves _ (on_keys _)) => apply quiet_on_keys; intros; by (reflexivity || apply decrypt_data_send_side) : leaves.

Lemma quiet_recv_packet : leaves quiet (recv_packet : io SshError link SshPacket).
Proof. unfold recv_packet, recv_frame, recv_rest, check_mac. run_leaves. Qed.

Lemma quiet_version_loop fuel buf : leaves quiet (recv_version_loop fuel buf : io SshError link bytes).
Proof. revert buf. induction fuel as [|fuel IH]; intros buf; cbn [recv_version_loop]; run_leaves. Qed.
Hint Resolve quiet_recv_packet quiet_version_loop : leaves.

Lemma quiet_recv_version : leaves quiet (recv_version_string : io SshError link bytes).
Proof. unfold recv_version_string. run_leaves. Qed.

Lemma quiet_expect m e : leaves quiet (expect m e : io SshError link SshPacket).
Proof. unfold expect. run_leaves. Qed.
Hint Resolve quiet_recv_version quiet_expect : leaves.

Lemma quiet_speaks {A} (m : io SshError link A) : leaves quiet m → leaves speaks m.
Proof. apply leaves_mono. intros l l' [? ?]. by apply speaks_quiet. Qed.

Lemma speaks_recv_packet : leaves speaks (recv_packet : io SshError link SshPacket).
Proof. apply quiet_speaks, quiet_recv_packet. Qed.

Lemma speaks_expect m e : leaves speaks (expect m e : io SshError link SshPacket).
Proof. apply quiet_speaks, quiet_expect. Qed.
Hint Resolve speaks_recv_packet speaks_expect : leaves.

Lemma speaks_abandon n : leaves speaks (abandon_recv n : io SshError link unit).
Proof.
  intros l. unfold abandon_recv.
  destruct (quiet_recv_packet (mkLink (mkReader (take n (rd_data (lk_reader l))) UnexpectedEof)
    (lk_writer l) (lk_keys l) (lk_rng l))) as [_ Hs].
  destruct (recv_packet _) as [o l1]. cbn [lk_keys snd] in Hs. by apply speaks_quiet.
Qed.

(** The phases after the keys are installed. *)
Lemma speaks_server_service : leaves speaks (server_service : io SshError link unit).
Proof. unfold server_service. run_leaves. Qed.

Lemma speaks_auth_loop fuel db : leaves speaks (auth_loop fuel db : io SshError link unit).
Proof. induction fuel as [|fuel IH]; cbn [auth_loop]; unfold auth_step; run_leaves. Qed.

Lemma speaks_client_service : leaves speaks (client_service : io SshError link unit).
Proof. unfold client_service. run_leaves. Qed.

Lemma speaks_client_auth user password : leaves speaks (client_auth user password : io SshError link unit).
Proof. unfold client_auth. run_leaves. Qed.
End speaks.
#[export] Hint Resolve speaks_send_packet speaks_recv_packet speaks_expect speaks_abandon speaks_server_service
  speaks_auth_loop speaks_client_service speaks_client_auth : leaves.

(** ** The handshake *)

Section handshake.
Context {C R K : Type} `{!StreamCipher C, hmac_impl : !Hmac, rng_impl : !Rng R, rng_laws : !RngLaws R,
  x25519_impl : !X25519 R K, sha_impl : !Sha256} `{profile : !BuildProfile}.
Abbreviation link := (Link C R).
Abbreviation net := (io SshError link).

(** What each end does first: the key exchange, in clear, and taking the keys. *)
Definition server_start : net unit := r ← server_kex (K:=K); server_install_keys r.
Definition client_start : net unit := r ← client_kex (K:=K); client_install_keys r.

(** A connection as it is accepted or opened, before any key. *)
Definition fresh (l : link) : link := mkLink (lk_reader l) (lk_writer l) SessionKeys_new (lk_rng l).

Lemma intact_speaks {A} (m : net A) : leaves speaks m → leaves intact m.
Proof. apply leaves_mono. by intros l l' [? _]. Qed.

Lemma intact_on_rng {A} (f : R → SshResult A * R) : leaves intact (on_rng f : net A).
Proof. intros l Hr. unfold on_rng. by destruct (f (lk_rng l)). Qed.

Lemma intact_on_keys {A} (f : SessionKeys C → A * SessionKeys C) : leaves intact (on_keys f : net A).
Proof. intros l Hr. unfold on_keys. by destruct (f (lk_keys l)). Qed.

Lemma intact_write_all d : leaves intact (on_writer (write_all d) : net unit).
Proof.
  intros l Hr. apply (write_room d) in Hr. unfold write in Hr. unfold on_writer.
  by destruct (write_all d (lk_writer l)).
Qed.

Lemma intact_send_packet p : leaves intact (send_packet p : net unit).
Proof. apply intact_speaks, speaks_send_packet. Qed.

Lemma intact_expect m e : leaves intact (expect m e : net SshPacket).
Proof. apply intact_speaks, speaks_expect. Qed.

Lemma intact_recv_version : leaves intact (recv_version_string : net bytes).
Proof. apply intact_speaks, quiet_speaks, quiet_recv_version. Qed.
Hint Resolve intact_on_rng intact_on_keys intact_write_all intact_send_packet intact_expect
  intact_recv_version : leaves.

Lemma intact_server_start : leaves intact server_start.
Proof. unfold server_start, server_kex, server_install_keys, send_version_string. run_leaves. Qed.

Lemma intact_client_start : leaves intact client_start.
Proof. unfold client_start, client_kex, client_install_keys, send_version_string. run_leaves. Qed.

(** An end that has come so far is secured. *)
Definition secured (l : link) : Prop :=
  ∃ seq mac_key c, send_side (lk_keys l) = (seq, Some mac_key, Some c).

Lemma server_start_secured l l' u : server_start l = (Ok u, l') → secured l'.
Proof.
  unfold server_start, server_install_keys. intros (r & l1 & _ & (s & l2 & _ & H1)%io_bind_ok)%io_bind_ok.
  apply io_bind_ok in H1 as (cp & l3 & _ & H1). unfold on_keys, install_keys in H1. simplify_eq.
  by eexists _, _, _.
Qed.

Lemma client_start_secured l l' u : client_start l = (Ok u, l') → secured l'.
Proof.
  unfold client_start, client_install_keys. intros (r & l1 & _ & (s & l2 & _ & H1)%io_bind_ok)%io_bind_ok.
  apply io_bind_ok in H1 as (cp & l3 & _ & H1). unfold on_keys, install_keys in H1. simplify_eq.
  by eexists _, _, _.
Qed.

(** From the link as it was when the keys had been taken to the link at the end: if the
    start failed nothing more was written or read; otherwise the keys hold a MAC key
    and a cipher, and what was written since is [sealed]. *)
Definition only_sealed_after (start : SshResult unit * link) (final : link) : Prop :=
  match start with
  | (Ok _, l) =>
      ∃ seq mac_key c, send_side (lk_keys l) = (seq, Some mac_key, Some c) ∧
      ∃ frames, Forall is_frame frames ∧
        lk_writer final = write (sealed mac_key frames c seq).1 (lk_writer l)
  | (_, l) => final = l
  end.

Lemma only_sealed_intro start l final :
  leaves intact start → has_room (lk_writer l) →
  (∀ l1 u, start l = (Ok u, l1) → secured l1) →
  match start l with (Ok _, l1) => speaks l1 final | (_, l1) => final = l1 end →
  only_sealed_after (start l) final.
Proof.
  intros Hi Hr Hs Hf. specialize (Hi l Hr). unfold only_sealed_after.
  destruct (start l) as [[u|e|s|] l1]; try done. cbn [snd] in Hi.
  destruct (Hs l1 u eq_refl) as (seq & mk & c & E). exists seq, mk, c. split; [done|].
  destruct Hf as [_ Hf]. destruct (Hf Hi seq mk c E) as (frames & c' & seq' & Hfr & _ & Hw & _). by exists frames.
Qed.
End handshake.

(** ** The server *)

Section server.
Context {C R K F H : Type} `{!StreamCipher C, hmac_impl : !Hmac, rng_impl : !Rng R, rng_laws : !RngLaws R,
  x25519_impl : !X25519 R K, sha_impl : !Sha256, fs_impl : !FileSystem F H, proc_impl : !Processes F,
  order_impl : !MapOrder} `{profile : !BuildProfile}.
Abbreviation conn := (Conn C R F).

Definition conn_speaks (c c' : conn) : Prop := speaks (cn_link c) (cn_link c').

#[export] Instance conn_speaks_pre : PreOrder conn_speaks.
Proof. unfold conn_speaks. split; [by intros c|]. intros c1 c2 c3 ? ?. by transitivity (cn_link c2). Qed.

Lemma speaks_on_link {A} (m : io SshError (Link C R) A) : leaves speaks m → leaves conn_speaks (on_link m).
Proof. intros Hm c. specialize (Hm (cn_link c)). unfold on_link, conn_speaks. by destruct (m (cn_link c)). Qed.

Lemma speaks_on_channels {A} (m : io SshError ChannelManager A) : leaves conn_speaks (on_channels m).
Proof. intros c. unfold on_channels, conn_speaks. by destruct (m (cn_channels c)). Qed.

Lemma speaks_on_sftp {A} (m : io SshError (SftpState F) A) : leaves conn_speaks (on_sftp m).
Proof. intros c. unfold on_sftp, conn_speaks. by destruct (m (cn_sftp c)). Qed.

Lemma speaks_send p : leaves conn_speaks (send p).
Proof. apply speaks_on_link, speaks_send_packet. Qed.
Hint Resolve speaks_on_link speaks_on_channels speaks_on_sftp speaks_send : leaves.

Lemma speaks_handle_message p : leaves conn_speaks (handle_message (H:=H) p).
Proof.
  unfold handle_message, handle_channel_open, handle_channel_request, handle_exec, handle_subsystem,
    reply_if, handle_channel_data, handle_window_adjust, handle_eof, handle_channel_close, known_remote_id.
  run_leaves.
Qed.

Lemma speaks_recv_or_closed : leaves conn_speaks (recv_or_closed : io SshError conn (option SshPacket)).
Proof.
  intros c. pose proof (speaks_on_link _ speaks_recv_packet c) as Hc. unfold recv_or_closed.
  destruct (on_link recv_packet c) as [[p|e|s|] c']; try done. by case_decide.
Qed.
Hint Resolve speaks_handle_message speaks_recv_or_closed : leaves.

Lemma speaks_channel_loop fuel : leaves conn_speaks (channel_loop (H:=H) fuel).
Proof. induction fuel as [|fuel IH]; cbn [channel_loop]; run_leaves. Qed.
Hint Resolve speaks_channel_loop : leaves.

Lemma start_on_link {A B D} (m : io SshError (Link C R) A) (n : A → io SshError (Link C R) B)
    (k : io SshError conn D) c :
  leaves conn_speaks k →
  match (a ← m; n a) (cn_link c) with
  | (Ok _, l) => speaks l (cn_link ((a ← on_link m; on_link (n a);; k) c).2)
  | (_, l) => cn_link ((a ← on_link m; on_link (n a);; k) c).2 = l
  end.
Proof.
  intros Hk. unfold mbind, io_bind, on_link. destruct (m (cn_link c)) as [[a|e|s|] l1]; try done.
  cbn [cn_link]. destruct (n a l1) as [[b|e|s|] l2]; try done. apply (Hk (mkConn l2 _ _)).
Qed.

Lemma connection_sealed db sftp_root (c : conn) :
  has_room (lk_writer (cn_link c)) →
  only_sealed_after (server_start (K:=K) (fresh (cn_link c)))
    (cn_link (handle_connection (K:=K) (H:=H) db sftp_root c).2).
Proof.
  intros Hr. apply only_sealed_intro; [apply intact_server_start|exact Hr|intros l1 u; apply server_start_secured|].
  unfold handle_connection. erewrite io_bind_run by reflexivity. erewrite io_bind_run by reflexivity.
  apply (start_on_link _ _ _ (mkConn (fresh (cn_link c)) _ _)). run_leaves.
Qed.
End server.

(** C24.  The server never speaks in clear: whatever the peer sends, and also on a stream
    that breaks in the middle of a write, a connection either ends during the key
    exchange, and then nothing more is written, or the keys it took include a cipher
    and a MAC key, and everything written from then on, logins, command output, file
    contents and refusals alike, is a sequence of frames that [sealed] describes:
    each encrypted by the cipher as the one before left it (no part of the key stream
    serves twice) and followed by the MAC of the next sequence number and its
    plaintext. *)
Theorem server_speaks_sealed {C R K F H} `{!StreamCipher C, hmac_impl : !Hmac, rng_impl : !Rng R,
    rng_laws : !RngLaws R, x25519_impl : !X25519 R K, sha_impl : !Sha256, fs_impl : !FileSystem F H,
    proc_impl : !Processes F, order_impl : !MapOrder} `{profile : !BuildProfile} db sftp_root (c : Conn C R F) :
  has_room (lk_writer (cn_link c)) →
  only_sealed_after (server_start (K:=K) (fresh (cn_link c)))
    (cn_link (handle_connection (K:=K) (H:=H) db sftp_root c).2).
Proof. apply connection_sealed. Qed.

(** ** The client *)

Section client.
Context {C R K : Type} `{!StreamCipher C, hmac_impl : !Hmac, rng_impl : !Rng R, rng_laws : !RngLaws R,
  x25519_impl : !X25519 R K, sha_impl : !Sha256} `{profile : !BuildProfile}.
Abbreviation client := (Client C R).

Definition client_speaks (c c' : client) : Prop := speaks (cl_link c) (cl_link c').

#[export] Instance client_speaks_pre : PreOrder client_speaks.
Proof. unfold client_speaks. split; [by intros c|]. intros c1 c2 c3 ? ?. by transitivity (cl_link c2). Qed.

Lemma speaks_cl_on_link {A} (m : io SshError (Link C R) A) : leaves speaks m → leaves client_speaks (cl_on_link m).
Proof. intros Hm c. specialize (Hm (cl_link c)). unfold cl_on_link, client_speaks. by destruct (m (cl_link c)). Qed.

Lemma speaks_cl_on_channels {A} (m : io SshError ChannelManager A) : leaves client_speaks (cl_on_channels m).
Proof. intros c. unfold cl_on_channels, client_speaks. by destruct (m (cl_channels c)). Qed.

Lemma speaks_print d : leaves client_speaks (print_stdout d) ∧ leaves client_speaks (print_stderr d).
Proof. by split; intros c; unfold client_speaks. Qed.
Hint Resolve speaks_cl_on_link speaks_cl_on_channels : leaves.
Hint Extern 1 (leaves _ (print_stdout _)) => apply speaks_print : leaves.
Hint Extern 1 (leaves _ (print_stderr _)) => apply speaks_print : leaves.

Lemma speaks_client_recv : leaves client_speaks (client_recv_or_closed : io SshError client (option SshPacket)).
Proof.
  intros c. pose proof (speaks_cl_on_link _ speaks_recv_packet c) as Hc. unfold client_recv_or_closed.
  destruct (cl_on_link recv_packet c) as [[p|e|s|] c']; try done. by case_decide.
Qed.
Hint Resolve speaks_client_recv : leaves.

Lemma speaks_open_session : leaves client_speaks (client_open_session : io SshError client Z).
Proof. unfold client_open_session. run_leaves. Qed.

Lemma speaks_client_loop fuel id : leaves client_speaks (client_loop fuel id : io SshError client unit).
Proof. induction fuel as [|fuel IH]; cbn [client_loop]; unfold client_handle; run_leaves. Qed.

Lemma speaks_shell_loop schedule id : leaves client_speaks (shell_loop schedule id : io SshError client bool).
Proof.
  induction schedule as [|[|n line] schedule IH]; cbn [shell_loop];
    unfold select_recv, shell_handle, select_line; run_leaves.
Qed.
Hint Resolve speaks_open_session speaks_client_loop speaks_shell_loop : leaves.

(** Whatever a program does in its session, it does after the start. *)
Lemma session_sealed {A} user password (k : Z → io SshError client A) (c : client) :
  has_room (lk_writer (cl_link c)) → (∀ id, leaves client_speaks (k id)) →
  only_sealed_after (client_start (K:=K) (fresh (cl_link c)))
    (cl_link ((id ← client_session (K:=K) user password; k id) c).2).
Proof.
  intros Hr Hk. apply only_sealed_intro; [apply intact_client_start|exact Hr|intros l1 u; apply client_start_secured|].
  unfold client_session, client_start, mbind, io_bind, cl_on_link, cl_on_channels, on_keys, modify. cbn [cl_link fst snd].
  unfold fresh. destruct (client_kex _) as [[r|e|s|] l1]; try done. cbn [cl_link].
  destruct (client_install_keys r l1) as [[u|e|s|] l2]; try done.
  enough (leaves client_speaks ((id ← (cl_on_link client_service;; cl_on_link (client_auth user password);;
    client_open_session); k id) : io SshError client A)) as Hl by exact (Hl (mkClient l2 _ _ _)).
  run_leaves.
Qed.

Lemma run_client_sealed user password command (c : client) :
  has_room (lk_writer (cl_link c)) →
  only_sealed_after (client_start (K:=K) (fresh (cl_link c)))
    (cl_link (run_client (K:=K) user password command c).2).
Proof. intros Hr. apply session_sealed; [done|]. intros id. run_leaves. Qed.

Lemma run_interactive_sealed user password schedule (c : client) :
  has_room (lk_writer (cl_link c)) →
  only_sealed_after (client_start (K:=K) (fresh (cl_link c)))
    (cl_link (run_interactive (K:=K) user password schedule c).2).
Proof. intros Hr. apply session_sealed; [done|]. intros id. run_leaves. Qed.
End client.

(** C25.  A password is never sent in clear, nor a command or a line typed.  What the client
    writes before its keys are in place ([client_start]) does not depend on user,
    password, command or lines; when the key exchange fails, for any reason and with
    any server, nothing more is ever written; otherwise the keys include a cipher and
    a MAC key, and everything written from then on, in every mode and along every
    schedule of the interactive one, is a sequence of frames that [sealed]
    describes. *)
Theorem password_never_in_clear {C R K} `{!StreamCipher C, hmac_impl : !Hmac, rng_impl : !Rng R,
    rng_laws : !RngLaws R, x25519_impl : !X25519 R K, sha_impl : !Sha256} `{profile : !BuildProfile}
    (c : Client C R) :
  has_room (lk_writer (cl_link c)) →
  let start := client_start (K:=K) (fresh (cl_link c)) in
  ∀ user password,
    (∀ command, only_sealed_after start (cl_link (run_client (K:=K) user password command c).2)) ∧
    (∀ schedule, only_sealed_after start (cl_link (run_interactive (K:=K) user password schedule c).2)).
Proof. intros Hr start user password. split; intros; [by apply run_client_sealed|by apply run_interactive_sealed]. Qed.

(** ** The two programs on each other's bytes *)

(** The server of [demo_db] and a client that runs a command, each given what the other
    has written so far, for some rounds: a whole session. *)
Definition demo_server_on (input : bytes) : Conn (Z * Z) Z mem_fs :=
  mkConn (mkLink (mkReader input UnexpectedEof) (mkWriter [] None) SessionKeys_new 5) ChannelManager_new demo_sftp.

Definition demo_client_on (input : bytes) : Client (Z * Z) Z :=
  mkClient (mkLink (mkReader input UnexpectedEof) (mkWriter [] None) SessionKeys_new 9) ChannelManager_new [] [].

Definition demo_serve (input : bytes) : Conn (Z * Z) Z mem_fs :=
  (handle_connection (K:=N) (H:=mem_handle) (proc_impl:=demo_processes) (profile:=true) demo_db (bs "/srv")
     (demo_server_on input)).2.

Definition demo_run (input : bytes) : Client (Z * Z) Z :=
  (run_client (K:=N) (profile:=true) (bs "user") (bs "password") (Some (bs "echo hello")) (demo_client_on input)).2.

Definition demo_exchange (rounds : nat) : bytes * bytes :=
  Nat.iter rounds (λ '(to_server, to_client),
    (wr_out (lk_writer (cl_link (demo_run to_client))), wr_out (lk_writer (cn_link (demo_serve to_server)))))
    ([], []).

(** Far enough for the client to be logged in. *)
Definition demo_heard : bytes * bytes := Eval vm_compute in demo_exchange 8.

(** An end that got past the start and wrote something more. *)
Lemma more_is_sealed {C R} `{!StreamCipher C, hmac_impl : !Hmac} (start : SshResult unit * Link C R) final :
  is_ok start.1 = true → wr_fault (lk_writer start.2) = None →
  length (wr_out (lk_writer start.2)) ≠ length (wr_out (lk_writer final)) →
  only_sealed_after start final →
  ∃ seq mac_key cipher frames, send_side (lk_keys start.2) = (seq, Some mac_key, Some cipher) ∧
    frames ≠ [] ∧ Forall is_frame frames ∧
    lk_writer final = write (sealed mac_key frames cipher seq).1 (lk_writer start.2).
Proof.
  destruct start as [[u|e|m|] l]; try done. intros _ Hr Hmore (seq & mk & c & Hk & frames & Hf & Hw).
  exists seq, mk, c, frames. split_and!; try done. intros ->. apply Hmore. rewrite Hw. cbn [sealed fst snd] in *.
  rewrite write_nil; [done|]. unfold has_room. by rewrite Hr.
Qed.

Lemma server_speaks_sealed_witness :
  let start := server_start (K:=N) (profile:=true) (fresh (cn_link (demo_server_on demo_heard.1))) in
  ∃ seq mac_key cipher frames, send_side (lk_keys start.2) = (seq, Some mac_key, Some cipher) ∧
    frames ≠ [] ∧ Forall is_frame frames ∧
    lk_writer (cn_link (demo_serve demo_heard.1)) = write (sealed mac_key frames cipher seq).1 (lk_writer start.2).
Proof.
  apply more_is_sealed; [vm_compute; reflexivity|vm_compute; reflexivity|by_eval|].
  assert (Hr : has_room (lk_writer (cn_link (demo_server_on demo_heard.1)))) by exact I.
  pose proof (server_speaks_sealed (K:=N) (H:=mem_handle) (proc_impl:=demo_processes) (profile:=true) demo_db
    (bs "/srv") (demo_server_on demo_heard.1) Hr) as Hs.
  exact Hs.
Defined.

Lemma password_never_in_clear_witness :
  let start := client_start (K:=N) (profile:=true) (fresh (cl_link (demo_client_on demo_heard.2))) in
  ∃ seq mac_key cipher frames, send_side (lk_keys start.2) = (seq, Some mac_key, Some cipher) ∧
    frames ≠ [] ∧ Forall is_frame frames ∧
    lk_writer (cl_link (demo_run demo_heard.2)) = write (sealed mac_key frames cipher seq).1 (lk_writer start.2).
Proof.
  apply more_is_sealed; [vm_compute; reflexivity|vm_compute; reflexivity|by_eval|].
  assert (Hr : has_room (lk_writer (cl_link (demo_client_on demo_heard.2)))) by exact I.
  destruct (password_never_in_clear (K:=N) (profile:=true) (demo_client_on demo_heard.2) Hr
    (bs "user") (bs "password")) as [Hs _].
  apply (Hs (Some (bs "echo hello"))).
Defined.
