(* ===== verification/Main.v ===== *)
(** The two programs as they are started: [main] of [src/bin/server.rs] with its
    configuration, users and accept loop, and [main] of [src/bin/client.rs] with its
    arguments.  What the operating system answers (creating the directory, binding,
    accepting, connecting) is a parameter.  The parsing of the arguments (clap) and the
    set-up of the log are not modelled. *)
From S2P Require Export Interactive.

(** ** The server *)

Record ServerConfig := mkServerConfig { bind_addr : bytes; port : Z; sftp_root : bytes }.

Definition ServerConfig_default : ServerConfig :=
  mkServerConfig (bs "0.0.0.0") 2222 (bs "/tmp/swiftssh").

(** [format!("{}:{}", host, port)]. *)
Definition socket_addr (host : bytes) (port : Z) : bytes := host ++ bs ":" ++ bs (show_usize port).

(** The users [main] registers. *)
Definition server_users : UserDatabase :=
  let user_db := UserDatabase_new in
  let user_db := add_password_user (bs "admin") (bs "admin") user_db in
  let user_db := add_password_user (bs "user") (bs "password") user_db in
  user_db.

(** What [listener.accept()] answers, call after call. *)
Inductive accept_result (A : Type) := Accepted (stream : A) | AcceptFailed (e : io_error).
#[global] Arguments Accepted {A} stream.
#[global] Arguments AcceptFailed {A} e.

(** The [loop] of [main]: the streams tasks are spawned for, and the error the loop ends
    with; without one it still waits. *)
Fixpoint accept_loop {A} (accepts : list (accept_result A)) : list A * option io_error :=
  match accepts with
  | [] => ([], None)
  | Accepted stream :: accepts =>
      let '(spawned, e) := accept_loop accepts in (stream :: spawned, e)
  | AcceptFailed e :: _ => ([], Some e)
  end.

(** [main], given what [create_dir_all] and [bind] answer. *)
Definition server_main {A} (create_dir_all bind : bytes → option io_error)
    (accepts : list (accept_result A)) : list A * option io_error :=
  let config := ServerConfig_default in
  match create_dir_all (sftp_root config) with
  | Some e => ([], Some e)
  | None =>
      match bind (socket_addr (bind_addr config) (port config)) with
      | Some e => ([], Some e)
      | None => accept_loop accepts
      end
  end.

Section programs.
Context {C R K F H : Type} `{!StreamCipher C, hmac_impl : !Hmac, rng_impl : !Rng R,
  x25519_impl : !X25519 R K, sha_impl : !Sha256, fs_impl : !FileSystem F H, proc_impl : !Processes F,
  order_impl : !MapOrder} `{profile : !BuildProfile}.

(** What the task of a connection runs. *)
Definition server_task (config : ServerConfig) : io SshError (Conn C R F) unit :=
  handle_connection (K:=K) (H:=H) server_users (sftp_root config).

(** ** The client *)

Record Args := mkArgs {
  args_host : bytes;
  args_port : Z;
  args_user : bytes;
  args_password : option bytes;
  args_command : option bytes;
  args_interactive : bool
}.

(** [run_client(stream, &args)]: which mode the arguments ask for; the schedule is for
    the interactive one. *)
Definition run_client_args (args : Args) (schedule : list event) : io SshError (Client C R) bool :=
  let password := default [] (args_password args) in
  match args_command args with
  | Some command => run_client (K:=K) (args_user args) password (Some command);; mret true
  | None =>
      if args_interactive args then run_interactive (K:=K) (args_user args) password schedule
      else run_client (K:=K) (args_user args) password None;; mret true
  end.

(** [main]: without a password nothing is connected to. *)
Definition client_main (args : Args) (schedule : list event)
    : string + bytes * io SshError (Client C R) bool :=
  if decide (args_password args = None) then inl "Password required (--password)"
  else inr (socket_addr (args_host args) (args_port args), run_client_args args schedule).
End programs.

(** ** Who gets in *)

Definition shipped_logins : list (bytes * bytes) :=
  [(bs "admin", bs "admin"); (bs "user", bs "password")].

Lemma server_users_passwords u p : verify_password server_users u p = true ↔ (u, p) ∈ shipped_logins.
Proof.
  unfold verify_password, server_users, shipped_logins, add_password_user, UserDatabase_new. cbn [passwords].
  rewrite lookup_insert. case_decide as Eu; [|rewrite lookup_insert; case_decide as Ea; [|rewrite lookup_empty]].
  all: cbn; rewrite ?bool_decide_eq_true, !elem_of_cons, elem_of_nil; naive_solver.
Qed.

Lemma server_users_keys u k : is_key_authorized server_users u k = false.
Proof. unfold is_key_authorized, server_users. cbn. by rewrite lookup_empty. Qed.

Lemma server_users_accept req :
  credential_accepted server_users req = true →
  ∃ p, credential req = Password p ∧ (username req, p) ∈ shipped_logins.
Proof.
  unfold credential_accepted. destruct (credential req) as [p|alg blob sig].
  - intros Hv%server_users_passwords. by exists p.
  - by rewrite server_users_keys.
Qed.

(** C11.  Who can use the server as it is shipped: whatever a peer sends to the task of its
    connection, either the connection ends with no channel and the disk untouched, or
    the peer sent, on the encrypted and authenticated link, after a complete key
    exchange, a password request for "admin" with "admin" or for "user" with
    "password"; no public key ever opens it. *)
Theorem shipped_server_logins {C R K F H} `{!StreamCipher C, !StreamCipherLaws C,
    hmac_impl : !Hmac, hmac_laws : !HmacLaws, rng_impl : !Rng R, x25519_impl : !X25519 R K,
    sha_impl : !Sha256, sha_laws : !Sha256Laws, fs_impl : !FileSystem F H, proc_impl : !Processes F,
    order_impl : !MapOrder} `{profile : !BuildProfile} (c : Conn C R F) :
  let c' := (server_task (K:=K) (H:=H) ServerConfig_default c).2 in
  (cn_channels c' = ChannelManager_new ∧ cn_sftp c' = cn_sftp c) ∨
  ∃ l p l' req password,
    is_encrypted (lk_keys l) = true ∧ is_Some (recv_mac_key (lk_keys l)) ∧
    recv_packet l = (Ok p, l') ∧ AuthRequest_parse (payload p) = Ok req ∧
    credential req = Password password ∧
    (username req, password) ∈ [(bs "admin", bs "admin"); (bs "user", bs "password")] ∧
    ∃ l0, (r ← server_kex (K:=K); server_install_keys r;; server_service)
            (mkLink (lk_reader (cn_link c)) (lk_writer (cn_link c)) SessionKeys_new (lk_rng (cn_link c))) =
          (Ok tt, l0) ∧ rtc (rejected server_users) l0 l.
Proof.
  intros c'. subst c'. unfold server_task.
  destruct (access_needs_login (K:=K) (H:=H) server_users (sftp_root ServerConfig_default) c) as [Hc|Hl]; [by left|].
  right. destruct Hl as (l0 & l1 & p & l2 & req & Hk & Hr & He & Hm & Hp & _ & Hreq & Ha).
  destruct (server_users_accept req Ha) as (pw & Hpw & Hin). by exists l1, p, l2, req, pw; eauto 10.
Qed.

Lemma shipped_server_logins_witness :
  let c' := (server_task (K:=N) (H:=mem_handle) (proc_impl:=demo_chatty) (profile:=true) ServerConfig_default
               demo_hostile).2 in
  (cn_channels c' = ChannelManager_new ∧ cn_sftp c' = cn_sftp demo_hostile) ∨
  ∃ l p l' req password,
    is_encrypted (lk_keys l) = true ∧ is_Some (recv_mac_key (lk_keys l)) ∧
    recv_packet (profile:=true) l = (Ok p, l') ∧ AuthRequest_parse (H:=true) (payload p) = Ok req ∧
    credential req = Password password ∧
    (username req, password) ∈ [(bs "admin", bs "admin"); (bs "user", bs "password")] ∧
    ∃ l0, (r ← server_kex (K:=N) (profile:=true); server_install_keys r;; server_service (profile:=true))
            (cn_link demo_hostile) =
          (Ok tt, l0) ∧ rtc (rejected (profile:=true) server_users) l0 l.
Proof.
  apply (shipped_server_logins (K:=N) (H:=mem_handle) (proc_impl:=demo_chatty) (profile:=true) demo_hostile).
Defined.

(** ** A wrong password *)

Section refusal.
Context {C R K F H : Type} `{!StreamCipher C, !StreamCipherLaws C, hmac_impl : !Hmac, hmac_laws : !HmacLaws,
  rng_impl : !Rng R, rng_laws : !RngLaws R, x25519_impl : !X25519 R K, x25519_laws : !X25519Laws R K,
  sha_impl : !Sha256, sha_laws : !Sha256Laws, fs_impl : !FileSystem F H, proc_impl : !Processes F,
  order_impl : !MapOrder} `{profile : !BuildProfile}.

Lemma fails_on_link {A} (m : io SshError (Link C R) A) i o s e s' rest e0 (x : ChannelManager * SftpState F) :
  fails mk_link m i o s e s' rest e0 → fails mk_conn (on_link m) i o (s, x) e (s', x) rest e0.
Proof. intros Hm out. unfold on_link, mk_conn. cbn [cn_link fst snd]. by rewrite Hm. Qed.

Lemma fails_cl_on_link {A} (m : io SshError (Link C R) A) i o s e s' rest e0
    (x : ChannelManager * (bytes * bytes)) :
  fails mk_link m i o s e s' rest e0 → fails mk_client (cl_on_link m) i o (s, x) e (s', x) rest e0.
Proof. intros Hm out. unfold cl_on_link, mk_client. cbn [cl_link fst snd]. by rewrite Hm. Qed.

Lemma fails_fuel {A} (k : nat → io SshError (Conn C R F) A) n i o s e s' rest e0 :
  (n ≤ S (length i))%nat → (∀ fuel, (n ≤ fuel)%nat → fails mk_conn (k fuel) i o s e s' rest e0) →
  fails mk_conn (fuel ← gets stream_fuel; k fuel) i o s e s' rest e0.
Proof.
  intros Hn Hk out. erewrite io_bind_run by reflexivity. apply Hk.
  unfold stream_fuel, mk_conn. cbn. rewrite length_app. lia.
Qed.

(** One refused login, after which the client has gone. *)
Lemma refusal_dialogue db user password (ks kc : SessionKeys C) (rs rc : R) :
  in_step ks kc → verify_password db user password = false →
  wire_utf8 user → wire_utf8 password → len user + len password ≤ MAX_PACKET_SIZE - 100 →
  ∃ ws wc ks' kc' rs' rc',
    (∀ fuel, fails mk_link (auth_loop (2 + fuel) db) wc ws (ks, rs) ConnectionClosed (ks', rs') [] UnexpectedEof) ∧
    (∀ rest e, fails mk_link (client_auth user password) ws wc (kc, rc)
                 (AuthFailed "Authentication rejected by server") (kc', rc') rest e) ∧
    8 ≤ len wc.
Proof.
  intros H0 Hv Hu Hp Hl. set (req := build_password_auth_request user (bs "ssh-connection") password).
  assert (Hs : wire_utf8 (bs "ssh-connection")) by by_eval.
  destruct (message req kc ks rc) as (w1 & kc1 & rc1 & ks1 & S1 & R1 & H1 & L1); [|by apply in_step_sym|].
  { unfold req, build_password_auth_request. cbn [payload SshPacket_new]. autorewrite with wire.
    len_simpl. change (len (bs "ssh-connection")) with 14. change (len (bs "password")) with 8. lia. }
  destruct (message (build_auth_failure [bs "password"; bs "publickey"] false) ks1 kc1 rs)
    as (w2 & ks2 & rs2 & kc2 & S2 & R2 & H2 & _); [by vm_compute|by apply in_step_sym|].
  exists w2, w1, ks2, kc2, rs2, rc1. split_and!; [..|done].
  - intros fuel. cbn [Nat.add auth_loop]. rewrite <- (app_nil_r w1), <- (app_nil_r w2).
    eapply (does_fails _ _ _ w1 [] w2 [] _ false (ks2, rs2)).
    + unfold auth_step. eapply does_recv_then; [by apply does_expect, R1|].
      eapply does_quiet; [apply does_lift; by apply parse_password_request|].
      unfold credential_accepted. cbn [credential username]. rewrite Hv.
      eapply does_last; [exact S2|apply does_ret].
    + cbv iota. apply fails_first. unfold auth_step. apply fails_first. unfold expect. apply fails_first.
      intros out. rewrite !app_nil_r. apply recv_nothing.
  - intros rest e. unfold client_auth. rewrite <- (app_nil_r w1).
    eapply (does_fails _ _ _ [] w2 w1 []); [exact S1|]. rewrite <- (app_nil_r w2).
    eapply (does_fails _ _ _ w2 [] [] []); [exact (R2 _)|]. intros out. by rewrite app_nil_r.
Qed.

Lemma refused_session db sftp_root user password (ks0 kc0 : SessionKeys C) (rs rc : R) chs0 chc0 sf px :
  verify_password db user password = false →
  wire_utf8 user → wire_utf8 password → len user + len password ≤ MAX_PACKET_SIZE - 100 →
  ∃ ws wc ks kc rs' rc',
    fails mk_conn (handle_connection (K:=K) (H:=H) db sftp_root) wc ws ((ks0, rs), (chs0, sf))
      ConnectionClosed ((ks, rs'), (ChannelManager_new, sf)) [] UnexpectedEof ∧
    ∀ rest e, fails mk_client (client_session (K:=K) user password) ws wc ((kc0, rc), (chc0, px))
      (AuthFailed "Authentication rejected by server") ((kc, rc'), (ChannelManager_new, px)) rest e.
Proof.
  intros Hv Hu Hp Hl.
  destruct (secured_dialogue (K:=K) (H:=H) db sftp_root user password ks0 kc0 rs rc chs0 chc0 sf px)
    as (s3 & c3 & ks3 & kc3 & rs3 & rc3 & H3 & Rs & Rc).
  destruct (refusal_dialogue db user password ks3 kc3 rs3 rc3 H3 Hv Hu Hp Hl)
    as (s4 & c4 & ks4 & kc4 & rs4 & rc4 & As & Ac & L4).
  exists (s3 ++ s4), (c3 ++ c4), ks4, kc4, rs4, rc4. split.
  - eapply reaches_fails; [exact Rs|].
    apply (fails_fuel _ 2); [unfold len in L4; lia|]. intros [|[|fuel]] Hf; try lia.
    apply fails_first, fails_on_link, As.
  - intros rest e. eapply reaches_fails; [exact Rc|]. apply fails_first, fails_cl_on_link, Ac.
Qed.

(** Every mode starts with the session. *)
Lemma modes_fail args schedule i o s e s' rest e0 :
  fails mk_client (client_session (K:=K) (args_user args) (default [] (args_password args))) i o s e s' rest e0 →
  fails mk_client (run_client_args (K:=K) args schedule) i o s e s' rest e0.
Proof.
  intros Hf. unfold run_client_args, run_client, run_interactive.
  destruct (args_command args), (args_interactive args); repeat first [exact Hf | apply fails_first].
Qed.
End refusal.

(** C22.  A wrong password: run against each other, the client, which connects when a
    password is given, ends with the error "Authentication rejected by server" in
    every mode (command, interactive or neither), and has printed nothing; the server, which sees the client go, ends with a closed connection,
    without any channel, and with its disk and SFTP handler as they were.  Each has
    read exactly what the other wrote. *)
Theorem wrong_password_refused {C R K F H} `{!StreamCipher C, !StreamCipherLaws C, hmac_impl : !Hmac,
    hmac_laws : !HmacLaws, rng_impl : !Rng R, rng_laws : !RngLaws R, x25519_impl : !X25519 R K,
    x25519_laws : !X25519Laws R K, sha_impl : !Sha256, sha_laws : !Sha256Laws,
    fs_impl : !FileSystem F H, proc_impl : !Processes F, order_impl : !MapOrder} `{profile : !BuildProfile}
    db sftp_root args schedule password (ks0 kc0 : SessionKeys C) (rs rc : R) chs0 chc0 sf so se :
  args_password args = Some password → verify_password db (args_user args) password = false →
  wire_utf8 (args_user args) → wire_utf8 password →
  len (args_user args) + len password ≤ MAX_PACKET_SIZE - 100 →
  ∃ program ws wc ks kc rs' rc',
    client_main (K:=K) args schedule = inr (socket_addr (args_host args) (args_port args), program) ∧
    (∀ out,
       handle_connection (K:=K) (H:=H) db sftp_root
         (mkConn (mkLink (mkReader wc UnexpectedEof) (mkWriter out None) ks0 rs) chs0 sf) =
       (Err ConnectionClosed, mkConn (mkLink (mkReader [] UnexpectedEof) (mkWriter (out ++ ws) None) ks rs')
                                ChannelManager_new sf)) ∧
    (∀ rest e out,
       program
         (mkClient (mkLink (mkReader (ws ++ rest) e) (mkWriter out None) kc0 rc) chc0 so se) =
       (Err (AuthFailed "Authentication rejected by server"),
        mkClient (mkLink (mkReader rest e) (mkWriter (out ++ wc) None) kc rc') ChannelManager_new so se)).
Proof.
  intros Ha Hv Hu Hp Hl. destruct (refused_session (K:=K) (H:=H) db sftp_root _ password ks0 kc0 rs rc
    chs0 chc0 sf (so, se) Hv Hu Hp Hl) as (ws & wc & ks & kc & rs' & rc' & Hs & Hc).
  exists (run_client_args (K:=K) args schedule), ws, wc, ks, kc, rs', rc'. split_and!.
  - unfold client_main. by rewrite Ha.
  - intros out. rewrite <- (app_nil_r wc). exact (Hs out).
  - intros rest e out. assert (default [] (args_password args) = password) as Hd by by rewrite Ha.
    rewrite <- Hd in Hc. exact (modes_fail args schedule _ _ _ _ _ _ _ (Hc rest e) out).
Qed.

Lemma wrong_password_refused_witness :
  let args := mkArgs (bs "127.0.0.1") 2222 (bs "admin") (Some (bs "guess")) (Some (bs "echo hi")) false in
  ∃ program ws wc ks kc rs' rc',
    client_main (K:=N) (profile:=true) args [] = inr (bs "127.0.0.1:2222", program) ∧
    (∀ out,
       server_task (K:=N) (H:=mem_handle) (proc_impl:=demo_processes) (profile:=true) ServerConfig_default
         (mkConn (mkLink (mkReader wc UnexpectedEof) (mkWriter out None) SessionKeys_new 5) ChannelManager_new
            demo_sftp) =
       (Err ConnectionClosed, mkConn (mkLink (mkReader [] UnexpectedEof) (mkWriter (out ++ ws) None) ks rs')
                                ChannelManager_new demo_sftp)) ∧
    (∀ rest e out,
       program
         (mkClient (mkLink (mkReader (ws ++ rest) e) (mkWriter out None) SessionKeys_new 9)
            ChannelManager_new [] []) =
       (Err (AuthFailed "Authentication rejected by server"),
        mkClient (mkLink (mkReader rest e) (mkWriter (out ++ wc) None) kc rc') ChannelManager_new [] [])).
Proof.
  apply (wrong_password_refused (K:=N) (H:=mem_handle) (proc_impl:=demo_processes) (profile:=true) server_users
    (bs "/tmp/swiftssh") (mkArgs (bs "127.0.0.1") 2222 (bs "admin") (Some (bs "guess")) (Some (bs "echo hi")) false)
    [] (bs "guess")); by_eval || reflexivity.
Defined.
