(* ===== verification/Tasks.v ===== *)
(** The server process: [main] of [src/bin/server.rs] spawns a task for every stream it
    accepts, and the tasks run in any order over one disk.  A task takes a step for
    everything up to the login, which does not touch the disk, and then a step for every
    message; what one message does to the disk is not interleaved with another's.
    Other programs may change the disk between any two steps. *)
From S2P Require Export Main.

Inductive phase := Greeting | Serving | Ended (result : SshResult unit).

(** A task owns everything of its connection but the disk. *)
Record Task (C R : Type) := mkTask {
  tk_phase : phase;
  tk_link : Link C R;
  tk_channels : ChannelManager;
  tk_handler : SftpHandler
}.
#[global] Arguments mkTask {C R} _ _ _ _.
#[global] Arguments tk_phase {C R} _.
#[global] Arguments tk_link {C R} _.
#[global] Arguments tk_channels {C R} _.
#[global] Arguments tk_handler {C R} _.

Record World (C R F : Type) := mkWorld { wd_disk : F; wd_tasks : list (Task C R) }.
#[global] Arguments mkWorld {C R F} _ _.
#[global] Arguments wd_disk {C R F} _.
#[global] Arguments wd_tasks {C R F} _.

(** What happens next: a task goes on, or another program changes the disk. *)
Inductive happening := Goes (i : nat) | Elsewhere.

#[export] Instance happening_eq_dec : EqDecision happening.
Proof. solve_decision. Defined.

Section tasks.
Context {C R K F H : Type} `{!StreamCipher C, hmac_impl : !Hmac, rng_impl : !Rng R,
  x25519_impl : !X25519 R K, sha_impl : !Sha256, fs_impl : !FileSystem F H,
  proc_impl : !Processes F, order_impl : !MapOrder} `{profile : !BuildProfile}.
Context (user_db : UserDatabase) (sftp_root : bytes).
Abbreviation conn := (io SshError (Conn C R F)).

(** [handle_connection] up to its channel loop. *)
Definition enter : conn unit :=
  on_link (on_keys (λ _, (tt, SessionKeys_new)));;
  on_channels (modify (λ _, ChannelManager_new));;
  kex_result ← on_link (server_kex (K:=K));
  on_link (server_install_keys kex_result);;
  on_link server_service;;
  fuel ← gets stream_fuel;
  on_link (auth_loop fuel user_db);;
  on_sftp (set_handler (λ _, SftpHandler_new sftp_root)).

(** One round of the channel loop; [true] when it is left. *)
Definition serve_round : conn bool :=
  pkt ← recv_or_closed;
  match pkt with
  | None => mret true
  | Some pkt => handle_message (H:=H) pkt
  end.

Definition task_conn (d : F) (t : Task C R) : Conn C R F :=
  mkConn (tk_link t) (tk_channels t) (mkSftp (tk_handler t) d).

(** Where a task stands after a step, with the disk it leaves. *)
Definition after (o : SshResult bool) (c : Conn C R F) : Task C R * F :=
  (mkTask match o with
          | Ok false => Serving
          | Ok true => Ended (Ok tt)
          | Err e => Ended (Err e)
          | Panic s => Ended (Panic s)
          | OutOfFuel => Ended OutOfFuel
          end (cn_link c) (cn_channels c) (handler (cn_sftp c)),
   disk (cn_sftp c)).

Definition advance (t : Task C R) (d : F) : Task C R * F :=
  match tk_phase t with
  | Greeting => let '(o, c) := (enter;; mret false) (task_conn d t) in after o c
  | Serving => let '(o, c) := serve_round (task_conn d t) in after o c
  | Ended _ => (t, d)
  end.

Definition ended (t : Task C R) : bool := match tk_phase t with Ended _ => true | _ => false end.

Inductive server_step : World C R F → happening → World C R F → Prop :=
| step_goes d ts i t t' d' :
    ts !! i = Some t → ended t = false → advance t d = (t', d') →
    server_step (mkWorld d ts) (Goes i) (mkWorld d' (<[i:=t']> ts))
| step_elsewhere d ts d' : server_step (mkWorld d ts) Elsewhere (mkWorld d' ts).

(** Executions, with what happened so far. *)
Inductive execution (w0 : World C R F) : list happening → World C R F → Prop :=
| execution_start : execution w0 [] w0
| execution_next evs w ev w' :
    execution w0 evs w → server_step w ev w' → execution w0 (evs ++ [ev]) w'.

(** A stream just accepted. *)
Definition new_task (l : Link C R) : Task C R := mkTask Greeting l ChannelManager_new (SftpHandler_new []).

Definition start (d : F) (streams : list (Link C R)) : World C R F := mkWorld d (new_task <$> streams).

Definition peer_logs_in (l : Link C R) : Prop :=
  logged_in (K:=K) user_db (mkLink (lk_reader l) (lk_writer l) SessionKeys_new (lk_rng l)).
End tasks.

(** ** One task by itself *)

Section one_task.
Context {C R K F H : Type} `{!StreamCipher C, !StreamCipherLaws C, hmac_impl : !Hmac, hmac_laws : !HmacLaws,
  rng_impl : !Rng R, x25519_impl : !X25519 R K, sha_impl : !Sha256, sha_laws : !Sha256Laws,
  fs_impl : !FileSystem F H, proc_impl : !Processes F, order_impl : !MapOrder} `{profile : !BuildProfile}.
Context (user_db : UserDatabase) (sftp_root : bytes).
Abbreviation conn := (io SshError (Conn C R F)).
Abbreviation advance := (advance (K:=K) (H:=H) user_db sftp_root).
Abbreviation enter := (enter (K:=K) user_db sftp_root).

(** The split of [handle_connection]. *)
Lemma handle_connection_split (c : Conn C R F) :
  handle_connection (K:=K) (H:=H) user_db sftp_root c = (enter;; fuel ← gets stream_fuel; channel_loop (H:=H) fuel) c.
Proof.
  unfold handle_connection, Tasks.enter. symmetry.
  do 7 (rewrite io_bind_assoc; apply io_bind_ext; clear c; intros ? c). done.
Qed.

Lemma channel_loop_round fuel (c : Conn C R F) :
  channel_loop (H:=H) (S fuel) c =
  (stop ← serve_round (H:=H); if stop : bool then mret tt else channel_loop (H:=H) fuel) c.
Proof.
  unfold serve_round. cbn [channel_loop]. rewrite io_bind_assoc. apply io_bind_ext. clear c. by intros [p|] c.
Qed.

(** Before the login there is no channel and no disk access, and nothing gets past it
    without one. *)
Lemma enter_quiet (c : Conn C R F) :
  cn_channels (enter c).2 = ChannelManager_new ∧ disk (cn_sftp (enter c).2) = disk (cn_sftp c).
Proof.
  set (Q := λ c' : Conn C R F, cn_channels c' = ChannelManager_new ∧ disk (cn_sftp c') = disk (cn_sftp c)). change (Q (enter c).2). unfold Tasks.enter.
  erewrite io_bind_run by reflexivity. erewrite io_bind_run by reflexivity.
  apply on_link_phase; [done|]. intros r l3 _.
  apply on_link_phase; [done|]. intros u4 l4 _.
  apply on_link_phase; [done|]. intros u5 l5 _.
  erewrite io_bind_run by reflexivity.
  by apply on_link_phase.
Qed.

Lemma on_link_ok {A} (m : io SshError (Link C R) A) (c c' : Conn C R F) a :
  on_link m c = (Ok a, c') → m (cn_link c) = (Ok a, cn_link c').
Proof. unfold on_link. destruct (m (cn_link c)) as [o l]. by intros [= -> <-]. Qed.

Lemma enter_ok (c c' : Conn C R F) :
  enter c = (Ok tt, c') → peer_logs_in (K:=K) user_db (cn_link c).
Proof.
  unfold Tasks.enter. intros H0.
  apply io_bind_ok in H0 as ([] & c1 & [= <-] & H0). apply io_bind_ok in H0 as ([] & c2 & [= <-] & H0).
  apply io_bind_ok in H0 as (r & c3 & E1%on_link_ok & H0).
  apply io_bind_ok in H0 as (u4 & c4 & E2%on_link_ok & H0).
  apply io_bind_ok in H0 as (u5 & c5 & E3%on_link_ok & H0).
  apply io_bind_ok in H0 as (fuel & c6 & [= _ <-] & H0).
  apply io_bind_ok in H0 as (u7 & c7 & E4%on_link_ok & _).
  unfold peer_logs_in. by eapply phases_logged_in.
Qed.

Lemma enter_safe (c : Conn C R F) : safe_at conn_reads enter c.
Proof.
  unfold Tasks.enter.
  apply safe_bind; [apply _|apply reads_on_link; split; [done|unfold reads; reflexivity]|intros _ c1 _ _].
  apply safe_bind; [apply _|by apply conn_step_reads, safe_on_channels|intros _ c2 _ _].
  apply safe_bind; [apply _|apply reads_on_link, link_step_reads, safe_server_kex|intros r c3 _ _].
  apply safe_bind; [apply _|apply reads_on_link, safe_server_install|intros _ c4 _ _].
  apply safe_bind; [apply _|apply reads_on_link, link_step_reads, safe_server_service|intros _ c5 _ _].
  apply safe_bind; [apply _|apply safe_gets, _|intros fuel c6 [= <- <-] _].
  apply safe_bind; [apply _|apply reads_on_link, link_step_reads, safe_auth_loop;
    unfold stream_fuel, unread; lia|intros _ c7 _ _].
  by apply conn_step_reads, safe_on_sftp.
Qed.

(** A round ends, and one that goes on has read a packet. *)
Lemma serve_round_safe (c : Conn C R F) : safe_at conn_step (serve_round (H:=H)) c.
Proof.
  unfold serve_round. apply safe_bind; [apply _|apply safe_recv_or_closed|].
  intros [p|] c1 _ _; [apply safe_handle_message|apply safe_ret, _].
Qed.

Lemma serve_round_reads (c c' : Conn C R F) :
  serve_round (H:=H) c = (Ok false, c') → (unread (cn_link c') + 8 ≤ unread (cn_link c))%nat.
Proof.
  unfold serve_round. intros ([p|] & c1 & Hp & H1)%io_bind_ok; [|done].
  apply recv_or_closed_ok, on_link_progress in Hp.
  pose proof (safe_ok _ _ _ _ _ (safe_handle_message p c1) H1) as [Hu _]. lia.
Qed.

(** How many more steps a task can take. *)
Definition steps_left (t : Task C R) : nat :=
  match tk_phase t with
  | Greeting => unread (tk_link t) + 2
  | Serving => unread (tk_link t) + 1
  | Ended _ => 0
  end.

Lemma ended_no_steps t : ended t = true ↔ steps_left t = 0%nat.
Proof. unfold ended, steps_left. destruct (tk_phase t); split; intros; try done; lia. Qed.

Definition in_order (t : Task C R) : Prop := tk_phase t ≠ Ended OutOfFuel.

Lemma advance_left t d :
  ended t = false → (steps_left (advance t d).1 < steps_left t)%nat ∧ in_order (advance t d).1.
Proof.
  unfold ended, Tasks.advance, steps_left, in_order. destruct (tk_phase t) eqn:E; [..|done]; intros _.
  - pose proof (enter_safe (task_conn d t)) as [Hf Hr]. unfold conn_reads, reads in Hr. unfold mbind, io_bind.
    destruct (enter (task_conn d t)) as [[a|e|s|] c]; cbn in *; (split; [lia|done]).
  - pose proof (serve_round_safe (task_conn d t)) as [Hf [Hr _]].
    pose proof (serve_round_reads (task_conn d t)) as Hu.
    destruct (serve_round (task_conn d t)) as [[[]|e|s|] c]; cbn in *; (split; [|done]); try lia.
    specialize (Hu _ eq_refl). lia.
Qed.

(** A task that is left alone with the disk. *)
Definition alone (n : nat) (x : Task C R * F) : Task C R * F := Nat.iter n (λ '(t, d), advance t d) x.

Lemma alone_S n t d : alone (S n) (t, d) = alone n (advance t d).
Proof. unfold alone. by rewrite Nat.iter_succ_r. Qed.

Lemma alone_ended n x : ended x.1 = true → alone n x = x.
Proof.
  intros He. induction n as [|n IH]; [done|]. unfold alone in *. rewrite Nat.iter_succ, IH.
  destruct x as [t d]. unfold ended, Tasks.advance in *. cbn [fst] in He. by destruct (tk_phase t).
Qed.

Definition finished (o : SshResult unit) (c : Conn C R F) : Task C R * F :=
  (mkTask (Ended o) (cn_link c) (cn_channels c) (handler (cn_sftp c)), disk (cn_sftp c)).

Lemma alone_serving n t d :
  tk_phase t = Serving → (unread (tk_link t) < n)%nat →
  alone n (t, d) = let '(o, c) := channel_loop (H:=H) n (task_conn d t) in finished o c.
Proof.
  revert t d. induction n as [|n IH]; intros t d Ht Hn; [lia|].
  rewrite alone_S, channel_loop_round. unfold Tasks.advance. rewrite Ht.
  pose proof (serve_round_reads (task_conn d t)) as Hu. unfold mbind, io_bind.
  destruct (serve_round (H:=H) (task_conn d t)) as [[[]|e|s|] c]; try by apply alone_ended.
  specialize (Hu c eq_refl). unfold after. rewrite IH by (cbn in *; lia || done).
  by destruct c as [l chs [h d1]].
Qed.

Lemma channel_loop_fuel n m (c : Conn C R F) :
  (unread (cn_link c) < n)%nat → (unread (cn_link c) < m)%nat →
  channel_loop (H:=H) n c = channel_loop (H:=H) m c.
Proof.
  revert m c. induction n as [|n IH]; intros [|m] c Hn Hm; [lia..|]. rewrite !channel_loop_round.
  pose proof (serve_round_reads c) as Hu. unfold mbind, io_bind.
  destruct (serve_round (H:=H) c) as [[[]|e|s|] c1]; try done.
  specialize (Hu c1 eq_refl). apply IH; lia.
Qed.

(** Left alone, the task ends, as [handle_connection] does. *)
Lemma alone_finishes n l d :
  (unread l + 2 ≤ n)%nat →
  alone n (new_task l, d) =
  let '(o, c) := handle_connection (K:=K) (H:=H) user_db sftp_root (task_conn d (new_task l)) in finished o c.
Proof.
  intros Hn. destruct n as [|n]; [lia|]. rewrite alone_S, handle_connection_split.
  pose proof (enter_safe (task_conn d (new_task l))) as [_ Hr]. unfold conn_reads, reads in Hr.
  unfold Tasks.advance, mbind, io_bind, gets in *. cbn [tk_phase new_task].
  destruct (enter (task_conn d (new_task l))) as [[[]|e|s|] c]; try by apply alone_ended.
  unfold mret, io_ret, after. rewrite alone_serving by (cbn in *; lia || done).
  rewrite (channel_loop_fuel _ (stream_fuel c)) by (unfold stream_fuel, unread in *; cbn in *; lia).
  by destruct c as [l1 chs [h d1]].
Qed.

(** ** Any number of tasks *)

Abbreviation step := (server_step (K:=K) (H:=H) user_db sftp_root).
Abbreviation runs_to := (execution (K:=K) (H:=H) user_db sftp_root).

(** How often a task has gone on. *)
Definition turns (i : nat) (evs : list happening) : nat := length (filter (λ ev, ev = Goes i) evs).

Lemma turns_snoc i evs ev :
  turns i (evs ++ [ev]) = (turns i evs + if decide (ev = Goes i) then 1 else 0)%nat.
Proof. unfold turns. rewrite filter_app, length_app. cbn. by case_decide. Qed.

Lemma start_task (d : F) (streams : list (Link C R)) i t :
  wd_tasks (start d streams) !! i = Some t → ∃ l, streams !! i = Some l ∧ t = new_task l.
Proof. cbn. rewrite list_lookup_fmap. intros (l & -> & ->)%fmap_Some. eauto. Qed.

(** Every task stands for its stream, and has used up its turns. *)
Lemma execution_tasks d streams evs w :
  runs_to (start d streams) evs w → length (wd_tasks w) = length streams ∧
  ∀ i l, streams !! i = Some l →
  ∃ t, wd_tasks w !! i = Some t ∧ in_order t ∧ (turns i evs + steps_left t ≤ unread l + 2)%nat.
Proof.
  induction 1 as [|evs w ev w' _ [Hlen IH] Hs]; [split; [by cbn; rewrite length_fmap|]|].
  - intros i l Hl. exists (new_task l). cbn. by rewrite list_lookup_fmap, Hl.
  - destruct Hs as [d1 ts j t t' d' Ht He Ha|d1 ts d']; cbn [wd_tasks] in *; rewrite ?length_insert;
      (split; [done|]); intros i l Hl; destruct (IH i l Hl) as (t0 & Ht0 & Ho & Hn); rewrite turns_snoc.
    + destruct (decide (j = i)) as [->|Hij].
      * rewrite Ht in Ht0. injection Ht0 as <-. exists t'. destruct (advance_left t d1 He) as [Hl1 Ho1].
        rewrite Ha in Hl1, Ho1. rewrite list_lookup_insert_eq by (by eapply lookup_lt_Some).
        rewrite decide_True by done. split_and!; [done|done|]. cbn in *. lia.
      * exists t0. rewrite list_lookup_insert_ne by done. rewrite decide_False by congruence. split_and!; try done. lia.
    + exists t0. rewrite decide_False by done. split_and!; try done. lia.
Qed.

(** A task that has done nothing another one could see. *)
Definition unseen (l : Link C R) (t : Task C R) : Prop :=
  t = new_task l ∨ (ended t = true ∧ tk_channels t = ChannelManager_new).

Lemma advance_unseen l t d :
  unseen l t →
  (advance t d).2 = d ∧ (peer_logs_in (K:=K) user_db l ∨ unseen l (advance t d).1).
Proof.
  intros [->|[He Hc]].
  - pose proof (enter_quiet (task_conn d (new_task l))) as [Hc Hd].
    pose proof (enter_ok (task_conn d (new_task l))) as Hk.
    unfold Tasks.advance, mbind, io_bind. cbn [tk_phase new_task].
    destruct (enter (task_conn d (new_task l))) as [[[]|e|s|] c]; (split; [done|]);
      [by left; apply (Hk c)|by right; right..].
  - unfold Tasks.advance. destruct (tk_phase t) eqn:E; [by unfold ended in He; rewrite E in He..|].
    by split; [|right; right].
Qed.

Lemma execution_unseen d streams evs w i t :
  runs_to (start d streams) evs w → wd_tasks w !! i = Some t →
  ∃ l, streams !! i = Some l ∧ (peer_logs_in (K:=K) user_db l ∨ unseen l t).
Proof.
  intros Hr. revert i t. induction Hr as [|evs w ev w' _ IH Hs]; intros i t.
  - intros (l & Hl & ->)%start_task. exists l. split; [done|]. by right; left.
  - destruct Hs as [d1 ts j t1 t' d' Ht He Ha|]; [|apply IH]. cbn [wd_tasks].
    intros [(<- & <- & _)|[Hij Hi]]%list_lookup_insert_Some; [|by apply IH].
    destruct (IH _ _ Ht) as (l & Hl & [Hin|Hu]); exists l; (split; [done|]); [by left|].
    apply (advance_unseen l t1 d1) in Hu as [_ Hu]. by rewrite Ha in Hu.
Qed.

(** ** One client among strangers *)

(** [i] is the only one who logs in, and no other program is at the disk. *)
Lemma execution_alone d streams i l evs w :
  runs_to (start d streams) evs w → streams !! i = Some l →
  (∀ j l', j ≠ i → streams !! j = Some l' → ¬ peer_logs_in (K:=K) user_db l') → Elsewhere ∉ evs →
  ∃ t, wd_tasks w !! i = Some t ∧ (t, wd_disk w) = alone (turns i evs) (new_task l, d).
Proof.
  intros Hr Hl Hno. induction Hr as [|evs w ev w' Hr IH Hs]; intros Hev.
  { exists (new_task l). cbn. by rewrite list_lookup_fmap, Hl. }
  destruct IH as (t & Ht & Ed); [set_solver|]. rewrite turns_snoc.
  destruct Hs as [d1 ts j t1 t' d' Hj He Ha|]; [|set_solver]. cbn [wd_tasks wd_disk] in *.
  destruct (decide (j = i)) as [->|Hij].
  - exists t'. rewrite Hj in Ht. injection Ht as <-. rewrite list_lookup_insert_eq by (by eapply lookup_lt_Some).
    rewrite decide_True, Nat.add_1_r by done. split; [done|]. unfold alone in *. by rewrite Nat.iter_succ, <- Ed.
  - exists t. rewrite list_lookup_insert_ne, decide_False, Nat.add_0_r by congruence. split; [done|].
    destruct (execution_unseen _ _ _ _ _ _ Hr Hj) as (l' & Hl' & [Hin|Hu]); [by destruct (Hno j l')|].
    apply (advance_unseen l' t1 d1) in Hu as [Hd _]. rewrite Ha in Hd. cbn in Hd. by subst d'.
Qed.

Lemma alone_result n l d t d1 result :
  (t, d1) = alone n (new_task l, d) → tk_phase t = Ended result →
  handle_connection (K:=K) (H:=H) user_db sftp_root (task_conn d (new_task l)) = (result, task_conn d1 t).
Proof.
  intros Ed Hres. assert (He : ended (t, d1).1 = true) by (unfold ended; cbn; by rewrite Hres).
  pose proof (alone_finishes (unread l + 2 + n) l d ltac:(lia)) as Hf.
  unfold alone in *. rewrite Nat.iter_add, <- Ed in Hf. fold (alone (unread l + 2) (t, d1)) in Hf.
  rewrite alone_ended in Hf by done.
  destruct (handle_connection _ _ _) as [o c]. unfold finished in Hf. injection Hf as -> ->.
  cbn in Hres. injection Hres as ->. by destruct c as [? ? [? ?]].
Qed.

Lemma served_as_alone d streams i l evs w :
  runs_to (start d streams) evs w → streams !! i = Some l →
  (∀ j l', j ≠ i → streams !! j = Some l' → ¬ peer_logs_in (K:=K) user_db l') → Elsewhere ∉ evs →
  ∃ t, wd_tasks w !! i = Some t ∧
    ∀ result, tk_phase t = Ended result →
      handle_connection (K:=K) (H:=H) user_db sftp_root
        (mkConn l ChannelManager_new (mkSftp (SftpHandler_new []) d)) =
      (result, mkConn (tk_link t) (tk_channels t) (mkSftp (tk_handler t) (wd_disk w))).
Proof.
  intros Hr Hl Hno Hev. destruct (execution_alone _ _ _ _ _ _ Hr Hl Hno Hev) as (t & Ht & Ed).
  exists t. split; [done|]. intros result. apply (alone_result _ _ _ _ _ _ Ed).
Qed.
End one_task.

(** C18.  Every connection ends, whatever the others do: started on any disk with any
    streams, in any interleaving, with other programs at the disk, the task of a stream
    takes at most two turns more than the stream has bytes, it is never out
    of fuel, and as long as it has not ended it can go on. *)
Theorem tasks_end {C R K F H} `{!StreamCipher C, !StreamCipherLaws C, hmac_impl : !Hmac,
    hmac_laws : !HmacLaws, rng_impl : !Rng R, x25519_impl : !X25519 R K, sha_impl : !Sha256,
    sha_laws : !Sha256Laws, fs_impl : !FileSystem F H, proc_impl : !Processes F, order_impl : !MapOrder}
    `{profile : !BuildProfile} user_db sftp_root (d : F) (streams : list (Link C R)) evs w i l :
  execution (K:=K) (H:=H) user_db sftp_root (start d streams) evs w → streams !! i = Some l →
  (turns i evs ≤ unread l + 2)%nat ∧
  ∃ t, wd_tasks w !! i = Some t ∧
    ((∃ result, tk_phase t = Ended result ∧ result ≠ OutOfFuel) ∨
     ∃ w', server_step (K:=K) (H:=H) user_db sftp_root w (Goes i) w').
Proof.
  intros Hr Hl. destruct (execution_tasks _ _ _ _ _ _ Hr) as [_ Ht].
  destruct (Ht i l Hl) as (t & Hi & Ho & Hn). split; [lia|]. exists t. split; [done|].
  destruct (ended t) eqn:He.
  - left. unfold ended, in_order in *. destruct (tk_phase t) as [| |o]; [done..|]. exists o. split; [done|]. congruence.
  - right. destruct w as [d1 ts]. destruct (advance (K:=K) (H:=H) user_db sftp_root t d1) as [t' d'] eqn:E.
    eexists. by econstructor.
Qed.

(** C9.  Only logins open the disk: in every execution of the server, any number of
    connections interleaved in any way, a step of a connection that changes the disk
    belongs to one whose own peer has logged in (with a credential the database
    accepts, on an encrypted and authenticated link), and so does every connection that
    has a channel.  One client's login is of no use to another. *)
Theorem disk_change_needs_login {C R K F H} `{!StreamCipher C, !StreamCipherLaws C, hmac_impl : !Hmac,
    hmac_laws : !HmacLaws, rng_impl : !Rng R, x25519_impl : !X25519 R K, sha_impl : !Sha256,
    sha_laws : !Sha256Laws, fs_impl : !FileSystem F H, proc_impl : !Processes F, order_impl : !MapOrder}
    `{profile : !BuildProfile} user_db sftp_root (d : F) (streams : list (Link C R)) evs w :
  execution (K:=K) (H:=H) user_db sftp_root (start d streams) evs w →
  (∀ i w', server_step (K:=K) (H:=H) user_db sftp_root w (Goes i) w' → wd_disk w' ≠ wd_disk w →
     ∃ l, streams !! i = Some l ∧ peer_logs_in (K:=K) user_db l) ∧
  (∀ i t, wd_tasks w !! i = Some t → tk_channels t ≠ ChannelManager_new →
     ∃ l, streams !! i = Some l ∧ peer_logs_in (K:=K) user_db l).
Proof.
  intros Hr. split.
  - intros i w' Hs Hd. inversion Hs as [d1 ts j t t' d' Hi He Ha|]; subst.
    destruct (execution_unseen _ _ _ _ _ _ _ _ Hr Hi) as (l & Hl & [Hin|Hu]); [by exists l|].
    apply (advance_unseen (K:=K) (H:=H) user_db sftp_root l t d1) in Hu as [E _]. by rewrite Ha in E.
  - intros i t Hi Hc. destruct (execution_unseen _ _ _ _ _ _ _ _ Hr Hi) as (l & Hl & [Hin|[->|[_ Hu]]]);
      [by exists l|done..].
Qed.

(** C10.  Strangers do not interfere: among any number of connections of which only one
    logs in, in any interleaving, that one is served as if it were alone.  When its
    task has ended, the result, everything sent to its client, its channels and
    handles, and the disk are exactly those of [handle_connection] run by itself on the
    same stream and disk. *)
Theorem strangers_do_not_interfere {C R K F H} `{!StreamCipher C, !StreamCipherLaws C, hmac_impl : !Hmac,
    hmac_laws : !HmacLaws, rng_impl : !Rng R, x25519_impl : !X25519 R K, sha_impl : !Sha256,
    sha_laws : !Sha256Laws, fs_impl : !FileSystem F H, proc_impl : !Processes F, order_impl : !MapOrder}
    `{profile : !BuildProfile} user_db sftp_root (d : F) (streams : list (Link C R)) evs w i l :
  execution (K:=K) (H:=H) user_db sftp_root (start d streams) evs w → streams !! i = Some l →
  (∀ j l', j ≠ i → streams !! j = Some l' → ¬ peer_logs_in (K:=K) user_db l') → Elsewhere ∉ evs →
  ∃ t, wd_tasks w !! i = Some t ∧
    ∀ result, tk_phase t = Ended result →
      handle_connection (K:=K) (H:=H) user_db sftp_root
        (mkConn l ChannelManager_new (mkSftp (SftpHandler_new []) d)) =
      (result, mkConn (tk_link t) (tk_channels t) (mkSftp (tk_handler t) (wd_disk w))).
Proof. apply served_as_alone. Qed.

(** C2.  A session in a crowd: a client logs in with a right password and runs one command,
    while any number of strangers, none of whom logs in, send the server what they
    like, in any interleaving.  The client ends well and has printed the output of the
    command.  Its task on the server, once it has had its turns, has ended without an
    error, has written exactly what the client read (and a last CLOSE), and
    the command has run once: the disk is what it makes of the disk at the start. *)
Theorem session_among_strangers {C R K F H} `{!StreamCipher C, !StreamCipherLaws C, hmac_impl : !Hmac,
    hmac_laws : !HmacLaws, rng_impl : !Rng R, rng_laws : !RngLaws R, x25519_impl : !X25519 R K,
    x25519_laws : !X25519Laws R K, sha_impl : !Sha256, sha_laws : !Sha256Laws,
    fs_impl : !FileSystem F H, proc_impl : !Processes F, order_impl : !MapOrder,
    order_laws : !MapOrderLaws} `{profile : !BuildProfile}
    user_db sftp_root user password command output (d fs' : F) (ks0 kc0 : SessionKeys C) (rs rc : R) chc0 so se :
  verify_password user_db user password = true →
  wire_utf8 user → wire_utf8 password → len user + len password ≤ MAX_PACKET_SIZE - 100 →
  wire_utf8 command → len command ≤ MAX_PACKET_SIZE - 100 →
  execute_command command d = (output, fs') → utf8_valid output = true → len output ≤ MAX_PACKET_SIZE - 29 →
  ∃ ws tail wc kc rc' chc,
    (∀ rest e out,
       run_client (K:=K) user password (Some command)
         (mkClient (mkLink (mkReader (ws ++ rest) e) (mkWriter out None) kc0 rc) chc0 so se) =
       (Ok tt, mkClient (mkLink (mkReader rest e) (mkWriter (out ++ wc) None) kc rc') chc (so ++ output) se)) ∧
    ∀ e streams i evs w,
      let l := mkLink (mkReader wc e) (mkWriter [] None) ks0 rs in
      streams !! i = Some l →
      (∀ j l', j ≠ i → streams !! j = Some l' → ¬ peer_logs_in (K:=K) user_db l') →
      execution (K:=K) (H:=H) user_db sftp_root (start d streams) evs w → Elsewhere ∉ evs →
      ∃ t, wd_tasks w !! i = Some t ∧
        ((length wc + 2 ≤ turns i evs)%nat → tk_phase t = Ended (Ok tt)) ∧
        ∀ result, tk_phase t = Ended result →
          result = Ok tt ∧ wr_out (lk_writer (tk_link t)) = ws ++ tail ∧ wd_disk w = fs'.
Proof.
  intros Hv Hu Hp Hl Hcmd Hlc Hrun Hut Hlo.
  destruct (session_dialogue (K:=K) (H:=H) user_db sftp_root user password command output fs' ks0 kc0 rs rc
    ChannelManager_new chc0 (mkSftp (SftpHandler_new []) d) (so, se))
    as (ws & tail & wc & ks & kc & rs' & rc' & chs & chc & Hs & Hc); [done..|].
  exists ws, tail, wc, kc, rc', chc. split; [rewrite <- (from_utf8_lossy_valid output) by done; exact Hc|].
  intros e streams i evs w l Hi Hno Hr Hev.
  destruct (served_as_alone _ _ _ _ _ _ _ _ Hr Hi Hno Hev) as (t & Ht & Hd). exists t.
  specialize (Hs [] e []). rewrite app_nil_r in Hs. fold l in Hs.
  assert (Hres : ∀ result, tk_phase t = Ended result →
    result = Ok tt ∧ wr_out (lk_writer (tk_link t)) = ws ++ tail ∧ wd_disk w = fs').
  { intros result Hresult. specialize (Hd result Hresult).
    pose proof (eq_trans (eq_sym Hd) Hs) as E. injection E as -> -> _ _ ->. done. }
  split_and!; [done| |done]. intros Hturns.
  destruct (execution_tasks _ _ _ _ _ _ Hr) as [_ Hleft]. destruct (Hleft i l Hi) as (t' & Ht' & _ & Hn).
  assert (t' = t) as -> by congruence. unfold unread in Hn. cbn in Hn.
  assert (ended t = true) as He by (apply ended_no_steps; lia).
  unfold ended in He. destruct (tk_phase t) as [| |o] eqn:E; [done..|]. by destruct (Hres o eq_refl) as [-> _].
Qed.

(** ** Examples *)

Definition demo_stranger : Link (Z * Z) Z := cn_link demo_hostile.

Lemma demo_stranger_outside db : ¬ peer_logs_in (K:=N) (profile:=true) db demo_stranger.
Proof. intros (l0 & l1 & p & l2 & req & E & _). vm_compute in E. discriminate. Qed.

(** Two strangers, of which the second goes first and then another program clears the disk. *)
Definition demo_two : World (Z * Z) Z mem_fs := start demo_fs [demo_stranger; demo_stranger].

Abbreviation demo_step := (server_step (K:=N) (H:=mem_handle) (proc_impl:=demo_chatty) (profile:=true)
  demo_db (bs "/srv")).
Abbreviation demo_execution := (execution (K:=N) (H:=mem_handle) (proc_impl:=demo_chatty) (profile:=true)
  demo_db (bs "/srv")).
Abbreviation demo_advance := (advance (K:=N) (H:=mem_handle) (proc_impl:=demo_chatty) (profile:=true)
  demo_db (bs "/srv")).

Definition demo_failed : Task (Z * Z) Z := (demo_advance (new_task demo_stranger) demo_fs).1.

Lemma demo_goes : demo_execution demo_two [Goes 1] (mkWorld demo_fs [new_task demo_stranger; demo_failed]).
Proof.
  apply (execution_next _ _ _ [] demo_two); [constructor|].
  apply (step_goes _ _ demo_fs [new_task demo_stranger; new_task demo_stranger] 1 (new_task demo_stranger)
    demo_failed demo_fs); [done..|]. rewrite (surjective_pairing (demo_advance _ _)). by f_equal.
Qed.

Lemma demo_cleared : demo_execution demo_two [Goes 1; Elsewhere] (mkWorld ∅ [new_task demo_stranger; demo_failed]).
Proof. apply (execution_next _ _ _ [Goes 1] _ Elsewhere _ demo_goes). constructor. Qed.

Lemma tasks_end_witness :
  (turns 1 [Goes 1; Elsewhere] ≤ unread demo_stranger + 2)%nat ∧
  ∃ t, [new_task demo_stranger; demo_failed] !! 1%nat = Some t ∧
    ((∃ result, tk_phase t = Ended result ∧ result ≠ OutOfFuel) ∨
     ∃ w', demo_step (mkWorld ∅ [new_task demo_stranger; demo_failed]) (Goes 1) w').
Proof.
  apply (tasks_end (K:=N) (H:=mem_handle) (proc_impl:=demo_chatty) (profile:=true) demo_db (bs "/srv") demo_fs
    [demo_stranger; demo_stranger] [Goes 1; Elsewhere] (mkWorld ∅ [new_task demo_stranger; demo_failed]) 1
    demo_stranger demo_cleared). reflexivity.
Defined.

Lemma disk_change_needs_login_witness :
  let w := mkWorld ∅ [new_task demo_stranger; demo_failed] in
  (∀ i w', demo_step w (Goes i) w' → wd_disk w' ≠ wd_disk w →
     ∃ l, [demo_stranger; demo_stranger] !! i = Some l ∧ peer_logs_in (K:=N) (profile:=true) demo_db l) ∧
  (∀ i t, wd_tasks w !! i = Some t → tk_channels t ≠ ChannelManager_new →
     ∃ l, [demo_stranger; demo_stranger] !! i = Some l ∧ peer_logs_in (K:=N) (profile:=true) demo_db l).
Proof.
  exact (disk_change_needs_login (K:=N) (H:=mem_handle) (proc_impl:=demo_chatty) (profile:=true) demo_db (bs "/srv")
    demo_fs [demo_stranger; demo_stranger] [Goes 1; Elsewhere] _ demo_cleared).
Defined.

Lemma strangers_do_not_interfere_witness :
  ∃ t, [new_task demo_stranger; demo_failed] !! 1%nat = Some t ∧
    ∀ result, tk_phase t = Ended result →
      handle_connection (K:=N) (H:=mem_handle) (proc_impl:=demo_chatty) (profile:=true) demo_db (bs "/srv")
        (mkConn demo_stranger ChannelManager_new (mkSftp (SftpHandler_new []) demo_fs)) =
      (result, mkConn (tk_link t) (tk_channels t) (mkSftp (tk_handler t) demo_fs)).
Proof.
  apply (strangers_do_not_interfere (K:=N) (H:=mem_handle) (proc_impl:=demo_chatty) (profile:=true) demo_db (bs "/srv")
    demo_fs [demo_stranger; demo_stranger] [Goes 1] _ 1 demo_stranger demo_goes); [reflexivity| |set_solver].
  intros [|[|j]] l' _ Hl'; [|injection Hl' as <-|done]; [injection Hl' as <-|]; apply demo_stranger_outside.
Defined.

Lemma session_among_strangers_witness :
  ∃ ws tail wc kc rc' chc,
    (∀ rest e out,
       run_client (K:=N) (profile:=true) (bs "user") (bs "password") (Some (bs "rm a.txt"))
         (mkClient (mkLink (mkReader (ws ++ rest) e) (mkWriter out None) SessionKeys_new 9)
            ChannelManager_new [] []) =
       (Ok tt, mkClient (mkLink (mkReader rest e) (mkWriter (out ++ wc) None) kc rc') chc ([] ++ []) [])) ∧
    ∀ e evs w,
      let l := mkLink (mkReader wc e) (mkWriter [] None) SessionKeys_new 5 in
      execution (K:=N) (H:=mem_handle) (proc_impl:=demo_processes) (profile:=true) demo_db (bs "/srv")
        (start demo_fs [demo_stranger; l; demo_stranger]) evs w → Elsewhere ∉ evs →
      ∃ t, wd_tasks w !! 1%nat = Some t ∧
        ((length wc + 2 ≤ turns 1 evs)%nat → tk_phase t = Ended (Ok tt)) ∧
        ∀ result, tk_phase t = Ended result →
          result = Ok tt ∧ wr_out (lk_writer (tk_link t)) = ws ++ tail ∧
          wd_disk w = delete [bs "srv"; bs "a.txt"] demo_fs.
Proof.
  destruct (session_among_strangers (K:=N) (H:=mem_handle) (proc_impl:=demo_processes) (profile:=true) demo_db
    (bs "/srv") (bs "user") (bs "password") (bs "rm a.txt") [] demo_fs (delete [bs "srv"; bs "a.txt"] demo_fs)
    (SessionKeys_new (C:=Z * Z)) SessionKeys_new 5 9 ChannelManager_new [] [])
    as (ws & tail & wc & kc & rc' & chc & Hc & Hs); [by_eval || reflexivity..|].
  exists ws, tail, wc, kc, rc', chc. split; [exact Hc|]. intros e evs w l Hr Hev.
  apply (Hs e [demo_stranger; l; demo_stranger] 1%nat evs w); [reflexivity| |exact Hr|exact Hev].
  intros [|[|[|j]]] l' Hj Hl'; [injection Hl' as <-|done|injection Hl' as <-|done]; apply demo_stranger_outside.
Defined.
