(* ===== verification/Tests.v ===== *)
(** The repository's unit tests ([mod tests] of each source file), translated: every
    test is a computation that ends in [Ok tt] exactly when the Rust test passes.  They
    all pass in the model, for every implementation of the cryptography and of the
    generator that satisfies its laws, for every order of the hash map and with or
    without overflow checks.  What two tests need of AES and of SHA-256 on given bytes,
    and one of the file system, are hypotheses. *)
From S2P Require Export Interactive.

(** [assert!], [assert_eq!], [unwrap] and [is_err]. *)
Definition assert (b : bool) : SshResult unit := if b then Ok tt else Panic "assertion failed".

Definition assert_eq {A} `{EqDecision A} (a b : A) : SshResult unit := assert (bool_decide (a = b)).

Definition assert_ne {A} `{EqDecision A} (a b : A) : SshResult unit := assert (bool_decide (a ≠ b)).

Definition unwrap {A} (m : SshResult A) : SshResult A :=
  match m with Err _ => Panic "called `Result::unwrap()` on an `Err` value" | m => m end.

Definition unwrap_some {A} (m : option A) : SshResult A :=
  match m with Some a => Ok a | None => Panic "called `Option::unwrap()` on a `None` value" end.

Definition is_err {A} (m : SshResult A) : bool := match m with Err _ => true | _ => false end.

Definition byte_string (l : list Z) : bytes := u8 <$> l.

(** ** auth/mod.rs *)

Definition test_user_database : SshResult unit :=
  let db := UserDatabase_new in
  let db := add_password_user (bs "alice") (bs "secret123") db in
  let db := add_public_key (bs "bob") (byte_string [1; 2; 3; 4]) db in
  assert (verify_password db (bs "alice") (bs "secret123"));;
  assert (negb (verify_password db (bs "alice") (bs "wrong")));;
  assert (negb (verify_password db (bs "nobody") (bs "secret123")));;
  assert (is_key_authorized db (bs "bob") (byte_string [1; 2; 3; 4]));;
  assert (negb (is_key_authorized db (bs "bob") (byte_string [5; 6; 7; 8])));;
  assert (negb (is_key_authorized db (bs "alice") (byte_string [1; 2; 3; 4]))).

Section auth_and_codec.
Context `{profile : !BuildProfile}.

Definition test_password_auth_roundtrip : SshResult unit :=
  let pkt := build_password_auth_request (bs "alice") (bs "ssh-connection") (bs "mypass") in
  req ← unwrap (AuthRequest_parse (payload pkt));
  assert_eq (username req) (bs "alice");;
  assert_eq (service req) (bs "ssh-connection");;
  assert_eq (method req) (bs "password");;
  match credential req with
  | Password p => assert_eq p (bs "mypass")
  | _ => Panic "Expected password credential"
  end.

Definition test_pubkey_auth_roundtrip : SshResult unit :=
  let key_blob := byte_string [10; 20; 30] in
  let sig := byte_string [40; 50; 60] in
  let pkt := build_pubkey_auth_request (bs "bob") (bs "ssh-connection") (bs "ssh-ed25519") key_blob (Some sig) in
  req ← unwrap (AuthRequest_parse (payload pkt));
  assert_eq (username req) (bs "bob");;
  assert_eq (method req) (bs "publickey");;
  match credential req with
  | PublicKey algorithm kb s =>
      assert_eq algorithm (bs "ssh-ed25519");;
      assert_eq kb key_blob;;
      assert_eq s (Some sig)
  | _ => Panic "Expected public key credential"
  end.

(** ** packet/codec.rs *)

Definition test_packet_roundtrip {R} `{!Rng R} (rng : R) : SshResult unit :=
  let pkt := SshPacket_new Ignore (byte_string [1; 2; 3; 4]) in
  serialized ← unwrap (serialize pkt 8 rng).1;
  deserialized ← unwrap (deserialize serialized);
  assert_eq (msg_type deserialized) (msg_u8 Ignore);;
  assert_eq (payload deserialized) (byte_string [1; 2; 3; 4]).

Definition test_packet_alignment {R} `{!Rng R} (rng : R) : SshResult unit :=
  let pkt := SshPacket_new Debug (replicate 13 x00) in
  serialized ← unwrap (serialize pkt 16 rng).1;
  assert_eq ((len serialized - 4) mod 16) 0.

Definition test_ssh_buf_string_roundtrip : SshResult unit :=
  let buf := write_utf8 [] (bs "hello-ssh") in
  '(result, _) ← unwrap (read_utf8 buf);
  assert_eq result (bs "hello-ssh").

Definition test_ssh_buf_name_list : SshResult unit :=
  let buf := write_name_list [] [bs "aes256-ctr"; bs "aes128-ctr"] in
  '(result, _) ← unwrap (read_name_list buf);
  assert_eq result [bs "aes256-ctr"; bs "aes128-ctr"].

Definition test_ssh_buf_u32 : SshResult unit :=
  let buf := write_u32 [] 42 in
  '(result, _) ← unwrap (read_u32 buf);
  assert_eq result 42.

Definition test_ssh_buf_mpint : SshResult unit :=
  let buf := write_mpint [] (byte_string [128; 1]) in
  '(result, _) ← unwrap (read_mpint buf);
  assert_eq result (byte_string [0; 128; 1]).

Definition test_empty_payload_rejected : SshResult unit :=
  let data := byte_string [0; 0; 0; 4; 3; 0; 0; 0] in
  assert (is_err (deserialize data)).
End auth_and_codec.

(** ** connection/mod.rs *)

Section connection.
Context `{profile : !BuildProfile, order_impl : !MapOrder}.

(** A test that works on one channel manager. *)
Abbreviation mgr_test := (io SshError ChannelManager unit).

Definition test_channel_manager_lifecycle : mgr_test :=
  ch_id ← open_channel (bs "session");
  lift (assert_eq ch_id 0);;
  n ← gets active_count;
  lift (assert_eq n 1);;
  confirm_channel ch_id 42 65536 32768;;
  ch ← gets (get ch_id);
  ch ← lift (unwrap_some ch);
  lift (assert_eq (remote_id ch) 42);;
  lift (assert_eq (remote_window ch) 65536);;
  receive_data ch_id (byte_string [1; 2; 3]);;
  ch ← gets (get ch_id);
  ch ← lift (unwrap_some ch);
  lift (assert_eq (recv_buffer ch) (byte_string [1; 2; 3]));;
  removed ← step (remove_channel ch_id);
  lift (assert (bool_decide (is_Some removed)));;
  n ← gets active_count;
  lift (assert_eq n 0).

Definition test_window_overflow_rejected : mgr_test :=
  ch_id ← open_channel (bs "session");
  ch ← gets (get ch_id);
  ch ← lift (unwrap_some ch);
  let window := local_window ch in
  result ← (λ m, let '(r, m) := receive_data ch_id (replicate (Z.to_nat (window + 1)) x00) m in (Ok r, m));
  lift (assert (is_err result)).

Definition test_channel_open_roundtrip : SshResult unit :=
  let pkt := build_channel_open (bs "session") 0 DEFAULT_WINDOW_SIZE DEFAULT_MAX_PACKET_SIZE in
  msg ← unwrap (ChannelOpenMsg_parse (payload pkt));
  assert_eq (open_channel_type msg) (bs "session");;
  assert_eq (open_sender_channel msg) 0;;
  assert_eq (open_initial_window msg) DEFAULT_WINDOW_SIZE.

Definition test_channel_data_roundtrip : SshResult unit :=
  let pkt := build_channel_data 7 (bs "hello world") in
  msg ← unwrap (ChannelDataMsg_parse (payload pkt));
  assert_eq (data_recipient_channel msg) 7;;
  assert_eq (data_data msg) (bs "hello world").

Definition test_exec_request_roundtrip : SshResult unit :=
  let pkt := build_exec_request 3 (bs "ls -la") true in
  msg ← unwrap (ChannelRequestMsg_parse (payload pkt));
  assert_eq (req_recipient_channel msg) 3;;
  assert_eq (req_request_type msg) (bs "exec");;
  assert (req_want_reply msg).
End connection.

(** ** crypto/mod.rs *)

Section crypto.
Context {C : Type} `{!StreamCipher C, hmac_impl : !Hmac, sha_impl : !Sha256}.

Definition test_aes_encrypt_decrypt : SshResult unit :=
  let key := replicate 32 x42 in
  let iv := replicate 16 x00 in
  let plaintext := bs "Hello, SwiftSSH!" in
  enc ← unwrap (AesCipher_new (C:=C) key iv);
  let '(ciphertext, _) := Crypto.apply enc plaintext in
  assert_ne ciphertext plaintext;;
  dec ← unwrap (AesCipher_new (C:=C) key iv);
  let '(ciphertext, _) := Crypto.apply dec ciphertext in
  assert_eq ciphertext plaintext.

(** [bad_mac[0] ^= 0xFF]. *)
Definition flip_first (mac : bytes) : bytes :=
  match mac with
  | b :: rest => u8 (Z.lxor (b2z b) 255) :: rest
  | [] => []
  end.

Definition test_hmac_verify : SshResult unit :=
  let key := bs "test-key" in
  let data := bs "test-data" in
  let mac := compute_hmac key data in
  assert (is_ok (verify_hmac key data mac));;
  let bad_mac := flip_first mac in
  assert (is_err (verify_hmac key data bad_mac)).

Definition test_derive_key_deterministic : SshResult unit :=
  let secret := replicate 32 x01 in
  let hash := replicate 32 x02 in
  let session_id := replicate 32 x03 in
  k1 ← derive_key secret hash x41 session_id 32;
  k2 ← derive_key secret hash x41 session_id 32;
  assert_eq k1 k2;;
  k3 ← derive_key secret hash x42 session_id 32;
  assert_ne k1 k3.

Definition test_derive_key_extension : SshResult unit :=
  let secret := replicate 32 x01 in
  let hash := replicate 32 x02 in
  let session_id := replicate 32 x03 in
  key ← derive_key secret hash x43 session_id 64;
  assert_eq (len key) 64.
End crypto.

(** ** sftp/mod.rs *)

Definition test_sftp_packet_roundtrip : SshResult unit :=
  let pkt := mkSftpPacket SSH_FXP_OPEN 42 (byte_string [1; 2; 3]) in
  let encoded := SftpPacket_encode pkt in
  decoded ← unwrap (SftpPacket_decode (drop 4 encoded));
  assert_eq (packet_type decoded) SSH_FXP_OPEN;;
  assert_eq (request_id decoded) 42;;
  assert_eq (data decoded) (byte_string [1; 2; 3]).

Definition test_file_attrs_encode_decode : SshResult unit :=
  let attrs := {| flags := Z.lor SSH_FILEXFER_ATTR_SIZE SSH_FILEXFER_ATTR_PERMISSIONS;
                  attr_size := Some 1024; uid := None; gid := None; permissions := Some 493;
                  atime := None; mtime := None |} in
  let encoded := FileAttrs_encode attrs in
  '(decoded, _) ← unwrap (FileAttrs_decode encoded);
  assert_eq (attr_size decoded) (Some 1024);;
  assert_eq (permissions decoded) (Some 493).

Definition test_sftp_handler_path_traversal {F H} `{!FileSystem F H} (fs : F) : SshResult unit :=
  let handler := SftpHandler_new (bs "/tmp/sftp_test_root") in
  let result := resolve_path (H:=H) fs handler (bs "../../etc/passwd") in
  assert (is_err result).

(** ** transport/kex.rs *)

Definition test_kex_exchange {R K} `{!Rng R, !X25519 R K, !Sha256} (rng : R) : SshResult unit :=
  let '(client, rng) := KexClient_new (K:=K) rng in
  let '(server, rng) := KexServer_new (K:=K) rng in
  let client_version := bs "SSH-2.0-SwiftSSH_client" in
  let server_version := bs "SSH-2.0-SwiftSSH_server" in
  let '(client_kexinit, rng) := build_kexinit_payload rng in
  let '(server_kexinit, rng) := build_kexinit_payload rng in
  let host_key_blob := bs "fake-host-key" in
  let client_pub := client_ephemeral_pub client in
  let server_pub := server_ephemeral_pub server in
  server_result ← unwrap (KexServer_complete (R:=R) client_pub client_version server_version
                            client_kexinit server_kexinit host_key_blob server).1;
  client_result ← unwrap (KexClient_complete (R:=R) server_pub client_version server_version
                            client_kexinit server_kexinit host_key_blob client).1;
  assert_eq (shared_secret client_result) (shared_secret server_result);;
  assert_eq (exchange_hash client_result) (exchange_hash server_result).

Definition test_kexinit_payload_not_empty {R} `{!Rng R} (rng : R) : SshResult unit :=
  let payload := (build_kexinit_payload rng).1 in
  assert (bool_decide (len payload > 16)).

(** ** They pass *)

Section pass.
Context `{profile : !BuildProfile}.

Lemma auth_tests_pass :
  test_user_database = Ok tt ∧ test_password_auth_roundtrip = Ok tt ∧ test_pubkey_auth_roundtrip = Ok tt.
Proof. destruct profile; split_and!; vm_compute; reflexivity. Qed.

Lemma serialized {R} `{!Rng R, !RngLaws R} (rng : R) p bsz :
  bsz ≤ 16 → len (payload p) ≤ 100 →
  ∃ pad, (serialize p bsz rng).1 = Ok (frame p pad) ∧
    len pad = padding_len (Z.max bsz 8) (1 + len (payload p)) ∧ len pad ≤ 255.
Proof.
  intros Hb Hp. pose proof (len_nonneg (payload p)).
  destruct (serialize_fits p bsz rng) as [-> Hl]; [by apply fits_small; unfold MAX_PACKET_SIZE; lia|].
  eexists. split; [done|]. split; [exact Hl|]. rewrite Hl.
  pose proof (padding_len_spec (Z.max bsz 8) (1 + len (payload p)) ltac:(lia) ltac:(lia)) as [? _].
  unfold MIN_PADDING in *. lia.
Qed.

Lemma codec_tests_pass {R} `{!Rng R, !RngLaws R} (rng : R) :
  test_packet_roundtrip rng = Ok tt ∧ test_packet_alignment rng = Ok tt ∧
  test_ssh_buf_string_roundtrip = Ok tt ∧ test_ssh_buf_name_list = Ok tt ∧ test_ssh_buf_u32 = Ok tt ∧
  test_ssh_buf_mpint = Ok tt ∧ test_empty_payload_rejected = Ok tt.
Proof.
  split_and!.
  - unfold test_packet_roundtrip. destruct (serialized rng (SshPacket_new Ignore (byte_string [1; 2; 3; 4])) 8)
      as (pad & -> & _ & Hl); [lia|by vm_compute|]. cbn [unwrap mbind outcome_bind].
    rewrite <- (app_nil_r (frame _ pad)), deserialize_frame; [by vm_compute|done|].
    change (len (payload _)) with 4. unfold MAX_PACKET_SIZE. lia.
  - unfold test_packet_alignment. destruct (serialized rng (SshPacket_new Debug (replicate 13 x00)) 16)
      as (pad & -> & Hl & _); [lia|by vm_compute|]. cbn [unwrap mbind outcome_bind].
    rewrite len_frame, Hl. by vm_compute.
  - destruct profile; vm_compute; reflexivity.
  - destruct profile; vm_compute; reflexivity.
  - vm_compute; reflexivity.
  - destruct profile; vm_compute; reflexivity.
  - destruct profile; vm_compute; reflexivity.
Qed.

Lemma active_count_one `{order_impl : !MapOrder, order_laws : !MapOrderLaws} m id ch :
  channels m = {[id := ch]} → closed ch = false → active_count m = 1.
Proof.
  intros Hm Hc. unfold active_count. rewrite Hm.
  assert (map_order {[id := ch]} = [(id, ch)]) as ->.
  { symmetry. apply Permutation_singleton_l. by rewrite map_order_perm, map_to_list_singleton. }
  by rewrite filter_cons_True.
Qed.

Lemma active_count_none `{order_impl : !MapOrder, order_laws : !MapOrderLaws} m :
  channels m = ∅ → active_count m = 0.
Proof.
  intros Hm. unfold active_count. rewrite Hm.
  assert (map_order ∅ = []) as ->; [|done].
  apply Permutation_nil_r. by rewrite map_order_perm, map_to_list_empty.
Qed.

Lemma lifecycle_passes `{order_impl : !MapOrder, order_laws : !MapOrderLaws} :
  (test_channel_manager_lifecycle ChannelManager_new).1 = Ok tt.
Proof.
  unfold test_channel_manager_lifecycle.
  erewrite io_bind_run by (by apply open_channel_run). cbn [next_id channels ChannelManager_new].
  erewrite io_bind_run by reflexivity. erewrite io_bind_run by reflexivity.
  rewrite (active_count_one _ 0 (Channel_new 0 (bs "session"))) by done.
  erewrite io_bind_run by reflexivity.
  erewrite io_bind_run by (unfold confirm_channel, update_channel, get; cbn [channels]; by rewrite lookup_insert_eq).
  do 4 (erewrite io_bind_run by reflexivity).
  erewrite io_bind_run by reflexivity. do 3 (erewrite io_bind_run by reflexivity).
  erewrite io_bind_run by reflexivity. erewrite io_bind_run by reflexivity. erewrite io_bind_run by reflexivity.
  rewrite active_count_none; [done|]. done.
Qed.

Lemma window_overflow_passes : (test_window_overflow_rejected ChannelManager_new).1 = Ok tt.
Proof.
  unfold test_window_overflow_rejected.
  erewrite io_bind_run by (by apply open_channel_run). cbn [next_id channels ChannelManager_new].
  do 2 (erewrite io_bind_run by reflexivity). cbv zeta. cbn [local_window Channel_new].
  set (d := replicate _ _). assert (len d = DEFAULT_WINDOW_SIZE + 1) as Hd by by apply len_replicate.
  clearbody d. unfold receive_data, update_channel, get. cbn [channels].
  erewrite (io_bind_run _ _ _ (Err (ChannelError "Window overflow"))); [reflexivity|].
  cbn [channels]. rewrite lookup_insert_eq. cbn [local_window Channel_new]. rewrite Hd. by rewrite decide_True.
Qed.

Lemma message_tests_pass :
  test_channel_open_roundtrip = Ok tt ∧ test_channel_data_roundtrip = Ok tt ∧ test_exec_request_roundtrip = Ok tt.
Proof. destruct profile; split_and!; vm_compute; reflexivity. Qed.

(** What the tests need of AES-256 and of SHA-256 beyond their laws, on explicit bytes:
    the first key stream of the tested key is not zero, and two inputs that
    differ in one letter have different hashes.  The inputs are those RFC 4253 section
    7.2 prescribes for the test's arguments; nothing here mentions the code. *)
Definition aes_scrambles (C : Type) `{!StreamCipher C} : Prop :=
  (apply_keystream (cipher_new (replicate 32 x42) (replicate 16 x00)) (bs "Hello, SwiftSSH!")).1 ≠
  bs "Hello, SwiftSSH!".

Definition hash_input (letter : byte) : bytes :=
  [x00; x00; x00; x20] ++ replicate 32 x01 ++ replicate 32 x02 ++ [letter] ++ replicate 32 x03.

Definition sha_separates `{!Sha256} : Prop := sha256 (hash_input x41) ≠ sha256 (hash_input x42).

Lemma flip_first_differs mac : 0 < len mac → flip_first mac ≠ mac.
Proof.
  destruct mac as [|b mac]; [done|]. intros _. cbn. intros [= E]. by destruct b; vm_compute in E.
Qed.

(** The code's derivation hashes exactly those inputs. *)
Lemma derive_key_hashes `{!Sha256, !Sha256Laws} letter :
  derive_key (replicate 32 x01) (replicate 32 x02) letter (replicate 32 x03) 32 = Ok (sha256 (hash_input letter)).
Proof.
  rewrite (derive_key_stream _ _ _ _ _ 0) by lia. cbn [rfc_key_stream].
  change (encode_mpint_for_hash (replicate 32 x01)) with ([x00; x00; x00; x20] ++ replicate 32 x01).
  rewrite <- app_assoc. f_equal. apply take_ge. pose proof (sha256_len (hash_input letter)) as Hl. unfold len in Hl.
  unfold hash_input in *. lia.
Qed.

Lemma crypto_tests_pass {C} `{!StreamCipher C, !StreamCipherLaws C, hmac_impl : !Hmac, hmac_laws : !HmacLaws,
    sha_impl : !Sha256, sha_laws : !Sha256Laws} :
  aes_scrambles C → sha_separates →
  test_aes_encrypt_decrypt (C:=C) = Ok tt ∧ test_hmac_verify = Ok tt ∧
  test_derive_key_deterministic = Ok tt ∧ test_derive_key_extension = Ok tt.
Proof.
  intros Ha Hs. split_and!.
  - unfold test_aes_encrypt_decrypt. rewrite AesCipher_new_ok by by vm_compute. cbn [unwrap mbind outcome_bind].
    set (c := mkAesCipher _). pose proof (apply_twice c (bs "Hello, SwiftSSH!")) as Ht.
    assert (Hne : (Crypto.apply c (bs "Hello, SwiftSSH!")).1 ≠ bs "Hello, SwiftSSH!").
    { unfold Crypto.apply, c. cbn [cipher]. unfold aes_scrambles in Ha. by destruct apply_keystream. }
    destruct (Crypto.apply c (bs "Hello, SwiftSSH!")) as [ct c'] eqn:E. cbn [fst snd] in *.
    unfold assert_ne. rewrite bool_decide_true by done. cbn. rewrite Ht.
    unfold assert_eq. by rewrite bool_decide_true.
  - unfold test_hmac_verify.
    assert (verify_hmac (bs "test-key") (bs "test-data") (compute_hmac (bs "test-key") (bs "test-data")) = Ok tt)
      as -> by by apply verify_hmac_ok.
    rewrite verify_hmac_bad; [done|]. apply flip_first_differs. unfold compute_hmac. by rewrite hmac_len.
  - unfold test_derive_key_deterministic. rewrite !derive_key_hashes. cbn [mbind outcome_bind].
    unfold assert_eq, assert_ne. by rewrite (bool_decide_true (sha256 _ = sha256 _)), bool_decide_true.
  - unfold test_derive_key_extension.
    destruct (derive_key_len (replicate 32 x01) (replicate 32 x02) x43 (replicate 32 x03) 64) as (k & -> & Hk); [done|].
    cbn [mbind outcome_bind]. unfold assert_eq. by rewrite Hk.
Qed.

Lemma sftp_tests_pass {F H} `{!FileSystem F H} (fs : F) :
  fs_canonicalize (H:=H) fs (bs "/tmp/sftp_test_root") = None →
  fs_canonicalize (H:=H) fs (bs "/tmp/sftp_test_root/../../etc/passwd") = None →
  test_sftp_packet_roundtrip = Ok tt ∧ test_file_attrs_encode_decode = Ok tt ∧
  test_sftp_handler_path_traversal (H:=H) fs = Ok tt.
Proof.
  intros Hr Hp. split_and!; [vm_compute; reflexivity..|].
  unfold test_sftp_handler_path_traversal, resolve_path. cbv zeta. cbn [root SftpHandler_new].
  set (path := match bs "../../etc/passwd" with [] => _ | _ :: _ => _ end).
  assert (path = bs "/tmp/sftp_test_root/../../etc/passwd") as -> by (vm_compute; reflexivity).
  rewrite Hr, Hp. vm_compute. reflexivity.
Qed.

Lemma kex_tests_pass {R K} `{!Rng R, !RngLaws R, x25519_impl : !X25519 R K, x25519_laws : !X25519Laws R K,
    sha_impl : !Sha256} (rng : R) :
  test_kex_exchange (K:=K) rng = Ok tt ∧ test_kexinit_payload_not_empty rng = Ok tt.
Proof.
  split.
  - unfold test_kex_exchange. destruct (KexClient_new (K:=K) rng) as [client rng1] eqn:Ec.
    destruct (KexServer_new (K:=K) rng1) as [server rng2] eqn:Es.
    destruct (build_kexinit_payload rng2) as [ck rng3], (build_kexinit_payload rng3) as [sk rng4]. cbv zeta.
    destruct (kex_both _ _ _ _ client server (bs "SSH-2.0-SwiftSSH_client") (bs "SSH-2.0-SwiftSSH_server") ck sk
      (bs "fake-host-key") Ec Es) as (result & -> & ->).
    cbn [fst unwrap mbind outcome_bind]. unfold assert_eq. by rewrite !bool_decide_true.
  - unfold test_kexinit_payload_not_empty. rewrite bool_decide_true; [done|].
    unfold build_kexinit_payload. pose proof (fill_bytes_len 16 rng ltac:(lia)) as Hl.
    destruct (fill_bytes 16 rng) as [c r']. cbn [fst] in *. autorewrite with wire. len_lia.
Qed.
End pass.

(** C39.  The model passes the repository's own tests: all 24 of them, for every cipher, MAC,
    hash, key exchange and generator that satisfies its laws and of which three more
    facts hold, every hash-map order, debug and release builds.  The facts, none of
    which follows from the laws: the cipher does not leave the tested plaintext as it
    is, the hash differs on two inputs that differ in one letter, and the two paths of
    the traversal test do not exist. *)
Theorem unit_tests_pass {C R K F H} `{!StreamCipher C, !StreamCipherLaws C, hmac_impl : !Hmac,
    hmac_laws : !HmacLaws, rng_impl : !Rng R, rng_laws : !RngLaws R, x25519_impl : !X25519 R K,
    x25519_laws : !X25519Laws R K, sha_impl : !Sha256, sha_laws : !Sha256Laws, fs_impl : !FileSystem F H,
    order_impl : !MapOrder, order_laws : !MapOrderLaws} `{profile : !BuildProfile} (rng : R) (fs : F) :
  aes_scrambles C → sha_separates →
  fs_canonicalize (H:=H) fs (bs "/tmp/sftp_test_root") = None →
  fs_canonicalize (H:=H) fs (bs "/tmp/sftp_test_root/../../etc/passwd") = None →
  Forall (λ test, test = Ok tt)
    [test_user_database; test_password_auth_roundtrip; test_pubkey_auth_roundtrip;
     test_packet_roundtrip rng; test_packet_alignment rng; test_ssh_buf_string_roundtrip;
     test_ssh_buf_name_list; test_ssh_buf_u32; test_ssh_buf_mpint; test_empty_payload_rejected;
     (test_channel_manager_lifecycle ChannelManager_new).1;
     (test_window_overflow_rejected ChannelManager_new).1;
     test_channel_open_roundtrip; test_channel_data_roundtrip; test_exec_request_roundtrip;
     test_aes_encrypt_decrypt (C:=C); test_hmac_verify; test_derive_key_deterministic;
     test_derive_key_extension; test_sftp_packet_roundtrip; test_file_attrs_encode_decode;
     test_sftp_handler_path_traversal (H:=H) fs; test_kex_exchange (K:=K) rng;
     test_kexinit_payload_not_empty rng].
Proof.
  intros Ha Hs Hr Hp. destruct auth_tests_pass as (? & ? & ?), (codec_tests_pass rng) as (? & ? & ? & ? & ? & ? & ?),
    message_tests_pass as (? & ? & ?), (crypto_tests_pass Ha Hs) as (? & ? & ? & ?),
    (sftp_tests_pass fs Hr Hp) as (? & ? & ?), (kex_tests_pass (K:=K) rng) as [? ?].
  pose proof lifecycle_passes. pose proof window_overflow_passes. repeat (apply Forall_cons; split; [assumption|]). by apply Forall_nil.
Qed.

Lemma unit_tests_pass_witness :
  aes_scrambles (Z * Z) ∧
  Forall (λ test, test = Ok tt)
    [test_user_database; test_password_auth_roundtrip (profile:=false); test_pubkey_auth_roundtrip (profile:=false);
     test_packet_roundtrip (profile:=false) 5; test_packet_alignment 5;
     test_ssh_buf_string_roundtrip (profile:=false); test_ssh_buf_name_list (profile:=false); test_ssh_buf_u32;
     test_ssh_buf_mpint (profile:=false); test_empty_payload_rejected (profile:=false);
     (test_channel_manager_lifecycle (profile:=false) ChannelManager_new).1;
     (test_window_overflow_rejected (profile:=false) ChannelManager_new).1;
     test_channel_open_roundtrip (profile:=false); test_channel_data_roundtrip (profile:=false);
     test_exec_request_roundtrip (profile:=false);
     test_aes_encrypt_decrypt (C:=Z * Z); test_hmac_verify; test_derive_key_deterministic;
     test_derive_key_extension; test_sftp_packet_roundtrip; test_file_attrs_encode_decode;
     test_sftp_handler_path_traversal (H:=mem_handle) (∅ : mem_fs); test_kex_exchange (K:=N) 5;
     test_kexinit_payload_not_empty 5].
Proof.
  assert (Ha : aes_scrambles (Z * Z)) by (intros E; vm_compute in E; discriminate). split; [exact Ha|].
  apply (unit_tests_pass (C:=Z * Z) (K:=N) (H:=mem_handle) (profile:=false) 5 (∅ : mem_fs)); [exact Ha|..].
  - unfold sha_separates. by_eval.
  - vm_compute. reflexivity.
  - vm_compute. reflexivity.
Defined.
